(* ===== verification/_CoqProject ===== *)
-Q . S2P
Prelude.v
Errors.v
Descriptor.v
Reader.v
Manifest.v
Storage.v
Proxy.v
Graph.v
Resolver.v
MemoryStore.v
Sched.v
SchedSafety.v
SchedCorrect.v
SchedLiveness.v
Copy.v
CopyCorrect.v
CopyExample.v
ExtendedCopy.v
ExtendedCopyCorrect.v
GoStrings.v
Reference.v
Referrers.v
Scope.v
ScopeCorrect.v
Http.v
Challenge.v
Remote.v
RemoteCorrect.v
RemoteReferrers.v
RemoteRequests.v
RemoteTarget.v
RemoteCopy.v
RemoteBlobs.v
Listing.v
OciStorage.v
OciStore.v
OciStoreCorrect.v
OciReopen.v
OciExample.v
Platform.v
Content.v
ContentCorrect.v
Pack.v
PackExample.v
Merge.v
MergeCorrect.v
ReferrersMerge.v
Once.v
Base64.v
ChallengeCorrect.v
HttpClient.v
AuthCache.v
AuthClient.v
AuthCorrect.v
AuthExample.v
RemoteAuth.v
Retry.v
RetryCorrect.v
Seek.v
FilePath.v
TarFS.v
Vfs.v
VfsFacts.v
FileExtract.v
ExtractSafe.v
FileStore.v
FileStoreCorrect.v
FileExample.v
CredConfig.v
CredConfigCorrect.v
Credentials.v
CredentialsCorrect.v
CredentialsExample.v
