(* ===== verification/Prelude.v ===== *)
(** * Verification of oras-go

    A model and proofs for oras-go v2, the Go library that copies, tags, packs and
    stores OCI artifacts (the sources are under [environment/] of the repository).
    Artifacts are directed acyclic graphs of content-addressed nodes: blobs are
    leaves, manifests and indexes list their successors.

    ** Parts of the program and where they are modelled

    - Values: errors ([errdef], [copyerror.go]) in [Errors], with the state-and-
      error monad [M] of calls that change state and its variant [MB] for calls that
      may block forever; descriptors and digests
      ([content/descriptor.go], [internal/descriptor]) in [Descriptor]; strings
      and regular expressions of Go in [GoStrings].
    - Reading: streams with arbitrary chunking, [content.VerifyReader] and
      [content.ReadAll] in [Reader]; [content.Successors] and [manifestutil] in
      [Manifest].
    - Storages: the interface [content.Storage] as the class [Storage] with its
      laws [StorageLaws], the in-memory CAS and [LimitedStorage] as instances in
      [Storage]; the caching proxy of [internal/cas/proxy.go] in [Proxy], whose reads
      block on data after the content, as the tee into the pipe does; the
      predecessor index of [internal/graph] in [Graph]; the tag resolver of
      [internal/resolver] in [Resolver]; [content/memory] in [MemoryStore].
    - Copying: the goroutines of [copyGraph] under [syncutil.Go], as a step
      relation over all schedules, in [Sched], with [SchedSafety], [SchedCorrect]
      and [SchedLiveness]; the whole of [copy.go] as state-passing functions in
      the schedule in which a started goroutine runs at once, in [Copy], with
      [CopyCorrect] and [CopyExample]; [extendedcopy.go] and [copyutil] in
      [ExtendedCopy] and [ExtendedCopyCorrect].  Destinations are instances of the
      classes [Target], [DestLaws] and [TargetLaws]: the in-memory store in
      [CopyExample] and a remote repository in [RemoteTarget] and [RemoteCopy].
    - Operations by reference: [internal/platform] in [Platform]; [content.go] in
      [Content] and [ContentCorrect]; [pack.go] in [Pack] and [PackExample].
    - Registries: [registry/reference.go] in [Reference]; the edits of a referrers
      index ([remote/referrers.go]) in [Referrers]; URLs, headers, limits and
      errors of the HTTP client code ([remote/url.go], [utils.go], [manifest.go],
      [errutil]) in [Http]; [remote/repository.go] and [remote/registry.go] in
      [Remote], with [RemoteCorrect], [RemoteReferrers], [RemoteBlobs] and, on the
      requests every operation makes, [RemoteRequests]; the repository as the
      destination of a copy in [RemoteTarget] and [RemoteCopy]; the merging of
      concurrent index updates ([internal/syncutil/merge.go]) in [Merge] and
      [MergeCorrect], and the updates that use it in [ReferrersMerge]; [registry.Tags] and [registry.Repositories] and the error
      texts of [errcode] in [Listing]; seekable responses ([internal/httputil])
      in [Seek].
    - Authentication: scope hints ([auth/scope.go]) in [Scope] and [ScopeCorrect];
      challenges ([auth/challenge.go]) and warning headers ([remote/warning.go]) in
      [Challenge] and [ChallengeCorrect]; base64 in [Base64]; requests with
      [GetBody] and all header values in [HttpClient]; the token caches as
      instances of the class [Cache] with [CacheLaws] in [AuthCache];
      [auth/client.go] in [AuthClient], with [AuthCorrect] and [AuthExample]; a
      repository whose client is the auth client in [RemoteAuth]; the
      retrying transport ([remote/retry]) in [Retry] and [RetryCorrect].
    - Credentials: the configuration file
      ([credentials/internal/config], [internal/ioutil]) over the file system
      interface [OsFiles] in [CredConfig] and [CredConfigCorrect]; the stores,
      [Login] and [Logout], helpers and their traces in [Credentials], with
      [CredentialsCorrect] and [CredentialsExample].
    - OCI image layouts: [content/oci/storage.go] and [internal/ioutil] over a map
      of files in [OciStorage]; [content/oci/oci.go] and [readonlyoci.go] in
      [OciStore], with [OciStoreCorrect], [OciReopen] and [OciExample].
    - Files: [path/filepath] in [FilePath]; a POSIX file system of inodes with
      symbolic and hard links, permission bits and the times that were set in [Vfs] and [VfsFacts]; packing and unpacking of
      directories ([content/file/utils.go]) in [FileExtract] and [ExtractSafe];
      [content/file/file.go] in [FileStore], with [FileStoreCorrect] and
      [FileExample]; the tar file system ([internal/fs/tarfs]) in [TarFS].
    - Synchronization: [Once], [OnceOrRetry] and [Pool] of [internal/syncutil], and
      [internal/container/set], in [Once].

    Each source struct is a [Record], each method one definition over it, with the
    guards and early returns of the code; a call that can fail returns a [result],
    one that also changes state is an [M], one that may never return an [MB], with
    [None] for that.  Code outside the repository is a parameter: digests of any
    algorithm ([GoDigest] with [GoDigestLaws]; the instance of the examples has two), JSON codecs
    ([ManifestJSON], [LayoutJSON], [PlatformJSON], [RegistryJSON], [TokenJSON],
    [ConfigJSON] with [ConfigJSONLaws], [DockerJSON]), the HTTP transport ([Client]
    with [RegistryLaws], [BlobLaws] and [RepositoryLaws], [HttpClient], [Transport]), URLs ([NetURL], [QueryURL]),
    quoted strings ([GoQuote]), archives ([Archive], [TarFormat]), helper programs
    ([Executables]), the clock ([Time]), random draws and powers ([Rand],
    [GoFloat]) and the iteration order of Go maps ([MapOrder], any permutation).
    Every property with such hypotheses has a witness with a concrete instance.

    ** What the theorems show

    - Copying: a successful [Copy] or [ExtendedCopy] stores every node reachable
      from the root (or from the roots of its ancestors) through nodes that the
      destination did not have, which is all of the graph when the destination had the
      successors of what it held, and makes the reference resolve to the root, also
      when the destination is a repository of a registry, whatever is mounted; in
      every schedule, with failures and cancellation, a destination that was closed
      under successors stays so, no node is copied twice, the limit is kept, and the
      traversal neither deadlocks nor runs forever.  [Copy_skips_existing_root] shows
      that a partially populated destination is not completed,
      [Copy_blocks_on_trailing_data] that over-long manifests block the copy; two
      theorems show what [syncutil.Go] does not guarantee.
    - Reading and storing: [ReadAll] accepts exactly the content of a descriptor
      and equals a reference definition; pushes and fetches are inverse; the
      predecessor index keeps its three maps consistent.
    - Content operations: fetched bytes are bounded and verified; tagging with
      several references tags all of them in any order of the goroutines; platform
      selection returns the first match; packing stores the manifest asked for.
    - Registries: the grammar and round trip of references; digest pinning against
      any server; stability of the referrers capability; a pushed referrer is
      listed; concurrent updates of a referrers index lose nothing; a pushed blob is
      read back; every request carries the scope hints it needs; [Merge] handles
      every item in exactly one batch; scopes have a canonical form.
    - OCI layouts: pushes change one blob or none (and leave a temporary file when
      the content does not match); deleting and garbage collection keep what is
      referenced; a saved layout opens again as it was; when garbage collection
      does not end.
    - Responses: a response that can seek refines a seekable byte string, over a
      server that reads the [Range] header by the grammar of HTTP.
    - Authentication: whatever the servers answer, over an HTTP client that follows no
      redirect to another host, the secrets of a host reach only that host and the
      token server it names, also through the operations of a repository other than
      blob uploads, whose second request takes the credential to the host of the
      [Location] header; with such redirects they do not stay there
      ([auth_redirect_leaks]); a call sends a bounded number of requests and closes
      exactly the responses that it does not return; a call succeeds against servers that follow the
      protocol; challenges of the grammar are read back.  Retries end, wait within
      their bounds and never resend a body that was read.
    - Credentials: what is put is loaded back and everything else is kept; nothing is
      written in plain text unless it is allowed; a credential of a login is found by
      the host of the registry.  Three theorems show where the code falls short.
    - Files: unpacking changes no content outside its directory for archives without
      hard links; what is pushed is fetched back; names are stored once.  Three
      theorems show how archives escape: through hard links, through the times and
      permission bits of a directory behind a link, and through links to links.
    - Synchronization: [Once] runs one action in every interleaving.

    ** Fuel and bounds

    Recursion that the code bounds by the data takes a fuel argument, and a theorem
    gives an amount that is enough: the height of the graph for [copy_fn]
    ([Copy_returns]), one unit per key and edge for [IndexAll], [findRoots] and the
    loading of a layout, one per file for [Delete].  [copyGraph_terminates] bounds
    the steps of every schedule.  [GC] and the paging loops of the remote client
    have no such amount in general, since the code has no bound either
    ([oci_GC_diverges]).  The challenge parser takes the length of the header,
    unpacking the length of the archive, the walk of a path forty links (as the
    operating system does), the index of a tar file its length, and [RoundTrip]
    [1 + MaxRetry] attempts; each is proved to be enough.  Sizes are [Z]; [int64]
    limits, overflow of durations and offsets, IEEE doubles and Go's largest
    allocation are written out where the code depends on them.

    ** Not modelled

    Failures of the file system other than those its model produces; the times that
    the clock gives to files; helper defaults of platforms other than Linux; the closing of response
    bodies by the repository; the way [net/http] follows redirects (a response tells
    the request that it answers, which may be one to another host) and cookies;
    concurrent calls on one credential store, token cache or file store, whose
    operations are taken one after the other ([Once] covers the sharing of a fetch);
    the state that the client of a repository keeps between its reads, when the
    repository is the destination of a copy ([RemoteTarget]);
    locks whose critical section is a whole operation, which is then one step;
    cancellation of the caller's context outside [Sched], [Once] and the waits of
    [Retry]; the text of error messages beyond a tag, except in [errcode]. *)

From Stdlib Require Import Ascii String ZArith Lia Strings.Byte.
From stdpp Require Export base decidable countable gmap sets list strings option.

Declare Scope go_scope.
Delimit Scope go_scope with go.

(** ** Outcomes of a Go call

    A Go function that returns [(T, error)] either returns a value, returns a
    non-nil error or panics. *)
Inductive outcome (E A : Type) : Type :=
| Ok (a : A)
| Err (e : E)
| Panic.

Arguments Ok {E A} a.
Arguments Err {E A} e.
Arguments Panic {E A}.

#[export] Instance outcome_ret E : MRet (outcome E) := fun A a => Ok a.
#[export] Instance outcome_bind E : MBind (outcome E) := fun A B f m =>
  match m with
  | Ok a => f a
  | Err e => Err e
  | Panic => Panic
  end.
#[export] Instance outcome_fmap E : FMap (outcome E) := fun A B f m =>
  match m with
  | Ok a => Ok (f a)
  | Err e => Err e
  | Panic => Panic
  end.

#[export] Instance outcome_eq_dec E A `{EqDecision E, EqDecision A} :
  EqDecision (outcome E A).
Proof. solve_decision. Defined.

Definition is_ok {E A} (m : outcome E A) : bool :=
  match m with Ok _ => true | _ => false end.

(** [fmt.Errorf("...: %w", err)] applied to the error of an outcome. *)
Definition map_err {E A} (f : E -> E) (m : outcome E A) : outcome E A :=
  match m with
  | Ok a => Ok a
  | Err e => Err (f e)
  | Panic => Panic
  end.

Create HintDb go.
#[export] Hint Constants Transparent : go.

Lemma bind_Ok {E A B} (f : A -> outcome E B) (m : outcome E A) b :
  mbind f m = Ok b <-> exists a, m = Ok a /\ f a = Ok b.
Proof. destruct m; simpl; naive_solver. Qed.

Lemma bind_Err {E A B} (f : A -> outcome E B) (m : outcome E A) e :
  mbind f m = Err e <-> m = Err e \/ exists a, m = Ok a /\ f a = Err e.
Proof. destruct m; simpl; naive_solver. Qed.

Lemma map_err_Ok {E A} (f : E -> E) (m : outcome E A) a :
  map_err f m = Ok a <-> m = Ok a.
Proof. destruct m; simpl; naive_solver. Qed.

(** Split every hypothesis that says a chain of binds succeeded. *)
Ltac inv_ok :=
  repeat match goal with
  | H : mbind _ _ = Ok _ |- _ =>
      let a := fresh "a" in let Ha := fresh "Ha" in
      apply bind_Ok in H as (a & Ha & H)
  | H : map_err _ _ = Ok _ |- _ => apply map_err_Ok in H
  | H : Ok _ = Ok _ |- _ => injection H as H
  | H : Err _ = Ok _ |- _ => discriminate H
  | H : Panic = Ok _ |- _ => discriminate H
  | H : Ok _ = Err _ |- _ => discriminate H
  | H : Panic = Err _ |- _ => discriminate H
  | H : mret _ = Ok _ |- _ => injection H as H
  end.

(** Case on the scrutinee of the leftmost match or if in a hypothesis. *)
Ltac case_in H :=
  match type of H with
  | context [match ?x with _ => _ end] => destruct x eqn:?
  end.

(** ** Machine integers *)

(** [int64] values are kept as [Z]; this is their range. *)
Definition int64_min : Z := (- 2 ^ 63)%Z.
Definition int64_max : Z := (2 ^ 63 - 1)%Z.
Definition is_int64 (z : Z) : bool := (int64_min <=? z)%Z && (z <=? int64_max)%Z.

(** ** Bytes *)

Notation bytes := (list Byte.byte).

#[export] Instance byte_eq_dec : EqDecision Byte.byte := Byte.byte_eq_dec.

#[export] Instance byte_countable : Countable Byte.byte.
Proof.
  refine (inj_countable' Byte.to_N (fun n => default Byte.x00 (Byte.of_N n)) _).
  intros b. by rewrite Byte.of_to_N.
Defined.

Definition str_bytes (s : string) : bytes := list_byte_of_string s.
Definition Zlen {A} (l : list A) : Z := Z.of_nat (length l).

(** ** Slices compacted in place

    The source filters slices in place with a read index [i] and a write index
    [j] into the same backing array:
    [for i, x := range s { if keep(x) { if i != j { s[j] = x }; j++ } }; s[:j]].
    [inplace_loop] runs that loop on the array itself: the element of each
    iteration is read from the array as mutated so far. *)
Fixpoint inplace_loop {A} (keep : A -> bool) (n i j : nat) (s : list A) : list A :=
  match n with
  | O => take j s
  | S n' =>
      match s !! i with
      | None => take j s
      | Some x =>
          if keep x
          then inplace_loop keep n' (S i) (S j) (if decide (i = j) then s else <[j:=x]> s)
          else inplace_loop keep n' (S i) j s
      end
  end.

Definition inplace_filter {A} (keep : A -> bool) (s : list A) : list A :=
  inplace_loop keep (length s) 0 0 s.

Lemma take_insert_S {A} (s : list A) j x :
  j < length s -> take (S j) (<[j:=x]> s) = take j s ++ [x].
Proof.
  intros Hj. rewrite (take_S_r _ _ x).
  - by rewrite take_insert_ge by lia.
  - by rewrite list_lookup_insert_eq.
Qed.

Lemma inplace_loop_spec {A} (keep : A -> bool) n i j (s : list A) :
  j <= i -> n = length s - i -> i <= length s ->
  inplace_loop keep n i j s
  = take j s ++ List.filter keep (drop i s).
Proof.
  revert i j s. induction n as [|n IH]; intros i j s Hji Hn Hi; simpl.
  - rewrite drop_ge by lia. by rewrite app_nil_r.
  - destruct (s !! i) as [x|] eqn:Hx; [|apply lookup_ge_None in Hx; lia].
    rewrite (drop_S s x i Hx). simpl. destruct (keep x) eqn:Hk.
    + case_decide as Hij; subst.
      * rewrite IH by lia. by rewrite (take_S_r _ _ _ Hx), <- app_assoc.
      * rewrite IH by (rewrite ?length_insert; lia).
        rewrite take_insert_S by lia.
        rewrite drop_insert_lt by lia. by rewrite <- app_assoc.
    + by rewrite IH by lia.
Qed.

Lemma inplace_filter_spec {A} (keep : A -> bool) (s : list A) :
  inplace_filter keep s = List.filter keep s.
Proof.
  unfold inplace_filter. rewrite inplace_loop_spec by lia.
  by rewrite take_0, drop_0.
Qed.

#[export] Hint Rewrite @inplace_filter_spec : go.

(** Replacing one element changes a count by that element only. *)
Lemma length_filter_insert {A} (f : A -> bool) (l : list A) i x y :
  l !! i = Some x ->
  length (List.filter f (<[i := y]> l)) + Nat.b2n (f x) = length (List.filter f l) + Nat.b2n (f y).
Proof.
  revert i. induction l as [|z l IH]; intros [|i] Hi; simplify_eq/=.
  - destruct (f x), (f y); simpl; lia.
  - specialize (IH i Hi). destruct (f z); simpl; lia.
Qed.

Lemma forallb_false {A} (f : A -> bool) (l : list A) :
  forallb f l = false -> exists i x, l !! i = Some x /\ f x = false.
Proof.
  induction l as [|x l IH]; simpl; [done|]. destruct (f x) eqn:Hx; simpl.
  - intros (i & y & ? & ?)%IH. by exists (S i), y.
  - intros _. by exists 0, x.
Qed.

(** Sums over lists, for the termination measures. *)
Fixpoint sum_of {A} (f : A -> nat) (l : list A) : nat :=
  match l with [] => 0 | x :: l' => f x + sum_of f l' end.

Lemma sum_of_app {A} (f : A -> nat) l1 l2 : sum_of f (l1 ++ l2) = sum_of f l1 + sum_of f l2.
Proof. induction l1 as [|x l1 IH]; simpl; [done|]. rewrite IH. lia. Qed.

Lemma sum_of_insert {A} (f : A -> nat) (l : list A) i x y :
  l !! i = Some x -> sum_of f (<[i := y]> l) + f x = sum_of f l + f y.
Proof.
  revert i. induction l as [|z l IH]; intros [|i] Hi; simplify_eq/=; [lia|].
  specialize (IH i Hi). lia.
Qed.

Lemma sum_of_filter_le {A} (f : A -> nat) (p q : A -> bool) (l : list A) :
  (forall x, q x = true -> p x = true) -> sum_of f (List.filter q l) <= sum_of f (List.filter p l).
Proof.
  intros Hqp. induction l as [|x l IH]; [done|]. cbn [List.filter].
  destruct (q x) eqn:Hq; [rewrite (Hqp x Hq)|destruct (p x)]; cbn [sum_of]; lia.
Qed.

Lemma sum_of_filter_remove {A} (f : A -> nat) (p q : A -> bool) (l : list A) k :
  (forall x, q x = true -> p x = true) -> k ∈ l -> p k = true -> q k = false ->
  sum_of f (List.filter q l) + f k <= sum_of f (List.filter p l).
Proof.
  intros Hqp Hin Hp Hq. induction l as [|x l IH]; [by apply elem_of_nil in Hin|].
  pose proof (sum_of_filter_le f p q l Hqp) as Hle. cbn [List.filter].
  apply elem_of_cons in Hin as [<-|Hin]; [rewrite Hp, Hq; cbn [sum_of]; lia|].
  specialize (IH Hin). destruct (q x) eqn:Hqx; [rewrite (Hqp x Hqx)|destruct (p x)]; cbn [sum_of]; lia.
Qed.

(** ** Iteration order of Go maps

    [range] over a map visits every entry once in an unspecified order.  Every
    loop over a map takes its order from this class: any enumeration that is a
    permutation of the elements. *)
Class MapOrder := {
  range_set : forall {K : Type} `{Countable K}, gset K -> list K;
  range_map : forall {K V : Type} `{Countable K}, gmap K V -> list (K * V);
  range_set_perm : forall {K : Type} `{Countable K} (s : gset K),
    range_set s ≡ₚ elements s;
  range_map_perm : forall {K V : Type} `{Countable K} (m : gmap K V),
    range_map m ≡ₚ map_to_list m
}.

(** The enumeration used by the executable examples. *)
Definition canonical_order : MapOrder := {|
  range_set _ _ _ s := elements s;
  range_map _ _ _ _ m := map_to_list m;
  range_set_perm _ _ _ s := reflexivity _;
  range_map_perm _ _ _ _ m := reflexivity _
|}.

Section range_lemmas.
Context `{MapOrder}.

Lemma elem_of_range_set {K} `{Countable K} (s : gset K) x :
  x ∈ range_set s <-> x ∈ s.
Proof. by rewrite range_set_perm, elem_of_elements. Qed.

Lemma NoDup_range_set {K} `{Countable K} (s : gset K) : NoDup (range_set s).
Proof. rewrite range_set_perm. apply NoDup_elements. Qed.

Lemma elem_of_range_map {K V} `{Countable K} (m : gmap K V) k v :
  (k, v) ∈ range_map m <-> m !! k = Some v.
Proof. rewrite range_map_perm. apply elem_of_map_to_list. Qed.

Lemma length_range_set {K} `{Countable K} (s : gset K) :
  length (range_set s) = size s.
Proof. by rewrite range_set_perm. Qed.

End range_lemmas.
