(* ===== verification/Errors.v ===== *)
(** Error values: [errdef/errors.go], [copyerror.go] and the sentinel errors the
    other packages declare.  A Go error is a chain of wrappers ending in a
    sentinel or in an opaque error; [errors.Is] walks that chain. *)

From S2P Require Import Prelude.

(** Errors compared by identity.  The first ten are [errdef]'s; the rest are
    declared by the packages named, or by the Go packages [io], [io/fs] and
    [context]. *)
Inductive sentinel :=
(* errdef *)
| ErrAlreadyExists | ErrInvalidDigest | ErrInvalidReference | ErrInvalidMediaType
| ErrMissingReference | ErrNotFound | ErrSizeExceedsLimit | ErrTooManyPages
| ErrUnsupported | ErrUnsupportedVersion
(* content/reader.go *)
| ErrInvalidDescriptorSize | ErrMismatchedDigest | ErrTrailingData | errEarlyVerify
(* copy.go *)
| SkipNode | skipSource
(* pack.go *)
| ErrInvalidDateTimeFormat | ErrMissingArtifactType
(* registry/remote *)
| errNoReferrerUpdate | errNoLink | ErrReferrersCapabilityAlreadySet
| errUnexpectedWarningFormat
(* content/file/errors.go *)
| ErrMissingName | ErrDuplicateName | ErrPathTraversalDisallowed | ErrOverwriteDisallowed
| ErrStoreClosed | errSkipUnnamed
(* registry/remote/auth, registry/remote/credentials *)
| ErrBasicCredentialNotFound | ErrInvalidConfigFormat | ErrPlaintextPutDisabled
| ErrBadCredentialFormat | ErrClientTypeUnsupported
(* io, io/fs, context *)
| EOF | ErrUnexpectedEOF | fsErrNotExist | fsErrExist | Canceled | DeadlineExceeded.

#[export] Instance sentinel_eq_dec : EqDecision sentinel.
Proof. solve_decision. Defined.

(** [CopyErrorOrigin] is a Go [int]. *)
Notation CopyErrorOrigin := Z (only parsing).
Definition CopyErrorOriginSource : CopyErrorOrigin := 1%Z.
Definition CopyErrorOriginDestination : CopyErrorOrigin := 2%Z.

Definition CopyErrorOrigin_String (o : CopyErrorOrigin) : string :=
  if decide (o = CopyErrorOriginSource) then "source"
  else if decide (o = CopyErrorOriginDestination) then "destination"
  else "unknown".

(** A non-nil error value. *)
Inductive error :=
| ESentinel (s : sentinel)
| ENew (msg : string)                        (* errors.New, errors of other code *)
| EWrap (msg : string) (e : error)           (* fmt.Errorf with %w *)
| ECopy (Op : string) (Origin : CopyErrorOrigin) (e : error)   (* *CopyError *)
| EResponse (StatusCode : Z) (codes : list string)             (* *errcode.ErrorResponse *)
| EReferrers (Op : string) (Subject : string) (e : error).     (* *remote.ReferrersError, its subject by digest *)

Coercion ESentinel : sentinel >-> error.

#[export] Instance error_eq_dec : EqDecision error.
Proof. solve_decision. Defined.

Notation result := (outcome error).
Notation ErrS s := (Err (ESentinel s)).

(** [errors.Unwrap]: the [Unwrap] methods of [fmt.Errorf]'s wrapper, of
    [*CopyError] and of [*ReferrersError], which skips the error it holds.  The
    registry errors inside an [*errcode.ErrorResponse] are kept as their codes. *)
Fixpoint Unwrap (e : error) : option error :=
  match e with
  | EWrap _ e' | ECopy _ _ e' => Some e'
  | EReferrers _ _ e' => Unwrap e'
  | ESentinel _ | ENew _ | EResponse _ _ => None
  end.

(** [errors.Is(err, target)] for a sentinel target. *)
Fixpoint errors_Is (e : error) (s : sentinel) : bool :=
  match e with
  | ESentinel s' => bool_decide (s' = s)
  | ENew _ | EResponse _ _ => false
  | EWrap _ e' | ECopy _ _ e' => errors_Is e' s
  | EReferrers _ _ e' => match e' with ESentinel _ => false | _ => errors_Is e' s end
  end.

(** [newCopyError]; a nil error stays nil. *)
Definition newCopyError (op : string) (origin : CopyErrorOrigin)
    (err : option error) : option error :=
  match err with
  | None => None
  | Some e => Some (ECopy op origin e)
  end.

(** [newCopyError] applied to the error of a call. *)
Definition copy_err {A} (op : string) (origin : CopyErrorOrigin) (m : result A) : result A :=
  map_err (ECopy op origin) m.

(** The error of a Go call whose only result is an [error]. *)
Definition of_err (o : option error) : result unit :=
  match o with None => Ok tt | Some e => Err e end.

Lemma errors_Is_Unwrap e s :
  errors_Is e s =
    match Unwrap e with
    | Some e' => errors_Is e' s
    | None => bool_decide (e = ESentinel s)
    end.
Proof.
  induction e as [| | | | |op d e IH]; simpl; repeat case_bool_decide; try naive_solver.
  by destruct e.
Qed.

(** [newCopyError] is transparent to [errors.Is]. *)
Lemma errors_Is_newCopyError op o err s :
  match newCopyError op o err, err with
  | Some e', Some e => errors_Is e' s = errors_Is e s
  | None, None => True
  | _, _ => False
  end.
Proof. by destruct err. Qed.

(** ** Calls that change state

    A Go call that may fail and mutates a state [W] the caller can see: the
    mutations made before a failure stay. *)
Definition M (W A : Type) : Type := W -> result A * W.

#[export] Instance M_ret W : MRet (M W) := fun A a w => (Ok a, w).
#[export] Instance M_bind W : MBind (M W) := fun A B f m w =>
  match m w with
  | (Ok a, w') => f a w'
  | (Err e, w') => (Err e, w')
  | (Panic, w') => (Panic, w')
  end.

(** A call that only reads the state. *)
Definition reads {W A} (f : W -> result A) : M W A := fun w => (f w, w).
Definition fails {W A} (e : error) : M W A := fun w => (Err e, w).

(** [if err := m; err != nil { return f(err) }]. *)
Definition on_err {W A} (f : error -> error) (m : M W A) : M W A :=
  fun w => let '(r, w') := m w in (map_err f r, w').

(** [if err := m; err != nil && !errors.Is(err, errdef.ErrAlreadyExists) { return f(err) }]. *)
Definition unless_exists {W} (f : error -> error) (m : M W unit) : M W unit :=
  fun w =>
    let '(r, w') := m w in
    (match r with
     | Err e => if errors_Is e ErrAlreadyExists then Ok tt else Err (f e)
     | r => r
     end, w').

(** A call through a part of the state. *)
Definition on_part {W P A} (get : W -> P) (put : P -> W -> W) (m : M P A) : M W A :=
  fun w => let '(r, p') := m (get w) in (r, put p' w).

(** An optional callback: [if opts.F != nil { ... }]. *)
Definition if_set {W A} (h : option (A -> M W unit)) (a : A) : M W unit :=
  match h with Some f => f a | None => mret tt end.

(** A call that may never return: [None] when it blocks for good. *)
Definition MB (W A : Type) : Type := W -> option (result A * W).

#[export] Instance MB_ret W : MRet (MB W) := fun A a w => Some (Ok a, w).
#[export] Instance MB_bind W : MBind (MB W) := fun A B f m w =>
  match m w with
  | Some (Ok a, w') => f a w'
  | Some (Err e, w') => Some (Err e, w')
  | Some (Panic, w') => Some (Panic, w')
  | None => None
  end.

(** A call that always returns. *)
Definition returns {W A} (m : M W A) : MB W A := fun w => Some (m w).

(** [on_err] and [on_part] of a call that may block. *)
Definition on_err_b {W A} (f : error -> error) (m : MB W A) : MB W A :=
  fun w => '(r, w') ← m w; Some (map_err f r, w').
Definition on_part_b {W P A} (get : W -> P) (put : P -> W -> W) (m : MB P A) : MB W A :=
  fun w => '(r, p') ← m (get w); Some (r, put p' w).

(** A call that succeeded leaves what follows it. *)
Lemma bind_run {W A B} (m : M W A) (f : A -> M W B) w a w1 : m w = (Ok a, w1) -> (m ≫= f) w = f a w1.
Proof. intros Hm. unfold mbind, M_bind. by rewrite Hm. Qed.

Lemma M_bind_Ok {W A B} (f : A -> M W B) (m : M W A) w b w' :
  mbind f m w = (Ok b, w') <-> exists a w1, m w = (Ok a, w1) /\ f a w1 = (Ok b, w').
Proof.
  unfold mbind, M_bind. destruct (m w) as [[a|e|] w1]; [naive_solver| |];
    (split; [done|intros (? & ? & ? & ?); congruence]).
Qed.

Lemma M_bind_Err {W A B} (f : A -> M W B) (m : M W A) w e w' :
  mbind f m w = (Err e, w') <->
  m w = (Err e, w') \/ exists a w1, m w = (Ok a, w1) /\ f a w1 = (Err e, w').
Proof.
  unfold mbind, M_bind. destruct (m w) as [[a|e1|] w1]; split; try naive_solver congruence.
Qed.

Lemma MB_bind_Some {W A B} (f : A -> MB W B) (m : MB W A) w r w' :
  mbind f m w = Some (r, w') <->
  (exists a w1, m w = Some (Ok a, w1) /\ f a w1 = Some (r, w'))
  \/ (exists e, m w = Some (Err e, w') /\ r = Err e) \/ (m w = Some (Panic, w') /\ r = Panic).
Proof.
  unfold mbind, MB_bind. destruct (m w) as [[[a|e|] w1]|]; split; try naive_solver congruence.
Qed.

Lemma MB_bind_Ok {W A B} (f : A -> MB W B) (m : MB W A) w b w' :
  mbind f m w = Some (Ok b, w') <->
  exists a w1, m w = Some (Ok a, w1) /\ f a w1 = Some (Ok b, w').
Proof. rewrite MB_bind_Some. naive_solver congruence. Qed.

Lemma on_err_Ok {W A} f (m : M W A) w a w' : on_err f m w = (Ok a, w') <-> m w = (Ok a, w').
Proof. unfold on_err. destruct (m w) as [[]]; simpl; naive_solver congruence. Qed.

(** The results that [unless_exists] takes for success. *)
Definition ok_or_exists (r : result unit) : Prop :=
  match r with Ok _ => True | Err e => errors_Is e ErrAlreadyExists = true | Panic => False end.

Lemma unless_exists_Ok {W} f (m : M W unit) w w' :
  unless_exists f m w = (Ok tt, w') -> exists r, m w = (r, w') /\ ok_or_exists r.
Proof.
  unfold unless_exists. destruct (m w) as [[[]|e|] w1]; [intros [= <-]; by exists (Ok tt)| |done].
  destruct (errors_Is e ErrAlreadyExists) eqn:He; [|done]. intros [= <-]. by exists (Err e).
Qed.

(** A property of the state that a call keeps, whatever it returns. *)
Definition keeps {W A} (P : W -> Prop) (m : M W A) : Prop := forall w, P w -> P (m w).2.

Lemma keeps_ret {W A} (P : W -> Prop) (a : A) : keeps P (mret a : M W A).
Proof. by intros w. Qed.
Lemma keeps_fails {W A} (P : W -> Prop) e : keeps P (fails e : M W A).
Proof. by intros w. Qed.
Lemma keeps_reads {W A} (P : W -> Prop) (f : W -> result A) : keeps P (reads f).
Proof. by intros w. Qed.
Lemma keeps_bind {W A B} (P : W -> Prop) (m : M W A) (f : A -> M W B) :
  keeps P m -> (forall a, keeps P (f a)) -> keeps P (m ≫= f).
Proof.
  intros Hm Hf w Hw. unfold mbind, M_bind. specialize (Hm w Hw).
  destruct (m w) as [[a|e|] w1]; simpl in *; [by apply Hf|done|done].
Qed.
Lemma keeps_on_err {W A} (P : W -> Prop) f (m : M W A) : keeps P m -> keeps P (on_err f m).
Proof. intros Hm w Hw. unfold on_err. specialize (Hm w Hw). by destruct (m w). Qed.
Lemma keeps_if_set {W A} (P : W -> Prop) (h : option (A -> M W unit)) a :
  (forall f, h = Some f -> keeps P (f a)) -> keeps P (if_set h a).
Proof. destruct h as [f|]; simpl; [auto|intros; apply keeps_ret]. Qed.

#[export] Hint Resolve keeps_ret keeps_fails keeps_reads keeps_bind keeps_on_err keeps_if_set : go.
