(* ===== verification/Descriptor.v ===== *)
(** Descriptors and media types: [internal/descriptor], [content/descriptor.go],
    [internal/docker], [internal/spec] and the parts of the OCI image
    specification's types that the code reads.  The digest library is an
    interface ([GoDigest]). *)

From Stdlib Require Import ZArith NArith Ascii String Strings.Byte.
From S2P Require Import Prelude Errors.

(** ** Media types *)

(* internal/docker/mediatype.go *)
Definition docker_MediaTypeConfig : string := "application/vnd.docker.container.image.v1+json".
Definition docker_MediaTypeManifestList : string := "application/vnd.docker.distribution.manifest.list.v2+json".
Definition docker_MediaTypeManifest : string := "application/vnd.docker.distribution.manifest.v2+json".
Definition docker_MediaTypeForeignLayer : string := "application/vnd.docker.image.rootfs.foreign.diff.tar.gzip".

(* internal/spec/artifact.go *)
Definition spec_MediaTypeArtifactManifest : string := "application/vnd.oci.artifact.manifest.v1+json".
Definition spec_AnnotationArtifactCreated : string := "org.opencontainers.artifact.created".

(* constants of the OCI image specification v1.1.1 *)
Definition MediaTypeImageManifest : string := "application/vnd.oci.image.manifest.v1+json".
Definition MediaTypeImageIndex : string := "application/vnd.oci.image.index.v1+json".
Definition MediaTypeImageConfig : string := "application/vnd.oci.image.config.v1+json".
Definition MediaTypeEmptyJSON : string := "application/vnd.oci.empty.v1+json".
Definition MediaTypeImageLayerNonDistributable : string := "application/vnd.oci.image.layer.nondistributable.v1.tar".
Definition MediaTypeImageLayerNonDistributableGzip : string := "application/vnd.oci.image.layer.nondistributable.v1.tar+gzip".
Definition MediaTypeImageLayerNonDistributableZstd : string := "application/vnd.oci.image.layer.nondistributable.v1.tar+zstd".
Definition AnnotationRefName : string := "org.opencontainers.image.ref.name".
Definition AnnotationCreated : string := "org.opencontainers.image.created".

(** ** OCI descriptors *)

Record Platform := mkPlatform {
  Architecture : string;
  OS : string;
  OSVersion : string;
  OSFeatures : list string;
  Variant : string
}.

#[export] Instance Platform_eq_dec : EqDecision Platform.
Proof. solve_decision. Defined.

(** [ocispec.Descriptor].  A nil map is [None]: the code tells a nil annotation
    map from an empty one. *)
Record OciDescriptor := mkOci {
  MediaType : string;
  Digest : string;
  Size : Z;
  URLs : list string;
  Annotations : option (gmap string string);
  Data : bytes;
  oPlatform : option Platform;
  ArtifactType : string
}.

#[export] Instance OciDescriptor_eq_dec : EqDecision OciDescriptor.
Proof. solve_decision. Defined.

(** The zero value [ocispec.Descriptor{}]. *)
Definition zeroDescriptor : OciDescriptor :=
  mkOci EmptyString EmptyString 0 [] None [] None EmptyString.

Definition set_Annotations (a : option (gmap string string)) (d : OciDescriptor) : OciDescriptor :=
  mkOci (MediaType d) (Digest d) (Size d) (URLs d) a (Data d) (oPlatform d) (ArtifactType d).
Definition set_ArtifactType (t : string) (d : OciDescriptor) : OciDescriptor :=
  mkOci (MediaType d) (Digest d) (Size d) (URLs d) (Annotations d) (Data d) (oPlatform d) t.

(** ** [internal/descriptor] *)

Definition DefaultMediaType : string := "application/octet-stream".

(** [descriptor.Descriptor]: the comparable key made of three fields. *)
Record Descriptor := mkKey {
  kMediaType : string;
  kDigest : string;
  kSize : Z
}.

#[export] Instance Descriptor_eq_dec : EqDecision Descriptor.
Proof. solve_decision. Defined.

#[export] Instance Descriptor_countable : Countable Descriptor.
Proof.
  refine (inj_countable' (fun k => (kMediaType k, kDigest k, kSize k))
    (fun '(m, d, s) => mkKey m d s) _).
  by intros [].
Defined.

Definition FromOCI (desc : OciDescriptor) : Descriptor :=
  mkKey (MediaType desc) (Digest desc) (Size desc).

Definition mem_string (x : string) (l : list string) : bool :=
  bool_decide (x ∈ l).

(** A Go [switch] on the media type with one case listing these values. *)
Definition IsForeignLayer (desc : OciDescriptor) : bool :=
  mem_string (MediaType desc)
    [MediaTypeImageLayerNonDistributable;
     MediaTypeImageLayerNonDistributableGzip;
     MediaTypeImageLayerNonDistributableZstd;
     docker_MediaTypeForeignLayer].

Definition IsManifest (desc : OciDescriptor) : bool :=
  mem_string (MediaType desc)
    [docker_MediaTypeManifest;
     docker_MediaTypeManifestList;
     MediaTypeImageManifest;
     MediaTypeImageIndex;
     spec_MediaTypeArtifactManifest].

Definition Plain (desc : OciDescriptor) : OciDescriptor :=
  mkOci (MediaType desc) (Digest desc) (Size desc) [] None [] None EmptyString.

(** ** [content/descriptor.go] *)

(** [content.Equal]: size, digest and media type agree. *)
Definition Equal (a b : OciDescriptor) : bool :=
  (Size a =? Size b)%Z && String.eqb (Digest a) (Digest b)
  && String.eqb (MediaType a) (MediaType b).

(** ** The digest library (github.com/opencontainers/go-digest)

    [digest_Verifier d] is the test [Verified] applies to the bytes written to
    [d.Verifier()]; [None] stands for the documented panic of [Verifier] on a
    digest whose algorithm is missing or not available. *)
Class GoDigest := {
  digest_FromBytes : bytes -> string;
  digest_Validate : string -> bool;
  digest_Verifier : string -> option (bytes -> bool);
  digest_Algorithm : string -> string;
  digest_Encoded : string -> string
}.

(** Documented behaviour of the library that the code relies on. *)
Class GoDigestLaws (D : GoDigest) := {
  digest_FromBytes_valid : forall b, digest_Validate (digest_FromBytes b) = true;
  digest_Verifier_total : forall d, digest_Validate d = true -> is_Some (digest_Verifier d);
  digest_Verifier_FromBytes : forall b v,
    digest_Verifier (digest_FromBytes b) = Some v -> v b = true;
  digest_split : forall d, digest_Validate d = true ->
    d = digest_Algorithm d +:+ ":" +:+ digest_Encoded d
}.

(** [content.NewDescriptorFromBytes]. *)
Definition NewDescriptorFromBytes `{GoDigest} (mediaType : string) (content : bytes)
    : OciDescriptor :=
  let mediaType := if String.eqb mediaType EmptyString then DefaultMediaType else mediaType in
  mkOci mediaType (digest_FromBytes content) (Zlen content) [] None [] None EmptyString.

(** ** Lemmas *)

Lemma Equal_spec a b : Equal a b = true <-> FromOCI a = FromOCI b.
Proof.
  unfold Equal, FromOCI. rewrite !andb_true_iff, Z.eqb_eq, !String.eqb_eq.
  split; [by intros [[-> ->] ->]|by intros [= -> -> ->]].
Qed.

Lemma Equal_refl a : Equal a a = true.
Proof. by apply Equal_spec. Qed.

Lemma FromOCI_Plain d : FromOCI (Plain d) = FromOCI d.
Proof. done. Qed.

Lemma FromOCI_set_Annotations a d : FromOCI (set_Annotations a d) = FromOCI d.
Proof. done. Qed.

Lemma mem_string_spec x l : mem_string x l = true <-> x ∈ l.
Proof. apply bool_decide_eq_true. Qed.

Lemma IsManifest_key a b :
  FromOCI a = FromOCI b -> IsManifest a = IsManifest b.
Proof. intros Heq. unfold IsManifest. by injection Heq as -> _ _. Qed.

(** A media type is never both a manifest and a foreign layer, so dropping
    foreign layers never drops a manifest from a graph. *)
Lemma IsManifest_not_foreign d : IsManifest d = true -> IsForeignLayer d = false.
Proof.
  unfold IsManifest, IsForeignLayer. rewrite mem_string_spec. intros Hm.
  repeat (apply elem_of_cons in Hm as [->|Hm]; [reflexivity|]).
  by apply elem_of_nil in Hm.
Qed.

#[export] Hint Rewrite FromOCI_Plain FromOCI_set_Annotations Equal_refl : go.

(** ** A concrete digest

    An injective encoding that satisfies the laws above; the examples of the
    development run with it. *)
Module HexDigest.

Definition nibble (n : N) : Ascii.ascii :=
  Ascii.ascii_of_N (if decide (n < 10)%N then 48 + n else 87 + n)%N.

Fixpoint hex (b : bytes) : string :=
  match b with
  | [] => EmptyString
  | x :: b' =>
      let n := Byte.to_N x in
      String.String (nibble (n / 16)) (String.String (nibble (n mod 16)) (hex b'))
  end.

Definition is_hex (c : Ascii.ascii) : bool :=
  let n := Ascii.N_of_ascii c in
  ((48 <=? n) && (n <=? 57) || ((97 <=? n) && (n <=? 102)))%N.

Definition prefix : string := "sha256:".

Fixpoint strip (p s : string) : option string :=
  match p, s with
  | EmptyString, _ => Some s
  | String.String a p', String.String b s' => if Ascii.eqb a b then strip p' s' else None
  | _, _ => None
  end.

Definition from_bytes (b : bytes) : string := prefix +:+ hex b.

(** The algorithm and the encoded part of a digest; the canonical algorithm is
    the first. *)
Definition prefix512 : string := "sha512:".
Definition parts (d : string) : option (string * string) :=
  match strip prefix d with
  | Some e => Some ("sha256", e)
  | None => match strip prefix512 d with Some e => Some ("sha512", e) | None => None end
  end.

Definition validate (d : string) : bool :=
  match parts d with
  | Some (_, e) => forallb is_hex (String.list_ascii_of_string e)
  | None => false
  end.

#[export] Instance hex_digest : GoDigest := {|
  digest_FromBytes := from_bytes;
  digest_Validate := validate;
  digest_Verifier d :=
    match parts d with
    | Some (a, _) => Some (fun b => String.eqb d (a +:+ ":" +:+ hex b))
    | None => None
    end;
  digest_Algorithm d := match parts d with Some (a, _) => a | None => EmptyString end;
  digest_Encoded d := match parts d with Some (_, e) => e | None => EmptyString end
|}.

Lemma strip_app p s : strip p (p +:+ s) = Some s.
Proof. induction p as [|a p IH]; simpl; [done|]. by rewrite Ascii.eqb_refl. Qed.

Lemma strip_Some p d s : strip p d = Some s -> d = p +:+ s.
Proof.
  revert d. induction p as [|a p IH]; intros [|b d]; simpl; try naive_solver.
  destruct (Ascii.eqb a b) eqn:E; [|done]. apply Ascii.eqb_eq in E as ->.
  intros Hs. by rewrite (IH d Hs).
Qed.

Lemma is_hex_hex b : forallb is_hex (String.list_ascii_of_string (hex b)) = true.
Proof. induction b as [|x b IH]; [done|]. simpl. rewrite IH. by destruct x. Qed.

(** Decoding a hexadecimal digit. *)
Definition unhex (c : Ascii.ascii) : N :=
  let n := Ascii.N_of_ascii c in (if n <? 58 then n - 48 else n - 87)%N.

Lemma unhex_byte x :
  (16 * unhex (nibble (Byte.to_N x / 16)) + unhex (nibble (Byte.to_N x mod 16)))%N = Byte.to_N x.
Proof. by destruct x. Qed.

Lemma hex_inj b b' : hex b = hex b' -> b = b'.
Proof.
  revert b'. induction b as [|x b IH]; intros [|y b']; simpl; try done.
  intros [= H1 H2 H3]. f_equal; [|by apply IH].
  pose proof (unhex_byte x) as Hx. pose proof (unhex_byte y) as Hy. rewrite H1, H2 in Hx.
  assert (Byte.to_N x = Byte.to_N y) as E by congruence.
  pose proof (Byte.of_to_N x) as Ox. rewrite E, Byte.of_to_N in Ox. congruence.
Qed.

Lemma from_bytes_inj b b' : from_bytes b = from_bytes b' -> b = b'.
Proof. unfold from_bytes. intros [= H]. by apply hex_inj. Qed.

#[local] Arguments strip : simpl never.

Lemma parts_from_bytes b : parts (from_bytes b) = Some ("sha256", hex b).
Proof. unfold parts, from_bytes. by rewrite strip_app. Qed.

Lemma parts_Some d a e : parts d = Some (a, e) -> (a = "sha256" \/ a = "sha512") /\ d = a +:+ ":" +:+ e.
Proof.
  unfold parts. destruct (strip prefix d) eqn:E1; [|destruct (strip prefix512 d) eqn:E2; [|done]];
    intros [= <- <-]; [by apply strip_Some in E1; auto|by apply strip_Some in E2; auto].
Qed.

(** A digest of either algorithm verifies one content. *)
Lemma verifier_hex d v c : digest_Verifier d = Some v -> v c = true ->
  exists a e, parts d = Some (a, e) /\ d = a +:+ ":" +:+ hex c.
Proof.
  cbn [digest_Verifier hex_digest]. destruct (parts d) as [[a e]|] eqn:E; [|done]. intros [= <-] Hc.
  apply String.eqb_eq in Hc. eauto.
Qed.

Lemma verifier_one d v v' c c' :
  digest_Verifier d = Some v -> v c = true -> digest_Verifier d = Some v' -> v' c' = true -> c = c'.
Proof.
  intros Hv Hc Hv' Hc'. destruct (verifier_hex d v c Hv Hc) as (a & e & Hp & Hd).
  destruct (verifier_hex d v' c' Hv' Hc') as (a' & e' & Hp' & Hd'). rewrite Hp in Hp'. injection Hp' as <- <-.
  rewrite Hd in Hd' at 1. apply hex_inj. apply parts_Some in Hp as [[-> | ->] _]; by injection Hd'.
Qed.

Lemma verifier_valid d v c : digest_Verifier d = Some v -> v c = true -> validate d = true.
Proof.
  intros Hv Hc. destruct (verifier_hex d v c Hv Hc) as (a & e & Hp & Hd). unfold validate. rewrite Hp.
  apply parts_Some in Hp as [Ha He]. rewrite Hd in He.
  assert (hex c = e) as <- by (destruct Ha as [-> | ->]; by injection He). apply is_hex_hex.
Qed.

#[export] Instance hex_digest_laws : GoDigestLaws hex_digest.
Proof.
  split; cbn [digest_FromBytes digest_Validate digest_Verifier digest_Algorithm digest_Encoded hex_digest].
  - intros b. unfold validate. rewrite parts_from_bytes. apply is_hex_hex.
  - intros d. unfold validate. destruct (parts d) as [[a e]|]; [by eexists|done].
  - intros b v. rewrite parts_from_bytes. intros [= <-]. apply String.eqb_refl.
  - intros d. unfold validate. destruct (parts d) as [[a e]|] eqn:E; [|done]. intros _.
    by apply parts_Some in E as [_ ?].
Qed.

End HexDigest.
