(* ===== verification/Reader.v ===== *)
(** Verified reading of content: [content/reader.go], [FetchAll] of
    [content/storage.go] and the Go [io] readers they are built from.  The
    theorems show that [ReadAll] returns exactly the content described by the
    descriptor however the underlying reader splits its data, and which error
    each kind of bad stream gives. *)

From Stdlib Require Import ZArith Lia.
From S2P Require Import Prelude Errors Descriptor.

(** ** [io.Reader]

    A finite stream as a Go reader delivers it: data in chunks of any size
    (empty chunks are reads that return [0, nil]), the error that may come
    together with the last chunk, and the error of every read after the data. *)
Record Reader := mkReader {
  rd_chunks : list bytes;
  rd_eager : option error;
  rd_end : error
}.

(** The error of the reads after the data: a reader that reported [io.EOF] with
    its last bytes keeps reporting it, as [io.Reader] requires. *)
Definition final_err (r : Reader) : error :=
  if decide (rd_eager r = Some (ESentinel EOF)) then EOF else rd_end r.

(** [bytes.NewReader]. *)
Definition bytes_NewReader (b : bytes) : Reader :=
  mkReader (match b with [] => [] | _ => [b] end) None EOF.

(** [Read(p)] with [len(p) = n]: the bytes read, the error, the new state. *)
Definition Read (n : nat) (r : Reader) : bytes * option error * Reader :=
  match rd_chunks r with
  | [] => ([], Some (final_err r), r)
  | c :: cs =>
      if decide (n < length c)
      then (take n c, None, mkReader (drop n c :: cs) (rd_eager r) (rd_end r))
      else (c, match cs with [] => rd_eager r | _ => None end,
            mkReader cs (rd_eager r) (rd_end r))
  end.

(** [io.LimitReader(r, n)] on streams; [LimitedReader_Read] below is the method
    and [LimitReader_Read] shows that the two agree. *)
Fixpoint limit_chunks (n : nat) (cs : list bytes) : list bytes * bool :=
  match n, cs with
  | O, _ => ([], false)
  | _, [] => ([], true)
  | _, c :: cs' =>
      if decide (n < length c) then ([take n c], false)
      else let '(r, whole) := limit_chunks (n - length c) cs' in
           (c :: r, match cs' with [] => true | _ => whole end)
  end.

Definition LimitReader (n : Z) (r : Reader) : Reader :=
  let '(cs, whole) := limit_chunks (Z.to_nat n) (rd_chunks r) in
  mkReader cs (if whole then rd_eager r else None)
    (if decide (Z.of_nat (length (concat (rd_chunks r))) < n)%Z
     then rd_end r else EOF).

(** [io.TeeReader(r, w)] with a writer that never fails; [tee_w] is what was
    written so far. *)
Record TeeReader := mkTee { tee_r : Reader; tee_w : bytes }.

Definition TeeReader_Read (n : nat) (t : TeeReader) : bytes * option error * TeeReader :=
  let '(b, e, r') := Read n (tee_r t) in (b, e, mkTee r' (tee_w t ++ b)).

(** [io.LimitedReader]. *)
Record LimitedReader := mkLimited { lr_R : TeeReader; lr_N : Z }.

Definition LimitedReader_Read (n : nat) (l : LimitedReader)
    : bytes * option error * LimitedReader :=
  if decide (lr_N l <= 0)%Z then ([], Some (ESentinel EOF), l)
  else
    let n' := if decide (Z.of_nat n > lr_N l)%Z then Z.to_nat (lr_N l) else n in
    let '(b, e, t') := TeeReader_Read n' (lr_R l) in
    (b, e, mkLimited t' (lr_N l - Zlen b)).

(** [io.ReadFull] (that is [io.ReadAtLeast] with [min = len(buf)]) for any
    reader.  [fuel] bounds the number of reads. *)
Section ReadFull.
Context {R : Type} (rd : nat -> R -> bytes * option error * R).

Fixpoint read_loop (fuel min : nat) (buf : bytes) (r : R) : bytes * option error * R :=
  if decide (min <= length buf) then (buf, None, r)
  else match fuel with
  | O => (buf, Some (ENew "read loop: out of fuel"), r)
  | S fuel' =>
      let '(b, e, r') := rd (min - length buf) r in
      match e with
      | Some e => (buf ++ b, Some e, r')
      | None => read_loop fuel' min (buf ++ b) r'
      end
  end.

Definition ReadFull (fuel min : nat) (r : R) : bytes * option error * R :=
  let '(buf, e, r') := read_loop fuel min [] r in
  if decide (min <= length buf) then (buf, None, r')
  else if decide (0 < length buf /\ e = Some (ESentinel EOF))
  then (buf, Some (ESentinel ErrUnexpectedEOF), r')
  else (buf, e, r').

End ReadFull.

(** A bound on the reads a stream can answer without an error. *)
Definition read_fuel (r : Reader) : nat :=
  S (sum_list_with (fun c => S (length c)) (rd_chunks r)).

(** ** [content.VerifyReader] *)

Record VerifyReader := mkVR {
  vr_base : LimitedReader;
  vr_verifier : bytes -> bool;
  vr_verified : bool;
  vr_err : option error
}.

Definition VerifyReader_Read (n : nat) (vr : VerifyReader) : bytes * option error * VerifyReader :=
  match vr_err vr with
  | Some e => ([], Some e, vr)
  | None =>
      let '(b, e, base') := LimitedReader_Read n (vr_base vr) in
      match e with
      | None => (b, None, mkVR base' (vr_verifier vr) (vr_verified vr) None)
      | Some e =>
          let e := if decide (e = ESentinel EOF /\ (lr_N base' > 0)%Z)
                   then ESentinel ErrUnexpectedEOF else e in
          (b, Some e, mkVR base' (vr_verifier vr) (vr_verified vr) (Some e))
      end
  end.

(** [ensureEOF]: one byte is read to see whether data is left. *)
Definition ensureEOF (t : TeeReader) : option error * TeeReader :=
  let '(_, e, t') := ReadFull TeeReader_Read (read_fuel (tee_r t)) 1 t in
  if decide (e = Some (ESentinel EOF)) then (None, t') else (Some (ESentinel ErrTrailingData), t').

Definition Verify (vr : VerifyReader) : option error * VerifyReader :=
  if vr_verified vr then (None, vr) else
  let check :=
    let '(err, t') := ensureEOF (lr_R (vr_base vr)) in
    let base' := mkLimited t' (lr_N (vr_base vr)) in
    match err with
    | Some e => (Some e, mkVR base' (vr_verifier vr) false (Some e))
    | None =>
        if vr_verifier vr (tee_w t')
        then (None, mkVR base' (vr_verifier vr) true (Some (ESentinel EOF)))
        else (Some (ESentinel ErrMismatchedDigest),
              mkVR base' (vr_verifier vr) false (Some (ESentinel ErrMismatchedDigest)))
    end in
  match vr_err vr with
  | None => if decide (lr_N (vr_base vr) > 0)%Z
            then (Some (ESentinel errEarlyVerify), vr) else check
  | Some e => if decide (e = ESentinel EOF) then check else (Some e, vr)
  end.

(** [NewVerifyReader]; [None] is the panic of [desc.Digest.Verifier()]. *)
Definition NewVerifyReader `{GoDigest} (r : Reader) (desc : OciDescriptor) : option VerifyReader :=
  match digest_Verifier (Digest desc) with
  | None => None
  | Some v => Some (mkVR (mkLimited (mkTee r []) (Size desc)) v false None)
  end.

(** The largest allocation of the Go runtime on 64-bit platforms: [make] panics
    on a longer slice. *)
Definition maxAlloc : Z := (2 ^ 48)%Z.

Definition ReadAll `{GoDigest} (r : Reader) (desc : OciDescriptor) : result bytes :=
  if decide (Size desc < 0)%Z then ErrS ErrInvalidDescriptorSize
  else if decide (maxAlloc < Size desc)%Z then Panic
  else match NewVerifyReader r desc with
  | None => Panic
  | Some vr =>
      let '(buf, err, vr') :=
        ReadFull VerifyReader_Read (read_fuel r) (Z.to_nat (Size desc)) vr in
      match err with
      | Some e =>
          if errors_Is e ErrUnexpectedEOF
          then Err (EWrap "read failed: unexpected content size" e)
          else Err (EWrap "read failed" e)
      | None =>
          match (Verify vr').1 with
          | Some e => Err e
          | None => Ok buf
          end
      end
  end.

(** [content.FetchAll]. *)
Definition FetchAll `{GoDigest} (fetch : OciDescriptor -> result Reader)
    (desc : OciDescriptor) : result bytes :=
  rc ← fetch desc; ReadAll rc desc.

(** ** Lemmas on readers *)

Notation content r := (concat (rd_chunks r)).

(** No read of the stream reports an error other than the final [io.EOF]. *)
Definition clean (r : Reader) : Prop :=
  final_err r = ESentinel EOF
  /\ (rd_chunks r = [] \/ rd_eager r = None \/ rd_eager r = Some (ESentinel EOF)).

#[export] Instance clean_dec r : Decision (clean r).
Proof. unfold clean. apply _. Defined.

Lemma Read_spec n r b e r' :
  0 < n -> Read n r = (b, e, r') ->
  content r = b ++ content r' /\ length b <= n /\ final_err r' = final_err r
  /\ (clean r -> clean r')
  /\ match e with
     | None => read_fuel r' < read_fuel r /\ (clean r' -> clean r)
     | Some e' => rd_chunks r' = [] /\ (clean r <-> e' = ESentinel EOF)
     end.
Proof.
  unfold Read, clean, read_fuel, final_err. destruct r as [[|c cs] eg en]; simpl; intros Hn Heq.
  - simplify_eq/=. split_and!; auto with lia; naive_solver.
  - case_decide.
    + simplify_eq/=. rewrite length_take, length_drop, app_assoc, take_drop.
      split_and!; auto with lia; naive_solver.
    + destruct cs as [|c' cs]; simplify_eq/=.
      * destruct e; split_and!; auto with lia; naive_solver.
      * split_and!; auto with lia; naive_solver.
Qed.

Lemma Read_None_clean n r b r' :
  0 < n -> Read n r = (b, None, r') -> clean r <-> clean r'.
Proof. intros Hn Heq. apply Read_spec in Heq; naive_solver. Qed.

Lemma read_loop_done {R} (rd : nat -> R -> bytes * option error * R) fuel min buf r :
  min <= length buf -> read_loop rd fuel min buf r = (buf, None, r).
Proof. intros H. destruct fuel; simpl; by rewrite decide_True. Qed.

(** What the read loop of [ReadFull] leaves behind when it runs on a verify
    reader with [N] bytes still allowed: either all [N] bytes were read, or the
    stream was too short and an error is reported. *)
Definition loop_post (r : Reader) (v : bytes -> bool) (buf : bytes) (n : nat)
    (res : bytes * option error * VerifyReader) : Prop :=
  let '(buf', e, vr') := res in
  if decide (n <= length (content r))
  then buf' = buf ++ take n (content r) /\ exists r',
         vr' = mkVR (mkLimited (mkTee r' buf') 0) v false e
         /\ content r' = drop n (content r) /\ (clean r -> clean r')
         /\ match e with
            | None => clean r <-> clean r'
            | Some e' => rd_chunks r' = []
                /\ (clean r <-> e' = ESentinel EOF)
            end
  else length buf' < length buf + n /\ exists e', e = Some e'
       /\ (clean r -> e' = ESentinel ErrUnexpectedEOF).

Lemma VerifyReader_Read_step n r w N v b e r' :
  (0 < N)%Z -> Z.of_nat n = N -> Read n r = (b, e, r') ->
  VerifyReader_Read n (mkVR (mkLimited (mkTee r w) N) v false None) =
    let N' := (N - Zlen b)%Z in
    let e' := match e with
              | Some e0 => Some (if decide (e0 = ESentinel EOF /\ (N' > 0)%Z)
                                 then ESentinel ErrUnexpectedEOF else e0)
              | None => None end in
    (b, e', mkVR (mkLimited (mkTee r' (w ++ b)) N') v false e').
Proof.
  intros HN Hn Heq. unfold VerifyReader_Read, LimitedReader_Read, TeeReader_Read. simpl.
  rewrite decide_False by lia. rewrite decide_False by lia. rewrite Heq.
  by destruct e.
Qed.

Lemma read_loop_verify fuel buf r v n :
  read_fuel r <= fuel ->
  loop_post r v buf n
    (read_loop VerifyReader_Read fuel (length buf + n) buf
      (mkVR (mkLimited (mkTee r buf) (Z.of_nat n)) v false None)).
Proof.
  revert buf r n. induction fuel as [|fuel IH]; intros buf r n Hf.
  { unfold read_fuel in Hf. lia. }
  destruct (decide (n = 0)) as [->|Hn].
  { rewrite read_loop_done by lia. unfold loop_post. rewrite decide_True by lia.
    rewrite take_0, app_nil_r, drop_0. eauto 10. }
  simpl. rewrite decide_False by lia.
  replace (length buf + n - length buf) with n by lia.
  destruct (Read n r) as [[b e] r'] eqn:HR.
  rewrite (VerifyReader_Read_step n r buf (Z.of_nat n) v b e r') by (done || lia). simpl.
  apply Read_spec in HR as (Hc & Hb & Hend & Hcl & He); [|lia].
  assert (Hz : (Z.of_nat n - Zlen b = Z.of_nat (n - length b))%Z) by (unfold Zlen; lia).
  rewrite Hz. destruct e as [e'|]; simpl.
  - destruct He as [Hch He]. assert (content r' = []) as Hc' by by rewrite Hch.
    rewrite Hc', app_nil_r in Hc. unfold loop_post. rewrite Hc. case_decide as Hlen.
    + assert (length b = n) as Hbn by lia.
      rewrite decide_False by (intros [_ ?]; lia).
      rewrite take_ge, drop_ge by lia. split; [done|]. exists r'. split_and!; try done.
      by rewrite Hbn, Nat.sub_diag.
    + split; [rewrite length_app; lia|]. eexists; split; [done|]. intros Hclean.
      apply He in Hclean as ->. rewrite decide_True; [done|]. split; [done|lia].
  - destruct He as [Hfuel Hcl']. specialize (IH (buf ++ b) r' (n - length b)).
    rewrite length_app in IH.
    replace (length buf + length b + (n - length b)) with (length buf + n) in IH by lia.
    specialize (IH ltac:(lia)). destruct (read_loop _ _ _ _ _) as [[buf' e] vr'].
    unfold loop_post in *. rewrite Hc, length_app. case_decide as Hl; case_decide as Hl'; try lia.
    + destruct IH as (-> & r'' & -> & Hr'' & Hcc & IH). split.
      { by rewrite <- app_assoc, take_app_ge by lia. }
      exists r''. split_and!; [done| | |].
      { by rewrite Hr'', drop_app_ge by lia. }
      { naive_solver. }
      destruct e; naive_solver.
    + destruct IH as (IHl & e' & -> & IH). rewrite length_app in IHl. split; [lia|].
      eexists; split; [done|]. naive_solver.
Qed.

(** [ensureEOF] succeeds exactly at the clean end of the stream. *)
Lemma read_loop_tee fuel r w :
  read_fuel r <= fuel ->
  exists b e r', read_loop TeeReader_Read fuel 1 [] (mkTee r w) = (b, e, mkTee r' (w ++ b))
  /\ (content r = [] -> clean r -> b = [] /\ e = Some (ESentinel EOF))
  /\ (content r <> [] \/ ~ clean r -> b <> [] \/ e <> Some (ESentinel EOF)).
Proof.
  revert r w. induction fuel as [|fuel IH]; intros r w Hf.
  { unfold read_fuel in Hf. lia. }
  simpl. unfold TeeReader_Read at 1. simpl.
  destruct (Read 1 r) as [[b e] r'] eqn:HR.
  apply Read_spec in HR as (Hc & Hb & Hend & Hcl & He); [|lia].
  destruct e as [e'|].
  - destruct He as [Hch He]. exists b, (Some e'), r'. split; [done|]. rewrite Hc, Hch, app_nil_r.
    split; [naive_solver|]. intros [?|Hn]; [by left|]. right. intros [= ->]. by apply Hn, He.
  - destruct He as [Hfuel Hcl']. destruct b as [|x b].
    + destruct (IH r' w ltac:(lia)) as (b & e & r'' & Heq & IH1 & IH2).
      rewrite app_nil_r. exists b, e, r''. rewrite Hc. simpl. naive_solver.
    + destruct b; [|simpl in Hb; lia]. exists [x], None, r'.
      rewrite read_loop_done by (simpl; lia). split; [done|].
      split; [by rewrite Hc|by left].
Qed.

Lemma ensureEOF_spec r w :
  (content r = [] -> clean r -> exists r', ensureEOF (mkTee r w) = (None, mkTee r' w))
  /\ (content r <> [] \/ ~ clean r ->
      (ensureEOF (mkTee r w)).1 = Some (ESentinel ErrTrailingData)).
Proof.
  unfold ensureEOF, ReadFull.
  destruct (read_loop_tee (read_fuel r) r w) as (b & e & r' & Heq & H1 & H2); [done|].
  simpl tee_r. rewrite Heq. split.
  - intros Hc Hcl. destruct (H1 Hc Hcl) as [-> ->]. exists r'. by rewrite app_nil_r.
  - intros Hor. destruct b as [|x b]; simpl.
    + destruct (H2 Hor) as [?|He]; [done|]. by rewrite decide_False.
    + done.
Qed.

(** ** [ReadAll] against a reference definition *)

(** What [ReadAll] has to return for a stream that delivers exactly [c] and
    then ends. *)
Definition ReadAll_ref `{GoDigest} (c : bytes) (desc : OciDescriptor) : result bytes :=
  if decide (Size desc < 0)%Z then ErrS ErrInvalidDescriptorSize
  else if decide (maxAlloc < Size desc)%Z then Panic
  else match digest_Verifier (Digest desc) with
  | None => Panic
  | Some v =>
      if decide (Zlen c < Size desc)%Z
      then Err (EWrap "read failed: unexpected content size" ErrUnexpectedEOF)
      else if decide (Size desc < Zlen c)%Z then ErrS ErrTrailingData
      else if v c then Ok c else ErrS ErrMismatchedDigest
  end.

Section ReadAll_lemmas.
Context `{GoDigest}.

(** The verification step after all bytes were read. *)
Lemma Verify_after_loop r v buf e :
  match e with
  | None => True
  | Some e' => rd_chunks r = [] /\ (e' = ESentinel EOF -> clean r)
  end ->
  let res := (Verify (mkVR (mkLimited (mkTee r buf) 0) v false e)).1 in
  (content r = [] -> clean r -> e = None \/ e = Some (ESentinel EOF) ->
     res = if v buf then None else Some (ESentinel ErrMismatchedDigest))
  /\ (content r <> [] -> res = Some (ESentinel ErrTrailingData))
  /\ (~ clean r \/ (exists e', e = Some e' /\ e' <> ESentinel EOF) -> res <> None).
Proof.
  intros He. destruct (ensureEOF_spec r buf) as [H1 H2].
  unfold Verify. cbn [vr_verified vr_base vr_err lr_R lr_N vr_verifier].
  rewrite (decide_False (P := (0 > 0)%Z)) by lia.
  destruct e as [e'|]; [destruct He as [Hch He]; case_decide as Hd|].
  - subst e'. rewrite Hch in *. split_and!.
    + intros Hc Hcl _. destruct (H1 Hc Hcl) as [r' ->]. simpl. by destruct (v buf).
    + done.
    + intros [Hn|(e' & [= <-] & ?)]; [|done]. destruct Hn. by apply He.
  - split_and!; [naive_solver|by rewrite Hch|done].
  - split_and!.
    + intros Hc Hcl _. destruct (H1 Hc Hcl) as [r' ->]. simpl. by destruct (v buf).
    + intros Hc. specialize (H2 (or_introl Hc)). destruct (ensureEOF _) as [err t']. simpl in H2.
      by subst.
    + intros [Hn|(e' & ? & _)]; [|done]. specialize (H2 (or_intror Hn)).
      destruct (ensureEOF _) as [err t']. simpl in H2. by subst.
Qed.

(** [ReadAll] once the size and the digest algorithm were accepted. *)
Lemma ReadAll_accepted r desc v :
  (0 <= Size desc <= maxAlloc)%Z -> digest_Verifier (Digest desc) = Some v ->
  (clean r -> ReadAll r desc = ReadAll_ref (content r) desc)
  /\ (~ clean r -> is_ok (ReadAll r desc) = false).
Proof.
  intros HS Hv. unfold ReadAll, ReadAll_ref, NewVerifyReader. rewrite Hv.
  rewrite !decide_False by lia. set (n := Z.to_nat (Size desc)).
  pose proof (read_loop_verify (read_fuel r) [] r v n (le_n _)) as HL.
  replace (Z.of_nat n) with (Size desc) in HL by lia.
  change (length [] + n) with n in HL. unfold ReadFull.
  destruct (read_loop _ _ _ _ _) as [[buf e] vr']. unfold loop_post in HL.
  destruct (decide (n <= length (content r))) as [Hn|Hn].
  - destruct HL as (-> & r' & -> & Hr' & Hcc & HL).
    rewrite app_nil_l, decide_True by (rewrite length_take; lia).
    destruct (Verify_after_loop r' v (take n (content r)) e) as (V1 & V2 & V3).
    { destruct e; [|done]. naive_solver. }
    rewrite (decide_False (P := (Zlen _ < _)%Z)) by (unfold Zlen; lia).
    split; intros Hclean.
    + case_decide as Hlt.
      * rewrite V2; [done|]. rewrite Hr'. intros Hd. apply (f_equal length) in Hd.
        rewrite length_drop in Hd. unfold Zlen in Hlt. simpl in Hd. lia.
      * assert (length (content r) <= n) by (unfold Zlen in Hlt; lia).
        rewrite V1; [| |by auto|].
        -- rewrite take_ge by done. by destruct (v (content r)).
        -- by rewrite Hr', drop_ge.
        -- destruct e; [|by left]. right. f_equal. by apply HL.
    + destruct (Verify _).1; [done|]. destruct V3; [|done]. destruct e as [e'|].
      * right. exists e'. naive_solver.
      * left. naive_solver.
  - destruct HL as (Hlen & e' & -> & HL). rewrite (decide_False (P := n <= _)) by (simpl in Hlen; lia).
    rewrite (decide_True (P := (Zlen _ < _)%Z)) by (unfold Zlen; lia).
    split; intros Hclean.
    + rewrite (HL Hclean). by rewrite decide_False by naive_solver.
    + case_decide; [done|]. by destruct (errors_Is e' _).
Qed.
End ReadAll_lemmas.

Lemma LimitReader_neg N r : (N <= 0)%Z -> LimitReader N r = mkReader [] None EOF.
Proof.
  intros HN. unfold LimitReader. replace (Z.to_nat N) with 0 by lia.
  rewrite (decide_False (P := (Z.of_nat _ < N)%Z)) by lia. by destruct (rd_chunks r).
Qed.

(** The limit falls inside the first chunk. *)
Lemma LimitReader_cut n c cs eg en :
  n < length c ->
  LimitReader (Z.of_nat n) (mkReader (c :: cs) eg en)
  = mkReader (match n with O => [] | _ => [take n c] end) None EOF.
Proof.
  intros Hn. unfold LimitReader. cbn [rd_chunks concat]. rewrite Nat2Z.id.
  rewrite (decide_False (P := (Z.of_nat _ < Z.of_nat n)%Z)) by (rewrite length_app; lia).
  destruct n; simpl; [done|]. by rewrite decide_True by done.
Qed.

(** The limit lets the first chunk through. *)
Lemma LimitReader_pass n c cs eg en :
  0 < n -> length c <= n ->
  LimitReader (Z.of_nat n) (mkReader (c :: cs) eg en)
  = let r1 := LimitReader (Z.of_nat (n - length c)) (mkReader cs eg en) in
    mkReader (c :: rd_chunks r1) (match cs with [] => eg | _ => rd_eager r1 end) (rd_end r1).
Proof.
  intros Hn Hc. unfold LimitReader. cbn [rd_chunks concat rd_eager rd_end]. rewrite !Nat2Z.id.
  destruct n as [|n]; [lia|]. cbn [limit_chunks]. rewrite decide_False by lia.
  destruct (limit_chunks (S n - length c) cs) as [rs whole] eqn:E. cbn [rd_chunks rd_eager rd_end].
  f_equal; [by destruct cs|]. rewrite length_app. repeat case_decide; done || lia.
Qed.

Lemma LimitReader_nil N eg en : rd_chunks (LimitReader N (mkReader [] eg en)) = [].
Proof. unfold LimitReader. simpl. by destruct (Z.to_nat N). Qed.

(** [LimitReader] agrees with the [Read] method of [io.LimitedReader]: the same
    bytes and error at every read, until the first error. *)
Lemma LimitReader_Read k N r w b e r' :
  0 < k -> Read k (LimitReader N r) = (b, e, r') ->
  exists l', LimitedReader_Read k (mkLimited (mkTee r w) N) = (b, e, l')
  /\ (e = None -> r' = LimitReader (lr_N l') (tee_r (lr_R l'))).
Proof.
  intros Hk. unfold LimitedReader_Read, TeeReader_Read. cbn [lr_N lr_R tee_r tee_w].
  destruct (decide (N <= 0)%Z) as [HN|HN].
  { rewrite LimitReader_neg by done. unfold Read. intros ?; simplify_eq/=. by eexists. }
  assert (exists n, N = Z.of_nat (S n)) as [n ->] by (exists (Z.to_nat (N - 1)); lia).
  set (k' := if decide _ then _ else k). assert (k' = Nat.min k (S n)) as Hk'.
  { subst k'. case_decide; lia. }
  clearbody k'. subst k'.
  destruct r as [[|c cs] eg en].
  { unfold Read, LimitReader, final_err. rewrite Nat2Z.id. cbn [rd_chunks concat limit_chunks length].
    rewrite (decide_True (P := (Z.of_nat 0 < _)%Z)) by lia. simpl.
    intros ?; simplify_eq. by eexists. }
  destruct (decide (S n < length c)) as [Hc|Hc].
  - rewrite LimitReader_cut by done. unfold Read. cbn [rd_chunks rd_eager rd_end].
    rewrite (decide_True (P := Nat.min _ _ < _)) by lia. rewrite length_take.
    destruct (decide (k < Nat.min (S n) (length c))) as [Hk''|Hk'];
      intros ?; simplify_eq; (eexists; split; [|intros _; cbn [lr_N lr_R tee_r]]).
    + rewrite take_take. by replace (Nat.min k (S n)) with k by lia.
    + unfold Zlen. replace (Nat.min k (S n)) with k by lia. rewrite length_take_le by lia.
      replace (Z.of_nat (S n) - Z.of_nat k)%Z with (Z.of_nat (S n - k)) by lia.
      cbn [lr_N lr_R tee_r]. rewrite LimitReader_cut by (rewrite length_drop; lia). rewrite take_drop_commute.
      replace (k + (S n - k)) with (S n) by lia. destruct (S n - k) eqn:?; [lia|done].
    + by replace (Nat.min k (S n)) with (S n) by lia.
    + cbn [lr_N lr_R tee_r]. rewrite LimitReader_neg; [done|]. unfold Zlen. rewrite length_take. lia.
  - rewrite LimitReader_pass by lia. set (r1 := LimitReader _ _). unfold Read.
    cbn [rd_chunks rd_eager rd_end]. destruct (decide (k < length c)) as [Hk'|Hk'].
    + rewrite (decide_True (P := Nat.min _ _ < _)) by lia.
      replace (Nat.min k (S n)) with k by lia.
      intros ?; simplify_eq. eexists; split; [done|]. intros _. cbn [lr_N lr_R tee_r].
      unfold Zlen. rewrite length_take_le by lia.
      replace (Z.of_nat (S n) - Z.of_nat k)%Z with (Z.of_nat (S n - k)) by lia.
      rewrite LimitReader_pass by (rewrite ?length_drop; lia). rewrite length_drop.
      by replace (S n - k - (length c - k)) with (S n - length c) by lia.
    + rewrite (decide_False (P := Nat.min _ _ < _)) by lia.
      intros Heq. injection Heq as <- He <-.
      assert (e = match cs with [] => eg | _ => None end) as ->.
      { subst e r1. destruct cs as [|c' cs]; [by rewrite LimitReader_nil|].
        destruct (S n - length c); [by rewrite LimitReader_neg by lia|].
        unfold LimitReader. rewrite Nat2Z.id. cbn [rd_chunks limit_chunks].
        case_decide; [done|]. by destruct (limit_chunks _ cs). }
      eexists; split; [done|]. intros Hnone. cbn [lr_N lr_R tee_r]. unfold Zlen.
      replace (Z.of_nat (S n) - Z.of_nat (length c))%Z with (Z.of_nat (S n - length c)) by lia.
      fold r1. destruct cs; [|by destruct r1]. simpl in Hnone. subst eg.
      assert (rd_eager r1 = None) as <-; [|by destruct r1].
      subst r1. unfold LimitReader. destruct (limit_chunks _ _) as [? []]; done.
Qed.


Section ReadAll_spec.
Context `{GoDigest}.

Lemma ReadAll_clean_spec r desc : clean r -> ReadAll r desc = ReadAll_ref (content r) desc.
Proof.
  intros Hclean. destruct (decide (0 <= Size desc <= maxAlloc)%Z) as [HS|HS].
  - destruct (digest_Verifier (Digest desc)) as [v|] eqn:Hv.
    + by apply (ReadAll_accepted r desc v).
    + unfold ReadAll, ReadAll_ref, NewVerifyReader. by rewrite Hv, !decide_False by lia.
  - unfold ReadAll, ReadAll_ref. repeat case_decide; done || lia.
Qed.

Lemma ReadAll_unclean_spec r desc : ~ clean r -> is_ok (ReadAll r desc) = false.
Proof.
  intros Hc. destruct (decide (0 <= Size desc <= maxAlloc)%Z) as [HS|HS].
  - destruct (digest_Verifier (Digest desc)) as [v|] eqn:Hv.
    + by apply (ReadAll_accepted r desc v).
    + unfold ReadAll, NewVerifyReader. by rewrite Hv, !decide_False by lia.
  - unfold ReadAll. repeat case_decide; done || lia.
Qed.

Lemma ReadAll_ref_Ok c desc b :
  ReadAll_ref c desc = Ok b <->
    (0 <= Size desc <= maxAlloc)%Z /\ c = b /\ Zlen b = Size desc
    /\ exists v, digest_Verifier (Digest desc) = Some v /\ v b = true.
Proof.
  unfold ReadAll_ref. destruct (digest_Verifier (Digest desc)) as [v|].
  - repeat case_decide; (split; [|intros (? & <- & ? & v' & [= <-] & Hv'); try lia]); try done.
    + destruct (v c) eqn:E; [|done]. intros [= <-]. split_and!; eauto with lia.
    + by rewrite Hv'.
  - split; [by repeat case_decide|]. by intros (_ & _ & _ & v & ? & _).
Qed.

Lemma ReadAll_Ok_spec r desc b :
  ReadAll r desc = Ok b <->
    (0 <= Size desc <= maxAlloc)%Z /\ clean r /\ content r = b /\ Zlen b = Size desc
    /\ exists v, digest_Verifier (Digest desc) = Some v /\ v b = true.
Proof.
  destruct (decide (clean r)) as [Hc|Hc].
  - rewrite ReadAll_clean_spec, ReadAll_ref_Ok by done. naive_solver.
  - pose proof (ReadAll_unclean_spec r desc Hc) as Hn.
    split; [intros Heq; by rewrite Heq in Hn|naive_solver].
Qed.

(** [ReadAll] reports none of the storage sentinels on its own. *)
Lemma ReadAll_clean_err r desc e :
  clean r -> ReadAll r desc = Err e ->
  errors_Is e ErrAlreadyExists = false /\ errors_Is e ErrNotFound = false.
Proof.
  intros Hc. rewrite ReadAll_clean_spec by done. unfold ReadAll_ref.
  destruct (digest_Verifier _) as [v|]; repeat case_decide; try destruct (v _);
    intros; by simplify_eq/=.
Qed.

Lemma bytes_NewReader_spec c : clean (bytes_NewReader c) /\ content (bytes_NewReader c) = c.
Proof.
  unfold bytes_NewReader, clean, final_err. destruct c; simpl; rewrite ?app_nil_r; auto.
Qed.

End ReadAll_spec.

(** Content that matches a descriptor. *)
Definition verified `{GoDigest} (d : OciDescriptor) (c : bytes) : Prop :=
  Zlen c = Size d /\ exists v, digest_Verifier (Digest d) = Some v /\ v c = true.

Lemma ReadAll_verified `{GoDigest} r d c :
  ReadAll r d = Ok c -> verified d c /\ c = take (Z.to_nat (Size d)) (content r).
Proof.
  rewrite ReadAll_Ok_spec. intros (_ & _ & <- & Hl & ?). split; [done|].
  rewrite take_ge; [done|]. unfold Zlen in Hl. lia.
Qed.

(** *** Limited streams *)

Lemma limit_chunks_content n cs : concat (limit_chunks n cs).1 = take n (concat cs).
Proof.
  revert n. induction cs as [|c cs IH]; intros [|n]; simpl; try done.
  case_decide; simpl.
  - rewrite app_nil_r. by rewrite take_app_le by lia.
  - specialize (IH (S n - length c)). destruct (limit_chunks _ cs) as [rs w]. simpl in *.
    rewrite IH. by rewrite take_app_ge by lia.
Qed.

Lemma limit_chunks_cut n cs : (limit_chunks n cs).2 = false -> n <= length (concat cs).
Proof.
  revert n. induction cs as [|c cs IH]; intros [|n]; simpl; try done; try lia.
  rewrite length_app. case_decide; simpl; [lia|].
  specialize (IH (S n - length c)). destruct (limit_chunks _ cs) as [rs w]. simpl in *.
  destruct cs; [done|]. intros ->. specialize (IH eq_refl). lia.
Qed.

Lemma content_LimitReader N r : content (LimitReader N r) = take (Z.to_nat N) (content r).
Proof.
  unfold LimitReader. pose proof (limit_chunks_content (Z.to_nat N) (rd_chunks r)) as H.
  by destruct (limit_chunks _ _).
Qed.

Lemma clean_LimitReader N r : clean r -> clean (LimitReader N r).
Proof.
  unfold clean, final_err, LimitReader. intros [Hf Hor].
  pose proof (limit_chunks_cut (Z.to_nat N) (rd_chunks r)) as Hcut.
  assert (rd_chunks r = [] -> (limit_chunks (Z.to_nat N) (rd_chunks r)).1 = []) as Hnil.
  { intros ->. by destruct (Z.to_nat N). }
  destruct (limit_chunks _ _) as [cs whole]. simpl in *. split.
  - destruct whole; repeat case_decide; try done. specialize (Hcut eq_refl). lia.
  - destruct whole; naive_solver.
Qed.

(** ** Properties *)

Section properties.
Context `{GoDigest}.

(** C36: [ReadAll] succeeds exactly when the size is non-negative and can be
    allocated, the digest has a verifier, and the stream - however it is cut
    into reads, and whether or not the final [io.EOF] comes with data - delivers
    exactly [Size] bytes that the verifier accepts; it then returns those bytes. *)
Theorem ReadAll_Ok_iff (r : Reader) (desc : OciDescriptor) (b : bytes) :
  ReadAll r desc = Ok b <->
    (0 <= Size desc <= maxAlloc)%Z /\ clean r /\ content r = b /\ Zlen b = Size desc
    /\ exists v, digest_Verifier (Digest desc) = Some v /\ v b = true.
Proof. apply ReadAll_Ok_spec. Qed.

(** On a stream that ends normally [ReadAll] is the reference definition:
    a negative size, an impossible allocation, an unknown digest algorithm, a
    short stream, trailing data and a wrong digest each give their own result,
    and chunking is not observable. *)
Theorem ReadAll_equiv_ref (r : Reader) (desc : OciDescriptor) (Hclean : clean r) :
  ReadAll r desc = ReadAll_ref (content r) desc.
Proof. by apply ReadAll_clean_spec. Qed.

End properties.

Import HexDigest.

(** A stream in three reads, the last one with its [io.EOF]. *)
Definition example_reader : Reader :=
  mkReader [str_bytes "he"; []; str_bytes "llo"] (Some (ESentinel EOF)) EOF.

Lemma ReadAll_equiv_ref_witness :
  clean example_reader
  /\ ReadAll example_reader (NewDescriptorFromBytes "text/plain" (str_bytes "hello"))
     = Ok (str_bytes "hello").
Proof.
  split; [vm_compute; auto|].
  rewrite (ReadAll_equiv_ref example_reader
    (NewDescriptorFromBytes "text/plain" (str_bytes "hello"))); vm_compute; auto.
Defined.
