(* ===== verification/Manifest.v ===== *)
(** Manifests and graph edges: [content/graph.go], [internal/manifestutil] and
    the manifest types.  The JSON codec of these types is an interface
    ([ManifestJSON]): the field names and tags of the OCI types belong to the
    image specification's library. *)

From Stdlib Require Import ZArith Strings.Byte.
From S2P Require Import Prelude Errors Descriptor Reader.

(** ** Manifest types *)

(** [ocispec.Manifest]. *)
Record Manifest := mkManifest {
  m_SchemaVersion : Z;
  m_MediaType : string;
  m_ArtifactType : string;
  m_Config : OciDescriptor;
  m_Layers : list OciDescriptor;
  m_Subject : option OciDescriptor;
  m_Annotations : option (gmap string string)
}.

(** [ocispec.Index]. *)
Record Index := mkIndex {
  i_SchemaVersion : Z;
  i_MediaType : string;
  i_ArtifactType : string;
  i_Manifests : list OciDescriptor;
  i_Subject : option OciDescriptor;
  i_Annotations : option (gmap string string)
}.

(** [spec.Artifact]. *)
Record Artifact := mkArtifact {
  a_MediaType : string;
  a_ArtifactType : string;
  a_Blobs : list OciDescriptor;
  a_Subject : option OciDescriptor;
  a_Annotations : option (gmap string string)
}.

(** [json.Marshal] and [json.Unmarshal] at these types. *)
Class ManifestJSON := {
  Unmarshal_Manifest : bytes -> result Manifest;
  Unmarshal_Index : bytes -> result Index;
  Unmarshal_Artifact : bytes -> result Artifact;
  (* [struct { Subject *ocispec.Descriptor }] of manifestutil.Subject *)
  Unmarshal_Subject : bytes -> result (option OciDescriptor);
  Marshal_Manifest : Manifest -> result bytes;
  Marshal_Index : Index -> result bytes;
  Marshal_Artifact : Artifact -> result bytes
}.

(** [b] is the encoding of a value that decodes to the same value.  This is so
    for values whose strings are valid UTF-8 and whose annotation maps are nil or
    not empty; others are changed by encoding. *)
Definition encodes_Index `{ManifestJSON} (i : Index) (b : bytes) : Prop :=
  Marshal_Index i = Ok b /\ Unmarshal_Index b = Ok i.

Definition encodes_Manifest `{ManifestJSON} (m : Manifest) (b : bytes) : Prop :=
  Marshal_Manifest m = Ok b /\ Unmarshal_Manifest b = Ok m.

Definition encodes_Artifact `{ManifestJSON} (a : Artifact) (b : bytes) : Prop :=
  Marshal_Artifact a = Ok b /\ Unmarshal_Artifact b = Ok a.

(** The interface of [content.Fetcher]. *)
Notation Fetcher := (OciDescriptor -> result Reader).

(** Case on which of the five manifest types a media type is. *)
Ltac case_media :=
  repeat match goal with
  | |- context [String.eqb ?a ?b] => destruct (String.eqb_spec a b)
  | H : context [String.eqb ?a ?b] |- _ => destruct (String.eqb_spec a b)
  end.

Section Manifests.
Context `{GoDigest} `{ManifestJSON}.

Definition opt_list {A} (o : option A) : list A :=
  match o with Some a => [a] | None => [] end.

(** ** [content.Successors] *)

Definition Successors (fetcher : Fetcher) (node : OciDescriptor) : result (list OciDescriptor) :=
  if String.eqb (MediaType node) docker_MediaTypeManifest then
    content ← FetchAll fetcher node;
    manifest ← Unmarshal_Manifest content;
    Ok ([m_Config manifest] ++ m_Layers manifest)
  else if String.eqb (MediaType node) MediaTypeImageManifest then
    content ← FetchAll fetcher node;
    manifest ← Unmarshal_Manifest content;
    let nodes := opt_list (m_Subject manifest) in
    let nodes := nodes ++ [m_Config manifest] in
    Ok (nodes ++ m_Layers manifest)
  else if String.eqb (MediaType node) docker_MediaTypeManifestList then
    content ← FetchAll fetcher node;
    index ← Unmarshal_Index content;
    Ok (i_Manifests index)
  else if String.eqb (MediaType node) MediaTypeImageIndex then
    content ← FetchAll fetcher node;
    index ← Unmarshal_Index content;
    let nodes := opt_list (i_Subject index) in
    Ok (nodes ++ i_Manifests index)
  else if String.eqb (MediaType node) spec_MediaTypeArtifactManifest then
    content ← FetchAll fetcher node;
    manifest ← Unmarshal_Artifact content;
    let nodes := opt_list (a_Subject manifest) in
    Ok (nodes ++ a_Blobs manifest)
  else Ok [].

(** The successors in the content of a node: what [Successors] computes from the
    bytes it fetched. *)
Definition successors_of (node : OciDescriptor) (content : bytes) : result (list OciDescriptor) :=
  Successors (fun _ => Ok (bytes_NewReader content)) node.

(** ** [internal/manifestutil] *)

(** [manifestutil.Config]; [None] is the nil pointer. *)
Definition Config (fetcher : Fetcher) (desc : OciDescriptor) : result (option OciDescriptor) :=
  if mem_string (MediaType desc) [docker_MediaTypeManifest; MediaTypeImageManifest] then
    content ← FetchAll fetcher desc;
    manifest ← Unmarshal_Manifest content;
    Ok (Some (m_Config manifest))
  else Ok None.

(** [manifestutil.Manifests]. *)
Definition Manifests (fetcher : Fetcher) (desc : OciDescriptor) : result (list OciDescriptor) :=
  if mem_string (MediaType desc) [docker_MediaTypeManifestList; MediaTypeImageIndex] then
    content ← FetchAll fetcher desc;
    index ← Unmarshal_Index content;
    Ok (i_Manifests index)
  else Ok [].

(** [manifestutil.Subject]; [None] is the nil pointer. *)
Definition Subject (fetcher : Fetcher) (desc : OciDescriptor) : result (option OciDescriptor) :=
  if mem_string (MediaType desc)
       [MediaTypeImageManifest; MediaTypeImageIndex; spec_MediaTypeArtifactManifest] then
    content ← FetchAll fetcher desc;
    Unmarshal_Subject content
  else Ok None.

(** ** Lemmas *)

Lemma FetchAll_key fetcher a b :
  (forall d d', FromOCI d = FromOCI d' -> fetcher d = fetcher d') ->
  FromOCI a = FromOCI b -> FetchAll fetcher a = FetchAll fetcher b.
Proof.
  intros Hf Hk. unfold FetchAll. rewrite (Hf a b Hk). destruct (fetcher b) as [r| |]; simpl; try done.
  injection Hk as _ Hd Hs. unfold ReadAll, NewVerifyReader. by rewrite Hd, Hs.
Qed.

(** The successors of a node depend on its content key only, when the fetcher
    does. *)
Lemma Successors_key fetcher a b :
  (forall d d', FromOCI d = FromOCI d' -> fetcher d = fetcher d') ->
  FromOCI a = FromOCI b -> Successors fetcher a = Successors fetcher b.
Proof.
  intros Hf Hk. pose proof (FetchAll_key fetcher a b Hf Hk) as HF.
  injection Hk as Hm _ _. unfold Successors. by rewrite Hm, HF.
Qed.

(** Blobs - nodes whose media type is not a manifest type - are leaves and are
    never fetched. *)
Lemma Successors_blob fetcher node :
  IsManifest node = false -> Successors fetcher node = Ok [].
Proof.
  unfold IsManifest, mem_string. rewrite bool_decide_eq_false. intros Hn. unfold Successors.
  case_media; try done; destruct Hn; set_solver.
Qed.

(** Every successor list of a manifest comes from its own verified content. *)
Lemma Successors_fetched fetcher node s :
  IsManifest node = true -> Successors fetcher node = Ok s ->
  exists c, FetchAll fetcher node = Ok c.
Proof.
  unfold IsManifest. rewrite mem_string_spec. intros Hm. unfold Successors. case_media;
    intros Heq; inv_ok; eauto.
  exfalso. set_solver.
Qed.

End Manifests.

#[export] Hint Resolve FetchAll_key Successors_key : go.
