(* ===== verification/Storage.v ===== *)
(** The storage interface of [content/storage.go] and what its implementations
    promise to the code that copies content, with [content/limitedstorage.go]
    and [internal/cas/memory.go] as implementations. *)

From Stdlib Require Import ZArith Lia.
From S2P Require Import Prelude Errors Descriptor Reader.

(** ** The interface

    [content.Storage] over an explicit state [S]: [Fetch] and [Exists] read the
    state, [Push] returns the new one. *)
Class Storage (S : Type) := {
  st_Fetch : OciDescriptor -> S -> result Reader;
  st_Exists : OciDescriptor -> S -> result bool;
  st_Push : OciDescriptor -> Reader -> S -> result unit * S
}.

(** What a content-addressable storage promises.  [view s k] is the content
    stored under the key [k]; [inv] holds of every state the storage reaches. *)
Class StorageLaws (S : Type) `{GoDigest, Storage S} (inv : S -> Prop)
    (view : S -> Descriptor -> option bytes) := {
  (* the invariant is kept *)
  push_inv : forall d r s, inv s -> inv (st_Push d r s).2;
  (* stored content is never lost or changed by a push *)
  push_mono : forall d r s k c, inv s ->
    view s k = Some c -> view (st_Push d r s).2 k = Some c;
  (* a push that succeeds stored verified content, read from the reader *)
  push_ok : forall d r s s', inv s -> st_Push d r s = (Ok tt, s') ->
    exists c, verified d c /\ c = take (Z.to_nat (Size d)) (content r)
      /\ view s' (FromOCI d) = Some c;
  (* "already exists" is never reported for absent content, unless the reader
     itself failed with that error *)
  push_exists : forall d r s e s', inv s -> clean r -> st_Push d r s = (Err e, s') ->
    errors_Is e ErrAlreadyExists = true -> is_Some (view s' (FromOCI d));
  (* a push adds nothing but the pushed key, with content that passed verification *)
  push_verified : forall d r s k c, inv s ->
    view (st_Push d r s).2 k = Some c ->
    view s k = Some c
    \/ (k = FromOCI d /\ verified d c /\ c = take (Z.to_nat (Size d)) (content r));
  exists_view : forall d s b, inv s -> st_Exists d s = Ok b ->
    b = bool_decide (is_Some (view s (FromOCI d)));
  fetch_view : forall d s r, inv s -> st_Fetch d s = Ok r ->
    exists c, view s (FromOCI d) = Some c /\ content r = c /\ clean r;
  fetch_total : forall d s c, inv s -> view s (FromOCI d) = Some c ->
    exists r, st_Fetch d s = Ok r
}.

Arguments push_inv {S _ _ inv view _}.
Arguments push_mono {S _ _ inv view _}.
Arguments push_ok {S _ _ inv view _}.
Arguments push_exists {S _ _ inv view _}.
Arguments push_verified {S _ _ inv view _}.
Arguments exists_view {S _ _ inv view _}.
Arguments fetch_view {S _ _ inv view _}.
Arguments fetch_total {S _ _ inv view _}.

(** A sound state that has lost nothing of [s0]. *)
Definition grown {S} (inv : S -> Prop) (view : S -> Descriptor -> option bytes) (s0 s : S) : Prop :=
  inv s /\ forall k c, view s0 k = Some c -> view s k = Some c.

Lemma grown_refl {S} (inv : S -> Prop) view s : inv s -> grown inv view s s.
Proof. by split. Qed.

Lemma grown_trans {S} (inv : S -> Prop) view s0 s1 s2 :
  grown inv view s0 s1 -> grown inv view s1 s2 -> grown inv view s0 s2.
Proof. intros [_ H1] [Hi H2]. split; auto. Qed.

#[export] Hint Resolve grown_refl grown_trans : go.

(** A push of bytes that succeeds, or finds the content stored already. *)
Lemma push_bytes_stored {S} `{GoDigest} `{Storage S} (inv : S -> Prop) view `{!StorageLaws S inv view}
    d b (s s' : S) r :
  inv s -> st_Push d (bytes_NewReader b) s = (r, s') -> ok_or_exists r ->
  grown inv view s s' /\ is_Some (view s' (FromOCI d)).
Proof.
  intros Hi E Hr. pose proof (push_inv d (bytes_NewReader b) s Hi) as Hi1.
  pose proof (fun k c => push_mono d (bytes_NewReader b) s k c Hi) as Hm1. rewrite E in Hi1, Hm1.
  destruct (bytes_NewReader_spec b) as [Hc _]. split; [by split|]. destruct r as [[]|e|]; [| |done].
  - by destruct (push_ok d _ s s' Hi E) as (c & _ & _ & ->).
  - by apply (push_exists d _ s e s' Hi Hc E).
Qed.

(** ** [internal/cas/memory.go] *)

Module cas.

(** [cas.Memory]: the [sync.Map] from keys to contents. *)
Record Memory := mkMemory { mem_content : gmap Descriptor bytes }.

Definition NewMemory : Memory := mkMemory ∅.

(** [fmt.Errorf("%s: %s: %w", key.Digest, key.MediaType, s)]. *)
Definition key_err (d : OciDescriptor) (s : sentinel) : error :=
  EWrap (Digest d +:+ ": " +:+ MediaType d) s.

Section Memory.
Context `{GoDigest}.

Definition Fetch (target : OciDescriptor) (m : Memory) : result Reader :=
  match mem_content m !! FromOCI target with
  | None => Err (key_err target ErrNotFound)
  | Some content => Ok (bytes_NewReader content)
  end.

Definition Push (expected : OciDescriptor) (content : Reader) (m : Memory) : result unit * Memory :=
  let key := FromOCI expected in
  match mem_content m !! key with
  | Some _ => (Err (key_err expected ErrAlreadyExists), m)
  | None =>
      match ReadAll content expected with
      | Err e => (Err e, m)
      | Panic => (Panic, m)
      | Ok value =>
          (* LoadOrStore *)
          match mem_content m !! key with
          | Some _ => (Err (key_err expected ErrAlreadyExists), m)
          | None => (Ok tt, mkMemory (<[key := value]> (mem_content m)))
          end
      end
  end.

Definition Exists (target : OciDescriptor) (m : Memory) : result bool :=
  Ok (bool_decide (is_Some (mem_content m !! FromOCI target))).

Definition Map (m : Memory) : gmap Descriptor bytes := mem_content m.

#[global] Instance Memory_Storage : Storage Memory := {|
  st_Fetch := Fetch;
  st_Exists := Exists;
  st_Push := Push
|}.

Definition view (m : Memory) (k : Descriptor) : option bytes := mem_content m !! k.

(** Every stored content matches the size and digest it is stored under. *)
Definition wf (m : Memory) : Prop :=
  map_Forall (fun k c => Zlen c = kSize k
    /\ exists v, digest_Verifier (kDigest k) = Some v /\ v c = true) (mem_content m).

Lemma cas_NewMemory_wf : wf NewMemory.
Proof. apply map_Forall_empty. Qed.

(** One equation for every branch of [Push]. *)
Lemma cas_Push_cases d r m :
  Push d r m =
    match view m (FromOCI d) with
    | Some _ => (Err (key_err d ErrAlreadyExists), m)
    | None =>
        match ReadAll r d with
        | Ok c => (Ok tt, mkMemory (<[FromOCI d := c]> (mem_content m)))
        | Err e => (Err e, m)
        | Panic => (Panic, m)
        end
    end.
Proof.
  unfold Push, view. destruct (mem_content m !! FromOCI d) eqn:E; [done|].
  by destruct (ReadAll r d).
Qed.

Lemma cas_Push_wf d r m : wf m -> wf (Push d r m).2.
Proof.
  rewrite cas_Push_cases. destruct (view m _); [done|]. destruct (ReadAll r d) eqn:E; try done.
  simpl. intros Hm. apply map_Forall_insert_2; [|done].
  apply ReadAll_Ok_spec in E as (_ & _ & _ & ? & ?). eauto.
Qed.

#[global] Instance Memory_laws : StorageLaws Memory wf view.
Proof.
  split; cbn [st_Push st_Fetch st_Exists Memory_Storage].
  - intros. by apply cas_Push_wf.
  - intros d r m k c _ Hk. rewrite cas_Push_cases. destruct (view m (FromOCI d)) eqn:E; [done|].
    destruct (ReadAll r d); try done. unfold view in *. simpl.
    rewrite lookup_insert_ne; [done|]. congruence.
  - intros d r m m' _. rewrite cas_Push_cases. destruct (view m (FromOCI d)) eqn:E; [done|].
    destruct (ReadAll r d) as [c| |] eqn:ER; intros; simplify_eq/=.
    exists c. destruct (ReadAll_verified r d c) as [? ?]; [done|]. split_and!; [done..|].
    unfold view. simpl. by rewrite lookup_insert_eq.
  - intros d r m e m' _ Hc. rewrite cas_Push_cases. destruct (view m (FromOCI d)) eqn:E.
    + intros; simplify_eq. by rewrite E.
    + destruct (ReadAll r d) eqn:ER; intros; simplify_eq/=.
      apply ReadAll_clean_err in ER as [? _]; [congruence|done].
  - intros d r m k c _. rewrite cas_Push_cases. destruct (view m (FromOCI d)) eqn:E; [by left|].
    destruct (ReadAll r d) as [c'| |] eqn:ER; simpl; [|by left..]. unfold view. simpl.
    rewrite lookup_insert. case_decide; [|by left]. intros [= <-]. right.
    split; [done|]. by apply ReadAll_verified.
  - intros d m b _ [= <-]. done.
  - intros d m r _. unfold Fetch, view. destruct (mem_content m !! _) as [c|]; [|done].
    intros [= <-]. exists c. destruct (bytes_NewReader_spec c). naive_solver.
  - intros d m c _. unfold Fetch, view. intros ->. by eexists.
Qed.

End Memory.
End cas.

(** ** [content/limitedstorage.go] *)

Module limited.

(** [LimitedStorage]: any storage with a limit on the size of pushed content. *)
Record LimitedStorage (S : Type) := mkLS { ls_Storage : S; PushLimit : Z }.
Arguments mkLS {S}.
Arguments ls_Storage {S}.
Arguments PushLimit {S}.

Section LimitedStorage.
Context `{GoDigest} {S : Type} `{Storage S}.

Definition LimitStorage (s : S) (n : Z) : LimitedStorage S := mkLS s n.

Definition size_err : error :=
  EWrap "content size exceeds push size limit" ErrSizeExceedsLimit.

Definition Push (expected : OciDescriptor) (content : Reader) (ls : LimitedStorage S)
    : result unit * LimitedStorage S :=
  if decide (Size expected > PushLimit ls)%Z then (Err size_err, ls)
  else
    let '(res, s') := st_Push expected (LimitReader (Size expected) content) (ls_Storage ls) in
    (res, mkLS s' (PushLimit ls)).

(** The embedded storage provides the other methods. *)
#[global] Instance LimitedStorage_Storage : Storage (LimitedStorage S) := {|
  st_Fetch d ls := st_Fetch d (ls_Storage ls);
  st_Exists d ls := st_Exists d (ls_Storage ls);
  st_Push := Push
|}.

Context (inv : S -> Prop) (view : S -> Descriptor -> option bytes) `{!StorageLaws S inv view}.

Definition ls_inv (ls : LimitedStorage S) : Prop := inv (ls_Storage ls).
Definition ls_view (ls : LimitedStorage S) : Descriptor -> option bytes := view (ls_Storage ls).

(** A limited storage keeps every promise of the storage it wraps. *)
#[global] Instance LimitedStorage_laws : StorageLaws (LimitedStorage S) ls_inv ls_view.
Proof.
  unfold ls_inv, ls_view.
  split; cbn [st_Push st_Fetch st_Exists LimitedStorage_Storage]; unfold Push.
  - intros d r ls Hinv. case_decide; [done|].
    pose proof (push_inv d (LimitReader (Size d) r) (ls_Storage ls) Hinv).
    by destruct (st_Push _ _ _).
  - intros d r ls k c Hinv Hk. case_decide; [done|].
    pose proof (push_mono d (LimitReader (Size d) r) (ls_Storage ls) k c Hinv Hk).
    by destruct (st_Push _ _ _).
  - intros d r ls ls' Hinv. case_decide; [done|].
    destruct (st_Push _ _ _) as [res s'] eqn:HP. intros; simplify_eq.
    apply push_ok in HP as (c & Hv & Hc & ?); [|done].
    rewrite content_LimitReader, take_take, Nat.min_id in Hc. eauto.
  - intros d r ls e ls' Hinv Hcl. case_decide; [by intros; simplify_eq|].
    destruct (st_Push _ _ _) as [res s'] eqn:HP. intros; simplify_eq.
    apply (push_exists _ _ _ _ _ Hinv) in HP; [done|by apply clean_LimitReader|done].
  - intros d r ls k c Hinv. case_decide; [by left|].
    pose proof (push_verified d (LimitReader (Size d) r) (ls_Storage ls) k c Hinv) as Hp.
    rewrite content_LimitReader, take_take, Nat.min_id in Hp. by destruct (st_Push _ _ _).
  - intros d ls b Hinv. by apply exists_view.
  - intros d ls r Hinv. by apply fetch_view.
  - intros d ls c Hinv. by apply fetch_total.
Qed.

(** Content above the limit is refused without reading it, and the wrapped
    storage is not touched. *)
Lemma Push_over_limit d r ls :
  (Size d > PushLimit ls)%Z -> Push d r ls = (Err size_err, ls).
Proof. intros Hs. unfold Push. by rewrite decide_True. Qed.

End LimitedStorage.
End limited.

(** ** Properties *)

Section properties.
Context `{GoDigest}.

(** Round trip of the in-memory CAS.  A push that succeeds makes every
    descriptor with the same media type, digest and size fetch back exactly the
    pushed bytes, a second push under that key fails with [ErrAlreadyExists]
    and changes nothing, and no other key is affected. *)
Theorem cas_Memory_push_fetch (m m' : cas.Memory) (d : OciDescriptor) (r : Reader)
    (Hwf : cas.wf m) (Hpush : cas.Push d r m = (Ok tt, m')) :
  cas.wf m'
  /\ (forall d', FromOCI d' = FromOCI d ->
        FetchAll (fun t => cas.Fetch t m') d' = Ok (content r)
        /\ cas.Exists d' m' = Ok true
        /\ forall r', cas.Push d' r' m' = (Err (cas.key_err d' ErrAlreadyExists), m'))
  /\ (forall d', FromOCI d' <> FromOCI d -> cas.Fetch d' m' = cas.Fetch d' m).
Proof.
  pose proof (cas.cas_Push_wf d r m Hwf) as Hwf'. rewrite Hpush in Hwf'. simpl in Hwf'.
  rewrite cas.cas_Push_cases in Hpush. destruct (cas.view m (FromOCI d)) eqn:E; [done|].
  destruct (ReadAll r d) as [c| |] eqn:ER; simplify_eq.
  apply ReadAll_Ok_spec in ER as (HS & Hcl & <- & Hlen & Hv).
  split; [done|]. split.
  - intros d' Hk.
    assert (cas.view (cas.mkMemory (<[FromOCI d := content r]> (cas.mem_content m))) (FromOCI d')
            = Some (content r)) as Hview.
    { unfold cas.view. simpl. by rewrite Hk, lookup_insert_eq. }
    split_and!.
    + unfold FetchAll, cas.Fetch. unfold cas.view in Hview. rewrite Hview. simpl.
      destruct (bytes_NewReader_spec (content r)) as [? ?].
      injection Hk as Hm Hd Hs. apply ReadAll_Ok_spec. rewrite Hs, Hd. auto.
    + unfold cas.Exists. unfold cas.view in Hview. rewrite Hview. done.
    + intros r'. by rewrite cas.cas_Push_cases, Hview.
  - intros d' Hk. unfold cas.Fetch. simpl. by rewrite lookup_insert_ne.
Qed.

End properties.

Import HexDigest.

Lemma cas_Memory_push_fetch_witness :
  let d := NewDescriptorFromBytes "text/plain" (str_bytes "hello") in
  let r := example_reader in
  let m' := (cas.Push d r cas.NewMemory).2 in
  cas.Push d r cas.NewMemory = (Ok tt, m')
  /\ FetchAll (fun t => cas.Fetch t m') (set_ArtifactType "x" d) = Ok (str_bytes "hello").
Proof.
  intros d r m'.
  assert (Hpush : cas.Push d r cas.NewMemory = (Ok tt, m')) by (vm_compute; reflexivity).
  split; [exact Hpush|].
  destruct (cas_Memory_push_fetch cas.NewMemory m' d r cas.cas_NewMemory_wf Hpush) as (_ & H & _).
  apply (H (set_ArtifactType "x" d)). reflexivity.
Defined.
