(* ===== verification/Proxy.v ===== *)
(** The caching proxy of [internal/cas/proxy.go] with the cache [NewProxyWithLimit]
    gives it: a limited in-memory CAS in front of any storage. *)

From Stdlib Require Import ZArith Lia.
From S2P Require Import Prelude Errors Descriptor Reader Storage.

(** [cas.Proxy]. *)
Record Proxy (B : Type) := mkProxy {
  p_Base : B;
  p_Cache : limited.LimitedStorage cas.Memory;
  p_StopCaching : bool
}.
Arguments mkProxy {B}.
Arguments p_Base {B}.
Arguments p_Cache {B}.
Arguments p_StopCaching {B}.

Section Proxy.
Context `{GoDigest} {B : Type} `{Storage B}.

Definition NewProxyWithLimit (base : B) (cache : cas.Memory) (pushLimit : Z) : Proxy B :=
  mkProxy base (limited.LimitStorage cache pushLimit) false.

Definition set_StopCaching (b : bool) (p : Proxy B) : Proxy B :=
  mkProxy (p_Base p) (p_Cache p) b.

(** [FetchCached]: the cache if the content is there, else the base, without
    caching. *)
Definition FetchCached (target : OciDescriptor) (p : Proxy B) : result Reader :=
  exists_ ← st_Exists target (p_Cache p);
  if (exists_ : bool) then st_Fetch target (p_Cache p) else st_Fetch target (p_Base p).

(** [Exists]. *)
Definition Proxy_Exists (target : OciDescriptor) (p : Proxy B) : result bool :=
  match st_Exists target (p_Cache p) with
  | Ok true => Ok true
  | _ => st_Exists target (p_Base p)
  end.

(** What [Fetch] returns: a plain reader, or the base's reader teed into a push
    to the cache. *)
Inductive FetchedReader :=
| Plain_reader (r : Reader)
| Tee_reader (r : Reader).

Definition Fetch (target : OciDescriptor) (p : Proxy B) : result FetchedReader :=
  if p_StopCaching p then Plain_reader <$> FetchCached target p
  else match st_Fetch target (p_Cache p) with
  | Ok rc => Ok (Plain_reader rc)
  | _ => Tee_reader <$> st_Fetch target (p_Base p)
  end.

(** The stream seen by a consumer that asks for [n] bytes when the writer of
    the tee fails with [e]: the first read that delivers data also reports [e]. *)
Fixpoint failing_chunks (n : nat) (cs : list bytes) : option (list bytes) :=
  match cs with
  | [] => None
  | [] :: cs' => cons [] <$> failing_chunks n cs'
  | c :: _ => Some [take n c]
  end.

Definition failing_tee (n : nat) (e : error) (r : Reader) : Reader :=
  match failing_chunks n (rd_chunks r) with
  | None => r
  | Some cs => mkReader cs (Some e) e
  end.

(** The bytes [ReadAll] takes from a stream, the byte read by [ensureEOF]
    included: these are what the tee hands to the push. *)
Definition pulled (n : nat) (r : Reader) : bytes := take (S n) (content r).

(** [content.ReadAll] and the deferred [Close] on the base's reader teed into a
    push to the cache.  The push reads [io.LimitReader(pr, Size)]: once it has
    stored its [Size] bytes it returns nil and leaves the pipe open, so that a
    byte written to the tee after them waits for a reader for ever ([None]).
    When the push fails it closes the pipe with its error and that write returns,
    and [ensureEOF] takes any error but [io.EOF] for trailing data.  [Close] ends
    the pipe and waits for the push. *)
Definition tee_ReadAll (target : OciDescriptor) (rc : Reader) : MB (Proxy B) bytes :=
  fun p =>
    let n := Z.to_nat (Size target) in
    if decide (Size target > limited.PushLimit (p_Cache p))%Z
    then (* the push refuses the content and closes the pipe with its error *)
      Some (ReadAll (failing_tee n limited.size_err rc) target, p)
    else
      let '(pushed, cache') := st_Push target (bytes_NewReader (pulled n rc)) (p_Cache p) in
      if decide (is_ok pushed = true /\ n < length (pulled n rc))
      then None
      else Some (ReadAll rc target, mkProxy (p_Base p) cache' (p_StopCaching p)).

(** [content.FetchAll] on the proxy: [Fetch], [ReadAll] and [Close]. *)
Definition Proxy_FetchAll (target : OciDescriptor) : MB (Proxy B) bytes :=
  fun p =>
    match Fetch target p with
    | Err e => Some (Err e, p)
    | Panic => Some (Panic, p)
    | Ok (Plain_reader rc) => Some (ReadAll rc target, p)
    | Ok (Tee_reader rc) => tee_ReadAll target rc p
    end.

(** ** Lemmas *)

(** The cache invariant: everything cached matches its key. *)
Definition proxy_wf (p : Proxy B) : Prop := cas.wf (limited.ls_Storage (p_Cache p)).

Definition cached (p : Proxy B) (k : Descriptor) : option bytes :=
  cas.view (limited.ls_Storage (p_Cache p)) k.

Lemma NewProxy_wf base n : proxy_wf (NewProxyWithLimit base cas.NewMemory n).
Proof. apply cas.cas_NewMemory_wf. Qed.

Lemma cache_Fetch d p :
  st_Fetch d (p_Cache p) =
    match cached p (FromOCI d) with
    | Some c => Ok (bytes_NewReader c)
    | None => Err (cas.key_err d ErrNotFound)
    end.
Proof. done. Qed.

(** What reading through the tee does, by the outcome of the push: the push sees
    the first [Size] bytes only. *)
Lemma tee_ReadAll_cases d rc p :
  cached p (FromOCI d) = None -> (Size d <= limited.PushLimit (p_Cache p))%Z ->
  tee_ReadAll d rc p =
    let n := Z.to_nat (Size d) in
    match ReadAll (bytes_NewReader (take n (content rc))) d with
    | Ok c =>
        if decide (n < length (content rc)) then None
        else Some (ReadAll rc d, mkProxy (p_Base p)
          (limited.LimitStorage
            (cas.mkMemory (<[FromOCI d := c]> (cas.mem_content (limited.ls_Storage (p_Cache p)))))
            (limited.PushLimit (p_Cache p))) (p_StopCaching p))
    | _ => Some (ReadAll rc d, p)
    end.
Proof.
  intros Hc Hlim. unfold tee_ReadAll. rewrite decide_False by lia. cbv zeta.
  set (n := Z.to_nat (Size d)). cbn [st_Push limited.LimitedStorage_Storage].
  unfold limited.Push. rewrite decide_False by lia. cbn [st_Push cas.Memory_Storage].
  rewrite cas.cas_Push_cases. unfold cached in Hc. rewrite Hc.
  assert (ReadAll (LimitReader (Size d) (bytes_NewReader (pulled n rc))) d
          = ReadAll (bytes_NewReader (take n (content rc))) d) as ->.
  { destruct (bytes_NewReader_spec (pulled n rc)) as [H1 H2].
    destruct (bytes_NewReader_spec (take n (content rc))) as [H3 H4].
    rewrite !ReadAll_clean_spec by (try apply clean_LimitReader; done).
    rewrite content_LimitReader, H2, H4. unfold pulled. fold n. by rewrite take_take, Nat.min_l by lia. }
  assert (length (pulled n rc) = S n `min` length (content rc)) as Hl by apply length_take.
  destruct (ReadAll (bytes_NewReader _) d); cbv beta iota.
  - destruct (decide (n < length (content rc))); [rewrite decide_True by (split; [done|lia]); done|].
    rewrite decide_False by (intros [_ ?]; lia). done.
  - rewrite decide_False by naive_solver. by destruct p as [? [? ?] ?].
  - rewrite decide_False by naive_solver. by destruct p as [? [? ?] ?].
Qed.

(** When the read blocks: the content that follows the valid content makes the
    consumer write to a pipe that the push has stopped reading. *)
Lemma tee_ReadAll_blocks d rc p :
  cached p (FromOCI d) = None -> (Size d <= limited.PushLimit (p_Cache p))%Z ->
  tee_ReadAll d rc p = None <->
    (Size d < Zlen (content rc))%Z
    /\ is_ok (ReadAll (bytes_NewReader (take (Z.to_nat (Size d)) (content rc))) d) = true.
Proof.
  intros Hc Hlim. rewrite tee_ReadAll_cases by done. cbv zeta.
  destruct (ReadAll (bytes_NewReader _) d) as [c| |] eqn:ER; simpl; [|naive_solver..].
  apply ReadAll_Ok_spec in ER as (HS & _). unfold Zlen.
  case_decide; split; try done; intros; [split; [lia|done]|]. destruct_and!. lia.
Qed.

(** A reader with no data after the described content is always read to an end. *)
Lemma tee_ReadAll_returns d rc p :
  length (content rc) <= Z.to_nat (Size d) -> is_Some (tee_ReadAll d rc p).
Proof.
  intros Hl. unfold tee_ReadAll. case_decide; [by eexists|]. destruct (st_Push _ _ _) as [pushed c'].
  rewrite decide_False; [by eexists|]. intros [_ Hn]. unfold pulled in Hn. rewrite length_take in Hn. lia.
Qed.

Lemma tee_ReadAll_result d rc p r p' :
  tee_ReadAll d rc p = Some (r, p') ->
  p_Base p' = p_Base p /\ p_StopCaching p' = p_StopCaching p
  /\ exists r', r = ReadAll r' d.
Proof.
  unfold tee_ReadAll. case_decide; [intros [= <- <-]; eauto|].
  destruct (st_Push _ _ _) as [pushed c']. case_decide; [done|]. intros [= <- <-]; eauto.
Qed.

Lemma Proxy_FetchAll_result d p r p' :
  Proxy_FetchAll d p = Some (r, p') ->
  p_Base p' = p_Base p
  /\ ((exists r', r = ReadAll r' d) \/ is_ok r = false).
Proof.
  unfold Proxy_FetchAll. destruct (Fetch d p) as [[rc|rc]| |]; [intros [= <- <-]; eauto| |intros [= <- <-]; auto..].
  intros HT. apply tee_ReadAll_result in HT as (? & _ & ?). auto.
Qed.

Lemma Proxy_FetchAll_wf d p r p' :
  Proxy_FetchAll d p = Some (r, p') -> proxy_wf p -> proxy_wf p'.
Proof.
  intros HF Hwf. unfold Proxy_FetchAll, tee_ReadAll in HF.
  destruct (Fetch d p) as [[rc|rc]| |]; try (by injection HF as _ <-).
  case_decide; [by injection HF as _ <-|]. unfold st_Push, limited.LimitedStorage_Storage, limited.Push in HF.
  rewrite decide_False in HF by done.
  pose proof (cas.cas_Push_wf d (LimitReader (Size d)
    (bytes_NewReader (pulled (Z.to_nat (Size d)) rc))) _ Hwf) as Hw.
  unfold st_Push, cas.Memory_Storage in HF. destruct (cas.Push _ _ _) as [pushed m'].
  case_decide; [done|]. by injection HF as _ <-.
Qed.

(** A cached content is returned as it is, whatever the base would answer. *)
Lemma Proxy_FetchAll_hit d p c :
  proxy_wf p -> (0 <= Size d <= maxAlloc)%Z -> cached p (FromOCI d) = Some c ->
  Proxy_FetchAll d p = Some (Ok c, p).
Proof.
  intros Hwf HS Hc.
  assert (Fetch d p = Ok (Plain_reader (bytes_NewReader c))) as HF.
  { unfold Fetch, FetchCached. rewrite cache_Fetch, Hc.
    destruct (p_StopCaching p); [|done]. unfold cached, cas.view in Hc. simpl.
    unfold cas.Exists. by rewrite Hc. }
  unfold Proxy_FetchAll. rewrite HF. do 2 f_equal.
  destruct (bytes_NewReader_spec c) as [? ?]. destruct (Hwf _ _ Hc) as [Hl Hv].
  apply ReadAll_Ok_spec. auto.
Qed.

Lemma Fetch_miss d p rc :
  p_StopCaching p = false -> cached p (FromOCI d) = None -> st_Fetch d (p_Base p) = Ok rc ->
  Fetch d p = Ok (Tee_reader rc).
Proof. intros Hs Hc Hb. unfold Fetch. by rewrite Hs, cache_Fetch, Hc, Hb. Qed.

(** Valid content is returned and cached. *)
Lemma Proxy_FetchAll_miss d p rc c :
  p_StopCaching p = false -> cached p (FromOCI d) = None ->
  st_Fetch d (p_Base p) = Ok rc -> (Size d <= limited.PushLimit (p_Cache p))%Z ->
  ReadAll rc d = Ok c ->
  exists p', Proxy_FetchAll d p = Some (Ok c, p') /\ p_StopCaching p' = false
    /\ cached p' (FromOCI d) = Some c
    /\ (forall k, k <> FromOCI d -> cached p' k = cached p k).
Proof.
  intros Hs Hc Hb Hlim HR. unfold Proxy_FetchAll. rewrite (Fetch_miss d p rc) by done.
  rewrite tee_ReadAll_cases by done. pose proof HR as HR'.
  apply ReadAll_Ok_spec in HR as (HS & Hcl & Hcc & Hl & Hv). unfold Zlen in Hl. cbv zeta.
  destruct (bytes_NewReader_spec c) as [? ?].
  assert (ReadAll (bytes_NewReader (take (Z.to_nat (Size d)) (content rc))) d = Ok c) as ->.
  { rewrite Hcc, take_ge by lia. apply ReadAll_Ok_spec. auto. }
  rewrite decide_False by (rewrite Hcc; lia). eexists. split; [by rewrite HR'|]. split; [done|].
  unfold cached, cas.view. simpl. split; [by rewrite lookup_insert_eq|].
  intros k Hk. by rewrite lookup_insert_ne.
Qed.

(** Content larger than the cache limit is neither cached nor returned. *)
Lemma failing_tee_spec n e r :
  content (failing_tee n e r) = [] \/ e = ESentinel EOF \/ ~ clean (failing_tee n e r).
Proof.
  unfold failing_tee. destruct (failing_chunks n (rd_chunks r)) as [cs|] eqn:E.
  - destruct cs as [|c cs]; [by left|]. destruct (decide (e = ESentinel EOF)); [auto|].
    right; right. unfold clean. simpl. naive_solver.
  - left. revert E. induction (rd_chunks r) as [|[|x c] cs IH]; simpl; [done| |done].
    destruct (failing_chunks n cs); [done|auto].
Qed.

Lemma Proxy_FetchAll_too_large d p rc :
  p_StopCaching p = false -> cached p (FromOCI d) = None ->
  st_Fetch d (p_Base p) = Ok rc -> (0 <= limited.PushLimit (p_Cache p) < Size d)%Z ->
  exists r, Proxy_FetchAll d p = Some (r, p) /\ is_ok r = false.
Proof.
  intros Hs Hc Hb Hlim. unfold Proxy_FetchAll, tee_ReadAll. rewrite (Fetch_miss d p rc) by done.
  rewrite decide_True by lia. eexists. split; [done|].
  set (ft := failing_tee _ _ _). destruct (ReadAll ft d) as [c| |] eqn:ER; try done.
  apply ReadAll_Ok_spec in ER as (_ & Hcl & Hcc & Hl & _). exfalso.
  destruct (failing_tee_spec (Z.to_nat (Size d)) limited.size_err rc) as [Hn|[?|?]]; try done.
  subst ft c. rewrite Hn in Hl. simpl in Hl. unfold Zlen in Hl. simpl in Hl. lia.
Qed.

End Proxy.

(** ** Properties *)

Section properties.
Context `{GoDigest} {B : Type} `{Storage B}.

(** The caching proxy is transparent and caches.  On a proxy that caches and
    does not hold [d] yet, when the base delivers valid content within the limit,
    reading [d] through the proxy gives that content, and a second read returns
    the same bytes from the cache without changing the proxy, even if the base
    storage has been replaced by any other one. *)
Theorem Proxy_fetch_twice (d : OciDescriptor) (p : Proxy B) (rc : Reader) (c : bytes)
    (Hwf : proxy_wf p) (Hcaching : p_StopCaching p = false)
    (Hmiss : cached p (FromOCI d) = None) (Hbase : st_Fetch d (p_Base p) = Ok rc)
    (Hlimit : (Size d <= limited.PushLimit (p_Cache p))%Z) (Hread : ReadAll rc d = Ok c) :
  exists p', Proxy_FetchAll d p = Some (Ok c, p')
  /\ forall base',
       let q := mkProxy base' (p_Cache p') (p_StopCaching p') in
       Proxy_FetchAll d q = Some (Ok c, q) /\ FetchCached d q = Ok (bytes_NewReader c).
Proof.
  destruct (Proxy_FetchAll_miss d p rc c Hcaching Hmiss Hbase Hlimit Hread) as (p' & HF & Hst & Hc & _).
  pose proof (Proxy_FetchAll_wf d p _ _ HF Hwf) as Hwf'.
  exists p'. split; [done|]. intros base'. set (q := mkProxy base' _ _).
  apply ReadAll_Ok_spec in Hread as (HS & _).
  assert (cached q (FromOCI d) = Some c) as Hq by done. split.
  - by apply Proxy_FetchAll_hit.
  - unfold FetchCached. rewrite cache_Fetch, Hq. unfold cached, cas.view in Hq.
    cbn [st_Exists limited.LimitedStorage_Storage cas.Memory_Storage]. unfold cas.Exists.
    by rewrite Hq.
Qed.

(** A manifest above the cache limit cannot be read through the caching
    proxy: the read fails, and neither the cache nor the base changes. *)
Theorem Proxy_over_limit_fails (d : OciDescriptor) (p : Proxy B) (rc : Reader)
    (Hcaching : p_StopCaching p = false) (Hmiss : cached p (FromOCI d) = None)
    (Hbase : st_Fetch d (p_Base p) = Ok rc)
    (Hlimit : (0 <= limited.PushLimit (p_Cache p) < Size d)%Z) :
  exists r, Proxy_FetchAll d p = Some (r, p) /\ is_ok r = false.
Proof. by apply (Proxy_FetchAll_too_large d p rc). Qed.

(** A read of over-long content through the caching proxy never returns when the
    content starts with the described bytes. *)
Theorem Proxy_FetchAll_blocks (d : OciDescriptor) (p : Proxy B) (rc : Reader)
    (Hcaching : p_StopCaching p = false) (Hmiss : cached p (FromOCI d) = None)
    (Hbase : st_Fetch d (p_Base p) = Ok rc)
    (Hlimit : (Size d <= limited.PushLimit (p_Cache p))%Z)
    (Hlong : (Size d < Zlen (content rc))%Z)
    (Hvalid : is_ok (ReadAll (bytes_NewReader (take (Z.to_nat (Size d)) (content rc))) d) = true) :
  Proxy_FetchAll d p = None.
Proof.
  unfold Proxy_FetchAll. rewrite (Fetch_miss d p rc) by done. by apply tee_ReadAll_blocks.
Qed.

End properties.

Import HexDigest.

Definition example_base : cas.Memory :=
  (cas.Push (NewDescriptorFromBytes "text/plain" (str_bytes "hello"))
     (bytes_NewReader (str_bytes "hello")) cas.NewMemory).2.

Lemma Proxy_fetch_twice_witness :
  let d := NewDescriptorFromBytes "text/plain" (str_bytes "hello") in
  let p := NewProxyWithLimit example_base cas.NewMemory 5 in
  exists p', Proxy_FetchAll d p = Some (Ok (str_bytes "hello"), p')
  /\ Proxy_FetchAll d (mkProxy cas.NewMemory (p_Cache p') (p_StopCaching p'))
     = Some (Ok (str_bytes "hello"), mkProxy cas.NewMemory (p_Cache p') (p_StopCaching p')).
Proof.
  intros d p.
  assert (exists p', Proxy_FetchAll d p = Some (Ok (str_bytes "hello"), p')
    /\ forall base' : cas.Memory, let q := mkProxy base' (p_Cache p') (p_StopCaching p') in
       Proxy_FetchAll d q = Some (Ok (str_bytes "hello"), q)
       /\ FetchCached d q = Ok (bytes_NewReader (str_bytes "hello"))) as (p' & HF & Hq).
  { apply (Proxy_fetch_twice d p (bytes_NewReader (str_bytes "hello"))); [apply NewProxy_wf|..];
      vm_compute; first [reflexivity|discriminate]. }
  exists p'. split; [exact HF|]. apply (Hq cas.NewMemory).
Defined.

Lemma Proxy_over_limit_fails_witness :
  let d := NewDescriptorFromBytes "text/plain" (str_bytes "hello") in
  let p := NewProxyWithLimit example_base cas.NewMemory 4 in
  exists r, Proxy_FetchAll d p = Some (r, p) /\ is_ok r = false.
Proof.
  intros d p.
  apply (Proxy_over_limit_fails d p (bytes_NewReader (str_bytes "hello")));
    [reflexivity|reflexivity|vm_compute; reflexivity|].
  vm_compute. split; [discriminate|reflexivity].
Defined.
