(* ===== verification/Graph.v ===== *)
(** The in-memory predecessor index: [internal/graph/memory.go].  The invariant
    is the one the comments of [graph.Memory] state for its three maps. *)

From Stdlib Require Import ZArith Lia.
From S2P Require Import Prelude Errors Descriptor Reader Manifest.

Module graph.

(** [graph.Memory] without its lock: every operation runs under it. *)
Record Memory := mkMemory {
  nodes : gmap Descriptor OciDescriptor;
  predecessors : gmap Descriptor (gset Descriptor);
  successors : gmap Descriptor (gset Descriptor)
}.

Definition NewMemory : Memory := mkMemory ∅ ∅ ∅.

(** Reading a missing key of a Go map of sets gives the nil set. *)
Definition set_at (m : gmap Descriptor (gset Descriptor)) (k : Descriptor) : gset Descriptor :=
  default ∅ (m !! k).

Section Memory.
Context {GD : GoDigest} {MJ : ManifestJSON} {MO : MapOrder}.

(** The loop of [index]: [node] becomes a predecessor of every successor. *)
Definition add_predecessors (nodeKey : Descriptor) (succs : list OciDescriptor)
    (preds : gmap Descriptor (gset Descriptor)) : gmap Descriptor (gset Descriptor) :=
  fold_left (fun preds s =>
    let key := FromOCI s in <[key := {[nodeKey]} ∪ set_at preds key]> preds) succs preds.

(** The part of [index] that runs under the lock. *)
Definition index_node (node : OciDescriptor) (succs : list OciDescriptor) (m : Memory) : Memory :=
  let nodeKey := FromOCI node in
  mkMemory
    (<[nodeKey := node]> (nodes m))
    (add_predecessors nodeKey succs (predecessors m))
    (<[nodeKey := list_to_set (FromOCI <$> succs)]> (successors m)).

(** [index]. *)
Definition index (fetcher : Fetcher) (node : OciDescriptor) (m : Memory)
    : result (list OciDescriptor) * Memory :=
  match Successors fetcher node with
  | Err e => (Err e, m)
  | Panic => (Panic, m)
  | Ok succs => (Ok succs, index_node node succs m)
  end.

(** [Index]. *)
Definition Index (fetcher : Fetcher) (node : OciDescriptor) (m : Memory) : result unit * Memory :=
  let '(res, m') := index fetcher node m in ((fun _ => tt) <$> res, m').

(** [IndexAll] with the goroutines of [syncutil.Go] run one after the other:
    [todo] holds the calls of [fn] not made yet and [tracker] the committed
    keys.  [fuel] bounds the number of calls. *)
Fixpoint index_all (fetcher : Fetcher) (fuel : nat) (todo : list OciDescriptor)
    (tracker : gset Descriptor) (m : Memory) : option (result unit * Memory) :=
  match todo with
  | [] => Some (Ok tt, m)
  | desc :: todo' =>
      match fuel with
      | O => None
      | S fuel' =>
          if decide (FromOCI desc ∈ tracker) then index_all fetcher fuel' todo' tracker m
          else
            let tracker' := {[FromOCI desc]} ∪ tracker in
            match index fetcher desc m with
            | (Ok succs, m') => index_all fetcher fuel' (succs ++ todo') tracker' m'
            | (Err e, m') =>
                if errors_Is e ErrNotFound then index_all fetcher fuel' todo' tracker' m'
                else Some (Err e, m')
            | (Panic, m') => Some (Panic, m')
            end
      end
  end.

Definition IndexAll (fetcher : Fetcher) (fuel : nat) (node : OciDescriptor) (m : Memory)
    : option (result unit * Memory) :=
  index_all fetcher fuel [node] ∅ m.

(** [Predecessors]: the descriptor saved for each predecessor key; a key with no
    saved node reads as the zero descriptor. *)
Definition Predecessors (node : OciDescriptor) (m : Memory) : list OciDescriptor :=
  match predecessors m !! FromOCI node with
  | None => []
  | Some s => (fun k => default zeroDescriptor (nodes m !! k)) <$> range_set s
  end.

(** One iteration of the loop of [Remove] over the successors of the node. *)
Definition remove_step (nodeKey : Descriptor) (nodes : gmap Descriptor OciDescriptor)
    (st : gmap Descriptor (gset Descriptor) * list OciDescriptor) (successorKey : Descriptor)
    : gmap Descriptor (gset Descriptor) * list OciDescriptor :=
  let '(preds, danglings) := st in
  let entry := set_at preds successorKey ∖ {[nodeKey]} in
  if decide (entry = ∅) then
    (delete successorKey preds,
     match nodes !! successorKey with
     | Some d => danglings ++ [d]
     | None => danglings
     end)
  else (<[successorKey := entry]> preds, danglings).

(** [Remove]: the dangling nodes and the new index. *)
Definition Remove (node : OciDescriptor) (m : Memory) : list OciDescriptor * Memory :=
  let nodeKey := FromOCI node in
  let '(preds, danglings) :=
    fold_left (remove_step nodeKey (nodes m)) (range_set (set_at (successors m) nodeKey))
      (predecessors m, []) in
  (danglings, mkMemory (delete nodeKey (nodes m)) preds (delete nodeKey (successors m))).

(** [DigestSet]. *)
Definition DigestSet (m : Memory) : gset string :=
  set_map kDigest (dom (nodes m)).

(** [Exists]. *)
Definition Exists (node : OciDescriptor) (m : Memory) : bool :=
  bool_decide (is_Some (nodes m !! FromOCI node)).

(** ** The invariant of [graph.Memory] *)

Record wf (m : Memory) : Prop := {
  (* a node is in [nodes] exactly when it is in [successors] *)
  wf_dom : dom (nodes m) = dom (successors m);
  (* [nodes] saves the descriptor of its key *)
  wf_nodes : forall k d, nodes m !! k = Some d -> FromOCI d = k;
  (* predecessors and successors are converse relations *)
  wf_converse : forall p s, p ∈ set_at (predecessors m) s <-> s ∈ set_at (successors m) p;
  (* a key is in [predecessors] only if it has a predecessor *)
  wf_nonempty : forall s e, predecessors m !! s = Some e -> e <> ∅
}.

Lemma graph_NewMemory_wf : wf NewMemory.
Proof.
  split; simpl; [by rewrite !dom_empty_L|by intros; simplify_map_eq|done|by intros; simplify_map_eq].
Qed.

(** *** Indexing *)

Lemma set_at_insert m k s k' :
  set_at (<[k := s]> m) k' = if decide (k = k') then s else set_at m k'.
Proof. unfold set_at. rewrite lookup_insert. by case_decide. Qed.

Lemma set_at_delete m k k' :
  set_at (delete k m) k' = if decide (k = k') then ∅ else set_at m k'.
Proof. unfold set_at. rewrite lookup_delete. by case_decide. Qed.

Lemma add_predecessors_spec nodeKey succs preds p s :
  p ∈ set_at (add_predecessors nodeKey succs preds) s <->
    p ∈ set_at preds s \/ (p = nodeKey /\ s ∈ FromOCI <$> succs).
Proof.
  unfold add_predecessors. revert preds. induction succs as [|d succs IH]; intros preds; simpl.
  - set_solver.
  - rewrite IH, set_at_insert. case_decide; set_solver.
Qed.

Lemma add_predecessors_nonempty nodeKey succs preds :
  (forall s e, preds !! s = Some e -> e <> ∅) ->
  forall s e, add_predecessors nodeKey succs preds !! s = Some e -> e <> ∅.
Proof.
  unfold add_predecessors. revert preds. induction succs as [|d succs IH]; intros preds Hp; simpl; [done|].
  apply IH. intros s e. rewrite lookup_insert. case_decide; [set_solver|apply Hp].
Qed.

(** Indexing a node keeps the invariant, provided the node, if it is already
    indexed, still has the same successors: content is immutable under its key. *)
Lemma index_node_wf node succs m :
  wf m ->
  (forall e, successors m !! FromOCI node = Some e -> e = list_to_set (FromOCI <$> succs)) ->
  wf (index_node node succs m).
Proof.
  intros Hwf Hsame. unfold index_node. split; simpl.
  - rewrite !dom_insert_L. by rewrite (wf_dom _ Hwf).
  - intros k d. rewrite lookup_insert. case_decide; [naive_solver|apply (wf_nodes _ Hwf)].
  - intros p s. rewrite add_predecessors_spec, set_at_insert, (wf_converse _ Hwf).
    case_decide as Hd; [|naive_solver]. subst p. unfold set_at.
    destruct (successors m !! FromOCI node) as [e|] eqn:E; simpl; [|set_solver].
    rewrite (Hsame e eq_refl). set_solver.
  - apply add_predecessors_nonempty, (wf_nonempty _ Hwf).
Qed.

Lemma Index_wf fetcher node m :
  wf m ->
  (forall l e, Successors fetcher node = Ok l ->
     successors m !! FromOCI node = Some e -> e = list_to_set (FromOCI <$> l)) ->
  wf (Index fetcher node m).2.
Proof.
  intros Hwf Hsame. unfold Index, index.
  destruct (Successors fetcher node) as [l| |] eqn:HS; simpl; [|done..].
  apply index_node_wf; [done|]. intros e He. by apply Hsame.
Qed.

(** *** Removal *)

(** The loop of [Remove], for any enumeration of a duplicate-free key list. *)
Lemma remove_loop_spec nodeKey ns l preds dang :
  NoDup l ->
  let '(preds', dang') := fold_left (remove_step nodeKey ns) l (preds, dang) in
  (forall s, set_at preds' s =
     if decide (s ∈ l) then set_at preds s ∖ {[nodeKey]} else set_at preds s)
  /\ ((forall s e, preds !! s = Some e -> e <> ∅) ->
      forall s e, preds' !! s = Some e -> e <> ∅)
  /\ (forall d, d ∈ dang' <-> d ∈ dang \/ exists s, s ∈ l /\ ns !! s = Some d
        /\ set_at preds s ⊆ {[nodeKey]}).
Proof.
  revert preds dang. induction l as [|k l IH]; intros preds dang Hnd; cbn [fold_left].
  { split_and!; [done|done|]. set_solver. }
  apply list.NoDup_cons in Hnd as [Hk Hnd].
  set (entry := set_at preds k ∖ {[nodeKey]}).
  assert (entry = ∅ <-> set_at preds k ⊆ {[nodeKey]}) as Hentry.
  { split; [apply empty_difference_subseteq_L|apply subseteq_empty_difference_L]. }
  assert (forall s, set_at (if decide (entry = ∅) then delete k preds else <[k := entry]> preds) s
    = if decide (s = k) then entry else set_at preds s) as Hat.
  { intros s. destruct (decide (entry = ∅)) as [He|He].
    - rewrite set_at_delete. repeat case_decide; naive_solver.
    - rewrite set_at_insert. repeat case_decide; naive_solver. }
  assert (remove_step nodeKey ns (preds, dang) k =
    (if decide (entry = ∅) then delete k preds else <[k := entry]> preds,
     if decide (entry = ∅) then dang ++ opt_list (ns !! k) else dang)) as ->.
  { unfold remove_step. fold entry. destruct (decide (entry = ∅)); [|done].
    destruct (ns !! k); simpl; [done|]. by rewrite app_nil_r. }
  set (preds1 := if decide _ then _ else _) in *. set (dang1 := if decide _ then _ else _).
  specialize (IH preds1 dang1 Hnd). destruct (fold_left _ _ _) as [preds' dang'].
  destruct IH as (IH1 & IH2 & IH3). split_and!.
  - intros s. rewrite IH1, Hat. clear -Hk. destruct (decide (s = k)) as [->|Hne].
    + rewrite decide_False by done. rewrite decide_True by (by left). done.
    + destruct (decide (s ∈ l)); [rewrite decide_True by (by right)|rewrite decide_False]; [done..|].
      by rewrite elem_of_cons; intros [?|?].
  - intros Hne. apply IH2. intros s e. subst preds1. destruct (decide (entry = ∅)).
    + rewrite lookup_delete. case_decide; [done|apply Hne].
    + rewrite lookup_insert. case_decide; [by intros [= <-]|apply Hne].
  - assert (forall s, s ∈ l -> set_at preds1 s = set_at preds s) as Hl.
    { intros s Hs. rewrite Hat. rewrite decide_False; [done|]. by intros ->. }
    assert (forall d, d ∈ dang1 <-> d ∈ dang \/ (ns !! k = Some d /\ set_at preds k ⊆ {[nodeKey]})) as Hd1.
    { intros d. subst dang1. destruct (decide (entry = ∅)) as [He|He].
      - rewrite elem_of_app. apply Hentry in He. destruct (ns !! k) as [d'|]; simpl.
        + rewrite list_elem_of_singleton. naive_solver.
        + rewrite elem_of_nil. naive_solver.
      - split; [by left|]. intros [?|[_ ?]]; [done|]. by destruct He; apply Hentry. }
    intros d. rewrite IH3, Hd1. split.
    + intros [[?|[? ?]]|(s & Hs & Hns & Hsub)]; [by left|right..].
      * exists k. split; [by left|done].
      * exists s. rewrite <- (Hl s) by done. split; [by right|done].
    + intros [?|(s & Hs & Hns & Hsub)]; [by auto|]. apply elem_of_cons in Hs as [->|Hs]; [by auto|].
      right. exists s. by rewrite (Hl s).
Qed.

Lemma Remove_spec node m :
  let '(danglings, m') := Remove node m in
  nodes m' = delete (FromOCI node) (nodes m)
  /\ successors m' = delete (FromOCI node) (successors m)
  /\ (forall s, set_at (predecessors m') s =
       if decide (s ∈ set_at (successors m) (FromOCI node))
       then set_at (predecessors m) s ∖ {[FromOCI node]} else set_at (predecessors m) s)
  /\ ((forall s e, predecessors m !! s = Some e -> e <> ∅) ->
      forall s e, predecessors m' !! s = Some e -> e <> ∅)
  /\ (forall d, d ∈ danglings <-> exists s, s ∈ set_at (successors m) (FromOCI node)
       /\ nodes m !! s = Some d /\ set_at (predecessors m) s ⊆ {[FromOCI node]}).
Proof.
  unfold Remove.
  pose proof (remove_loop_spec (FromOCI node) (nodes m)
    (range_set (set_at (successors m) (FromOCI node))) (predecessors m) []
    (NoDup_range_set _)) as Hloop.
  destruct (fold_left _ _ _) as [preds danglings]. destruct Hloop as (H1 & H2 & H3).
  split_and!; simpl; [done|done| |done|].
  - intros s. rewrite H1. apply decide_ext. apply elem_of_range_set.
  - intros d. rewrite H3. split.
    + intros [Hd|(s & Hs & ?)]; [by apply elem_of_nil in Hd|]. exists s.
      by rewrite elem_of_range_set in Hs.
    + intros (s & Hs & ?). right. exists s. by rewrite elem_of_range_set.
Qed.

Lemma Remove_wf node m : wf m -> wf (Remove node m).2.
Proof.
  intros Hwf. pose proof (Remove_spec node m) as HR.
  destruct (Remove node m) as [dang m']. destruct HR as (Hn & Hs & Hp & Hne & _).
  simpl. split.
  - rewrite Hn, Hs, !dom_delete_L. by rewrite (wf_dom _ Hwf).
  - intros k d. rewrite Hn, lookup_delete_Some. intros [_ ?]. by apply (wf_nodes _ Hwf).
  - intros p s. rewrite Hp, Hs, set_at_delete. pose proof (wf_converse _ Hwf p s) as Hc.
    pose proof (wf_converse _ Hwf (FromOCI node) s) as Hc'.
    repeat case_decide; set_solver.
  - apply Hne, (wf_nonempty _ Hwf).
Qed.

(** *** [IndexAll] *)

Section IndexAll.
Context (fetcher : Fetcher).
(** The fetcher is a content-addressable storage: it looks at the key only. *)
Hypothesis fetcher_key : forall d d', FromOCI d = FromOCI d' -> fetcher d = fetcher d'.

(** [d] is reachable from [r] through manifests that can be read. *)
Inductive reach (r : OciDescriptor) : OciDescriptor -> Prop :=
| reach_refl : reach r r
| reach_step d l s : reach r d -> Successors fetcher d = Ok l -> s ∈ l -> reach r s.

(** A committed key is done: its node is indexed with its successors, and these
    are committed or waiting in [todo]; or its content is missing. *)
Definition committed_ok (todo : list OciDescriptor) (tracker : gset Descriptor) (m : Memory) : Prop :=
  forall d, FromOCI d ∈ tracker ->
    match Successors fetcher d with
    | Ok l => is_Some (nodes m !! FromOCI d)
        /\ successors m !! FromOCI d = Some (list_to_set (FromOCI <$> l))
        /\ forall s, s ∈ l -> FromOCI s ∈ tracker \/ FromOCI s ∈ FromOCI <$> todo
    | Err e => errors_Is e ErrNotFound = true
    | Panic => False
    end.

Lemma committed_ok_step desc l todo tracker m :
  committed_ok (desc :: todo) tracker m -> Successors fetcher desc = Ok l ->
  committed_ok (l ++ todo) ({[FromOCI desc]} ∪ tracker) (index_node desc l m).
Proof.
  intros Hok HS d Hd. unfold index_node. simpl.
  destruct (decide (FromOCI d = FromOCI desc)) as [Hk|Hk].
  - rewrite (Successors_key fetcher d desc fetcher_key Hk), HS, Hk, !lookup_insert_eq.
    split_and!; [by eexists|done|]. intros s Hs. right. rewrite fmap_app. apply elem_of_app. left.
    by apply list_elem_of_fmap_2.
  - rewrite !lookup_insert_ne by done. assert (FromOCI d ∈ tracker) as Hd' by (clear -Hd Hk; set_solver).
    specialize (Hok d Hd'). destruct (Successors fetcher d) as [l'| |]; [|done..].
    destruct Hok as (? & ? & Hs). split_and!; [done..|]. intros s Hin.
    specialize (Hs s Hin). rewrite fmap_cons, elem_of_cons in Hs. rewrite fmap_app, elem_of_app.
    rewrite elem_of_union, elem_of_singleton. tauto.
Qed.

Lemma committed_ok_skip desc todo tracker m :
  committed_ok (desc :: todo) tracker m ->
  (exists e, Successors fetcher desc = Err e /\ errors_Is e ErrNotFound = true)
    \/ FromOCI desc ∈ tracker ->
  committed_ok todo ({[FromOCI desc]} ∪ tracker) m.
Proof.
  intros Hok Hor d Hd. destruct (decide (FromOCI d = FromOCI desc)) as [Hk|Hk].
  - destruct Hor as [(e & He & Hn)|Hin].
    + by rewrite (Successors_key fetcher d desc fetcher_key Hk), He.
    + rewrite <- Hk in Hin. specialize (Hok d Hin). destruct (Successors fetcher d); [|done..].
      destruct Hok as (? & ? & Hs). split_and!; [done..|]. intros s Hl. specialize (Hs s Hl).
      rewrite fmap_cons, elem_of_cons in Hs. rewrite elem_of_union, elem_of_singleton. tauto.
  - assert (FromOCI d ∈ tracker) as Hd' by (clear -Hd Hk; set_solver).
    specialize (Hok d Hd'). destruct (Successors fetcher d) as [l'| |]; [|done..].
    destruct Hok as (? & ? & Hs). split_and!; [done..|]. intros s Hin. specialize (Hs s Hin).
    rewrite fmap_cons, elem_of_cons in Hs. rewrite elem_of_union, elem_of_singleton. tauto.
Qed.

Lemma index_all_ok fuel todo tracker m m' :
  committed_ok todo tracker m ->
  index_all fetcher fuel todo tracker m = Some (Ok tt, m') ->
  exists tracker', committed_ok [] tracker' m' /\ tracker ⊆ tracker'
    /\ forall d, d ∈ todo -> FromOCI d ∈ tracker'.
Proof.
  revert todo tracker m. induction fuel as [|fuel IH]; intros [|desc todo] tracker m Hok; simpl;
    try done.
  1,2: intros [= <-]; exists tracker; split_and!; [done..|]; intros d Hd; by apply elem_of_nil in Hd.
  case_decide as Hin.
  - intros Heq. apply IH in Heq as (t' & ? & ? & Ht).
    2: { rewrite <- (subseteq_union_1_L {[FromOCI desc]} tracker) by set_solver.
         by apply committed_ok_skip; auto. }
    exists t'. split_and!; [done..|]. intros d [->|?]%elem_of_cons; [set_solver|auto].
  - unfold index. destruct (Successors fetcher desc) as [l|e|] eqn:HS; [| |done].
    + intros Heq. apply IH in Heq as (t' & ? & ? & Ht); [|by apply committed_ok_step].
      exists t'. split_and!; [done|set_solver|]. intros d [->|?]%elem_of_cons; [set_solver|].
      apply Ht, elem_of_app. by right.
    + destruct (errors_Is e ErrNotFound) eqn:He; [|done].
      intros Heq. apply IH in Heq as (t' & ? & ? & Ht); [|by apply committed_ok_skip; eauto].
      exists t'. split_and!; [done|set_solver|]. intros d [->|?]%elem_of_cons; [set_solver|auto].
Qed.

Lemma index_all_reach fuel root m m' d l :
  IndexAll fetcher fuel root m = Some (Ok tt, m') ->
  reach root d -> Successors fetcher d = Ok l ->
  is_Some (nodes m' !! FromOCI d)
  /\ successors m' !! FromOCI d = Some (list_to_set (FromOCI <$> l)).
Proof.
  unfold IndexAll. intros Heq Hr.
  apply index_all_ok in Heq as (t & Hok & _ & Hroot); [|intros x Hx; set_solver].
  assert (FromOCI d ∈ t) as Hd.
  { induction Hr as [|d' l' s Hr IH HS Hs]; [apply Hroot; by left|].
    specialize (Hok d' IH). rewrite HS in Hok. destruct Hok as (_ & _ & Hok).
    destruct (Hok s Hs) as [?|Hn]; [done|]. by apply elem_of_nil in Hn. }
  specialize (Hok d Hd). intros HS. rewrite HS in Hok. naive_solver.
Qed.

(** Indexing adds nodes and removes none. *)
Lemma index_all_mono fuel todo tracker m res m' k :
  index_all fetcher fuel todo tracker m = Some (res, m') ->
  is_Some (nodes m !! k) -> is_Some (nodes m' !! k).
Proof.
  revert todo tracker m. induction fuel as [|fuel IH]; intros [|desc todo] tracker m; simpl; try done.
  1,2: by intros [= _ <-].
  case_decide; [apply IH|]. unfold index. destruct (Successors fetcher desc) as [l|e|].
  - intros Heq Hk. apply (IH _ _ _ Heq). simpl. rewrite lookup_insert. by case_decide; [eexists|].
  - destruct (errors_Is e ErrNotFound); [apply IH|by intros [= _ <-]].
  - by intros [= _ <-].
Qed.

(** [IndexAll] fails only on a node that cannot be read although it is there. *)
Lemma index_all_readable (U : gset Descriptor) fuel todo tracker m res m' :
  (forall d, FromOCI d ∈ U ->
     match Successors fetcher d with
     | Ok l => forall s, s ∈ l -> FromOCI s ∈ U
     | Err e => errors_Is e ErrNotFound = true
     | Panic => False
     end) ->
  (forall d, d ∈ todo -> FromOCI d ∈ U) ->
  index_all fetcher fuel todo tracker m = Some (res, m') -> res = Ok tt.
Proof.
  intros HU. revert todo tracker m.
  induction fuel as [|fuel IH]; intros [|desc todo] tracker m Htodo; simpl; try done.
  1,2: by intros [= <- _].
  assert (forall d, d ∈ todo -> FromOCI d ∈ U) as Htodo' by (intros; apply Htodo; by right).
  specialize (HU desc (Htodo desc ltac:(by left))).
  case_decide; [by apply IH|]. unfold index. destruct (Successors fetcher desc) as [l|e|]; [| |done].
  - apply IH. intros d [?|?]%elem_of_app; auto.
  - rewrite HU. by apply IH.
Qed.

(** [IndexAll] makes at most one call per committed key and per edge: with a
    finite set of keys closed under successors the fuel below is enough. *)
Lemma index_all_terminates (U : gset Descriptor) B fuel todo tracker m :
  (forall d l, FromOCI d ∈ U -> Successors fetcher d = Ok l ->
     length l <= B /\ forall s, s ∈ l -> FromOCI s ∈ U) ->
  (forall d, d ∈ todo -> FromOCI d ∈ U) ->
  length todo + size (U ∖ tracker) * B <= fuel ->
  is_Some (index_all fetcher fuel todo tracker m).
Proof.
  intros HU. revert todo tracker m.
  induction fuel as [|fuel IH]; intros [|desc todo] tracker m Htodo Hf; simpl; try by eexists.
  { simpl in Hf. lia. }
  assert (forall d, d ∈ todo -> FromOCI d ∈ U) as Htodo' by (intros; apply Htodo; by right).
  assert (FromOCI desc ∈ U) as Hdesc by (apply Htodo; by left).
  simpl in Hf. case_decide as Hin; [apply IH; [done|lia]|].
  assert (size (U ∖ tracker) = S (size (U ∖ ({[FromOCI desc]} ∪ tracker)))) as Hsz.
  { change (S (size (U ∖ ({[FromOCI desc]} ∪ tracker))))
      with (1 + size (U ∖ ({[FromOCI desc]} ∪ tracker))).
    rewrite <- (size_singleton (C := gset Descriptor) (FromOCI desc)).
    rewrite <- size_union by set_solver. f_equal. apply set_eq. intros x.
    destruct (decide (x = FromOCI desc)); set_solver. }
  unfold index. destruct (Successors fetcher desc) as [l|e|] eqn:HS.
  - destruct (HU desc l Hdesc HS) as [HB Hl]. apply IH.
    + intros d [?|?]%elem_of_app; auto.
    + rewrite length_app. lia.
  - destruct (errors_Is e ErrNotFound); [|by eexists]. apply IH; [done|lia].
  - by eexists.
Qed.

End IndexAll.

End Memory.
End graph.

(** ** Properties *)

Section properties.
Context {GD : GoDigest} {MJ : ManifestJSON} {MO : MapOrder}.

(** C37: the invariant of the predecessor index.  Indexing a node (whose
    successors have not changed if it was indexed before) and removing any node
    keep the index consistent: [nodes] and [successors] have the same keys,
    predecessors and successors are converse relations, and no empty
    predecessor entry is left behind. *)
Theorem graph_index_remove_wf (m : graph.Memory) (Hwf : graph.wf m) :
  graph.wf graph.NewMemory
  /\ (forall fetcher node,
        (forall l e, Successors fetcher node = Ok l ->
           graph.successors m !! FromOCI node = Some e -> e = list_to_set (FromOCI <$> l)) ->
        graph.wf (graph.Index fetcher node m).2)
  /\ (forall node, graph.wf (graph.Remove node m).2).
Proof.
  split; [apply graph.graph_NewMemory_wf|]. split.
  - intros fetcher node. by apply graph.Index_wf.
  - intros node. by apply graph.Remove_wf.
Qed.

(** [Remove] returns exactly the indexed successors of the removed node that
    had no other predecessor; afterwards the node is gone, it is nobody's
    predecessor, and every other edge is unchanged - whatever the iteration
    order over the successor set. *)
Theorem graph_Remove_danglings (m : graph.Memory) (node : OciDescriptor) (Hwf : graph.wf m) :
  let '(danglings, m') := graph.Remove node m in
  (forall d, d ∈ danglings <->
     exists s, s ∈ graph.set_at (graph.successors m) (FromOCI node)
       /\ graph.nodes m !! s = Some d
       /\ graph.set_at (graph.predecessors m) s = {[FromOCI node]})
  /\ graph.Exists node m' = false
  /\ (forall s p, p ∈ graph.set_at (graph.predecessors m') s <->
        p <> FromOCI node /\ p ∈ graph.set_at (graph.predecessors m) s).
Proof.
  pose proof (graph.Remove_spec node m) as HR. destruct (graph.Remove node m) as [dang m'].
  destruct HR as (Hn & Hs & Hp & _ & Hd). split_and!.
  - intros d. rewrite Hd. split; intros (s & Hin & ? & Hsub); exists s; split_and!; try done.
    + apply set_eq. intros x. pose proof (graph.wf_converse _ Hwf (FromOCI node) s). set_solver.
    + set_solver.
  - unfold graph.Exists. rewrite Hn, lookup_delete_eq. done.
  - intros s p. rewrite Hp. pose proof (graph.wf_converse _ Hwf p s).
    case_decide; [set_solver|]. split; [|naive_solver]. intros Hps. split; [|done].
    intros ->. set_solver.
Qed.

(** [IndexAll] on a finite graph terminates, and on success it has indexed
    every readable node reachable from the root with exactly its successors, so
    that the root of each edge is found by [Predecessors] of its target. *)
Theorem graph_IndexAll_complete (fetcher : Fetcher) (U : gset Descriptor) (B : nat)
    (root : OciDescriptor) (m : graph.Memory)
    (Hkey : forall d d', FromOCI d = FromOCI d' -> fetcher d = fetcher d')
    (HU : forall d l, FromOCI d ∈ U -> Successors fetcher d = Ok l ->
       length l <= B /\ forall s, s ∈ l -> FromOCI s ∈ U)
    (Hroot : FromOCI root ∈ U) :
  exists res, graph.IndexAll fetcher (1 + size U * B) root m = Some res
  /\ (res.1 = Ok tt -> forall d l, graph.reach fetcher root d -> Successors fetcher d = Ok l ->
        graph.Exists d res.2 = true
        /\ graph.set_at (graph.successors res.2) (FromOCI d) = list_to_set (FromOCI <$> l)).
Proof.
  destruct (graph.index_all_terminates fetcher Hkey U B (1 + size U * B) [root] ∅ m HU) as [res Hres].
  - intros d Hd%list_elem_of_singleton. by subst.
  - simpl. rewrite difference_empty_L. lia.
  - exists res. split; [done|]. intros Hok d l Hr HS. destruct res as [r m']. simpl in Hok. subst r.
    destruct (graph.index_all_reach fetcher Hkey _ _ _ _ d l Hres Hr HS) as [Hn Hs].
    unfold graph.Exists, graph.set_at. cbn [snd]. rewrite Hs.
    split; [by apply bool_decide_eq_true|done].
Qed.

End properties.

(** *** A concrete graph for the examples

    An index whose content is the string "index" and that points to two blobs;
    the codec of the examples knows that content only. *)
Module example.
Import HexDigest.

Definition blob (s : string) : OciDescriptor := NewDescriptorFromBytes "text/plain" (str_bytes s).
Definition root : OciDescriptor := NewDescriptorFromBytes MediaTypeImageIndex (str_bytes "index").

#[export] Instance json : ManifestJSON := {|
  Unmarshal_Manifest _ := Err (ENew "json");
  Unmarshal_Index b :=
    if decide (b = str_bytes "index")
    then Ok (mkIndex 2 MediaTypeImageIndex EmptyString [blob "a"; blob "b"] None None)
    else Err (ENew "json");
  Unmarshal_Artifact _ := Err (ENew "json");
  Unmarshal_Subject b := if decide (b = str_bytes "index") then Ok None else Err (ENew "json");
  Marshal_Manifest _ := Err (ENew "json");
  Marshal_Index _ := Err (ENew "json");
  Marshal_Artifact _ := Err (ENew "json")
|}.

#[export] Instance order : MapOrder := canonical_order.

(** A storage that holds the content of every descriptor listed above. *)
Definition fetch (d : OciDescriptor) : result Reader :=
  if decide (FromOCI d = FromOCI root) then Ok (bytes_NewReader (str_bytes "index"))
  else if decide (FromOCI d = FromOCI (blob "a")) then Ok (bytes_NewReader (str_bytes "a"))
  else if decide (FromOCI d = FromOCI (blob "b")) then Ok (bytes_NewReader (str_bytes "b"))
  else Err (EWrap "example" ErrNotFound).

Lemma succ_root : Successors fetch root = Ok [blob "a"; blob "b"].
Proof. vm_compute. reflexivity. Qed.

Lemma succ_blob s : Successors fetch (blob s) = Ok [].
Proof. by apply Successors_blob. Qed.

Definition keys : gset Descriptor := {[FromOCI root; FromOCI (blob "a"); FromOCI (blob "b")]}.

Lemma fetch_key d d' : FromOCI d = FromOCI d' -> fetch d = fetch d'.
Proof. unfold fetch. by intros ->. Qed.

End example.

Section witnesses.
Import HexDigest example.

Lemma graph_index_remove_wf_witness : graph.wf (graph.Index fetch root graph.NewMemory).2.
Proof.
  destruct (graph_index_remove_wf graph.NewMemory graph.graph_NewMemory_wf) as (_ & H & _).
  apply H. intros l e _ He. simpl in He. by rewrite lookup_empty in He.
Defined.

(** Both blobs become dangling when their only parent is removed. *)
Lemma graph_Remove_danglings_witness :
  blob "a" ∈ (graph.Remove root (graph.index_node root [blob "a"; blob "b"]
    (graph.index_node (blob "a") [] graph.NewMemory))).1.
Proof.
  set (m := graph.index_node root _ _).
  assert (Hne : FromOCI root <> FromOCI (blob "a")) by done.
  assert (Hwf : graph.wf m).
  { apply graph.index_node_wf; [apply graph.index_node_wf; [apply graph.graph_NewMemory_wf|]|];
      intros e He; simpl in He; simplify_map_eq. }
  pose proof (graph_Remove_danglings m root Hwf) as H.
  destruct (graph.Remove root m) as [dang m']. destruct H as (H & _). apply H.
  exists (FromOCI (blob "a")). split_and!.
  - subst m. simpl. rewrite graph.set_at_insert, decide_True by done. set_solver.
  - subst m. simpl. by rewrite lookup_insert_ne, lookup_insert_eq.
  - apply set_eq. intros p. subst m. cbn [graph.index_node graph.predecessors].
    rewrite !graph.add_predecessors_spec. unfold graph.set_at. simpl. set_solver.
Defined.

Lemma graph_IndexAll_complete_witness :
  exists res, graph.IndexAll fetch (1 + size keys * 2) root graph.NewMemory = Some res
    /\ (res.1 = Ok tt -> graph.Exists (blob "b") res.2 = true).
Proof.
  destruct (graph_IndexAll_complete fetch keys 2 root graph.NewMemory fetch_key) as (res & Hres & H).
  - intros d l Hd HS. unfold keys in Hd. rewrite !elem_of_union, !elem_of_singleton in Hd.
    destruct Hd as [[Hd|Hd]|Hd]; rewrite (Successors_key fetch d _ fetch_key Hd) in HS.
    + rewrite succ_root in HS. injection HS as <-. split; [simpl; lia|]. intros s Hs.
      unfold keys. rewrite !elem_of_cons, elem_of_nil in Hs. set_solver.
    + rewrite succ_blob in HS. injection HS as <-. split; [simpl; lia|]. intros s Hs.
      by apply elem_of_nil in Hs.
    + rewrite succ_blob in HS. injection HS as <-. split; [simpl; lia|]. intros s Hs.
      by apply elem_of_nil in Hs.
  - unfold keys. set_solver.
  - exists res. split; [exact Hres|]. intros Hok.
    refine (proj1 (H Hok (blob "b") [] _ (succ_blob "b"))).
    refine (graph.reach_step fetch root root _ (blob "b") (graph.reach_refl fetch root) succ_root _).
    apply list_elem_of_further, list_elem_of_here.
Defined.

End witnesses.
