(* ===== verification/Resolver.v ===== *)
(** The in-memory tag resolver: [internal/resolver/memory.go]. *)

From Stdlib Require Import ZArith.
From S2P Require Import Prelude Errors Descriptor.

Module resolver.

(** [resolver.Memory] without its lock. *)
Record Memory := mkMemory {
  index : gmap string OciDescriptor;
  tags : gmap string (gset string)
}.

Definition NewMemory : Memory := mkMemory ∅ ∅.

Definition Resolve (reference : string) (m : Memory) : result OciDescriptor :=
  match index m !! reference with
  | None => Err (EWrap reference ErrNotFound)
  | Some desc => Ok desc
  end.

Definition tags_at (m : Memory) (dgst : string) : gset string := default ∅ (tags m !! dgst).

Definition Tag (desc : OciDescriptor) (reference : string) (m : Memory) : Memory :=
  mkMemory (<[reference := desc]> (index m))
    (<[Digest desc := {[reference]} ∪ tags_at m (Digest desc)]> (tags m)).

Definition Untag (reference : string) (m : Memory) : Memory :=
  match index m !! reference with
  | None => m
  | Some desc =>
      let tagSet := tags_at m (Digest desc) ∖ {[reference]} in
      mkMemory (delete reference (index m))
        (if decide (tagSet = ∅) then delete (Digest desc) (tags m)
         else <[Digest desc := tagSet]> (tags m))
  end.

(** [Map] and [TagSet] return copies. *)
Definition Map (m : Memory) : gmap string OciDescriptor := index m.
Definition TagSet (desc : OciDescriptor) (m : Memory) : gset string := tags_at m (Digest desc).

(** ** Invariant

    Every reference of the index is in the tag set of the digest it points to,
    and no tag set is empty. *)
Record wf (m : Memory) : Prop := {
  wf_tagged : forall ref d, index m !! ref = Some d -> ref ∈ tags_at m (Digest d);
  wf_nonempty : forall dgst s, tags m !! dgst = Some s -> s <> ∅
}.

Lemma resolver_NewMemory_wf : wf NewMemory.
Proof. split; intros; simplify_map_eq. Qed.

Lemma tags_at_Tag desc reference m dgst :
  tags_at (Tag desc reference m) dgst =
    if decide (Digest desc = dgst) then {[reference]} ∪ tags_at m dgst else tags_at m dgst.
Proof. unfold Tag, tags_at. simpl. rewrite lookup_insert. by case_decide; subst. Qed.

Lemma resolver_Tag_wf desc reference m : wf m -> wf (Tag desc reference m).
Proof.
  intros Hwf. split.
  - intros ref d. rewrite tags_at_Tag. unfold Tag. simpl. rewrite lookup_insert.
    case_decide as Hr.
    + intros [= <-]. rewrite decide_True by done. set_solver.
    + intros Hd. apply (wf_tagged _ Hwf) in Hd. case_decide; set_solver.
  - intros dgst s. unfold Tag. simpl. rewrite lookup_insert.
    case_decide; [set_solver|apply (wf_nonempty _ Hwf)].
Qed.

Lemma tags_at_Untag reference m dgst :
  tags_at (Untag reference m) dgst =
    match index m !! reference with
    | Some d => if decide (Digest d = dgst) then tags_at m dgst ∖ {[reference]} else tags_at m dgst
    | None => tags_at m dgst
    end.
Proof.
  unfold Untag. destruct (index m !! reference) as [d|]; [|done].
  unfold tags_at at 1. simpl. destruct (decide (_ = ∅)) as [He|He].
  - rewrite lookup_delete. case_decide as Hd; subst; [by rewrite He|done].
  - rewrite lookup_insert. case_decide as Hd; subst; done.
Qed.

Lemma Untag_wf reference m : wf m -> wf (Untag reference m).
Proof.
  intros Hwf. split.
  - intros ref d Hd. rewrite tags_at_Untag. unfold Untag in Hd.
    destruct (index m !! reference) as [d0|] eqn:E; simpl in Hd.
    + apply lookup_delete_Some in Hd as [Hne Hd]. apply (wf_tagged _ Hwf) in Hd.
      case_decide; set_solver.
    + by apply (wf_tagged _ Hwf).
  - intros dgst s. unfold Untag. destruct (index m !! reference) as [d0|] eqn:E; simpl;
      [|apply (wf_nonempty _ Hwf)].
    case_decide as He.
    + rewrite lookup_delete_Some. intros [_ ?]. by eapply wf_nonempty.
    + rewrite lookup_insert. case_decide; [by intros [= <-]|apply (wf_nonempty _ Hwf)].
Qed.

End resolver.

(** ** Properties *)

Section properties.
Import resolver.

(** Tagging and resolving.  After [Tag desc ref], [ref] resolves to [desc]
    and every other reference as before; after [Untag ref], [ref] is not found
    and every other reference resolves as before; both keep the invariant that
    each reference is listed in the tag set of its target's digest. *)
Theorem resolver_tag_resolve (m : resolver.Memory) (desc : OciDescriptor) (ref : string)
    (Hwf : resolver.wf m) :
  (Resolve ref (Tag desc ref m) = Ok desc
   /\ Resolve ref (Untag ref m) = Err (EWrap ref ErrNotFound))
  /\ (forall ref', ref' <> ref -> Resolve ref' (Tag desc ref m) = Resolve ref' m
        /\ Resolve ref' (Untag ref m) = Resolve ref' m)
  /\ resolver.wf (Tag desc ref m) /\ resolver.wf (Untag ref m).
Proof.
  unfold Resolve. split_and!.
  - unfold Tag. simpl. by rewrite lookup_insert_eq.
  - unfold Untag. destruct (index m !! ref) eqn:E; simpl; [by rewrite lookup_delete_eq|by rewrite E].
  - intros ref' Hne. unfold Tag, Untag. simpl. rewrite lookup_insert_ne by done. split; [done|].
    destruct (index m !! ref); simpl; [|done]. by rewrite lookup_delete_ne.
  - by apply resolver_Tag_wf.
  - by apply Untag_wf.
Qed.

(** A tag set keeps references that have moved.  When [ref] is tagged on a
    second descriptor with another digest, the tag set of the first one still
    contains [ref] although [ref] resolves to the second, and untagging [ref]
    does not remove it either. *)
Theorem resolver_TagSet_stale (m : resolver.Memory) (d1 d2 : OciDescriptor) (ref : string)
    (Hdigest : Digest d1 <> Digest d2) :
  let m' := Tag d2 ref (Tag d1 ref m) in
  Resolve ref m' = Ok d2
  /\ ref ∈ TagSet d1 m'
  /\ ref ∈ TagSet d1 (Untag ref m')
  /\ Resolve ref (Untag ref m') = Err (EWrap ref ErrNotFound).
Proof.
  intros m'. assert (index m' !! ref = Some d2) as Hr.
  { subst m'. simpl. by rewrite lookup_insert_eq. }
  assert (ref ∈ TagSet d1 m') as Ht.
  { subst m'. unfold TagSet. rewrite !tags_at_Tag.
    rewrite decide_False by done. rewrite decide_True by done. set_solver. }
  split_and!; [by unfold Resolve; rewrite Hr|done| |].
  - unfold TagSet in *. rewrite tags_at_Untag, Hr. by rewrite decide_False.
  - unfold Resolve, Untag. rewrite Hr. simpl. by rewrite lookup_delete_eq.
Qed.

Lemma resolver_tag_resolve_witness :
  Resolve "latest" (Tag zeroDescriptor "latest" NewMemory) = Ok zeroDescriptor.
Proof. apply (resolver_tag_resolve NewMemory zeroDescriptor "latest" resolver_NewMemory_wf). Defined.

Lemma resolver_TagSet_stale_witness :
  let d1 := mkOci "m" "sha256:1" 1 [] None [] None "t" in
  let d2 := mkOci "m" "sha256:2" 1 [] None [] None "t" in
  "v1" ∈ TagSet d1 (Tag d2 "v1" (Tag d1 "v1" NewMemory)).
Proof.
  intros d1 d2. apply (resolver_TagSet_stale NewMemory d1 d2 "v1"). discriminate.
Defined.

End properties.
