(* ===== verification/MemoryStore.v ===== *)
(** The in-memory store: [content/memory/memory.go], a CAS, a tag resolver and a
    predecessor index put together. *)

From Stdlib Require Import ZArith.
From S2P Require Import Prelude Errors Descriptor Reader Manifest Storage Graph Resolver.

Module memory.

Record Store := mkStore {
  storage : cas.Memory;
  resolver_ : resolver.Memory;
  graph_ : graph.Memory
}.

Definition New : Store := mkStore cas.NewMemory resolver.NewMemory graph.NewMemory.

Section Store.
Context {GD : GoDigest} {MJ : ManifestJSON} {MO : MapOrder}.

Definition Fetch (target : OciDescriptor) (s : Store) : result Reader :=
  cas.Fetch target (storage s).

Definition Push (expected : OciDescriptor) (reader : Reader) (s : Store) : result unit * Store :=
  match cas.Push expected reader (storage s) with
  | (Ok _, st') =>
      (* index predecessors *)
      let '(res, g') := graph.Index (fun d => cas.Fetch d st') expected (graph_ s) in
      (res, mkStore st' (resolver_ s) g')
  | (res, st') => (res, mkStore st' (resolver_ s) (graph_ s))
  end.

Definition Exists (target : OciDescriptor) (s : Store) : result bool :=
  cas.Exists target (storage s).

Definition Resolve (reference : string) (s : Store) : result OciDescriptor :=
  resolver.Resolve reference (resolver_ s).

Definition Tag (desc : OciDescriptor) (reference : string) (s : Store) : result unit * Store :=
  match cas.Exists desc (storage s) with
  | Err e => (Err e, s)
  | Panic => (Panic, s)
  | Ok false => (Err (cas.key_err desc ErrNotFound), s)
  | Ok true => (Ok tt, mkStore (storage s) (resolver.Tag desc reference (resolver_ s)) (graph_ s))
  end.

Definition Predecessors (node : OciDescriptor) (s : Store) : list OciDescriptor :=
  graph.Predecessors node (graph_ s).

#[global] Instance Store_Storage : Storage Store := {|
  st_Fetch := Fetch;
  st_Exists := Exists;
  st_Push := Push
|}.

(** ** Invariant

    The index holds stored nodes only, with the successors of their content. *)
Record wf (s : Store) : Prop := {
  wf_storage : cas.wf (storage s);
  wf_resolver : resolver.wf (resolver_ s);
  wf_graph : graph.wf (graph_ s);
  wf_indexed : forall k e, graph.successors (graph_ s) !! k = Some e ->
    is_Some (cas.view (storage s) k);
  wf_tagged : forall ref d, resolver.index (resolver_ s) !! ref = Some d ->
    is_Some (cas.view (storage s) (FromOCI d))
}.

Definition view (s : Store) : Descriptor -> option bytes := cas.view (storage s).

Lemma New_wf : wf New.
Proof.
  split; simpl; [apply cas.cas_NewMemory_wf|apply resolver.resolver_NewMemory_wf|apply graph.graph_NewMemory_wf|..];
    intros; simplify_map_eq.
Qed.

Lemma Push_storage d r s : storage (Push d r s).2 = (cas.Push d r (storage s)).2.
Proof.
  unfold Push. destruct (cas.Push d r (storage s)) as [[]]; try done.
  by destruct (graph.Index _ _ _).
Qed.

Lemma cas_view_Push_mono d r m k :
  is_Some (cas.view m k) -> is_Some (cas.view (cas.Push d r m).2 k).
Proof.
  intros [c Hc]. rewrite cas.cas_Push_cases. destruct (cas.view m (FromOCI d)) eqn:E; [by eexists|].
  destruct (ReadAll r d); [|by eexists..]. unfold cas.view in *. simpl.
  rewrite lookup_insert. case_decide; by eexists.
Qed.

Lemma memory_Push_wf d r s : wf s -> wf (Push d r s).2.
Proof.
  intros Hwf. pose proof (cas.cas_Push_wf d r (storage s) (wf_storage _ Hwf)) as Hst.
  pose proof (Push_storage d r s) as HS.
  assert (forall k, is_Some (cas.view (storage s) k) ->
    is_Some (cas.view (storage (Push d r s).2) k)) as Hmono.
  { intros k. rewrite HS. apply cas_view_Push_mono. }
  split.
  - by rewrite HS.
  - unfold Push. destruct (cas.Push _ _ _) as [[] ?]; try apply (wf_resolver _ Hwf).
    destruct (graph.Index _ _ _). apply (wf_resolver _ Hwf).
  - unfold Push. destruct (cas.Push d r (storage s)) as [[[]| |] st'] eqn:HP; try apply (wf_graph _ Hwf).
    pose proof (graph.Index_wf (fun d => cas.Fetch d st') d (graph_ s) (wf_graph _ Hwf)) as Hg.
    destruct (graph.Index _ _ _) as [res g']. simpl. apply Hg. intros l e _ He.
    apply (wf_indexed _ Hwf) in He. rewrite cas.cas_Push_cases in HP.
    destruct (cas.view (storage s) (FromOCI d)); [done|by destruct He].
  - intros k e. unfold Push in *.
    destruct (cas.Push d r (storage s)) as [[[]| |] st'] eqn:HP; simpl in *;
      try (intros ?%(wf_indexed _ Hwf); by auto).
    unfold graph.Index, graph.index in *. destruct (Successors _ d) as [l| |]; simpl in *;
      try (intros ?%(wf_indexed _ Hwf); by auto).
    rewrite lookup_insert. case_decide as Hk; [|intros ?%(wf_indexed _ Hwf); by auto].
    intros _. subst k. rewrite cas.cas_Push_cases in HP.
    destruct (cas.view (storage s) (FromOCI d)); [done|].
    destruct (ReadAll r d) as [c| |]; simplify_eq. exists c. unfold cas.view. simpl.
    by rewrite lookup_insert_eq.
  - intros ref d' Hr. apply Hmono. unfold Push in Hr.
    destruct (cas.Push d r (storage s)) as [[] st']; try by eapply wf_tagged.
    destruct (graph.Index _ _ _). by eapply wf_tagged.
Qed.

Lemma memory_Tag_wf d ref s : wf s -> wf (Tag d ref s).2.
Proof.
  intros Hwf. unfold Tag, cas.Exists. case_bool_decide as Hd; [|done]. simpl.
  destruct Hwf. split; simpl; [done|by apply resolver.resolver_Tag_wf|done..|].
  intros ref' d'. rewrite lookup_insert. case_decide; [by intros [= <-]|eauto].
Qed.

(** The store keeps the promises of [content.Storage]. *)
#[global] Instance Store_laws : StorageLaws Store wf view.
Proof.
  unfold view. split; cbn [st_Push st_Fetch st_Exists Store_Storage].
  - intros. by apply memory_Push_wf.
  - intros d r s k c Hwf. rewrite Push_storage.
    exact (@push_mono _ _ _ _ _ cas.Memory_laws d r (storage s) k c (wf_storage _ Hwf)).
  - intros d r s s' Hwf HP. pose proof (Push_storage d r s) as HS. rewrite HP in HS. simpl in HS.
    unfold Push in HP. destruct (cas.Push d r (storage s)) as [[[]| |] st'] eqn:HC; try done.
    rewrite HS. apply (@push_ok _ _ _ _ _ cas.Memory_laws d r _ _ (wf_storage _ Hwf) HC).
  - intros d r s e s' Hwf Hcl HP He. pose proof (Push_storage d r s) as HS. rewrite HP in HS.
    simpl in HS. unfold Push in HP.
    destruct (cas.Push d r (storage s)) as [[[]|e'|] st'] eqn:HC; simpl in HS; [| |done].
    + rewrite HS. destruct (@push_ok _ _ _ _ _ cas.Memory_laws d r _ _ (wf_storage _ Hwf) HC) as (c & _ & _ & ?). by eexists.
    + simplify_eq. exact (@push_exists _ _ _ _ _ cas.Memory_laws d r _ _ _ (wf_storage _ Hwf) Hcl HC He).
  - intros d r s k c Hwf. rewrite Push_storage.
    exact (@push_verified _ _ _ _ _ cas.Memory_laws d r (storage s) k c (wf_storage _ Hwf)).
  - intros d s b Hwf. exact (@exists_view _ _ _ _ _ cas.Memory_laws d (storage s) b (wf_storage _ Hwf)).
  - intros d s r Hwf. exact (@fetch_view _ _ _ _ _ cas.Memory_laws d (storage s) r (wf_storage _ Hwf)).
  - intros d s c Hwf. exact (@fetch_total _ _ _ _ _ cas.Memory_laws d (storage s) c (wf_storage _ Hwf)).
Qed.

End Store.
End memory.

(** ** Properties *)

Section properties.
Context {GD : GoDigest} {MJ : ManifestJSON} {MO : MapOrder}.
Import memory.

(** The in-memory store.  A push that succeeds on a consistent store makes
    the content fetchable, records the node as a predecessor of each of its
    successors, and keeps the store consistent; tagging fails with [ErrNotFound]
    on missing content and otherwise makes the reference resolve to stored
    content. *)
Theorem memory_Store_push_tag (s s' : memory.Store) (d : OciDescriptor) (r : Reader)
    (Hwf : memory.wf s) (Hpush : memory.Push d r s = (Ok tt, s')) :
  memory.wf s'
  /\ FetchAll (fun t => memory.Fetch t s') d = Ok (content r)
  /\ (forall l x, Successors (fun t => memory.Fetch t s') d = Ok l -> x ∈ l ->
        d ∈ memory.Predecessors x s')
  /\ (forall ref, exists s'', memory.Tag d ref s' = (Ok tt, s'')
        /\ memory.wf s'' /\ memory.Resolve ref s'' = Ok d)
  /\ (forall d' ref, memory.Exists d' s' = Ok false ->
        memory.Tag d' ref s' = (Err (cas.key_err d' ErrNotFound), s')).
Proof.
  pose proof (memory.memory_Push_wf d r s Hwf) as Hwf'. rewrite Hpush in Hwf'. simpl in Hwf'.
  split; [done|].
  unfold memory.Push in Hpush. destruct (cas.Push d r (storage s)) as [[[]| |] st'] eqn:HC; try done.
  rewrite cas.cas_Push_cases in HC. destruct (cas.view (storage s) (FromOCI d)) eqn:Hv; [done|].
  destruct (ReadAll r d) as [c| |] eqn:HR; simplify_eq.
  apply ReadAll_Ok_spec in HR as (HS & Hcl & <- & Hlen & Hver).
  set (st' := cas.mkMemory _) in *.
  assert (cas.Fetch d st' = Ok (bytes_NewReader (content r))) as HF.
  { unfold cas.Fetch. simpl. by rewrite lookup_insert_eq. }
  unfold graph.Index, graph.index in Hpush.
  destruct (Successors (fun d => cas.Fetch d st') d) as [l0| |] eqn:HSucc; simplify_eq.
  split_and!.
  - unfold FetchAll, memory.Fetch. simpl. rewrite HF. simpl.
    destruct (bytes_NewReader_spec (content r)). apply ReadAll_Ok_spec. auto.
  - intros l x Hl Hx. unfold memory.Fetch in Hl. simpl in Hl. rewrite HSucc in Hl. simplify_eq.
    unfold memory.Predecessors, graph.Predecessors. simpl.
    assert (FromOCI d ∈ graph.set_at (graph.add_predecessors (FromOCI d) l
      (graph.predecessors (graph_ s))) (FromOCI x)) as Hin.
    { apply graph.add_predecessors_spec. right. split; [done|]. by apply list_elem_of_fmap_2. }
    unfold graph.set_at in Hin. destruct (graph.add_predecessors _ _ _ !! FromOCI x); simpl in Hin;
      [|set_solver].
    apply list_elem_of_fmap. exists (FromOCI d). split; [by rewrite lookup_insert_eq|].
    by apply elem_of_range_set.
  - intros ref. set (s1 := mkStore _ _ _).
    assert (cas.Exists d (storage s1) = Ok true) as He.
    { unfold cas.Exists. simpl. by rewrite lookup_insert_eq. }
    pose proof (memory.memory_Tag_wf d ref s1 Hwf') as Ht.
    unfold memory.Tag in *. rewrite He in *. eexists; split_and!; [done|done|].
    unfold memory.Resolve, resolver.Resolve. simpl. by rewrite lookup_insert_eq.
  - intros d' ref He. unfold memory.Tag, memory.Exists in *. by rewrite He.
Qed.

End properties.

Import HexDigest example.

Lemma memory_Store_push_tag_witness :
  exists s', memory.Push (blob "a") (bytes_NewReader (str_bytes "a")) memory.New = (Ok tt, s')
    /\ FetchAll (fun t => memory.Fetch t s') (blob "a") = Ok (str_bytes "a").
Proof.
  eexists. split; [reflexivity|].
  eapply (memory_Store_push_tag memory.New _ (blob "a") (bytes_NewReader (str_bytes "a"))
    memory.New_wf). reflexivity.
Defined.
