(* ===== verification/Sched.v ===== *)
(** The concurrent traversal of [copyGraph] ([copy.go]) with the scheduler it
    runs on: [syncutil.Go] and [LimitedRegion] ([internal/syncutil/limit.go]),
    [status.Tracker] ([internal/status/tracker.go]).

    Every goroutine is a thread with a program counter; [step] executes one
    atomic action of one thread, the scheduler and the environment being the
    arguments [tid] and [choice].  The theorems of [SchedSafety] and
    [SchedLiveness] hold for every sequence of steps. *)

From Stdlib Require Import ZArith Lia.
From S2P Require Import Prelude Errors Descriptor.

(** [removeForeignLayers], compacting the slice in place. *)
Definition removeForeignLayers (descs : list OciDescriptor) : list OciDescriptor :=
  inplace_filter (fun desc => negb (IsForeignLayer desc)) descs.

Lemma removeForeignLayers_spec descs :
  removeForeignLayers descs = List.filter (fun d => negb (IsForeignLayer d)) descs.
Proof. apply inplace_filter_spec. Qed.

(** ** Threads *)

(** The next action of a goroutine that runs [fn] of [copyGraph] on a node, in
    the order of the code.  [PGo i] is the loop of [syncutil.Go] at item [i],
    [PWait] its [eg.Wait()], [PJoin i] the loop over the done channels.  After
    [fn] returned, [PReturn] stores the error in [egErr], [PRelease] is the
    deferred [region.End()] and [PExit] the end of the errgroup's goroutine. *)
Inductive pc :=
| PTryCommit
| PExists
| PSkipped
| PFindSuccessors
| PRegionEnd
| PGo (i : nat)
| PWait
| PJoin (i : nat)
| PStart
| PCopy
| PReturn (err : option error)
| PRelease (err : option error)
| PExit (err : option error)
| PDone (err : option error).

#[export] Instance pc_eq_dec : EqDecision pc.
Proof. solve_decision. Defined.

Record thread := mkThread {
  t_node : option OciDescriptor;   (* [None]: the goroutine that called copyGraph *)
  t_parent : option nat;           (* the thread whose [Go] call started it *)
  t_pc : pc;
  t_held : bool;                   (* its region holds a permit: [!region.ended] *)
  t_committed : bool;              (* it committed its node in the tracker *)
  t_succs : list OciDescriptor     (* items of its [Go] call *)
}.

Record state := mkState {
  st_dst : gmap Descriptor bytes;       (* contents of the destination *)
  st_tracker : gmap Descriptor bool;    (* committed keys; [true]: channel closed *)
  st_free : nat;                        (* permits left in the semaphore *)
  st_cancel : bool;                     (* the caller's context is done *)
  st_threads : list thread;
  st_egErr : gmap nat error;            (* [egErr] of the [Go] call of a thread *)
  st_grpErr : gmap nat error;           (* first error of its errgroup *)
  st_panic : bool;                      (* a goroutine panicked: the program is dead *)
  st_log : list Descriptor              (* ghost: nodes copied, in order *)
}.

Definition set_pc (p : pc) (t : thread) : thread :=
  mkThread (t_node t) (t_parent t) p (t_held t) (t_committed t) (t_succs t).
Definition set_held (h : bool) (t : thread) : thread :=
  mkThread (t_node t) (t_parent t) (t_pc t) h (t_committed t) (t_succs t).
Definition set_committed (t : thread) : thread :=
  mkThread (t_node t) (t_parent t) (t_pc t) (t_held t) true (t_succs t).
Definition set_succs (l : list OciDescriptor) (t : thread) : thread :=
  mkThread (t_node t) (t_parent t) (t_pc t) (t_held t) (t_committed t) l.

(** The choices left to the environment at a step: the call succeeds, the call
    fails with an error, [PostCopy] fails after the content was pushed, or the
    context is seen to be done. *)
Inductive choice :=
| CNext
| CFail (e : error)
| CFailAfterPush (e : error)
| CDone.

(** State updates. *)
Definition set_thread (tid : nat) (t : thread) (st : state) : state :=
  mkState (st_dst st) (st_tracker st) (st_free st) (st_cancel st)
    (<[tid := t]> (st_threads st)) (st_egErr st) (st_grpErr st) (st_panic st) (st_log st).
Definition set_tracker (m : gmap Descriptor bool) (st : state) : state :=
  mkState (st_dst st) m (st_free st) (st_cancel st) (st_threads st)
    (st_egErr st) (st_grpErr st) (st_panic st) (st_log st).
Definition set_free (n : nat) (st : state) : state :=
  mkState (st_dst st) (st_tracker st) n (st_cancel st) (st_threads st)
    (st_egErr st) (st_grpErr st) (st_panic st) (st_log st).
Definition add_thread (t : thread) (st : state) : state :=
  mkState (st_dst st) (st_tracker st) (st_free st) (st_cancel st) (st_threads st ++ [t])
    (st_egErr st) (st_grpErr st) (st_panic st) (st_log st).
Definition set_egErr (m : gmap nat error) (st : state) : state :=
  mkState (st_dst st) (st_tracker st) (st_free st) (st_cancel st) (st_threads st)
    m (st_grpErr st) (st_panic st) (st_log st).
Definition set_grpErr (m : gmap nat error) (st : state) : state :=
  mkState (st_dst st) (st_tracker st) (st_free st) (st_cancel st) (st_threads st)
    (st_egErr st) m (st_panic st) (st_log st).
Definition set_panic (st : state) : state :=
  mkState (st_dst st) (st_tracker st) (st_free st) (st_cancel st) (st_threads st)
    (st_egErr st) (st_grpErr st) true (st_log st).
Definition set_copied (m : gmap Descriptor bytes) (l : list Descriptor) (st : state) : state :=
  mkState m (st_tracker st) (st_free st) (st_cancel st) (st_threads st)
    (st_egErr st) (st_grpErr st) (st_panic st) l.

Definition has_err (m : gmap nat error) (tid : nat) : bool := bool_decide (is_Some (m !! tid)).

(** [ctx.Done()] for the context of thread [tid]: the caller's context is done,
    or the group that started the thread - or one above it - has failed.  A
    parent has a smaller index than its children, so [tid] is enough fuel. *)
Fixpoint ctx_done_fuel (fuel : nat) (st : state) (tid : nat) : bool :=
  st_cancel st ||
  match fuel with
  | O => false
  | S fuel' =>
      match t ← st_threads st !! tid; t_parent t with
      | None => false
      | Some p => has_err (st_grpErr st) p || ctx_done_fuel fuel' st p
      end
  end.

Definition ctx_done (st : state) (tid : nat) : bool := ctx_done_fuel tid st tid.

(** The context of the group started by [tid]. *)
Definition group_done (st : state) (tid : nat) : bool :=
  ctx_done st tid || has_err (st_grpErr st) tid.

Definition is_done (t : thread) : bool :=
  match t_pc t with PDone _ => true | _ => false end.

Definition has_parent (p : nat) (t : thread) : bool := bool_decide (t_parent t = Some p).

(** [eg.Wait()] can return: every goroutine started by [tid] has finished. *)
Definition children_done (st : state) (tid : nat) : bool :=
  forallb (fun t => negb (has_parent tid t) || is_done t) (st_threads st).

(** The dynamic type of an error value, which [atomic.Value] compares. *)
Inductive error_type := TErrorString | TDeadline | TWrapError | TCopyError | TErrorResponse | TReferrersError.

#[export] Instance error_type_eq_dec : EqDecision error_type.
Proof. solve_decision. Defined.

Definition type_of (e : error) : error_type :=
  match e with
  | ESentinel DeadlineExceeded => TDeadline
  | ESentinel _ | ENew _ => TErrorString
  | EWrap _ _ => TWrapError
  | ECopy _ _ _ => TCopyError
  | EResponse _ _ => TErrorResponse
  | EReferrers _ _ _ => TReferrersError
  end.

(** [egErr.CompareAndSwap(nil, err)] for the group of thread [p]: nothing is
    stored when a value is there, and a stored value of another concrete type
    makes the call panic. *)
Definition CompareAndSwap (p : nat) (err : error) (st : state) : state :=
  match st_egErr st !! p with
  | None => set_egErr (<[p := err]> (st_egErr st)) st
  | Some stored => if decide (type_of stored = type_of err) then st else set_panic st
  end.

(** The errgroup's [errOnce] and [cancel]. *)
Definition errOnce (p : nat) (err : error) (st : state) : state :=
  match st_grpErr st !! p with
  | None => set_grpErr (<[p := err]> (st_grpErr st)) st
  | Some _ => st
  end.

(** [for_parent t err f st]: [f] on the group that started [t], when [err] is not nil. *)
Definition for_parent (t : thread) (err : option error) (f : nat -> error -> state -> state)
    (st : state) : state :=
  match t_parent t, err with
  | Some p, Some e => f p e st
  | _, _ => st
  end.

(** [Tracker.TryCommit]: [LoadOrStore] of a new, open channel. *)
Definition TryCommit (target : OciDescriptor) (status : gmap Descriptor bool)
    : gmap Descriptor bool * bool :=
  let key := FromOCI target in
  match status !! key with
  | Some _ => (status, false)
  | None => (<[key := false]> status, true)
  end.

Section Steps.
(** What [FindSuccessors] and [src.Fetch] return when they succeed. *)
Context (succ : Descriptor -> list OciDescriptor) (src : Descriptor -> bytes).

(** The successors that are copied. *)
Definition children (k : Descriptor) : list OciDescriptor := removeForeignLayers (succ k).

(** [fn] returns: its deferred function closes the done channel on success. *)
Definition fn_return (tid : nat) (t : thread) (d : OciDescriptor) (err : option error)
    (st : state) : state :=
  let st := set_thread tid (set_pc (PReturn err) t) st in
  match err with
  | None => if t_committed t then set_tracker (<[FromOCI d := true]> (st_tracker st)) st else st
  | Some _ => st
  end.

(** The node was handled by [copyNode] or [mountOrCopyNode]; [pushed]: its
    content is in the destination. *)
Definition copied (pushed : bool) (k : Descriptor) (st : state) : state :=
  set_copied
    (if pushed then match st_dst st !! k with
                    | Some _ => st_dst st
                    | None => <[k := src k]> (st_dst st)
                    end
     else st_dst st)
    (st_log st ++ [k]) st.

(** The goroutine started by [Go] once [fn] has returned [err]. *)
Definition step_return (st : state) (tid : nat) (t : thread) (err : option error) : state :=
  let st' := for_parent t err CompareAndSwap st in
  if st_panic st' then st' else set_thread tid (set_pc (PRelease err) t) st'.

Definition step_release (st : state) (tid : nat) (t : thread) (err : option error) : state :=
  let st' := set_thread tid (set_pc (PExit err) (set_held false t)) st in
  if t_held t then set_free (S (st_free st)) st' else st'.

Definition step_exit (st : state) (tid : nat) (t : thread) (err : option error) : state :=
  for_parent t err errOnce (set_thread tid (set_pc (PDone err) t) st).

(** The loop of [syncutil.Go] over the items of thread [tid]. *)
Definition step_go (st : state) (tid : nat) (t : thread) (i : nat) (c : choice) : option state :=
  match t_succs t !! i, c with
  | Some s, CNext =>
      (* region.Start() acquires a permit, then the goroutine is started *)
      match st_free st with
      | O => None
      | S free =>
          let child := mkThread (Some s) (Some tid) PTryCommit true false [] in
          Some (add_thread child (set_free free (set_thread tid (set_pc (PGo (S i)) t) st)))
      end
  | Some _, CDone =>
      (* region.Start() fails: Go returns at once *)
      if group_done st tid
      then Some (set_thread tid
             (set_pc (PReturn (Some (default (ESentinel Canceled) (st_egErr st !! tid)))) t) st)
      else None
  | None, CNext => Some (set_thread tid (set_pc PWait t) st)
  | _, _ => None
  end.

Definition step_wait (st : state) (tid : nat) (t : thread) : option state :=
  if children_done st tid then
    match st_grpErr st !! tid, t_node t with
    | None, Some _ => Some (set_thread tid (set_pc (PJoin 0) t) st)
    | err, _ => Some (set_thread tid (set_pc (PReturn err) t) st)
    end
  else None.

(** The loop over the done channels of the successors. *)
Definition step_join (st : state) (tid : nat) (t : thread) (i : nat) (c : choice) : option state :=
  match t_succs t !! i with
  | Some s =>
      let (tracker, committed) := TryCommit s (st_tracker st) in
      if committed then
        let msg := match t_node t with Some d => Digest d | None => EmptyString end
          +:+ ": " +:+ Digest s +:+ ": successor not committed" in
        Some (set_tracker tracker (set_thread tid (set_pc (PReturn (Some (ENew msg))) t) st))
      else
        match tracker !! FromOCI s, c with
        | Some true, CNext => Some (set_thread tid (set_pc (PJoin (S i)) t) st)
        | _, CDone =>
            if ctx_done st tid
            then Some (set_thread tid (set_pc (PReturn (Some (ESentinel Canceled))) t) st) else None
        | _, _ => None
        end
  | None => match c with
            | CNext => Some (set_thread tid (set_pc PStart t) st)
            | _ => None
            end
  end.

(** The body of [fn], for a thread that works on a node. *)
Definition step_node (st : state) (tid : nat) (t : thread) (d : OciDescriptor) (c : choice)
    : option state :=
  let k := FromOCI d in
  match t_pc t, c with
  | PTryCommit, CNext =>
      let (tracker, committed) := TryCommit d (st_tracker st) in
      if committed
      then Some (set_tracker tracker (set_thread tid (set_pc PExists (set_committed t)) st))
      else Some (set_thread tid (set_pc (PReturn None) t) st)
  | PExists, CNext =>
      match st_dst st !! k with
      | Some _ => Some (set_thread tid (set_pc PSkipped t) st)
      | None => Some (set_thread tid (set_pc PFindSuccessors t) st)
      end
  | PExists, CFail e =>
      Some (fn_return tid t d (Some (ECopy "Exists" CopyErrorOriginDestination e)) st)
  | PSkipped, CNext => Some (fn_return tid t d None st)
  | PSkipped, CFail e => Some (fn_return tid t d (Some e) st)
  | PFindSuccessors, CNext =>
      match children k with
      | [] => Some (set_thread tid (set_pc PCopy t) st)
      | l => Some (set_thread tid (set_pc PRegionEnd (set_succs l t)) st)
      end
  | PFindSuccessors, CFail e =>
      Some (fn_return tid t d (Some (ECopy "FindSuccessors" CopyErrorOriginSource e)) st)
  | PRegionEnd, CNext =>
      Some (set_free (S (st_free st)) (set_thread tid (set_pc (PGo 0) (set_held false t)) st))
  | PStart, CNext =>
      match st_free st with
      | O => None
      | S free => Some (set_free free (set_thread tid (set_pc PCopy (set_held true t)) st))
      end
  | PStart, CDone =>
      if ctx_done st tid then Some (fn_return tid t d (Some (ESentinel Canceled)) st) else None
  | PCopy, CNext => Some (fn_return tid t d None (copied true k st))
  | PCopy, CFail e => Some (fn_return tid t d (Some e) (copied false k st))
  | PCopy, CFailAfterPush e => Some (fn_return tid t d (Some e) (copied true k st))
  | _, _ => None
  end.

(** One step of thread [tid]. *)
Definition step (st : state) (tid : nat) (c : choice) : option state :=
  if st_panic st then None else
  match st_threads st !! tid with
  | None => None
  | Some t =>
      match t_pc t, c with
      | PGo i, _ => step_go st tid t i c
      | PWait, CNext => step_wait st tid t
      | PJoin i, _ => step_join st tid t i c
      | PReturn err, CNext => Some (step_return st tid t err)
      | PRelease err, CNext => Some (step_release st tid t err)
      | PExit err, CNext => Some (step_exit st tid t err)
      | PWait, _ | PReturn _, _ | PRelease _, _ | PExit _, _ | PDone _, _ => None
      | _, _ => match t_node t with Some d => step_node st tid t d c | None => None end
      end
  end.

(** The caller cancels its context. *)
Definition cancel (st : state) : state :=
  mkState (st_dst st) (st_tracker st) (st_free st) true (st_threads st)
    (st_egErr st) (st_grpErr st) (st_panic st) (st_log st).

(** [copyGraph] on [root]: the calling goroutine is about to run
    [syncutil.Go(ctx, limiter, fn, root)]. *)
Definition init (dst : gmap Descriptor bytes) (limit : nat) (root : OciDescriptor) : state :=
  mkState dst ∅ limit false [mkThread None None (PGo 0) false false [root]] ∅ ∅ false [].

(** Reachability by scheduler steps and cancellation. *)
Inductive reachable (dst : gmap Descriptor bytes) (limit : nat) (root : OciDescriptor)
    : state -> Prop :=
| reachable_init : reachable dst limit root (init dst limit root)
| reachable_step st tid c st' :
    reachable dst limit root st -> step st tid c = Some st' -> reachable dst limit root st'
| reachable_cancel st : reachable dst limit root st -> reachable dst limit root (cancel st).

(** Run a schedule. *)
Fixpoint run (sched : list (nat * choice)) (st : state) : option state :=
  match sched with
  | [] => Some st
  | (tid, c) :: sched' => st' ← step st tid c; run sched' st'
  end.

Lemma reachable_run dst limit root sched st st' :
  reachable dst limit root st -> run sched st = Some st' -> reachable dst limit root st'.
Proof.
  revert st. induction sched as [|[tid c] sched IH]; intros st Hr; simpl; [by intros [= <-]|].
  destruct (step st tid c) as [st1|] eqn:E; simpl; [|done]. intros Hrun.
  eapply IH; [|done]. by eapply reachable_step.
Qed.

(** The result of [copyGraph]: the error returned to the caller. *)
Definition result_of (st : state) : option (option error) :=
  match st_threads st !! 0 with
  | Some t => match t_pc t with PDone e => Some e | _ => None end
  | None => None
  end.

End Steps.
