(* ===== verification/SchedSafety.v ===== *)
(** Safety of the concurrent traversal of [Sched]: the invariant of every
    reachable state, for any number of goroutines, any schedule and any failures
    of the environment. *)

From Stdlib Require Import ZArith Lia.
From S2P Require Import Prelude Errors Descriptor Sched.

(** The program counters after [fn] has returned [err]. *)
Definition returned (err : option error) (p : pc) : Prop :=
  p = PReturn err \/ p = PRelease err \/ p = PExit err \/ p = PDone err.

(** Unfold [fn_return] and case on the commitment it depends on. *)
Ltac split_fn_return :=
  unfold fn_return;
  repeat match goal with |- context [if t_committed ?t then _ else _] =>
    destruct (t_committed t) eqn:?Hcm end.

Section Safety.
Context (succ : Descriptor -> list OciDescriptor) (src : Descriptor -> bytes).
Notation children := (children succ).
Notation step := (step succ src).
Notation reachable := (reachable succ src).

(** ** The steps, by effect *)

(** Moves that change the program counter of the thread and nothing else. *)
Inductive move (st : state) (tid : nat) (t : thread) (c : choice) : pc -> Prop :=
| mv_started i :
    t_pc t = PGo i -> t_succs t !! i = None -> move st tid t c PWait
| mv_start_err i e :
    t_pc t = PGo i -> group_done st tid = true -> c = CDone ->
    move st tid t c (PReturn (Some e))
| mv_waited_err e :
    t_pc t = PWait -> children_done st tid = true -> st_grpErr st !! tid = Some e ->
    move st tid t c (PReturn (Some e))
| mv_waited_caller :
    t_pc t = PWait -> children_done st tid = true -> st_grpErr st !! tid = None ->
    t_node t = None -> move st tid t c (PReturn None)
| mv_waited d :
    t_pc t = PWait -> children_done st tid = true -> st_grpErr st !! tid = None ->
    t_node t = Some d -> move st tid t c (PJoin 0)
| mv_join i s :
    t_pc t = PJoin i -> t_succs t !! i = Some s -> st_tracker st !! FromOCI s = Some true ->
    move st tid t c (PJoin (S i))
| mv_joined i :
    t_pc t = PJoin i -> t_succs t !! i = None -> move st tid t c PStart
| mv_duplicate d x :
    t_pc t = PTryCommit -> t_node t = Some d -> st_tracker st !! FromOCI d = Some x ->
    move st tid t c (PReturn None)
| mv_present d v :
    t_pc t = PExists -> t_node t = Some d -> st_dst st !! FromOCI d = Some v ->
    move st tid t c PSkipped
| mv_absent d :
    t_pc t = PExists -> t_node t = Some d -> st_dst st !! FromOCI d = None ->
    move st tid t c PFindSuccessors
| mv_leaf d :
    t_pc t = PFindSuccessors -> t_node t = Some d -> children (FromOCI d) = [] ->
    move st tid t c PCopy
| mv_fail e :
    t_pc t = PExists \/ t_pc t = PSkipped \/ t_pc t = PFindSuccessors \/ t_pc t = PStart
      \/ (exists i, t_pc t = PJoin i) ->
    c <> CNext -> move st tid t c (PReturn (Some e)).

Inductive effect (st : state) (tid : nat) (t : thread) (c : choice) : state -> Prop :=
| eff_move p : move st tid t c p -> effect st tid t c (set_thread tid (set_pc p t) st)
| eff_spawn i s free :
    t_pc t = PGo i -> t_succs t !! i = Some s -> st_free st = S free ->
    effect st tid t c
      (add_thread (mkThread (Some s) (Some tid) PTryCommit true false [])
        (set_free free (set_thread tid (set_pc (PGo (S i)) t) st)))
| eff_uncommitted i s e :
    t_pc t = PJoin i -> t_succs t !! i = Some s -> st_tracker st !! FromOCI s = None ->
    effect st tid t c
      (set_tracker (<[FromOCI s := false]> (st_tracker st))
        (set_thread tid (set_pc (PReturn (Some e)) t) st))
| eff_commit d :
    t_pc t = PTryCommit -> t_node t = Some d -> st_tracker st !! FromOCI d = None ->
    effect st tid t c
      (set_tracker (<[FromOCI d := false]> (st_tracker st))
        (set_thread tid (set_pc PExists (set_committed t)) st))
| eff_find d l :
    t_pc t = PFindSuccessors -> t_node t = Some d -> children (FromOCI d) = l -> l <> [] ->
    effect st tid t c (set_thread tid (set_pc PRegionEnd (set_succs l t)) st)
| eff_region_end :
    t_pc t = PRegionEnd -> is_Some (t_node t) ->
    effect st tid t c
      (set_free (S (st_free st)) (set_thread tid (set_pc (PGo 0) (set_held false t)) st))
| eff_region_start free :
    t_pc t = PStart -> is_Some (t_node t) -> st_free st = S free ->
    effect st tid t c (set_free free (set_thread tid (set_pc PCopy (set_held true t)) st))
| eff_skip d :
    t_pc t = PSkipped -> t_node t = Some d -> effect st tid t c (fn_return tid t d None st)
| eff_copied d :
    t_pc t = PCopy -> t_node t = Some d ->
    effect st tid t c (fn_return tid t d None (copied src true (FromOCI d) st))
| eff_copy_failed d e pushed :
    t_pc t = PCopy -> t_node t = Some d -> c <> CNext ->
    effect st tid t c
      (set_thread tid (set_pc (PReturn (Some e)) t) (copied src pushed (FromOCI d) st))
| eff_return err :
    t_pc t = PReturn err ->
    (forall p e, t_parent t = Some p -> err = Some e -> is_Some (st_egErr st !! p)) ->
    effect st tid t c (set_thread tid (set_pc (PRelease err) t) st)
| eff_return_first p e :
    t_pc t = PReturn (Some e) -> t_parent t = Some p -> st_egErr st !! p = None ->
    effect st tid t c
      (set_thread tid (set_pc (PRelease (Some e)) t) (set_egErr (<[p := e]> (st_egErr st)) st))
| eff_panic e : t_pc t = PReturn (Some e) -> effect st tid t c (set_panic st)
| eff_release err :
    t_pc t = PRelease err ->
    effect st tid t c
      (set_free (if t_held t then S (st_free st) else st_free st)
        (set_thread tid (set_pc (PExit err) (set_held false t)) st))
| eff_exit err :
    t_pc t = PExit err ->
    (forall p e, t_parent t = Some p -> err = Some e -> is_Some (st_grpErr st !! p)) ->
    effect st tid t c (set_thread tid (set_pc (PDone err) t) st)
| eff_exit_first p e :
    t_pc t = PExit (Some e) -> t_parent t = Some p -> st_grpErr st !! p = None ->
    effect st tid t c
      (set_grpErr (<[p := e]> (st_grpErr st)) (set_thread tid (set_pc (PDone (Some e)) t) st)).

Lemma step_go_effect st tid t i c st' :
  t_pc t = PGo i -> step_go st tid t i c = Some st' -> effect st tid t c st'.
Proof.
  intros Hpc. unfold step_go. destruct (t_succs t !! i) eqn:Hi, c; try done.
  - destruct (st_free st) eqn:Hf; [done|]. intros [= <-]. by eapply eff_spawn.
  - destruct (group_done st tid) eqn:Hg; [|done]. intros [= <-]. by eapply eff_move, mv_start_err.
  - intros [= <-]. by eapply eff_move, mv_started.
Qed.

Lemma step_wait_effect st tid t c st' :
  t_pc t = PWait -> step_wait st tid t = Some st' -> effect st tid t c st'.
Proof.
  intros Hpc. unfold step_wait. destruct (children_done st tid) eqn:Hc; [|done].
  destruct (st_grpErr st !! tid) eqn:Hg; [|destruct (t_node t) eqn:Hn]; intros [= <-]; apply eff_move.
  - by apply mv_waited_err.
  - by eapply mv_waited.
  - by apply mv_waited_caller.
Qed.

Lemma step_join_effect st tid t i c st' :
  t_pc t = PJoin i -> step_join st tid t i c = Some st' -> effect st tid t c st'.
Proof.
  intros Hpc. unfold step_join, TryCommit. destruct (t_succs t !! i) as [s|] eqn:Hi.
  - destruct (st_tracker st !! FromOCI s) as [b|] eqn:Htr.
    + rewrite Htr. destruct b, c; try done; try (destruct (ctx_done st tid); [|done]); intros [= <-];
        apply eff_move; first [by eapply mv_join | eapply mv_fail; [rewrite Hpc; eauto 10|done]].
    + intros [= <-]. by eapply eff_uncommitted.
  - destruct c; try done. intros [= <-]. by eapply eff_move, mv_joined.
Qed.

Lemma step_node_effect st tid t d c st' :
  t_node t = Some d -> step_node succ src st tid t d c = Some st' -> effect st tid t c st'.
Proof.
  intros Hn. unfold step_node, TryCommit. destruct (t_pc t) eqn:Hpc, c; try done; cbn zeta.
  all: try (intros [= <-]; eapply eff_move, mv_fail; [rewrite Hpc; eauto 10|done]).
  - destruct (st_tracker st !! FromOCI d) eqn:Htr; intros [= <-].
    + by eapply eff_move, mv_duplicate.
    + by apply eff_commit.
  - destruct (st_dst st !! FromOCI d) eqn:Hd; intros [= <-]; apply eff_move.
    + by eapply mv_present.
    + by eapply mv_absent.
  - intros [= <-]. by apply eff_skip.
  - destruct (children (FromOCI d)) eqn:Hch; intros [= <-].
    + by eapply eff_move, mv_leaf.
    + by eapply eff_find.
  - intros [= <-]. apply eff_region_end; eauto.
  - destruct (st_free st) eqn:Hf; [done|]. intros [= <-]. apply eff_region_start; eauto.
  - destruct (ctx_done st tid); [|done]. intros [= <-].
    eapply eff_move, mv_fail; [rewrite Hpc; eauto 10|done].
  - intros [= <-]. by apply eff_copied.
  - intros [= <-]. by apply (eff_copy_failed _ _ _ _ d e false).
  - intros [= <-]. by apply (eff_copy_failed _ _ _ _ d e true).
Qed.

Lemma step_return_effect st tid t err c :
  st_panic st = false -> t_pc t = PReturn err -> effect st tid t c (step_return st tid t err).
Proof.
  intros Hpan Hpc. unfold step_return, for_parent.
  destruct (t_parent t) as [p|] eqn:Hp, err as [e|].
  2-4: rewrite Hpan; apply eff_return; naive_solver.
  unfold CompareAndSwap. destruct (st_egErr st !! p) as [e'|] eqn:He; [|simpl; rewrite Hpan; by apply eff_return_first].
  case_decide; [|by eapply eff_panic]. rewrite Hpan. apply eff_return; [done|].
  intros p' ? ? ?. replace p' with p by congruence. eauto.
Qed.

Lemma step_release_effect st tid t err c :
  t_pc t = PRelease err -> effect st tid t c (step_release st tid t err).
Proof.
  intros Hpc. pose proof (eff_release st tid t c err Hpc) as He. revert He.
  unfold step_release. by destruct (t_held t).
Qed.

Lemma step_exit_effect st tid t err c :
  t_pc t = PExit err -> effect st tid t c (step_exit st tid t err).
Proof.
  intros Hpc. unfold step_exit, for_parent.
  destruct (t_parent t) as [p|] eqn:Hp, err as [e|]; [|apply eff_exit; naive_solver..].
  unfold errOnce. simpl. destruct (st_grpErr st !! p) as [e'|] eqn:He; [|by apply eff_exit_first].
  apply eff_exit; [done|]. intros p' ? ? ?. replace p' with p by congruence. eauto.
Qed.

Lemma step_effect st tid c st' :
  step st tid c = Some st' ->
  exists t, st_threads st !! tid = Some t /\ st_panic st = false /\ effect st tid t c st'.
Proof.
  unfold step. destruct (st_panic st) eqn:Hpan; [done|].
  destruct (st_threads st !! tid) as [t|] eqn:Ht; [|done].
  intros Hs. exists t. split_and!; [done..|].
  destruct (t_pc t) eqn:Hpc.
  6: by eapply step_go_effect.
  6: { destruct c; try done. by eapply step_wait_effect. }
  6: by eapply step_join_effect.
  all: try (destruct (t_node t) as [d|] eqn:Hn; [|by destruct c]).
  all: try (by destruct c; try done; eapply step_node_effect; eauto; rewrite Hpc).
  all: destruct c; try done; injection Hs as <-.
  - by apply step_return_effect.
  - by apply step_release_effect.
  - by apply step_exit_effect.
Qed.

(** ** The invariant *)

Context (dst0 : gmap Descriptor bytes) (limit : nat) (root : OciDescriptor).

Definition in_tracker (st : state) (k : Descriptor) : Prop := is_Some (st_tracker st !! k).
Definition done_in (st : state) (k : Descriptor) : Prop := st_tracker st !! k = Some true.

(** The program counters of a thread whose group may still have goroutines:
    it starts them, waits for them or has returned an error. *)
Definition waiting (p : pc) : Prop :=
  p = PWait \/ (exists i, p = PGo i) \/ (exists e, returned (Some e) p).

(** What a thread knows at each program counter. *)
Definition node_inv (st : state) (tid : nat) (t : thread) (k : Descriptor) : Prop :=
  match t_pc t with
  | PTryCommit => t_held t = true /\ t_committed t = false /\ t_succs t = []
  | PExists | PFindSuccessors =>
      t_held t = true /\ t_committed t = true /\ t_succs t = [] /\ in_tracker st k
  | PSkipped =>
      t_held t = true /\ t_committed t = true /\ t_succs t = [] /\ in_tracker st k
      /\ is_Some (st_dst st !! k)
  | PRegionEnd =>
      t_held t = true /\ t_committed t = true /\ t_succs t = children k /\ in_tracker st k
  | PGo _ | PWait =>
      t_held t = false /\ t_committed t = true /\ t_succs t = children k /\ in_tracker st k
  | PJoin i =>
      t_held t = false /\ t_committed t = true /\ t_succs t = children k /\ in_tracker st k
      /\ st_grpErr st !! tid = None
      /\ (forall s, s ∈ children k -> in_tracker st (FromOCI s))
      /\ (forall j s, j < i -> children k !! j = Some s -> done_in st (FromOCI s))
  | PStart =>
      t_held t = false /\ t_committed t = true /\ t_succs t = children k /\ in_tracker st k
      /\ st_grpErr st !! tid = None
      /\ (forall s, s ∈ children k -> done_in st (FromOCI s))
  | PCopy =>
      t_held t = true /\ t_committed t = true /\ in_tracker st k
      /\ st_grpErr st !! tid = None
      /\ (forall s, s ∈ children k -> done_in st (FromOCI s))
  | PReturn e | PRelease e =>
      in_tracker st k /\ (e = None -> t_committed t = true -> done_in st k)
  | PExit e | PDone e =>
      t_held t = false /\ in_tracker st k /\ (e = None -> t_committed t = true -> done_in st k)
  end.

(** The goroutine that called [copyGraph] only runs [syncutil.Go]. *)
Definition caller_pc (p : pc) : Prop :=
  p = PWait \/ (exists i, p = PGo i) \/ (exists e, returned e p).

Lemma caller_not_join i : ~ caller_pc (PJoin i).
Proof. unfold caller_pc, returned. intros [?|[[? ?]|[? [?|[?|[?|?]]]]]]; congruence. Qed.

Definition thread_inv (st : state) (tid : nat) (t : thread) : Prop :=
  match t_node t with
  | None =>
      tid = 0 /\ t_parent t = None /\ t_held t = false /\ t_committed t = false
      /\ t_succs t = [root] /\ caller_pc (t_pc t)
  | Some d => is_Some (t_parent t) /\ node_inv st tid t (FromOCI d)
  end.

(** A goroutine and the one that started it. *)
Definition child_inv (st : state) (p c : nat) (tc : thread) : Prop :=
  p < c /\ exists tp s, st_threads st !! p = Some tp /\ t_node tc = Some s /\ s ∈ t_succs tp
    /\ (is_done tc = false -> waiting (t_pc tp))
    /\ (forall e, returned (Some e) (t_pc tc) -> t_pc tc <> PReturn (Some e) ->
         is_Some (st_egErr st !! p))
    /\ (forall e, t_pc tc = PDone (Some e) -> is_Some (st_grpErr st !! p)).

(** Item [j] of the [Go] call of a thread has been started. *)
Definition spawned (t : thread) (j : nat) : Prop :=
  match t_pc t with PGo i => j < i | PWait => True | _ => False end.

Record inv (st : state) : Prop := mkInv {
  inv_thread : forall i t, st_threads st !! i = Some t -> thread_inv st i t;
  inv_child : forall c tc p, st_threads st !! c = Some tc -> t_parent tc = Some p ->
    child_inv st p c tc;
  inv_egErr : forall p e, st_egErr st !! p = Some e ->
    exists tp c tc e', st_threads st !! p = Some tp /\ waiting (t_pc tp)
      /\ st_threads st !! c = Some tc /\ t_parent tc = Some p
      /\ returned (Some e') (t_pc tc) /\ t_pc tc <> PReturn (Some e');
  inv_grpErr : forall p, is_Some (st_grpErr st !! p) -> is_Some (st_egErr st !! p);
  inv_spawned : forall p tp j s, st_threads st !! p = Some tp -> t_succs tp !! j = Some s ->
    spawned tp j -> exists c tc, st_threads st !! c = Some tc /\ t_parent tc = Some p
      /\ t_node tc = Some s;
  inv_tracker : forall k b, st_tracker st !! k = Some b ->
    (b = true -> is_Some (st_dst st !! k))
    /\ exists c tc d, st_threads st !! c = Some tc /\ t_committed tc = true
      /\ t_node tc = Some d /\ FromOCI d = k /\ (b = false -> ~ returned None (t_pc tc));
  inv_unique : forall i j ti tj, st_threads st !! i = Some ti -> st_threads st !! j = Some tj ->
    t_committed ti = true -> t_committed tj = true ->
    FromOCI <$> t_node ti = FromOCI <$> t_node tj -> i = j;
  inv_permits : st_free st + length (List.filter t_held (st_threads st)) = limit;
  inv_log : NoDup (st_log st) /\ forall k, k ∈ st_log st ->
    exists c tc d e, st_threads st !! c = Some tc /\ t_committed tc = true
      /\ t_node tc = Some d /\ FromOCI d = k /\ returned e (t_pc tc);
  inv_caller : exists t0, st_threads st !! 0 = Some t0 /\ t_node t0 = None
    /\ (t_pc t0 = PGo 0 -> length (st_threads st) = 1);
  inv_root : forall t1, st_threads st !! 1 = Some t1 ->
    t_node t1 = Some root
    /\ (if t_committed t1 then True
        else t_pc t1 = PTryCommit /\ st_tracker st = ∅ /\ length (st_threads st) = 2)
}.

(** ** Frame lemmas *)

(** The steps of a thread change its own entry and may append one thread. *)
Definition new_child (t : thread) (tid : nat) (u : thread) : Prop :=
  exists i s, t_pc t = PGo i /\ t_succs t !! i = Some s
    /\ u = mkThread (Some s) (Some tid) PTryCommit true false [].

Record frame (st : state) (tid : nat) (t t' : thread) (st' : state) : Prop := {
  fr_self : st_threads st' !! tid = Some t';
  fr_node : t_node t' = t_node t;
  fr_parent : t_parent t' = t_parent t;
  fr_succs : t_pc t <> PFindSuccessors -> t_succs t' = t_succs t;
  fr_committed : t_committed t = true -> t_committed t' = true;
  fr_other : forall i u, i <> tid -> st_threads st !! i = Some u -> st_threads st' !! i = Some u;
  fr_other_inv : forall i u, i <> tid -> st_threads st' !! i = Some u ->
    st_threads st !! i = Some u \/ (i = length (st_threads st) /\ new_child t tid u)
}.

Lemma frame_insert st tid t t' st' new :
  st_threads st !! tid = Some t ->
  st_threads st' = <[tid := t']> (st_threads st) ++ new ->
  (forall u, u ∈ new -> new = [u] /\ new_child t tid u) ->
  t_node t' = t_node t -> t_parent t' = t_parent t ->
  (t_pc t <> PFindSuccessors -> t_succs t' = t_succs t) ->
  (t_committed t = true -> t_committed t' = true) -> frame st tid t t' st'.
Proof.
  intros Ht%lookup_lt_Some E Hnew; split; try done; rewrite E.
  - by rewrite lookup_app_l, list_lookup_insert_eq by (rewrite ?length_insert; done).
  - intros. apply lookup_app_l_Some. by rewrite list_lookup_insert_ne.
  - intros i u ?. rewrite lookup_app_Some, length_insert, list_lookup_insert_ne by done.
    intros [?|[Hi Hu]]; [by left|]. right.
    destruct (Hnew u) as [-> Hc]; [by eapply list_elem_of_lookup_2|].
    apply list_lookup_singleton_Some in Hu as [? _]. split; [lia|done].
Qed.

Lemma effect_frame st tid t c st' :
  st_threads st !! tid = Some t -> effect st tid t c st' -> exists t', frame st tid t t' st'.
Proof.
  intros Ht Heff.
  assert (Hins : forall t', st_threads st' = <[tid := t']> (st_threads st) ->
    t_node t' = t_node t -> t_parent t' = t_parent t ->
    (t_pc t <> PFindSuccessors -> t_succs t' = t_succs t) ->
    (t_committed t = true -> t_committed t' = true) -> exists t', frame st tid t t' st').
  { intros t' E ????. exists t'. eapply (frame_insert _ _ _ _ _ []); try done.
    - by rewrite app_nil_r.
    - by intros ? ?%elem_of_nil. }
  destruct Heff; try (eapply Hins; [reflexivity|..]; simpl; done || by intros).
  - exists (set_pc (PGo (S i)) t). eapply (frame_insert _ _ _ _ _ [_]); try done.
    intros u ->%list_elem_of_singleton. split; [done|]. by exists i, s.
  - eapply Hins; [unfold fn_return; simpl; by destruct (t_committed t)|..]; done.
  - eapply Hins; [unfold fn_return; simpl; by destruct (t_committed t)|..]; done.
  - eapply (Hins t); try done. simpl. by rewrite list_insert_id.
Qed.

(** The tracker and the destination only grow; a group only records errors of
    goroutines it started. *)
Record grows (st : state) (t : thread) (st' : state) : Prop := {
  gr_tracker : forall k, in_tracker st k -> in_tracker st' k;
  gr_done : forall k, done_in st k -> done_in st' k;
  gr_dst : forall k v, st_dst st !! k = Some v -> st_dst st' !! k = Some v;
  gr_egErr : forall p, is_Some (st_egErr st !! p) -> is_Some (st_egErr st' !! p);
  gr_grpErr : forall p, is_Some (st_grpErr st !! p) -> is_Some (st_grpErr st' !! p);
  gr_grpErr_inv : forall p, st_grpErr st' !! p = st_grpErr st !! p
    \/ (t_parent t = Some p /\ exists e, t_pc t = PExit e)
}.

Lemma insert_grows {K A} `{Countable K} (m : gmap K A) (k k' : K) (x : A) :
  is_Some (m !! k') -> is_Some (<[k := x]> m !! k').
Proof. rewrite !lookup_insert_is_Some. destruct (decide (k = k')); auto. Qed.

Lemma effect_grows st tid t c st' : effect st tid t c st' -> grows st t st'.
Proof.
  assert (Hc : forall p k v, st_dst st !! k = Some v ->
    st_dst (copied src true p st) !! k = Some v).
  { intros p k v Hk. simpl. destruct (st_dst st !! p) eqn:E; [done|].
    rewrite lookup_insert_ne; [done|congruence]. }
  intros Heff. destruct Heff; try (split; simpl; unfold in_tracker, done_in; simpl; by auto).
  - split; unfold in_tracker, done_in; simpl; auto using insert_grows.
    intros k Hk. rewrite lookup_insert_ne; [done|congruence].
  - split; unfold in_tracker, done_in; simpl; auto using insert_grows.
    intros k Hk. rewrite lookup_insert_ne; [done|congruence].
  - unfold fn_return. destruct (t_committed t); split; unfold in_tracker, done_in; simpl; auto using insert_grows.
    intros k Hk. rewrite lookup_insert. by case_decide.
  - unfold fn_return. destruct (t_committed t); split; unfold in_tracker, done_in; simpl; auto using insert_grows;
    [|intros k; apply Hc..]. intros k Hk. rewrite lookup_insert. by case_decide.
  - destruct pushed; split; unfold in_tracker, done_in; simpl; auto. intros k; apply Hc.
  - split; unfold in_tracker, done_in; simpl; auto using insert_grows.
  - split; unfold in_tracker, done_in; simpl; auto using insert_grows.
    intros p'. destruct (decide (p = p')) as [->|]; [eauto|left; by rewrite lookup_insert_ne].
Qed.

Lemma node_inv_grows st st' t0 i u k :
  grows st t0 st' -> node_inv st i u k ->
  st_grpErr st' !! i = st_grpErr st !! i \/ waiting (t_pc u) ->
  node_inv st' i u k.
Proof.
  intros [Htr Hdn Hdst _ _ _] Hi Hg. unfold node_inv in *.
  assert (Hd : forall x, is_Some (st_dst st !! x) -> is_Some (st_dst st' !! x))
    by (intros x [v ?]; eauto).
  clear Hdst. unfold waiting, returned in Hg.
  destruct (t_pc u) eqn:Hpc; repeat split_and; intuition eauto; try congruence.
  all: naive_solver.
Qed.

Lemma children_done_spec st p :
  children_done st p = true <->
  forall i u, st_threads st !! i = Some u -> t_parent u = Some p -> is_done u = true.
Proof.
  unfold children_done, has_parent. rewrite forallb_forall. split.
  - intros Hd i u Hi Hp.
    specialize (Hd u (proj1 (list_elem_of_In _ _) (list_elem_of_lookup_2 _ _ _ Hi))).
    by rewrite bool_decide_true in Hd.
  - intros Hd u [i Hi]%list_elem_of_In%list_elem_of_lookup. case_bool_decide; [|done].
    simpl. eauto.
Qed.

(** ** Preservation *)

Section Preserve.
Context (st st' : state) (tid : nat) (t : thread) (c : choice).
Hypothesis (Hinv : inv st) (Ht : st_threads st !! tid = Some t)
  (Heff : effect st tid t c st').

Lemma tid_lt : tid < length (st_threads st).
Proof. by eapply lookup_lt_Some. Qed.

Lemma self_inv : thread_inv st tid t.
Proof. by apply inv_thread. Qed.

(** When every goroutine of a group is done, its error is recorded. *)
Lemma waited_no_err p :
  children_done st p = true -> st_grpErr st !! p = None -> st_egErr st !! p = None.
Proof.
  intros Hd Hg. destruct (st_egErr st !! p) as [e|] eqn:He; [|done]. exfalso.
  destruct (inv_egErr st Hinv p e He) as (tp & i & ti & e' & _ & _ & Hi & Hp & Hret & _).
  apply children_done_spec with (i := i) (u := ti) in Hd; [|done..].
  destruct (inv_child st Hinv i ti p Hi Hp) as (_ & tp' & s & _ & _ & _ & _ & _ & Hgrp).
  unfold is_done in Hd. destruct (t_pc ti) eqn:Hpc; try done.
  destruct Hret as [?|[?|[?|?]]]; simplify_eq. destruct (Hgrp e' eq_refl). congruence.
Qed.

(** The children of a group that ended without error all succeeded. *)
Lemma waited_children p tp s :
  st_threads st !! p = Some tp -> t_pc tp = PWait ->
  children_done st p = true -> st_grpErr st !! p = None -> s ∈ t_succs tp ->
  exists i ti, st_threads st !! i = Some ti /\ t_parent ti = Some p /\ t_node ti = Some s
    /\ t_pc ti = PDone None.
Proof.
  intros Hp Hpc Hd Hg [j Hj]%list_elem_of_lookup.
  destruct (inv_spawned st Hinv p tp j s Hp Hj) as (i & ti & Hi & Hpar & Hn).
  { unfold spawned. by rewrite Hpc. }
  exists i, ti. split_and!; try done.
  apply children_done_spec with (i := i) (u := ti) in Hd; [|done..].
  destruct (inv_child st Hinv i ti p Hi Hpar) as (_ & tp' & s' & _ & _ & _ & _ & _ & Hgrp).
  unfold is_done in Hd. destruct (t_pc ti) as [| | | | | | | | | | | | |[e|]] eqn:E; try done.
  destruct (Hgrp e eq_refl). congruence.
Qed.

Lemma done_in_tracker i ti s :
  st_threads st !! i = Some ti -> t_node ti = Some s -> t_pc ti <> PTryCommit ->
  in_tracker st (FromOCI s).
Proof.
  intros Hi Hn Hpc. pose proof (inv_thread st Hinv i ti Hi) as Hth.
  unfold thread_inv, node_inv in Hth. rewrite Hn in Hth.
  destruct (t_pc ti); naive_solver.
Qed.

Lemma committed_in_tracker i ti s :
  st_threads st !! i = Some ti -> t_node ti = Some s -> t_committed ti = true ->
  in_tracker st (FromOCI s).
Proof.
  intros Hi Hn Hc. apply (done_in_tracker i ti s Hi Hn). intros Hpc.
  pose proof (inv_thread st Hinv i ti Hi) as Hth.
  unfold thread_inv, node_inv in Hth. rewrite Hn, Hpc in Hth.
  destruct Hth as (_ & _ & ? & _). congruence.
Qed.

Lemma caller_inv_self u :
  t_node t = None -> st_threads st' !! tid = Some u -> thread_inv st' tid u.
Proof.
  intros Hn. pose proof self_inv as Hs. pose proof tid_lt as Hlt.
  unfold thread_inv in *. rewrite Hn in Hs. destruct Hs as (-> & Hpar & Hh & Hcm & Hsu & Hpc).
  unfold caller_pc, returned in *.
  assert (Hno : forall p', t_pc t = p' ->
    match p' with
    | PWait | PGo _ | PReturn _ | PRelease _ | PExit _ | PDone _ => True
    | _ => False
    end).
  { intros p' <-. destruct Hpc as [->|[[? ->]|[? [->|[->|[->| ->]]]]]]; done. }
  destruct Heff as [p' Hmv| | | | | | | | | | | | | | |]; simpl;
    rewrite ?lookup_app_l by (by rewrite length_insert);
    rewrite ?list_lookup_insert_eq by done;
    try (match goal with H : t_pc t = _ |- _ => by destruct (Hno _ H) end);
    rewrite ?Ht; intros [= <-]; simpl; rewrite Hn; split_and!; eauto 10.
  destruct Hmv; eauto 10; try (match goal with H : t_pc t = _ |- _ => by destruct (Hno _ H) end).
  destruct Hpc as [E|[[j E]|[x [E|[E|[E|E]]]]]]; rewrite E in *; naive_solver.
Qed.

(** A thread that has not called [Go] has no group error. *)
Lemma no_group_err p tp :
  st_threads st !! p = Some tp -> t_succs tp = [] -> st_grpErr st !! p = None.
Proof.
  intros Hp Hsu. destruct (st_grpErr st !! p) as [e0|] eqn:Hg; [|done]. exfalso.
  destruct (inv_grpErr st Hinv p) as [e He]; [by rewrite Hg|].
  destruct (inv_egErr st Hinv p e He) as (? & i & ti & _ & _ & _ & Hi & Hpar & _).
  destruct (inv_child st Hinv i ti p Hi Hpar) as (_ & tp' & s & Hp' & _ & Hin & _).
  simplify_eq. rewrite Hsu in Hin. by apply elem_of_nil in Hin.
Qed.

Lemma move_inv_self d p' :
  t_node t = Some d -> move st tid t c p' -> node_inv st tid t (FromOCI d) ->
  node_inv st tid (set_pc p' t) (FromOCI d).
Proof.
  intros Hn Hmv Hs. unfold node_inv in *.
  destruct Hmv as [i Hpc|i e Hpc|e Hpc|Hpc|d' Hpc Hcd Hge|i s Hpc Hi Htr|i Hpc Hi|d' x Hpc Hd' Htr|d' v Hpc Hd' Hv
    |d' Hpc|d' Hpc Hd' Hch|e [Hpc|[Hpc|[Hpc|[Hpc|[i Hpc]]]]]]; rewrite Hpc in Hs; simpl.
  all: try (intuition congruence).
  - (* every successor was started and succeeded *)
    destruct Hs as (? & ? & Hsu & ?). split_and!; try done; [|intros; lia].
    intros s Hs. rewrite <- Hsu in Hs.
    destruct (waited_children tid t s Ht Hpc Hcd Hge Hs) as (j & tj & Hj & _ & Hnj & Hpj).
    eapply done_in_tracker; eauto. by rewrite Hpj.
  - destruct Hs as (? & ? & Hsu & ? & ? & Hin & Hdone). split_and!; try done.
    intros j s' Hj Hs'. destruct (decide (j = i)) as [->|]; [|apply (Hdone j); [lia|done]].
    rewrite <- Hsu in Hs'. by simplify_eq.
  - destruct Hs as (? & ? & Hsu & ? & ? & Hin & Hdone). split_and!; try done.
    intros s' [j Hj]%list_elem_of_lookup. apply (Hdone j); [|done].
    rewrite Hsu in Hi. apply lookup_ge_None in Hi. apply lookup_lt_Some in Hj. lia.
  - simplify_eq. split; [by eexists|]. intros _ Hcm. destruct Hs as (_ & ? & _). congruence.
  - simplify_eq. intuition eauto.
  - simplify_eq. rewrite Hch. destruct Hs as (? & ? & ? & ?). split_and!; try done.
    + by apply (no_group_err tid t).
    + by intros ? ?%elem_of_nil.
Qed.

Lemma node_inv_self d u :
  t_node t = Some d -> st_threads st' !! tid = Some u -> thread_inv st' tid u.
Proof.
  intros Hn. pose proof self_inv as Hs. pose proof tid_lt as Hlt.
  pose proof (effect_grows _ _ _ _ _ Heff) as Hg.
  unfold thread_inv in *. rewrite Hn in Hs. destruct Hs as [Hpar Hs].
  assert (Hsm : forall p', node_inv st tid (set_pc p' t) (FromOCI d) ->
    st_grpErr st' !! tid = st_grpErr st !! tid -> node_inv st' tid (set_pc p' t) (FromOCI d)).
  { intros p' Hp' E. eapply node_inv_grows; eauto. }
  destruct Hg as [Htr Hdn Hdst _ _ Hge].
  destruct Heff as [p' Hmv| | | | | | | | | | | | | | |]; simpl;
    rewrite ?lookup_app_l by (by rewrite length_insert);
    split_fn_return; simpl;
    rewrite ?list_lookup_insert_eq by done; rewrite ?Ht.
  all: intros [= <-]; simpl; rewrite Hn; split; [done|].
  1: apply Hsm; [by apply move_inv_self|done].
  all: simplify_eq/=; try done.
  all: unfold node_inv in *; simpl in *;
    repeat match goal with H : t_pc t = _ |- _ => rewrite H in Hs; clear H end;
    unfold in_tracker, done_in in *; simpl in *; rewrite ?lookup_insert_eq.
  all: intuition eauto.
  all: try done; try congruence.
Qed.

Lemma self_not_done : is_done t = false.
Proof.
  unfold is_done. destruct Heff as [p' Hmv| | | | | | | | | | | | | | |];
    try (match goal with H : t_pc t = _ |- _ => by rewrite H end).
  destruct Hmv as [| | | | | | | | | | |e [E|[E|[E|[E|[j E]]]]]];
    match goal with H : t_pc t = _ |- _ => by rewrite H end.
Qed.

Lemma parent_waiting p : t_parent t = Some p ->
  exists tp, st_threads st !! p = Some tp /\ p <> tid /\ waiting (t_pc tp).
Proof.
  intros Hp. destruct (inv_child st Hinv tid t p Ht Hp) as (? & tp & _ & Hl & _ & _ & Hw & _).
  exists tp. split_and!; [done|lia|]. apply Hw, self_not_done.
Qed.

Lemma pres_thread i u : st_threads st' !! i = Some u -> thread_inv st' i u.
Proof.
  intros Hu. destruct (decide (i = tid)) as [->|Hne].
  { destruct (t_node t) eqn:Hn; [by eapply node_inv_self|by apply caller_inv_self]. }
  destruct (effect_frame _ _ _ _ _ Ht Heff) as [t' Hfr].
  destruct (fr_other_inv _ _ _ _ _ Hfr i u Hne Hu) as [Hold|(-> & j & s & _ & _ & ->)]; [|done].
  pose proof (inv_thread st Hinv i u Hold) as Hth. unfold thread_inv in *.
  destruct (t_node u); [|done]. destruct Hth as [? Hni]. split; [done|].
  pose proof (effect_grows _ _ _ _ _ Heff) as Hg. eapply node_inv_grows; [done..|].
  destruct (gr_grpErr_inv _ _ _ Hg i) as [?|[Hpar _]]; [by left|right].
  destruct (parent_waiting i Hpar) as (? & ? & _ & ?). by simplify_eq.
Qed.

(** The post-state of the thread that moved. *)
Lemma self_waiting u :
  st_threads st' !! tid = Some u -> waiting (t_pc t) ->
  (t_pc t = PWait -> children_done st tid = false \/ is_Some (st_egErr st !! tid)) ->
  waiting (t_pc u).
Proof.
  pose proof tid_lt as Hlt. intros Hu Hw Hor. unfold waiting, returned in *.
  destruct Heff as [p' Hmv| | | | | | | | | | | | | | |]; revert Hu; simpl;
    rewrite ?lookup_app_l by (by rewrite length_insert);
    split_fn_return; simpl;
    rewrite ?list_lookup_insert_eq by done; rewrite ?Ht; intros [= <-]; simpl; eauto 10.
  all: try (match goal with H : t_pc t = _ |- _ => rewrite H in Hw end; naive_solver).
  all: destruct Hmv as [| | |Hpc Hcd Hg|d' Hpc Hcd Hg| | | | | | |]; eauto 10.
  all: try (pose proof (waited_no_err _ Hcd Hg); destruct (Hor Hpc) as [?|[? ?]]; congruence).
  all: try (match goal with H : t_pc t = _ |- _ => rewrite H in Hw end; naive_solver).
Qed.

Lemma self_returned u x :
  st_threads st' !! tid = Some u -> returned x (t_pc u) -> t_pc u <> PReturn x ->
  (t_pc u = PRelease x /\ t_pc t = PReturn x) \/ (t_pc u = PExit x /\ t_pc t = PRelease x)
  \/ (t_pc u = PDone x /\ t_pc t = PExit x).
Proof.
  pose proof tid_lt as Hlt. unfold returned. intros Hu Hret Hne.
  destruct Heff as [p' Hmv| | | | | | | | | | | | | | |]; revert Hu; simpl;
    rewrite ?lookup_app_l by (by rewrite length_insert);
    split_fn_return; simpl;
    rewrite ?list_lookup_insert_eq by done; rewrite ?Ht; intros [= <-]; simpl in *; try naive_solver.
  all: try (destruct Hmv; naive_solver).
  all: destruct Hret as [E|[E|[E|E]]]; congruence.
Qed.

Lemma self_egErr u p e :
  st_threads st' !! tid = Some u -> t_parent t = Some p ->
  returned (Some e) (t_pc u) -> t_pc u <> PReturn (Some e) -> is_Some (st_egErr st' !! p).
Proof.
  intros Hu Hp Hret Hne.
  destruct (inv_child st Hinv tid t p Ht Hp) as (_ & tp & s & _ & _ & _ & _ & Heg & _).
  destruct (self_returned u (Some e) Hu Hret Hne) as [[Hpu Hpt]|[[_ Hpt]|[_ Hpt]]].
  2,3: apply (gr_egErr _ _ _ (effect_grows _ _ _ _ _ Heff)), (Heg e); unfold returned; rewrite Hpt;
       first [done | by auto].
  destruct Heff as [p' Hmv| | | | | | | | | |err E Hsome|p' e' E E' _|e' E| | |]; try congruence.
  - destruct Hmv as [| | | | | | | | | | |e' [E|[E|[E|[E|[j E]]]]]]; congruence.
  - simpl. apply (Hsome p e); congruence.
  - simplify_eq. simpl. rewrite lookup_insert_eq. eauto.
  - simpl in Hu. by simplify_eq.
Qed.

Lemma self_grpErr u p e :
  st_threads st' !! tid = Some u -> t_parent t = Some p ->
  t_pc u = PDone (Some e) -> is_Some (st_grpErr st' !! p).
Proof.
  intros Hu Hp Hpu.
  destruct (self_returned u (Some e) Hu) as [[? ?]|[[? ?]|[_ Hpt]]]; [unfold returned; auto|congruence..|].
  destruct Heff as [p' Hmv| | | | | | | | | | | | | |err E Hsome|p' e' E E' _]; try congruence.
  - destruct Hmv as [| | | | | | | | | | |e' [E|[E|[E|[E|[j E]]]]]]; congruence.
  - simpl. apply (Hsome p e); congruence.
  - simplify_eq. simpl. rewrite lookup_insert_eq. eauto.
Qed.

Lemma pres_child i u p :
  st_threads st' !! i = Some u -> t_parent u = Some p -> child_inv st' p i u.
Proof.
  intros Hu Hp. destruct (effect_frame _ _ _ _ _ Ht Heff) as [t' Hfr].
  pose proof (effect_grows _ _ _ _ _ Heff) as Hg. pose proof tid_lt as Hlt.
  destruct (decide (i = tid)) as [->|Hne].
  - rewrite (fr_self _ _ _ _ _ Hfr) in Hu. injection Hu as ->.
    rewrite (fr_parent _ _ _ _ _ Hfr) in Hp.
    destruct (inv_child st Hinv tid t p Ht Hp) as (? & tp & s & Htp & Hn & Hin & Hw & _).
    split; [done|]. exists tp, s. split_and!; try done.
    + apply (fr_other _ _ _ _ _ Hfr); [lia|done].
    + by rewrite (fr_node _ _ _ _ _ Hfr).
    + intros _. apply Hw, self_not_done.
    + intros e. by apply self_egErr, Hp; apply (fr_self _ _ _ _ _ Hfr).
    + intros e. by apply self_grpErr, Hp; apply (fr_self _ _ _ _ _ Hfr).
  - destruct (fr_other_inv _ _ _ _ _ Hfr i u Hne Hu) as [Hold|(-> & j & s & Hpc & Hj & ->)].
    + destruct (inv_child st Hinv i u p Hold Hp) as (? & tp & s & Htp & Hn & Hin & Hw & He & Hge).
      split; [done|].
      assert (Hrest : (forall e, returned (Some e) (t_pc u) -> t_pc u <> PReturn (Some e) ->
         is_Some (st_egErr st' !! p)) /\ (forall e, t_pc u = PDone (Some e) -> is_Some (st_grpErr st' !! p))).
      { split; intros; [eapply gr_egErr|eapply gr_grpErr]; eauto. }
      destruct (decide (p = tid)) as [->|Hne'].
      * simplify_eq. exists t', s. split_and!; try apply Hrest; try done.
        -- apply (fr_self _ _ _ _ _ Hfr).
        -- rewrite (fr_succs _ _ _ _ _ Hfr); [done|]. intros Hpc.
           pose proof self_inv as Hs. unfold thread_inv, node_inv in Hs. rewrite Hpc in Hs.
           destruct (t_node t); [|unfold caller_pc, returned in Hs; naive_solver].
           destruct Hs as (_ & _ & _ & Hs & _). rewrite Hs in Hin. by apply elem_of_nil in Hin.
        -- intros Hnd. eapply self_waiting; [apply (fr_self _ _ _ _ _ Hfr)|by apply Hw|].
           intros _. left. apply not_true_is_false. intros Hcd.
           apply children_done_spec with (i := i) (u := u) in Hcd; [congruence|done..].
      * exists tp, s. split_and!; try apply Hrest; try done. by apply (fr_other _ _ _ _ _ Hfr).
    + simpl in Hp. injection Hp as <-. split; [done|]. exists t', s. simpl.
      split_and!; try (intros; unfold returned in *; naive_solver).
      * apply (fr_self _ _ _ _ _ Hfr).
      * rewrite (fr_succs _ _ _ _ _ Hfr) by congruence. by eapply list_elem_of_lookup_2.
      * intros _. eapply self_waiting; [apply (fr_self _ _ _ _ _ Hfr)|right; eauto|congruence].
Qed.

(** Threads persist with their node, parent and commitment. *)
Lemma persist i u :
  st_threads st !! i = Some u ->
  exists u', st_threads st' !! i = Some u' /\ t_node u' = t_node u /\ t_parent u' = t_parent u
    /\ (t_committed u = true -> t_committed u' = true) /\ (i <> tid -> u' = u).
Proof.
  intros Hi. destruct (effect_frame _ _ _ _ _ Ht Heff) as [t' Hfr].
  destruct (decide (i = tid)) as [->|Hne].
  - simplify_eq. exists t'. destruct Hfr. done.
  - exists u. split; [by apply (fr_other _ _ _ _ _ Hfr)|done].
Qed.

(** A thread that has returned stays so. *)
Lemma self_stays_returned u x :
  st_threads st' !! tid = Some u -> returned x (t_pc t) ->
  returned x (t_pc u) /\ (t_pc t <> PReturn x -> t_pc u <> PReturn x).
Proof.
  pose proof tid_lt as Hlt. unfold returned. intros Hu Hret.
  destruct Heff as [p' Hmv| | | | | | | | |d e b Hpc|err Hpc|p e Hpc|e Hpc|err Hpc|err Hpc|p e Hpc];
    try (exfalso; destruct Hret as [E|[E|[E|E]]]; congruence).
  - exfalso. destruct Hmv as [| | | | | | | | | | |e [?|[?|[?|[?|[j ?]]]]]];
      destruct Hret as [E|[E|[E|E]]]; congruence.
  - simpl in Hu. rewrite list_lookup_insert_eq in Hu by done. injection Hu as <-. simpl.
    destruct Hret as [E|[E|[E|E]]]; rewrite Hpc in E; simplify_eq; auto.
  - simpl in Hu. rewrite list_lookup_insert_eq in Hu by done. injection Hu as <-. simpl.
    destruct Hret as [E|[E|[E|E]]]; rewrite Hpc in E; simplify_eq; auto.
  - simpl in Hu. simplify_eq. auto.
  - simpl in Hu. rewrite list_lookup_insert_eq in Hu by done. injection Hu as <-. simpl.
    destruct Hret as [E|[E|[E|E]]]; rewrite Hpc in E; simplify_eq; auto.
  - simpl in Hu. rewrite list_lookup_insert_eq in Hu by done. injection Hu as <-. simpl.
    destruct Hret as [E|[E|[E|E]]]; rewrite Hpc in E; simplify_eq; auto.
  - simpl in Hu. rewrite list_lookup_insert_eq in Hu by done. injection Hu as <-. simpl.
    destruct Hret as [E|[E|[E|E]]]; rewrite Hpc in E; simplify_eq; auto.
Qed.

Lemma persist_returned i u x :
  st_threads st !! i = Some u -> returned x (t_pc u) ->
  exists u', st_threads st' !! i = Some u' /\ t_node u' = t_node u /\ t_parent u' = t_parent u
    /\ (t_committed u = true -> t_committed u' = true)
    /\ returned x (t_pc u') /\ (t_pc u <> PReturn x -> t_pc u' <> PReturn x).
Proof.
  intros Hi Hret. destruct (persist i u Hi) as (u' & Hu' & ? & ? & ? & Hsame).
  exists u'. split_and!; try done; destruct (decide (i = tid)) as [->|Hne]; try (by rewrite Hsame).
  all: simplify_eq; by apply self_stays_returned.
Qed.

Lemma pres_egErr p e : st_egErr st' !! p = Some e ->
  exists tp i ti e', st_threads st' !! p = Some tp /\ waiting (t_pc tp)
      /\ st_threads st' !! i = Some ti /\ t_parent ti = Some p
      /\ returned (Some e') (t_pc ti) /\ t_pc ti <> PReturn (Some e').
Proof.
  intros He.
  assert (Hor : is_Some (st_egErr st !! p)
    \/ (t_parent t = Some p /\ exists u, st_threads st' !! tid = Some u /\ t_parent u = Some p
        /\ t_pc u = PRelease (Some e))).
  { pose proof tid_lt as Hlt.
    destruct Heff as [| | | | | | | | | | |p0 e0 Hpc Hp| | | |]; revert He; simpl;
      split_fn_return; simpl; eauto.
    rewrite lookup_insert. case_decide as Heq; [|eauto]. intros [= ->]. subst p0. right. split; [done|].
    eexists. split_and!; [by rewrite list_lookup_insert_eq|done|done]. }
  destruct Hor as [[e0 Hold]|(Hp & u & Hu & Hpu & Hpc)].
  - destruct (inv_egErr st Hinv p e0 Hold) as (tp & i & ti & e' & Htp & Hw & Hi & Hpar & Hret & Hne).
    destruct (persist p tp Htp) as (tp' & Htp' & _ & _ & _ & Hsame).
    destruct (persist_returned i ti _ Hi Hret) as (ti' & Hi' & _ & Hpar' & _ & Hret' & Hne').
    exists tp', i, ti', e'. split_and!; try done; [|congruence|auto].
    destruct (decide (p = tid)) as [->|]; [|by rewrite Hsame].
    simplify_eq. eapply self_waiting; eauto.
  - destruct (parent_waiting p Hp) as (tp & Htp & Hne & Hw).
    destruct (persist p tp Htp) as (tp' & Htp' & _ & _ & _ & Hsame). rewrite Hsame in Htp' by done.
    exists tp, tid, u, e. split_and!; try done; rewrite Hpc; [unfold returned; auto|done].
Qed.

Lemma pres_grpErr p : is_Some (st_grpErr st' !! p) -> is_Some (st_egErr st' !! p).
Proof.
  intros Hs. apply (gr_egErr _ _ _ (effect_grows _ _ _ _ _ Heff)).
  assert (Hor : is_Some (st_grpErr st !! p)
    \/ (t_parent t = Some p /\ exists e, t_pc t = PExit (Some e))).
  { destruct Heff as [| | | | | | | | | | | | | | |p0 e0 Hpc Hp]; revert Hs; simpl;
      split_fn_return; simpl; eauto.
    rewrite lookup_insert_is_Some. intros [->|[? ?]]; eauto. }
  destruct Hor as [?|[Hp [e Hpc]]]; [by apply inv_grpErr|].
  destruct (inv_child st Hinv tid t p Ht Hp) as (_ & tp & s & _ & _ & _ & _ & Heg & _).
  apply (Heg e); rewrite Hpc; [unfold returned; auto|done].
Qed.

Lemma pres_spawned p tp j s :
  st_threads st' !! p = Some tp -> t_succs tp !! j = Some s -> spawned tp j ->
  exists i ti, st_threads st' !! i = Some ti /\ t_parent ti = Some p /\ t_node ti = Some s.
Proof.
  intros Hp Hj Hsp. destruct (effect_frame _ _ _ _ _ Ht Heff) as [t' Hfr].
  assert (Hold : forall q tq, st_threads st !! q = Some tq -> t_succs tq !! j = Some s ->
    spawned tq j -> exists i ti, st_threads st' !! i = Some ti /\ t_parent ti = Some q
      /\ t_node ti = Some s).
  { intros q tq Hq Hjq Hspq.
    destruct (inv_spawned st Hinv q tq j s Hq Hjq Hspq) as (i & ti & Hi & Hpar & Hn).
    destruct (persist i ti Hi) as (ti' & Hi' & Hn' & Hp' & _ & _).
    exists i, ti'. split_and!; congruence. }
  destruct (decide (p = tid)) as [->|Hne].
  2:{ destruct (fr_other_inv _ _ _ _ _ Hfr p tp Hne Hp) as [?|(_ & ? & ? & _ & _ & ->)]; [eauto|done]. }
  pose proof tid_lt as Hlt.
  destruct Heff as [p' Hmv|i s' free Hpc Hi Hfree| | | | | | | | | | | | | |]; revert Hp; simpl;
    rewrite ?lookup_app_l by (by rewrite length_insert); split_fn_return; simpl;
    rewrite ?list_lookup_insert_eq by done; rewrite ?Ht; intros [= <-];
    unfold spawned in Hsp; simpl in *; try done; try lia; try (by eapply Hold).
  - destruct Hmv; try done. eapply Hold; [done..|]. unfold spawned.
    match goal with H : t_pc t = _ |- _ => rewrite H end.
    apply lookup_lt_Some in Hj. by match goal with H : _ = None |- _ => apply lookup_ge_None in H; lia end.
  - destruct (decide (j = i)) as [->|].
    + simplify_eq. eexists (length (st_threads st)), _. split_and!.
      * rewrite lookup_app_r by (rewrite length_insert; lia). by rewrite length_insert, Nat.sub_diag.
      * done.
      * done.
    + eapply (Hold tid t); [done..|]. unfold spawned. rewrite Hpc. lia.
Qed.

Lemma committed_self d :
  t_node t = Some d -> t_pc t = PSkipped \/ t_pc t = PCopy -> t_committed t = true.
Proof.
  intros Hn Hpc. pose proof self_inv as Hs. unfold thread_inv, node_inv in Hs. rewrite Hn in Hs.
  destruct Hpc as [E|E]; rewrite E in Hs; naive_solver.
Qed.

(** A committed node whose thread has not succeeded. *)
Lemma self_not_returned_None u d :
  st_threads st' !! tid = Some u -> t_node t = Some d -> t_committed t = true ->
  ~ returned None (t_pc t) -> returned None (t_pc u) ->
  st_tracker st' = <[FromOCI d := true]> (st_tracker st).
Proof.
  pose proof tid_lt as Hlt. intros Hu Hn Hcm Hnot Hret.
  assert (Hpu : t_pc u = PReturn None).
  { destruct (decide (t_pc u = PReturn None)) as [|Hne]; [done|]. exfalso. apply Hnot. unfold returned.
    destruct (self_returned u None Hu Hret Hne) as [[_ ->]|[[_ ->]|[_ ->]]]; auto. }
  destruct Heff as [p' Hmv| | | | | | | | | | | |e Hpc| | |]; revert Hu; simpl;
    rewrite ?lookup_app_l by (by rewrite length_insert); unfold fn_return; rewrite ?Hcm; simpl;
    rewrite ?list_lookup_insert_eq by done; rewrite ?Ht; intros [= <-]; simpl in *; simplify_eq/=; try done.
  pose proof self_inv as Hs. unfold thread_inv, node_inv in Hs. rewrite Hn in Hs.
  inversion Hmv as [| | | | | | |d' x Hpc| | | |]; simplify_eq. rewrite Hpc in Hs.
  destruct Hs as (_ & _ & ? & _). congruence.
Qed.

Lemma tracker_cases k b : st_tracker st' !! k = Some b ->
  st_tracker st !! k = Some b
  \/ (exists d, t_node t = Some d /\ FromOCI d = k /\ (exists u, st_threads st' !! tid = Some u
        /\ t_committed u = true /\ (b = false -> t_pc u = PExists))
      /\ (b = true -> is_Some (st_dst st' !! k))).
Proof.
  pose proof tid_lt as Hlt. pose proof self_inv as Hs. unfold thread_inv, node_inv in Hs.
  assert (Hself : forall u (l : list thread), l = <[tid := u]> (st_threads st) ->
     t_committed u = true -> (b = false -> t_pc u = PExists) ->
     exists v, l !! tid = Some v /\ t_committed v = true /\ (b = false -> t_pc v = PExists)).
  { intros u l -> Hc Hb. exists u. by rewrite list_lookup_insert_eq. }
  destruct Heff as [|?|i s e Hpc Hi Htr|d Hpc Hn Htr| | | |d Hpc Hn|d Hpc Hn| | | | | | |]; simpl; auto.
  - (* a successor is never missing from the tracker *)
    rewrite Hpc in Hs. destruct (t_node t) as [d|] eqn:Hn; [|by destruct Hs as (_ & _ & _ & _ & _ & ?%caller_not_join)].
    destruct Hs as (_ & _ & _ & Hsu & _ & _ & Hin & _). rewrite Hsu in Hi.
    destruct (Hin s) as [? ?]; [by eapply list_elem_of_lookup_2|congruence].
  - rewrite lookup_insert. case_decide; [|auto]. intros [= <-]. right. exists d. split_and!; try done.
    by eapply Hself.
  - unfold fn_return. rewrite (committed_self d) by auto. simpl.
    rewrite lookup_insert. case_decide; [|auto]. intros [= <-]. right. exists d. split_and!; try done.
    + eapply Hself; [done|by apply (committed_self d); auto|done].
    + rewrite Hn, Hpc in Hs. subst k. naive_solver.
  - unfold fn_return. rewrite (committed_self d) by auto. simpl.
    rewrite lookup_insert. case_decide; [|auto]. intros [= <-]. right. exists d. split_and!; try done.
    + eapply Hself; [done|by apply (committed_self d); auto|done].
    + intros _. subst k. destruct (st_dst st !! FromOCI d) eqn:E; [by rewrite E|by rewrite lookup_insert_eq].
Qed.

Lemma pres_tracker k b : st_tracker st' !! k = Some b ->
  (b = true -> is_Some (st_dst st' !! k))
  /\ exists i ti d, st_threads st' !! i = Some ti /\ t_committed ti = true
      /\ t_node ti = Some d /\ FromOCI d = k /\ (b = false -> ~ returned None (t_pc ti)).
Proof.
  intros Hk. destruct (tracker_cases k b Hk) as [Hold|(d & Hn & Hd & (u & Hu & Hcu & Hb) & Hdst)].
  - destruct (inv_tracker st Hinv k b Hold) as (Hdst & i & ti & d & Hi & Hc & Hn & Hkd & Hb). split.
    + intros [v Hv]%Hdst. eexists. by eapply gr_dst; [eapply effect_grows|].
    + destruct (persist i ti Hi) as (ti' & Hi' & Hn' & _ & Hc' & Hsame).
      exists i, ti', d. split_and!; try done; [by apply Hc'|congruence|].
      intros -> Hret. destruct (decide (i = tid)) as [->|]; [|rewrite Hsame in Hret by done; by apply Hb].
      simplify_eq. rewrite (self_not_returned_None ti' d Hi' Hn Hc (Hb eq_refl) Hret) in Hk.
      by rewrite lookup_insert_eq in Hk.
  - split; [done|]. destruct (persist tid t Ht) as (u' & Hu' & Hn' & _). simplify_eq.
    exists tid, u, d. split_and!; try done; [congruence|]. intros Hbf. rewrite (Hb Hbf).
    unfold returned. naive_solver.
Qed.

(** Only [TryCommit] makes a thread committed. *)
Lemma committed_cases i u : st_threads st' !! i = Some u -> t_committed u = true ->
  (exists u0, st_threads st !! i = Some u0 /\ t_committed u0 = true /\ t_node u = t_node u0)
  \/ (i = tid /\ t_node u = t_node t
      /\ exists d, t_node t = Some d /\ st_tracker st !! FromOCI d = None).
Proof.
  intros Hu Hc. destruct (effect_frame _ _ _ _ _ Ht Heff) as [t' Hfr].
  destruct (decide (i = tid)) as [->|Hne].
  2:{ destruct (fr_other_inv _ _ _ _ _ Hfr i u Hne Hu) as [?|(_ & ? & ? & _ & _ & ->)]; [eauto|done]. }
  destruct (t_committed t) eqn:Hct.
  - left. exists t. rewrite (fr_self _ _ _ _ _ Hfr) in Hu. injection Hu as <-.
    by rewrite (fr_node _ _ _ _ _ Hfr).
  - right. pose proof tid_lt as Hlt.
    destruct Heff as [p' Hmv| | | | | | | | | | | | | | |]; revert Hu; simpl;
      rewrite ?lookup_app_l by (by rewrite length_insert); unfold fn_return; rewrite ?Hct; simpl;
      rewrite ?list_lookup_insert_eq by done; rewrite ?Ht; intros [= <-]; simpl in *; eauto; congruence.
Qed.

Lemma pres_unique i j ti tj :
  st_threads st' !! i = Some ti -> st_threads st' !! j = Some tj ->
  t_committed ti = true -> t_committed tj = true ->
  FromOCI <$> t_node ti = FromOCI <$> t_node tj -> i = j.
Proof.
  intros Hi Hj Hci Hcj Hk.
  assert (Hfresh : forall k u d, st_threads st !! k = Some u -> t_committed u = true ->
    FromOCI <$> t_node u = Some (FromOCI d) -> st_tracker st !! FromOCI d = None -> False).
  { intros k u d Hl Hcu Hkk Htr. destruct (t_node u) as [d'|] eqn:Hnu; [|done].
    apply (inj Some) in Hkk. destruct (committed_in_tracker k u d' Hl Hnu Hcu) as [? ?]. congruence. }
  destruct (committed_cases i ti Hi Hci) as [(ui & Hui & Hcui & Hni)|(-> & Hni & d & Hd & Htr)];
  destruct (committed_cases j tj Hj Hcj) as [(uj & Huj & Hcuj & Hnj)|(-> & Hnj & d' & Hd' & Htr')].
  - rewrite Hni, Hnj in Hk. by apply (inv_unique st Hinv i j ui uj).
  - exfalso. rewrite Hni, Hnj, Hd' in Hk. by apply (Hfresh i ui d').
  - exfalso. rewrite Hni, Hnj, Hd in Hk. by apply (Hfresh j uj d).
  - done.
Qed.

Lemma pres_log : NoDup (st_log st') /\ forall k, k ∈ st_log st' ->
  exists i ti d e, st_threads st' !! i = Some ti /\ t_committed ti = true
    /\ t_node ti = Some d /\ FromOCI d = k /\ returned e (t_pc ti).
Proof.
  destruct (inv_log st Hinv) as [Hnd Hlog].
  assert (Hold : forall k, k ∈ st_log st -> exists i ti d e, st_threads st' !! i = Some ti
    /\ t_committed ti = true /\ t_node ti = Some d /\ FromOCI d = k /\ returned e (t_pc ti)).
  { intros k Hk. destruct (Hlog k Hk) as (i & ti & d & e & Hi & Hc & Hn & Hd & Hret).
    destruct (persist_returned i ti e Hi Hret) as (ti' & Hi' & Hn' & _ & Hc' & Hret' & _).
    exists i, ti', d, e. split_and!; try done; [by apply Hc'|congruence]. }
  assert (Hcopy : forall d e, t_pc t = PCopy -> t_node t = Some d ->
    st_log st' = st_log st ++ [FromOCI d] -> (exists u, st_threads st' !! tid = Some u /\ t_pc u = PReturn e) ->
    NoDup (st_log st') /\ forall k, k ∈ st_log st' -> exists i ti d e, st_threads st' !! i = Some ti
    /\ t_committed ti = true /\ t_node ti = Some d /\ FromOCI d = k /\ returned e (t_pc ti)).
  { intros d e Hpc Hn -> (u & Hu & Hpu). assert (Hc : t_committed t = true) by (apply (committed_self d); auto).
    destruct (persist tid t Ht) as (u' & Hu' & Hn' & _ & Hc' & _). simplify_eq.
    split.
    - apply list.NoDup_app. split_and!; [done| |apply list.NoDup_singleton].
      intros k Hk ->%list_elem_of_singleton.
      destruct (Hlog _ Hk) as (i & ti & d' & e' & Hi & Hci & Hni & Hd & Hret).
      assert (i = tid) as -> by (apply (inv_unique st Hinv i tid ti t); try done; rewrite Hn, Hni; by f_equal/=).
      simplify_eq. unfold returned in Hret. rewrite Hpc in Hret. naive_solver.
    - intros k [Hk| ->%list_elem_of_singleton]%elem_of_app; [by apply Hold|].
      exists tid, u, d, e. rewrite Hpu. split_and!; try done; [by apply Hc'|congruence|unfold returned; auto]. }
  pose proof tid_lt as Hlt.
  destruct Heff as [| | | | | | |d Hpc Hn|d Hpc Hn|d e b Hpc Hn| | | | | |]; try (by split).
  - unfold fn_return in *. by destruct (t_committed t).
  - eapply (Hcopy d None); try done; unfold fn_return; destruct (t_committed t); simpl; try done;
      eexists; (split; [by rewrite list_lookup_insert_eq|done]).
  - eapply (Hcopy d (Some e)); try done. simpl. eexists; (split; [by rewrite list_lookup_insert_eq|done]).
Qed.

Lemma pres_permits : st_free st' + length (List.filter t_held (st_threads st')) = limit.
Proof.
  pose proof (inv_permits st Hinv) as Hp. pose proof self_inv as Hs. unfold thread_inv in Hs.
  assert (Hheld : forall d b, t_node t = Some d -> (node_inv st tid t (FromOCI d) -> t_held t = b) -> t_held t = b).
  { intros d b Hn Hi. rewrite Hn in Hs. by apply Hi, Hs. }
  pose proof (fun y => length_filter_insert t_held (st_threads st) tid t y Ht) as Hins.
  destruct Heff as [p' Hmv|i s free Hpc Hi Hf| | | |Hpc [d Hn]|free Hpc [d Hn] Hf| | | | | | | | |]; simpl;
    split_fn_return; simpl; rewrite ?filter_app, ?length_app; simpl;
    try (match goal with |- context [<[tid := ?y]> _] => specialize (Hins y) end; simpl in Hins; lia); try done.
  - match goal with |- context [<[tid := ?y]> _] => specialize (Hins y) end. simpl in Hins.
    rewrite (Hheld d true Hn) in Hins; [simpl in Hins; lia|]. unfold node_inv. rewrite Hpc. naive_solver.
  - match goal with |- context [<[tid := ?y]> _] => specialize (Hins y) end. simpl in Hins.
    rewrite (Hheld d false Hn) in Hins; [simpl in Hins; lia|]. unfold node_inv. rewrite Hpc. naive_solver.
  - match goal with |- context [<[tid := ?y]> _] => specialize (Hins y) end. simpl in Hins.
    destruct (t_held t); simpl in *; lia.
Qed.

Lemma pres_caller : exists t0, st_threads st' !! 0 = Some t0 /\ t_node t0 = None
  /\ (t_pc t0 = PGo 0 -> length (st_threads st') = 1).
Proof.
  destruct (inv_caller st Hinv) as (t0 & H0 & Hn0 & Hlen).
  destruct (persist 0 t0 H0) as (t0' & H0' & Hn0' & _ & _ & Hsame). pose proof tid_lt as Hlt.
  exists t0'. split_and!; [done|congruence|]. intros Hpc.
  destruct (decide (tid = 0)) as [->|Hne].
  - simplify_eq.
    destruct Heff as [p' Hmv| | | | | | | | | | | | | | |]; revert H0'; simpl;
    rewrite ?lookup_app_l by (by rewrite length_insert); split_fn_return; simpl;
    rewrite ?list_lookup_insert_eq by done; rewrite ?Ht; intros [= <-]; simpl in *; try done.
    + exfalso. destruct Hmv; congruence.
    + exfalso. 
      match goal with H : is_Some (t_node t) |- _ => destruct H; congruence end.
    + auto.
  - rewrite Hsame in Hpc by done. specialize (Hlen Hpc). lia.
Qed.

(** While only the caller exists nothing is committed. *)
Lemma tracker_empty : length (st_threads st) = 1 -> st_tracker st = ∅.
Proof.
  intros Hlen. apply map_empty. intros k. destruct (st_tracker st !! k) as [b|] eqn:Hk; [|done].
  destruct (inv_tracker st Hinv k b Hk) as (_ & i & ti & d & Hi & Hc & Hn & _).
  assert (i = 0) as -> by (apply lookup_lt_Some in Hi; lia).
  destruct (inv_caller st Hinv) as (t0 & H0 & Hn0 & _). congruence.
Qed.

(** Before the root is committed the caller only waits. *)
Lemma caller_step_quiet t1 :
  st_threads st !! 1 = Some t1 -> tid = 0 ->
  st_tracker st' = st_tracker st /\ length (st_threads st') = length (st_threads st).
Proof.
  intros H1 E. pose proof self_inv as Hs. subst tid.
  destruct (inv_caller st Hinv) as (t0 & H0 & Hn0 & Hlen). simplify_eq. unfold thread_inv in Hs. rewrite Hn0 in Hs.
  destruct Hs as (_ & _ & _ & _ & Hsu & Hcp).
  destruct Heff as [p' Hmv|i s free Hpc Hi Hf|i s e Hpc| | | | | | | | | | | | |]; simpl; split_fn_return; simpl;
    rewrite ?length_insert; try congruence; try done.
  - rewrite Hsu in Hi. destruct i; [|done]. apply lookup_lt_Some in H1. specialize (Hlen Hpc). lia.
  - rewrite Hpc in Hcp. by apply caller_not_join in Hcp.
Qed.

Lemma pres_root t1 : st_threads st' !! 1 = Some t1 ->
  t_node t1 = Some root
  /\ (if t_committed t1 then True
      else t_pc t1 = PTryCommit /\ st_tracker st' = ∅ /\ length (st_threads st') = 2).
Proof.
  intros H1. pose proof tid_lt as Hlt. destruct (st_threads st !! 1) as [u|] eqn:Hu.
  - destruct (inv_root st Hinv u Hu) as [Hn Hc].
    destruct (persist 1 u Hu) as (u' & Hu' & Hn' & _ & Hc' & Hsame).
    assert (u' = t1) as -> by congruence.
    split; [congruence|]. destruct (t_committed t1) eqn:Hcu; [done|].
    destruct (t_committed u) eqn:Hcu0; [by specialize (Hc' eq_refl)|]. destruct Hc as (Hpc & Htr & Hlen).
    destruct (decide (tid = 1)) as [->|Hne].
    + exfalso. assert (u = t) as -> by congruence. destruct Heff as [p' Hmv| | |d Hpcd Hnd Htrd| | | | | | | | | | | |]; try congruence.
      * destruct Hmv as [| | | | | | |d x Hpcd Hnd Htrd| | | |e [?|[?|[?|[?|[j ?]]]]]]; try congruence.
        by rewrite Htr, lookup_empty in Htrd.
      * simpl in H1. rewrite list_lookup_insert_eq in H1 by done. by simplify_eq.
    + rewrite Hsame by done. destruct (caller_step_quiet u Hu) as [-> ->]; [lia|done].
  - apply lookup_ge_None in Hu. pose proof self_inv as Hs. pose proof tracker_empty as Hte.
    assert (tid = 0) as -> by lia.
    destruct (effect_frame _ _ _ _ _ Ht Heff) as [t' Hfr].
    destruct (fr_other_inv _ _ _ _ _ Hfr 1 t1 ltac:(done) H1) as [Hold|(Hl & i & s & Hpc & Hi & ->)].
    { apply lookup_lt_Some in Hold. lia. }
    destruct (inv_caller st Hinv) as (t0 & H0 & Hn0 & _). simplify_eq. unfold thread_inv in Hs. rewrite Hn0 in Hs.
    destruct Hs as (_ & _ & _ & _ & Hsu & _). rewrite Hsu in Hi. destruct i; simplify_eq/=.
    split_and!; try done.
    + rewrite <- (Hte (eq_sym Hl)).
      destruct Heff as [p' Hmv| | | | | | | | | | | | | | |]; simpl; try congruence.
    + destruct Heff as [p' Hmv| | | | | | | | | | | | | | |]; revert H1; simpl; split_fn_return; simpl;
        rewrite ?list_lookup_insert_ne by done; try congruence; intros H1.
      all: try (apply lookup_lt_Some in H1; rewrite ?length_insert in H1; lia).
      rewrite length_app, length_insert. simpl. lia.
Qed.

(** Every step preserves the invariant. *)
Lemma inv_effect : inv st'.
Proof.
  split; eauto using pres_thread, pres_child, pres_egErr, pres_grpErr, pres_spawned, pres_tracker,
    pres_unique, pres_permits, pres_log, pres_caller, pres_root.
Qed.

End Preserve.

Lemma inv_init : inv (init dst0 limit root).
Proof.
  split; simpl.
  - intros [|i] t Ht; simplify_eq/=. unfold thread_inv. simpl. split_and!; try done.
    unfold caller_pc. eauto.
  - intros [|i] t p Ht; by simplify_eq/=.
  - intros p e. by rewrite lookup_empty.
  - intros p. by rewrite lookup_empty, is_Some_alt.
  - intros [|p] tp j s Hp; simplify_eq/=. unfold spawned. simpl. lia.
  - intros k b. by rewrite lookup_empty.
  - intros [|i] [|j] ti tj ? ?; by simplify_eq/=.
  - lia.
  - split; [constructor|]. by intros k ?%elem_of_nil.
  - eauto.
  - by intros t1 ?.
Qed.

Lemma inv_cancel st : inv st -> inv (cancel st).
Proof. intros []. by split. Qed.

Theorem inv_reachable st : reachable dst0 limit root st -> inv st.
Proof.
  induction 1 as [|st tid c st' _ IH Hstep|]; [apply inv_init| |by apply inv_cancel].
  apply step_effect in Hstep as (t & Ht & _ & Heff). by eapply inv_effect.
Qed.

End Safety.
