(* ===== verification/SchedCorrect.v ===== *)
(** What the concurrent traversal of [Sched] guarantees to the callers of
    [copyGraph], in every reachable state: the destination stays closed under
    successors, a nil result means the whole graph is there, no node is copied
    twice, the concurrency limit holds; and two behaviours of [syncutil.Go] that
    its callers can observe after a failure. *)

From Stdlib Require Import ZArith Lia.
From S2P Require Import Prelude Errors Descriptor Sched SchedSafety.

Section Correct.
Context (succ : Descriptor -> list OciDescriptor) (src : Descriptor -> bytes)
  (dst0 : gmap Descriptor bytes) (limit : nat) (root : OciDescriptor).
Notation children := (children succ).
Notation reachable := (reachable succ src dst0 limit root).
Notation inv := (inv succ limit root).

(** Every stored node has its successors stored. *)
Definition closed (m : gmap Descriptor bytes) : Prop :=
  forall k s, is_Some (m !! k) -> s ∈ children k -> is_Some (m !! FromOCI s).

(** An edge of the graph that is copied. *)
Definition edge (a b : Descriptor) : Prop := exists s, s ∈ children a /\ FromOCI s = b.

Lemma closed_reach m a b : closed m -> is_Some (m !! a) -> rtc edge a b -> is_Some (m !! b).
Proof.
  intros Hm Ha. induction 1 as [|a b c (s & Hs & <-) _ IH]; [done|].
  apply IH. by eapply Hm.
Qed.

(** An edge out of a node that the destination did not have. *)
Definition missing_edge (a b : Descriptor) : Prop := dst0 !! a = None /\ edge a b.

(** Every node that was added has its successors stored. *)
Definition closed_new (m : gmap Descriptor bytes) : Prop :=
  forall k s, dst0 !! k = None -> is_Some (m !! k) -> s ∈ children k -> is_Some (m !! FromOCI s).

Lemma closed_new_reach m a b :
  closed_new m -> is_Some (m !! a) -> rtc missing_edge a b -> is_Some (m !! b).
Proof.
  intros Hm Ha. induction 1 as [|a b c (Hno & s & Hs & <-) _ IH]; [done|].
  apply IH. by eapply Hm.
Qed.

(** The destination of a state extends the initial one by content of the source. *)
Definition extends (m : gmap Descriptor bytes) : Prop :=
  (forall k v, dst0 !! k = Some v -> m !! k = Some v)
  /\ (forall k v, m !! k = Some v -> dst0 !! k = Some v \/ v = src k).

Lemma closed_insert st k :
  inv st -> closed (st_dst st) -> (forall s, s ∈ children k -> done_in st (FromOCI s)) ->
  closed (st_dst (copied src true k st)).
Proof.
  intros Hinv Hcl Hch. simpl. destruct (st_dst st !! k) eqn:Hk; [done|].
  intros a s Ha Hs. apply insert_grows. apply lookup_insert_is_Some in Ha as [->|[_ Ha]].
  - by apply (inv_tracker _ _ _ _ Hinv _ _ (Hch s Hs)).
  - by eapply Hcl.
Qed.

Lemma closed_new_insert st k :
  inv st -> closed_new (st_dst st) -> (forall s, s ∈ children k -> done_in st (FromOCI s)) ->
  closed_new (st_dst (copied src true k st)).
Proof.
  intros Hinv Hcl Hch. simpl. destruct (st_dst st !! k) eqn:Hk; [done|].
  intros a s Hno Ha Hs. apply insert_grows. apply lookup_insert_is_Some in Ha as [->|[_ Ha]].
  - by apply (inv_tracker _ _ _ _ Hinv _ _ (Hch s Hs)).
  - by eapply Hcl.
Qed.

Lemma extends_insert st k : extends (st_dst st) -> extends (st_dst (copied src true k st)).
Proof.
  intros [H1 H2]. simpl. destruct (st_dst st !! k) eqn:Hk; [done|]. split.
  - intros a v Ha. rewrite lookup_insert_ne; [auto|]. intros ->. apply H1 in Ha. congruence.
  - intros a v. rewrite lookup_insert. case_decide; [subst; intros [= <-]; auto|auto].
Qed.

Lemma dst_cases st tid t c st' :
  effect succ src st tid t c st' ->
  st_dst st' = st_dst st
  \/ (exists d, t_pc t = PCopy /\ t_node t = Some d
      /\ st_dst st' = st_dst (copied src true (FromOCI d) st)).
Proof.
  intros Heff. destruct Heff as [| | | | | | | |d Hpc Hn|d e b Hpc Hn| | | | | |]; simpl; split_fn_return; auto.
  1,2: right; eauto.
  destruct b; [right; eauto|by left].
Qed.

(** The destination grows only by nodes whose successors are done. *)
Lemma reachable_ind_dst (P : gmap Descriptor bytes -> Prop) :
  P dst0 ->
  (forall st k, inv st -> P (st_dst st) -> (forall s, s ∈ children k -> done_in st (FromOCI s)) ->
     P (st_dst (copied src true k st))) ->
  forall st, reachable st -> P (st_dst st).
Proof.
  intros H0 Hins st. induction 1 as [|st tid c st' Hr IH Hstep|]; [done| |done].
  pose proof (inv_reachable _ _ _ _ _ _ Hr) as Hinv.
  apply step_effect in Hstep as (t & Ht & _ & Heff).
  destruct (dst_cases _ _ _ _ _ Heff) as [->|(d & Hpc & Hn & ->)]; [done|].
  apply Hins; [done..|].
  pose proof (inv_thread _ _ _ _ Hinv tid t Ht) as Hth. unfold thread_inv, node_inv in Hth.
  rewrite Hn, Hpc in Hth. apply Hth.
Qed.

Lemma reachable_dst st :
  closed dst0 -> reachable st -> closed (st_dst st) /\ extends (st_dst st).
Proof.
  intros Hcl Hr. split.
  - revert st Hr. apply (reachable_ind_dst closed); [done|]. intros. by apply closed_insert.
  - revert st Hr. apply (reachable_ind_dst extends); [by split; auto|]. intros. by apply extends_insert.
Qed.

Lemma reachable_closed_new st : reachable st -> closed_new (st_dst st).
Proof.
  revert st. apply (reachable_ind_dst closed_new).
  - intros k s Hno [v Hv]. congruence.
  - intros. by apply closed_new_insert.
Qed.

(** When the caller's group ended without error, the root is done. *)
Lemma waited_root st t0 :
  inv st -> st_threads st !! 0 = Some t0 -> t_node t0 = None -> t_pc t0 = PWait ->
  children_done st 0 = true -> st_grpErr st !! 0 = None -> done_in st (FromOCI root).
Proof.
  intros Hinv H0 Hn Hpc Hcd Hg.
  assert (Hs : root ∈ t_succs t0).
  { pose proof (inv_thread _ _ _ _ Hinv 0 t0 H0) as Hth. unfold thread_inv in Hth. rewrite Hn in Hth.
    destruct Hth as (_ & _ & _ & _ & -> & _). by apply list_elem_of_singleton. }
  destruct (waited_children _ _ _ _ Hinv 0 t0 root H0 Hpc Hcd Hg Hs) as (i & ti & Hi & Hp & _ & _).
  destruct (inv_child _ _ _ _ Hinv i ti 0 Hi Hp) as [Hlt _].
  destruct (lookup_lt_is_Some_2 (st_threads st) 1) as [t1 H1]; [apply lookup_lt_Some in Hi; lia|].
  destruct (inv_root _ _ _ _ Hinv t1 H1) as [Hn1 Hc1].
  pose proof (inv_thread _ _ _ _ Hinv 1 t1 H1) as Hth. unfold thread_inv in Hth. rewrite Hn1 in Hth.
  destruct Hth as [[p Hp1] Hni].
  destruct (inv_child _ _ _ _ Hinv 1 t1 p H1 Hp1) as (Hlt1 & _ & _ & _ & _ & _ & _ & _ & Hge).
  assert (p = 0) as -> by lia.
  pose proof (proj1 (children_done_spec st 0) Hcd 1 t1 H1 Hp1) as Hd. unfold is_done in Hd.
  destruct (t_pc t1) as [| | | | | | | | | | | | |[e|]] eqn:Hpc1; try done.
  - destruct (Hge e eq_refl). congruence.
  - destruct (t_committed t1) eqn:Hcm; [|by destruct Hc1]. unfold node_inv in Hni.
    rewrite Hpc1 in Hni. apply Hni; done.
Qed.

Lemma caller_returns st tid t c st' u :
  inv st -> st_threads st !! tid = Some t -> t_node t = None -> effect succ src st tid t c st' ->
  st_threads st' !! tid = Some u -> returned None (t_pc u) ->
  returned None (t_pc t) \/ done_in st (FromOCI root).
Proof.
  intros Hinv Ht Hn Heff Hu Hret. destruct (decide (t_pc u = PReturn None)) as [Hpu|Hne].
  2:{ left. unfold returned. edestruct self_returned as [[_ ->]|[[_ ->]|[_ ->]]]; eauto. }
  pose proof (inv_thread _ _ _ _ Hinv tid t Ht) as Hth. unfold thread_inv in Hth. rewrite Hn in Hth.
  destruct Hth as [-> _]. assert (Hlt : 0 < length (st_threads st)) by (by eapply lookup_lt_Some).
  destruct Heff as [p Hmv| | | | | | | | | | | |e Hpc| | |]; revert Hu; simpl; try congruence;
    rewrite ?lookup_app_l by (by rewrite length_insert);
    rewrite ?list_lookup_insert_eq by done; intros Hu; simplify_eq/=.
  inversion Hmv; subst; try congruence. right. by eapply waited_root.
Qed.

Lemma reachable_result st t0 :
  reachable st -> st_threads st !! 0 = Some t0 -> returned None (t_pc t0) ->
  done_in st (FromOCI root).
Proof.
  intros Hr. revert t0. induction Hr as [|st tid c st' Hr IH Hstep|]; intros t0 H0 Hret; [| |eauto].
  { simpl in H0. simplify_eq. unfold returned in Hret. simpl in Hret. naive_solver. }
  pose proof (inv_reachable _ _ _ _ _ _ Hr) as Hinv.
  apply step_effect in Hstep as (t & Ht & _ & Heff).
  apply (gr_done _ _ _ (effect_grows _ _ _ _ _ _ _ Heff)).
  destruct (inv_caller _ _ _ _ Hinv) as (u & Hu & Hn & _).
  destruct (persist _ _ _ _ _ _ _ Ht Heff 0 u Hu) as (u' & Hu' & _ & _ & _ & Hsame).
  assert (u' = t0) as -> by congruence.
  destruct (decide (tid = 0)) as [->|]; [|rewrite Hsame in Hret by done; eauto].
  assert (u = t) as -> by congruence.
  destruct (caller_returns _ _ _ _ _ _ Hinv Ht Hn Heff H0 Hret); eauto.
Qed.

(** C4: whatever the schedule, the failures and the cancellation, if the
    destination was closed under successors when [copyGraph] started, it is
    closed in every state the copy goes through - so an interrupted copy never
    leaves a node whose successors are missing - its old contents are unchanged
    and everything added is the content of the source. *)
Theorem copyGraph_closed (st : state) (Hcl : closed dst0) (Hr : reachable st) :
  closed (st_dst st) /\ extends (st_dst st).
Proof. by apply reachable_dst. Qed.

(** C5: when [copyGraph] returns nil, every node reachable from the root (the
    foreign layers excepted) through nodes that the destination did not have is in
    the destination; when the destination was closed under successors before the
    copy, every node reachable from the root is. *)
Theorem copyGraph_complete (st : state) (Hr : reachable st) (Hnil : result_of st = Some None) :
  (forall k, rtc missing_edge (FromOCI root) k -> is_Some (st_dst st !! k))
  /\ (closed dst0 -> forall k, rtc edge (FromOCI root) k -> is_Some (st_dst st !! k)).
Proof.
  unfold result_of in Hnil. destruct (st_threads st !! 0) as [t0|] eqn:H0; [|done].
  destruct (t_pc t0) eqn:Hpc; try done. injection Hnil as ->.
  assert (Hd : done_in st (FromOCI root)).
  { eapply reachable_result; [done..|]. rewrite Hpc. unfold returned. auto. }
  assert (Hroot : is_Some (st_dst st !! FromOCI root)).
  { by apply (inv_tracker _ _ _ _ (inv_reachable _ _ _ _ _ _ Hr) _ _ Hd). }
  split.
  - intros k Hk. eapply closed_new_reach; [by apply reachable_closed_new|done|done].
  - intros Hcl k Hk. eapply closed_reach; [by apply reachable_dst|done|done].
Qed.

(** A goroutine between [TryCommit] and the end of [FindSuccessors], or copying
    its node: it may be calling the source or the destination. *)
Definition busy (t : thread) : bool :=
  match t_pc t with
  | PTryCommit | PExists | PSkipped | PFindSuccessors | PRegionEnd | PCopy => true
  | _ => false
  end.

Lemma busy_held st i t : inv st -> st_threads st !! i = Some t -> busy t = true -> t_held t = true.
Proof.
  intros Hinv Hi Hb. pose proof (inv_thread _ _ _ _ Hinv i t Hi) as Hth.
  unfold thread_inv, node_inv, caller_pc, returned in Hth. unfold busy in Hb.
  destruct (t_node t), (t_pc t); naive_solver.
Qed.

(** C8: no node is copied twice, and the number of goroutines that are talking
    to the source or the destination never exceeds the concurrency limit. *)
Theorem copyGraph_once_bounded (st : state) (Hr : reachable st) :
  NoDup (st_log st) /\ length (List.filter busy (st_threads st)) <= limit.
Proof.
  pose proof (inv_reachable _ _ _ _ _ _ Hr) as Hinv. split; [by apply (inv_log _ _ _ _ Hinv)|].
  pose proof (inv_permits _ _ _ _ Hinv) as Hp.
  assert (Hsub : forall l, (forall t, t ∈ l -> busy t = true -> t_held t = true) ->
    length (List.filter busy l) <= length (List.filter t_held l)).
  { clear. induction l as [|t l IH]; intros Hl; [done|]. simpl.
    assert (length (List.filter busy l) <= length (List.filter t_held l)) by (apply IH; intros; apply Hl; [by right|done]).
    specialize (Hl t ltac:(by left)). destruct (busy t), (t_held t); simpl; try lia; by discriminate Hl. }
  enough (length (List.filter busy (st_threads st)) <= length (List.filter t_held (st_threads st))) by lia.
  apply Hsub. intros t [i Hi]%list_elem_of_lookup. by apply (busy_held st i).
Qed.

End Correct.

(** ** A concrete graph

    A manifest with two layers. *)
Module sched_example.

Definition node (s : string) : OciDescriptor :=
  mkOci "m" s 1 [] None [] None EmptyString.
Definition root : OciDescriptor := node "r".

Definition succ (k : Descriptor) : list OciDescriptor :=
  if decide (k = FromOCI root) then [node "a"; node "b"] else [].
Definition src (k : Descriptor) : bytes := str_bytes (kDigest k).

Definition next : list nat -> list (nat * choice) := fmap (fun t => (t, CNext)).

(** A schedule that copies the three nodes with three permits. *)
Definition sched : list (nat * choice) :=
  next (0 :: replicate 7 1 ++ replicate 7 2 ++ replicate 7 3 ++ replicate 9 1 ++ replicate 5 0).

Definition start : state := init ∅ 3 root.

Lemma start_closed : closed succ ∅.
Proof. intros k s. rewrite lookup_empty. by intros [? ?]. Qed.

Lemma final_run : exists st, run succ src sched start = Some st /\ result_of st = Some None.
Proof. eexists. split; vm_compute; reflexivity. Qed.

(** A manifest with three layers, for the failure scenarios. *)
Definition succ3 (k : Descriptor) : list OciDescriptor :=
  if decide (k = FromOCI root) then [node "a"; node "b"; node "c"] else [].

Definition boom : error := ENew "boom".

(** Layer [a] fails while layer [b] is about to be copied; starting layer [c]
    sees the cancelled context. *)
Definition sched_early : list (nat * choice) :=
  next (0 :: replicate 6 1 ++ replicate 3 2 ++ replicate 3 3)
  ++ [(2, CFail boom)] ++ next (replicate 3 2)
  ++ [(1, CDone)] ++ next (replicate 3 1 ++ replicate 5 0).

(** Layers [a] and [b] fail with errors of different concrete types. *)
Definition sched_panic : list (nat * choice) :=
  next (0 :: replicate 6 1 ++ replicate 3 2 ++ replicate 3 3)
  ++ [(2, CFail boom)] ++ [(3, CFail (ECopy "Push" CopyErrorOriginDestination boom))]
  ++ next [2].

End sched_example.

Import sched_example.

Lemma copyGraph_closed_witness :
  exists st, reachable succ src ∅ 3 root st /\ closed succ (st_dst st) /\ extends src ∅ (st_dst st).
Proof.
  destruct final_run as (st & Hrun & _). exists st.
  assert (Hr : reachable succ src ∅ 3 root st) by (eapply reachable_run; [constructor|exact Hrun]).
  split; [exact Hr|]. exact (copyGraph_closed succ src ∅ 3 root st start_closed Hr).
Defined.

Lemma copyGraph_complete_witness :
  exists st, reachable succ src ∅ 3 root st /\ result_of st = Some None
    /\ is_Some (st_dst st !! FromOCI (node "b")).
Proof.
  destruct final_run as (st & Hrun & Hres). exists st.
  assert (Hr : reachable succ src ∅ 3 root st) by (eapply reachable_run; [constructor|exact Hrun]).
  split; [exact Hr|]. split; [exact Hres|].
  destruct (copyGraph_complete succ src ∅ 3 root st Hr Hres) as [_ Hall]. apply (Hall start_closed).
  apply rtc_once. exists (node "b"). split; [|reflexivity].
  replace (children succ (FromOCI root)) with [node "a"; node "b"] by (vm_compute; reflexivity).
  apply list_elem_of_further, list_elem_of_here.
Defined.

Lemma copyGraph_once_bounded_witness :
  exists st, reachable succ src ∅ 3 root st
    /\ NoDup (st_log st) /\ length (List.filter busy (st_threads st)) <= 3.
Proof.
  destruct final_run as (st & Hrun & _). exists st.
  assert (Hr : reachable succ src ∅ 3 root st) by (eapply reachable_run; [constructor|exact Hrun]).
  split; [exact Hr|]. exact (copyGraph_once_bounded succ src ∅ 3 root st Hr).
Defined.

(** [syncutil.Go] does not join the goroutines it started when starting
    the next one fails: [copyGraph] has returned an error to its caller while a
    worker is still running, and that worker then writes to the destination. *)
Theorem Go_returns_before_workers :
  exists st st', reachable succ3 src ∅ 3 root st /\ result_of st = Some (Some boom)
    /\ st_dst st !! FromOCI (node "b") = None
    /\ step succ3 src st 3 CNext = Some st' /\ is_Some (st_dst st' !! FromOCI (node "b")).
Proof.
  assert (H : exists st st', run succ3 src sched_early start = Some st
    /\ result_of st = Some (Some boom) /\ st_dst st !! FromOCI (node "b") = None
    /\ step succ3 src st 3 CNext = Some st' /\ is_Some (st_dst st' !! FromOCI (node "b"))).
  { do 2 eexists. split_and!; [vm_compute; reflexivity..|]. vm_compute. by eexists. }
  destruct H as (st & st' & Hrun & ?). exists st, st'. split; [|done].
  eapply reachable_run; [constructor|exact Hrun].
Qed.

(** The only step that panics is the return of a worker. *)
Lemma step_panics succ src st tid c st' :
  step succ src st tid c = Some st' -> st_panic st' = true ->
  exists t err, st_threads st !! tid = Some t /\ t_pc t = PReturn (Some err)
    /\ st_panic st = false /\ st' = step_return st tid t (Some err).
Proof.
  intros Hstep Hp. pose proof Hstep as Hs. apply step_effect in Hs as (t & Ht & Hpan & Heff).
  assert (exists e, t_pc t = PReturn (Some e)) as [e Hpc].
  { destruct Heff; simpl in Hp; try (unfold fn_return in Hp; simpl in Hp; destruct (t_committed t); simpl in Hp);
      try congruence; eauto. }
  exists t, e. split_and!; [done..|]. unfold step in Hstep. rewrite Hpan, Ht, Hpc in Hstep.
  destruct c; simplify_eq. done.
Qed.

(** C11: a step of the goroutines of [syncutil.Go] panics exactly when a worker
    returns an error whose concrete type differs from the type of the error that
    another worker of the same [Go] call stored in [egErr] before: [atomic.Value]
    refuses the [CompareAndSwap].  The panic ends the program: the destination and
    the result of [copyGraph] are what they were, and no goroutine takes a step
    any more. *)
Theorem Go_mixed_errors_panic succ src (st st' : state) tid c
    (Hstep : step succ src st tid c = Some st') :
  (st_panic st' = true <->
     exists t p stored err, st_threads st !! tid = Some t /\ t_pc t = PReturn (Some err)
       /\ t_parent t = Some p /\ st_egErr st !! p = Some stored /\ type_of stored <> type_of err)
  /\ (st_panic st' = true -> st_dst st' = st_dst st /\ result_of st' = result_of st
       /\ forall tid' c', step succ src st' tid' c' = None).
Proof.
  split; [split|].
  - intros Hp. destruct (step_panics _ _ _ _ _ _ Hstep Hp) as (t & err & Ht & Hpc & Hpan & ->).
    unfold step_return, for_parent, CompareAndSwap in Hp. destruct (t_parent t) as [p|] eqn:Hpar; [|by rewrite Hpan in Hp; simpl in Hp; congruence].
    destruct (st_egErr st !! p) as [stored|] eqn:He.
    2:{ simpl in Hp. rewrite Hpan in Hp. simpl in Hp. congruence. }
    case_decide; [rewrite Hpan in Hp; simpl in Hp; congruence|]. by exists t, p, stored, err.
  - intros (t & p & stored & err & Ht & Hpc & Hpar & He & Hty).
    unfold step in Hstep. destruct (st_panic st); [done|]. rewrite Ht, Hpc in Hstep.
    destruct c; try done. injection Hstep as <-. unfold step_return, for_parent, CompareAndSwap.
    rewrite Hpar, He, decide_False by done. done.
  - intros Hp. split_and!; [| |intros tid' c'; unfold step; by rewrite Hp].
    all: destruct (step_panics _ _ _ _ _ _ Hstep Hp) as (t & err & Ht & Hpc & Hpan & ->).
    all: unfold step_return, for_parent, CompareAndSwap in *; destruct (t_parent t) as [p|];
      [|rewrite Hpan in Hp; simpl in Hp; congruence].
    all: destruct (st_egErr st !! p); [case_decide|]; simpl in *; rewrite ?Hpan in *; simpl in *; first [reflexivity|congruence].
Qed.

(** Layers [a] and [b] of one manifest fail with different types of errors: the
    last step of this reachable run panics, before [copyGraph] has returned. *)
Lemma Go_mixed_errors_panic_witness :
  exists st st', reachable succ3 src ∅ 3 root st /\ step succ3 src st 3 CNext = Some st'
    /\ st_panic st' = true /\ result_of st' = None.
Proof.
  assert (H : exists st st', run succ3 src sched_panic start = Some st /\ result_of st = None
    /\ step succ3 src st 3 CNext = Some st' /\ st_panic st' = true).
  { do 2 eexists. split_and!; [vm_compute; reflexivity..]. }
  destruct H as (st & st' & Hrun & Hres & Hstep & Hp). exists st, st'. split_and!; try done.
  - eapply reachable_run; [constructor|exact Hrun].
  - destruct (Go_mixed_errors_panic succ3 src st st' 3 CNext Hstep) as [_ Hend].
    destruct (Hend Hp) as (_ & Hr & _). congruence.
Defined.
