(* ===== verification/SchedLiveness.v ===== *)
(** Liveness of the concurrent traversal of [Sched]: it never deadlocks, every
    execution is finite, and without failures it returns nil. *)

From Stdlib Require Import ZArith Lia.
From S2P Require Import Prelude Errors Descriptor Sched SchedSafety SchedCorrect.

Section Liveness.
Context (succ : Descriptor -> list OciDescriptor) (src : Descriptor -> bytes)
  (dst0 : gmap Descriptor bytes) (limit : nat) (root : OciDescriptor).
Notation children := (children succ).
Notation reachable := (reachable succ src dst0 limit root).
Notation step := (step succ src).
Notation inv := (inv succ limit root).

(** ** Termination *)

(** An execution with [n] steps of goroutines; the caller may cancel at any time. *)
Inductive exec : nat -> state -> Prop :=
| exec_init : exec 0 (init dst0 limit root)
| exec_step n st tid c st' : exec n st -> step st tid c = Some st' -> exec (S n) st'
| exec_cancel n st : exec n st -> exec n (cancel st).

Lemma exec_reachable n st : exec n st -> reachable st.
Proof. induction 1; [constructor|by eapply reachable_step|by constructor]. Qed.

(** The steps a thread still takes, those of the goroutines it will start
    included; [n] is the number of successors of its node. *)
Definition cost (n : nat) (len : nat) (p : pc) : nat :=
  match p with
  | PExists => 11 + 6 * n
  | PFindSuccessors => 10 + 6 * n
  | PRegionEnd => 9 + 6 * len
  | PGo i => 8 + len + 5 * (len - i)
  | PWait => 7 + len
  | PJoin i => 6 + (len - i)
  | PStart => 5
  | PTryCommit | PSkipped | PCopy => 4
  | PReturn _ => 3
  | PRelease _ => 2
  | PExit _ => 1
  | PDone _ => 0
  end.

Definition fanout (t : thread) : nat :=
  match t_node t with Some d => length (children (FromOCI d)) | None => 0 end.
Definition thread_cost (t : thread) : nat := cost (fanout t) (length (t_succs t)) (t_pc t).

Definition node_cost (k : Descriptor) : nat := 8 + 6 * length (children k).

(** The nodes of [U] that are not committed yet. *)
Definition pending (U : list Descriptor) (m : gmap Descriptor bool) : list Descriptor :=
  List.filter (fun k => bool_decide (m !! k = None)) U.

Definition measure (U : list Descriptor) (st : state) : nat :=
  sum_of thread_cost (st_threads st) + sum_of node_cost (pending U (st_tracker st))
  + Nat.b2n (negb (st_panic st)).

Lemma pending_sub (m : gmap Descriptor bool) k b x :
  bool_decide (<[k := b]> m !! x = None) = true -> bool_decide (m !! x = None) = true.
Proof. rewrite !bool_decide_eq_true. by intros [? _]%lookup_insert_None. Qed.

Lemma pending_mono U m k b :
  sum_of node_cost (pending U (<[k := b]> m)) <= sum_of node_cost (pending U m).
Proof. apply sum_of_filter_le, pending_sub. Qed.

Lemma pending_commit U m k b :
  k ∈ U -> m !! k = None ->
  sum_of node_cost (pending U (<[k := b]> m)) + node_cost k <= sum_of node_cost (pending U m).
Proof.
  intros Hin Hk. apply sum_of_filter_remove; [apply pending_sub|done|by apply bool_decide_eq_true|].
  apply bool_decide_eq_false. by rewrite lookup_insert_eq.
Qed.

Section Bounded.
(** The finite set of nodes of the graph. *)
Context (U : list Descriptor) (Hroot : FromOCI root ∈ U)
  (HU : forall k s, k ∈ U -> s ∈ children k -> FromOCI s ∈ U).

Definition inside (t : thread) : Prop :=
  (forall d, t_node t = Some d -> FromOCI d ∈ U)
  /\ (forall s, s ∈ t_succs t -> FromOCI s ∈ U).

Lemma inside_effect st tid t c st' :
  st_threads st !! tid = Some t -> effect succ src st tid t c st' ->
  (forall i u, st_threads st !! i = Some u -> inside u) ->
  forall i u, st_threads st' !! i = Some u -> inside u.
Proof.
  intros Ht Heff Hin i u Hu. destruct (effect_frame _ _ _ _ _ _ _ Ht Heff) as [t' Hfr].
  destruct (Hin tid t Ht) as [Hn Hs].
  destruct (decide (i = tid)) as [->|Hne].
  - rewrite (fr_self _ _ _ _ _ Hfr) in Hu. injection Hu as <-. split.
    + intros d. rewrite (fr_node _ _ _ _ _ Hfr). auto.
    + destruct (decide (t_pc t = PFindSuccessors)) as [Hpc|Hpc].
      * assert (Hsu : forall s, s ∈ t_succs t' -> s ∈ t_succs t \/ exists d, t_node t = Some d /\ s ∈ children (FromOCI d)).
        { pose proof (fr_self _ _ _ _ _ Hfr) as Hself.
          assert (Hlt : tid < length (st_threads st)) by (by eapply lookup_lt_Some).
          destruct Heff as [p Hmv| | | | | | | | | | | | | | |]; revert Hself; simpl;
            rewrite ?lookup_app_l by (by rewrite length_insert); split_fn_return; simpl;
            rewrite ?list_lookup_insert_eq by done; rewrite ?Ht; intros [= <-]; simpl; auto.
          subst. eauto. }
        intros s [?|(d & Hd & Hc)]%Hsu; [by apply Hs|].
        apply (HU (FromOCI d)); [by apply Hn|done].
      * rewrite (fr_succs _ _ _ _ _ Hfr) by done. done.
  - destruct (fr_other_inv _ _ _ _ _ Hfr i u Hne Hu) as [?|(_ & j & s & _ & Hj & ->)]; [by eapply Hin|].
    split; simpl; [|by intros ? ?%elem_of_nil]. intros d [= <-]. apply Hs. by eapply list_elem_of_lookup_2.
Qed.

Lemma inside_reachable st :
  reachable st -> forall i u, st_threads st !! i = Some u -> inside u.
Proof.
  induction 1 as [|st tid c st' Hr IH Hstep|]; [|clear Hr|done].
  - intros [|i] u Hu; simplify_eq/=. split; simpl; [done|]. by intros s ->%list_elem_of_singleton.
  - apply step_effect in Hstep as (t & Ht & _ & Heff). by eapply inside_effect.
Qed.

Lemma move_cost st tid t c p :
  inv st -> st_threads st !! tid = Some t -> move succ st tid t c p ->
  thread_cost (set_pc p t) < thread_cost t.
Proof.
  intros Hinv Ht Hmv. unfold thread_cost, fanout. simpl.
  destruct Hmv as [i Hpc Hi|i e Hpc|e Hpc|Hpc|d Hpc|i s Hpc Hi|i Hpc Hi|d x Hpc|d v Hpc|d Hpc|d Hpc
    |e [Hpc|[Hpc|[Hpc|[Hpc|[i Hpc]]]]]]; rewrite Hpc; simpl; try lia.
  apply lookup_lt_Some in Hi. lia.
Qed.

Lemma effect_measure st tid t c st' :
  inv st -> st_threads st !! tid = Some t -> st_panic st = false -> inside t ->
  effect succ src st tid t c st' -> measure U st' < measure U st.
Proof.
  intros Hinv Ht Hpan [Hin _] Heff. unfold measure.
  pose proof (fun y => sum_of_insert thread_cost (st_threads st) tid t y Ht) as Hins.
  pose proof (fun m k b => pending_mono U m k b) as Hmono.
  destruct Heff as [p Hmv|i s free Hpc Hi| |d Hpc Hn Htr|d l Hpc Hn Hl| | | | |d e b Hpc| | |e Hpc| | |]; simpl;
    split_fn_return; simpl; rewrite ?Hpan;
    try (match goal with |- context [<[tid := ?y]> _] => specialize (Hins y) end);
    try (match goal with |- context [<[?k := ?b]> (st_tracker st)] => specialize (Hmono (st_tracker st) k b) end);
    try (unfold thread_cost at 2 4, fanout in Hins; simpl in Hins;
         match goal with H : t_pc t = _ |- _ => rewrite H in Hins end; simpl in Hins); try lia.
  - pose proof (move_cost _ _ _ _ _ Hinv Ht Hmv). lia.
  - rewrite sum_of_app. apply lookup_lt_Some in Hi. cbn [sum_of]. unfold thread_cost at 2.
    cbn [cost t_pc]. lia.
  - pose proof (pending_commit U (st_tracker st) (FromOCI d) false (Hin d Hn) Htr) as Hp.
    rewrite Hn in Hins. unfold node_cost at 2 in Hp. lia.
  - rewrite Hn, Hl in Hins. lia.
  - simpl. lia.
Qed.

Lemma exec_measure n st : exec n st -> n + measure U st <= measure U (init dst0 limit root).
Proof.
  induction 1 as [|n st tid c st' Hex IH Hstep|]; [lia| |done].
  pose proof (exec_reachable _ _ Hex) as Hr. pose proof (inv_reachable _ _ _ _ _ _ Hr) as Hinv.
  apply step_effect in Hstep as (t & Ht & Hpan & Heff).
  pose proof (effect_measure st tid t c st' Hinv Ht Hpan (inside_reachable st Hr tid t Ht) Heff). lia.
Qed.

Lemma measure_init : measure U (init dst0 limit root) = 15 + sum_of node_cost U.
Proof.
  unfold measure. simpl. unfold pending. simpl.
  replace (List.filter _ U) with U; [lia|].
  clear. induction U as [|a l IH]; [done|]. simpl. by rewrite bool_decide_true, <- IH.
Qed.

(** C7: [copyGraph] terminates under every schedule.  On a finite graph no
    execution - with any interleaving of the goroutines, any failures and
    cancellation at any time - takes more than the stated number of steps,
    which is linear in the number of nodes and edges. *)
Theorem copyGraph_terminates (n : nat) (st : state) (Hex : exec n st) :
  n <= 15 + sum_of (fun k => 8 + 6 * length (children k)) U.
Proof.
  change (n <= 15 + sum_of node_cost U). rewrite <- measure_init.
  pose proof (exec_measure n st Hex). lia.
Qed.

End Bounded.

(** ** Deadlock freedom *)

Section Progress.
(** The graph is acyclic: content addressing makes a node's digest depend on
    those of its successors. *)
Context (rank : Descriptor -> nat)
  (Hrank : forall k s, s ∈ children k -> rank (FromOCI s) < rank k) (Hlimit : 0 < limit).

Definition enabled (st : state) : Prop :=
  exists tid c st', (c = CNext \/ c = CDone) /\ step st tid c = Some st'.

Lemma enabled_next st tid st' : step st tid CNext = Some st' -> enabled st.
Proof. intros. exists tid, CNext, st'. auto. Qed.

(** The program counters at which a goroutine can block. *)
Definition blocking (p : pc) : Prop :=
  match p with PGo _ | PWait | PJoin _ | PStart | PDone _ => True | _ => False end.

Lemma enabled_nonblocking st i t :
  inv st -> st_panic st = false -> st_threads st !! i = Some t -> ~ blocking (t_pc t) -> enabled st.
Proof.
  intros Hinv Hpan Hi Hnb. pose proof (inv_thread _ _ _ _ Hinv i t Hi) as Hth. unfold thread_inv in Hth.
  assert (Hex : exists st', step st i CNext = Some st'); [|destruct Hex as [st' ?]; by eapply enabled_next].
  unfold Sched.step. rewrite Hpan, Hi.
  destruct (t_pc t) eqn:Hpc; simpl in Hnb; try tauto; eauto.
  all: destruct (t_node t) as [d|]; [|unfold caller_pc, returned in Hth; naive_solver].
  all: unfold step_node, TryCommit; rewrite Hpc; eauto.
  - destruct (st_tracker st !! FromOCI d); eauto.
  - destruct (st_dst st !! FromOCI d); eauto.
  - destruct (children (FromOCI d)); eauto.
Qed.

(** When every goroutine blocks, no permit is held. *)
Lemma blocked_free st :
  inv st -> (forall i t, st_threads st !! i = Some t -> blocking (t_pc t)) -> 0 < st_free st.
Proof.
  intros Hinv Hb. pose proof (inv_permits _ _ _ _ Hinv) as Hp.
  replace (List.filter t_held (st_threads st)) with (@nil thread) in Hp; [simpl in Hp; lia|].
  symmetry. destruct (List.filter t_held (st_threads st)) as [|t l] eqn:E; [done|]. exfalso.
  assert (Hin : In t (List.filter t_held (st_threads st))) by (rewrite E; by left).
  apply filter_In in Hin as [[i Hi]%list_elem_of_In%list_elem_of_lookup Hh].
  specialize (Hb i t Hi). pose proof (inv_thread _ _ _ _ Hinv i t Hi) as Hth.
  unfold thread_inv, node_inv in Hth.
  destruct (t_node t), (t_pc t); simpl in Hb; try done; naive_solver congruence.
Qed.

(** [enabled] is decidable. *)
Definition enabledb (st : state) : bool :=
  existsb (fun tid => bool_decide (is_Some (step st tid CNext)) || bool_decide (is_Some (step st tid CDone)))
    (seq 0 (length (st_threads st))).

Lemma enabledb_false st : enabledb st = false -> ~ enabled st.
Proof.
  intros Hf (tid & c & st' & Hc & Hs). apply not_true_iff_false in Hf. apply Hf.
  apply existsb_exists. exists tid. split.
  - apply in_seq. split; [lia|]. apply step_effect in Hs as (t & Ht & _). apply lookup_lt_Some in Ht. lia.
  - apply orb_true_iff. destruct Hc as [-> | ->]; [left|right]; apply bool_decide_eq_true; eauto.
Qed.

Lemma enabledb_true st : enabledb st = true -> enabled st.
Proof.
  intros (tid & _ & [[st' H]%bool_decide_eq_true|[st' H]%bool_decide_eq_true]%orb_true_iff)%existsb_exists.
  - exists tid, CNext, st'. auto.
  - exists tid, CDone, st'. auto.
Qed.

(** [below st i j]: thread [j] was started, directly or not, by thread [i]. *)
Inductive below (st : state) (i : nat) : nat -> Prop :=
| below_child c t : st_threads st !! c = Some t -> t_parent t = Some i -> below st i c
| below_step j c t : below st i j -> st_threads st !! c = Some t -> t_parent t = Some j -> below st i c.

Lemma below_trans st i j k : below st i j -> below st j k -> below st i k.
Proof. intros Hij. induction 1; by eapply below_step. Qed.

Lemma below_ctx_done st i c :
  inv st -> below st i c -> is_Some (st_grpErr st !! i) -> ctx_done st c = true.
Proof.
  intros Hinv Hb Hg. unfold ctx_done.
  enough (forall fuel, c <= fuel -> ctx_done_fuel fuel st c = true) by auto.
  induction Hb as [c t Hc Hp|j c t Hb IH Hc Hp]; intros fuel Hf;
    destruct (inv_child _ _ _ _ Hinv c t _ Hc Hp) as [Hlt _];
    (destruct fuel as [|fuel]; [lia|]); simpl; rewrite Hc; simpl; rewrite Hp; apply orb_true_iff; right.
  - unfold has_err. by rewrite bool_decide_true.
  - rewrite IH by lia. by rewrite orb_true_r.
Qed.

Definition trank (t : thread) : nat :=
  match t_node t with Some d => rank (FromOCI d) | None => S (rank (FromOCI root)) end.

Section Stuck.
Context (st : state).
Hypothesis (Hinv : inv st) (Hpan : st_panic st = false) (Hstuck : ~ enabled st).

Lemma stuck_blocking i t : st_threads st !! i = Some t ->
  t_pc t = PWait \/ (exists j, t_pc t = PJoin j) \/ (exists e, t_pc t = PDone e).
Proof.
  assert (Hb : forall i t, st_threads st !! i = Some t -> blocking (t_pc t)).
  { intros i' t' Hi'. destruct (t_pc t') eqn:Hpc; simpl; try done;
      (destruct Hstuck; eapply enabled_nonblocking; [done..|rewrite Hpc; simpl; tauto]). }
  pose proof (blocked_free st Hinv Hb) as Hfree. destruct (st_free st) as [|free] eqn:Hf; [lia|].
  intros Hi. specialize (Hb i t Hi). destruct (t_pc t) eqn:Hpc; simpl in Hb; try done; eauto.
  - exfalso. apply Hstuck. destruct (t_succs t !! i0) eqn:Hs;
      (eapply enabled_next with (tid := i); unfold Sched.step; rewrite Hpan, Hi, Hpc; unfold step_go; by rewrite Hs, ?Hf).
  - exfalso. pose proof (inv_thread _ _ _ _ Hinv i t Hi) as Hth. unfold thread_inv in Hth.
    destruct (t_node t) as [d|] eqn:Hn; [|rewrite Hpc in Hth; unfold caller_pc, returned in Hth; naive_solver].
    apply Hstuck. eapply enabled_next with (tid := i). unfold Sched.step. rewrite Hpan, Hi, Hpc, Hn.
    unfold step_node. by rewrite Hpc, Hf.
Qed.

Lemma stuck_wait i t : st_threads st !! i = Some t -> t_pc t = PWait ->
  exists c tc, st_threads st !! c = Some tc /\ t_parent tc = Some i /\ is_done tc = false.
Proof.
  intros Hi Hpc.
  destruct (children_done st i) eqn:Hcd.
  { exfalso. apply Hstuck. assert (Hex : exists st', step st i CNext = Some st').
    { unfold Sched.step. rewrite Hpan, Hi, Hpc. unfold step_wait. rewrite Hcd.
      destruct (st_grpErr st !! i), (t_node t); eauto. }
    destruct Hex as [st' ?]. by eapply enabled_next. }
  apply forallb_false in Hcd as (c & u & Hc & Hf). exists c, u.
  apply orb_false_iff in Hf as [Hp Hd]. unfold has_parent in Hp.
  destruct (bool_decide_reflect (t_parent u = Some i)); done.
Qed.

Lemma stuck_join i t j : st_threads st !! i = Some t -> t_pc t = PJoin j ->
  ctx_done st i = false /\ exists d s, t_node t = Some d /\ s ∈ children (FromOCI d)
    /\ st_tracker st !! FromOCI s = Some false.
Proof.
  intros Hi Hpc. pose proof (inv_thread _ _ _ _ Hinv i t Hi) as Hth. unfold thread_inv in Hth.
  rewrite Hpc in Hth. destruct (t_node t) as [d|] eqn:Hn; [|by destruct Hth as (_ & _ & _ & _ & _ & ?%caller_not_join)].
  destruct Hth as [_ Hni]. unfold node_inv in Hni. rewrite Hpc in Hni.
  destruct Hni as (_ & _ & Hsu & _ & _ & Hin & _).
  assert (Hno : forall c, c = CNext \/ c = CDone -> step st i c = None).
  { intros c Hc. destruct (step st i c) eqn:E; [|done]. destruct Hstuck. exists i, c. eauto. }
  pose proof (Hno CNext ltac:(auto)) as Hn1. pose proof (Hno CDone ltac:(auto)) as Hn2.
  unfold Sched.step in Hn1, Hn2. rewrite Hpan, Hi, Hpc in Hn1, Hn2. unfold step_join, TryCommit in Hn1, Hn2.
  destruct (t_succs t !! j) as [s|] eqn:Hj; [|done].
  destruct (st_tracker st !! FromOCI s) as [b|] eqn:Htr; [|done]. rewrite Htr in Hn1, Hn2. destruct b; [done|].
  split; [by destruct (ctx_done st i)|]. exists d, s. split_and!; try done.
  rewrite <- Hsu. by eapply list_elem_of_lookup_2.
Qed.

(** Below an unfinished thread some thread waits at a done channel. *)
Lemma stuck_leaf n : forall i t, length (st_threads st) - i <= n ->
  st_threads st !! i = Some t -> is_done t = false ->
  exists j tj x, (j = i \/ below st i j) /\ st_threads st !! j = Some tj /\ t_pc tj = PJoin x
    /\ trank tj <= trank t.
Proof.
  induction n as [|n IH]; intros i t Hn Hi Hd; [apply lookup_lt_Some in Hi; lia|].
  destruct (stuck_blocking i t Hi) as [Hpc|[[x Hpc]|[e Hpc]]].
  - destruct (stuck_wait i t Hi Hpc) as (c & tc & Hc & Hp & Hdc).
    destruct (inv_child _ _ _ _ Hinv c tc i Hc Hp) as (Hlt & tp & s & Htp & Hns & Hin & _). simplify_eq.
    destruct (IH c tc) as (j & tj & x & Hj & Htj & Hpj & Hrk); [lia|done|done|].
    exists j, tj, x. split_and!; try done.
    + right. destruct Hj as [->|Hj]; [exact (below_child _ _ _ _ Hc Hp)|].
      exact (below_trans _ _ _ _ (below_child _ _ _ _ Hc Hp) Hj).
    + enough (trank tc < trank t) by lia. unfold trank. rewrite Hns.
      pose proof (inv_thread _ _ _ _ Hinv i t Hi) as Hth. unfold thread_inv, node_inv in Hth.
      destruct (t_node t) as [d|].
      * rewrite Hpc in Hth. destruct Hth as (_ & _ & _ & Hsu & _). rewrite Hsu in Hin. by apply Hrank.
      * destruct Hth as (_ & _ & _ & _ & Hsu & _). rewrite Hsu in Hin.
        apply list_elem_of_singleton in Hin as ->. lia.
  - exists i, t, x. auto.
  - unfold is_done in Hd. by rewrite Hpc in Hd.
Qed.

(** A failed goroutine wakes up whoever waits below the group it failed. *)
Lemma stuck_no_failure t0 : st_threads st !! 0 = Some t0 -> is_done t0 = false ->
  forall n c tc e, c <= n -> st_threads st !! c = Some tc -> is_Some (t_parent tc) ->
  t_pc tc = PDone (Some e) -> False.
Proof.
  intros H0 Hd0. induction n as [|n IH]; intros c tc e Hcn Hc [p Hp] Hpc;
    destruct (inv_child _ _ _ _ Hinv c tc p Hc Hp) as (Hlt & tp & s & Htp & _ & _ & _ & _ & Hge); [lia|].
  specialize (Hge e Hpc). destruct (inv_grpErr _ _ _ _ Hinv p Hge) as [e0 He0].
  destruct (inv_egErr _ _ _ _ Hinv p e0 He0) as (tp' & _ & _ & _ & Htp' & Hw & _). simplify_eq.
  destruct (stuck_blocking p tp Htp) as [Hpp|[[x Hpp]|[e' Hpp]]].
  - destruct (stuck_leaf (length (st_threads st)) p tp) as (j & tj & x & Hj & Htj & Hpj & _);
      [lia|done|unfold is_done; by rewrite Hpp|].
    destruct Hj as [->|Hj]; [congruence|].
    destruct (stuck_join j tj x Htj Hpj) as [Hctx _].
    by rewrite (below_ctx_done st p j Hinv Hj Hge) in Hctx.
  - rewrite Hpp in Hw. unfold waiting, returned in Hw. naive_solver.
  - rewrite Hpp in Hw. assert (exists e1, e' = Some e1) as [e1 ->].
    { unfold waiting, returned in Hw. naive_solver. }
    pose proof (inv_thread _ _ _ _ Hinv p tp Htp) as Hth. unfold thread_inv in Hth.
    destruct (t_node tp).
    + eapply (IH p tp e1); [lia|done|by destruct Hth|done].
    + destruct Hth as [-> _]. simplify_eq. unfold is_done in Hd0. by rewrite Hpp in Hd0.
Qed.

Lemma stuck_no_join t0 : st_threads st !! 0 = Some t0 -> is_done t0 = false ->
  forall n j tj x, trank tj <= n -> st_threads st !! j = Some tj -> t_pc tj = PJoin x -> False.
Proof.
  intros H0 Hd0. induction n as [|n IH]; intros j tj x Hn Hj Hpj;
    destruct (stuck_join j tj x Hj Hpj) as (_ & d & s & Hnd & Hs & Htr);
    pose proof (Hrank _ _ Hs) as Hr; unfold trank in Hn; rewrite Hnd in Hn; [lia|].
  destruct (inv_tracker _ _ _ _ Hinv _ _ Htr) as (_ & c & tc & ds & Hc & _ & Hnc & Hk & Hret).
  specialize (Hret eq_refl). destruct (is_done tc) eqn:Hdc.
  - unfold is_done in Hdc. destruct (t_pc tc) as [| | | | | | | | | | | | |[e|]] eqn:Hpc; try done.
    + pose proof (inv_thread _ _ _ _ Hinv c tc Hc) as Hth. unfold thread_inv in Hth. rewrite Hnc in Hth.
      eapply (stuck_no_failure t0 H0 Hd0 c c tc e); [lia|done|by destruct Hth|done].
    + apply Hret. unfold returned. auto.
  - destruct (stuck_leaf (length (st_threads st)) c tc) as (j' & tj' & x' & _ & Hj' & Hpj' & Hrk); [lia|done..|].
    eapply (IH j' tj' x'); [|done..]. unfold trank in Hrk at 2. rewrite Hnc, Hk in Hrk. lia.
Qed.

End Stuck.

Lemma progress st : reachable st -> st_panic st = false -> result_of st = None -> enabled st.
Proof.
  intros Hr Hpan Hrun.
  destruct (enabledb st) eqn:Hen; [by apply enabledb_true|]. apply enabledb_false in Hen. exfalso.
  pose proof (inv_reachable _ _ _ _ _ _ Hr) as Hinv.
  destruct (inv_caller _ _ _ _ Hinv) as (t0 & H0 & _ & _).
  assert (Hd0 : is_done t0 = false).
  { unfold result_of in Hrun. rewrite H0 in Hrun. unfold is_done. by destruct (t_pc t0). }
  destruct (stuck_leaf st Hinv Hpan Hen (length (st_threads st)) 0 t0) as (j & tj & x & _ & Hj & Hpj & _); [lia|done..|].
  by eapply (stuck_no_join st Hinv Hpan Hen t0 H0 Hd0 (trank tj) j tj x).
Qed.


(** ** Runs without failures *)

(** The states reached when no call fails and the caller does not cancel. *)
Inductive healthy : state -> Prop :=
| healthy_init : healthy (init dst0 limit root)
| healthy_step st tid st' : healthy st -> step st tid CNext = Some st' -> healthy st'.

Lemma healthy_reachable st : healthy st -> reachable st.
Proof. induction 1; [constructor|by eapply reachable_step]. Qed.

Record no_err (st : state) : Prop := {
  ne_egErr : st_egErr st = ∅;
  ne_grpErr : st_grpErr st = ∅;
  ne_panic : st_panic st = false;
  ne_cancel : st_cancel st = false;
  ne_returned : forall i t e, st_threads st !! i = Some t -> ~ returned (Some e) (t_pc t)
}.

Lemma no_err_move st tid t p e :
  inv st -> st_threads st !! tid = Some t -> no_err st -> move succ st tid t CNext p ->
  ~ returned (Some e) p.
Proof.
  intros Hinv Ht Hne Hmv Hret. unfold returned in Hret.
  destruct Hmv as [| |e' Hpc _ Hg| | | | | | | | |]; try (destruct Hret as [?|[?|[?|?]]]; congruence).
  by rewrite (ne_grpErr _ Hne), lookup_empty in Hg.
Qed.

Lemma no_err_effect st tid t st' :
  inv st -> st_threads st !! tid = Some t -> no_err st -> effect succ src st tid t CNext st' -> no_err st'.
Proof.
  intros Hinv Ht Hne Heff.
  assert (Hold : forall e, ~ returned (Some e) (t_pc t)) by (intros e; by apply (ne_returned _ Hne tid)).
  assert (Hlt : tid < length (st_threads st)) by (by eapply lookup_lt_Some).
  assert (Hself : forall u e, st_threads st' !! tid = Some u -> ~ returned (Some e) (t_pc u)).
  { intros u e Hu Hret. destruct (decide (t_pc u = PReturn (Some e))) as [Hpu|Hpu].
    2:{ apply (Hold e). unfold returned.
        destruct (self_returned _ _ _ _ _ _ _ Ht Heff u (Some e) Hu Hret Hpu) as [[_ ->]|[[_ ->]|[_ ->]]]; auto. }
    destruct Heff as [p Hmv| |i s e' Hpc Hi Htr| | | | | | | | | |e' Hpc| | |]; revert Hu; simpl;
      rewrite ?lookup_app_l by (by rewrite length_insert); split_fn_return; simpl;
      rewrite ?list_lookup_insert_eq by done; rewrite ?Ht; intros Hu; simplify_eq/=.
    - eapply (no_err_move st tid t); [done..|]. unfold returned. eauto.
    - pose proof (inv_thread _ _ _ _ Hinv tid t Ht) as Hth. unfold thread_inv, node_inv in Hth. rewrite Hpc in Hth.
      destruct (t_node t) as [d|]; [|by destruct Hth as (_ & _ & _ & _ & _ & ?%caller_not_join)].
      destruct Hth as (_ & _ & _ & Hsu & _ & _ & Hin & _). rewrite Hsu in Hi.
      destruct (Hin s) as [? ?]; [by eapply list_elem_of_lookup_2|congruence].
    - apply (Hold e'). unfold returned. auto. }
  destruct (effect_frame _ _ _ _ _ _ _ Ht Heff) as [t' Hfr]. destruct Hne as [H1 H2 H3 H4 H5].
  assert (Hthr : forall i u e, st_threads st' !! i = Some u -> ~ returned (Some e) (t_pc u)).
  { intros i u e Hu. destruct (decide (i = tid)) as [->|Hni]; [by apply Hself|].
    destruct (fr_other_inv _ _ _ _ _ Hfr i u Hni Hu) as [?|(_ & ? & ? & _ & _ & ->)]; [by eapply H5|].
    unfold returned. simpl. naive_solver. }
  assert (Hno : forall e, t_pc t = PReturn (Some e) \/ t_pc t = PExit (Some e) -> False).
  { intros e Hpc. apply (Hold e). unfold returned. tauto. }
  destruct Heff; split; try exact Hthr; simpl; split_fn_return; try done; exfalso; eauto.
Qed.

Lemma healthy_no_err st : healthy st -> no_err st.
Proof.
  induction 1 as [|st tid st' Hh IH Hstep].
  - split; try done. intros [|i] t e Ht; simplify_eq/=. unfold returned. simpl. naive_solver.
  - apply step_effect in Hstep as (t & Ht & _ & Heff). eapply no_err_effect; [|done..].
    by apply (inv_reachable succ src dst0), healthy_reachable.
Qed.

Lemma no_err_ctx_done st fuel tid : no_err st -> ctx_done_fuel fuel st tid = false.
Proof.
  intros Hne. revert tid. induction fuel as [|fuel IH]; intros tid; simpl; rewrite (ne_cancel _ Hne); [done|].
  simpl. destruct (_ ≫= _) as [p|]; [|done]. rewrite IH, (ne_grpErr _ Hne).
  unfold has_err. by rewrite lookup_empty, bool_decide_false by (by intros [? ?]).
Qed.

Lemma no_err_CDone st tid st' : inv st -> no_err st -> step st tid CDone = Some st' -> False.
Proof.
  intros Hinv Hne. unfold Sched.step. rewrite (ne_panic _ Hne). destruct (st_threads st !! tid) as [t|] eqn:Ht; [|done].
  assert (Hctx : ctx_done st tid = false) by (by apply no_err_ctx_done).
  destruct (t_pc t) eqn:Hpc; try done; try (destruct (t_node t); [|done]; unfold step_node; by rewrite Hpc, ?Hctx).
  - unfold step_go. destruct (t_succs t !! i); [|done]. unfold group_done.
    rewrite Hctx, (ne_grpErr _ Hne). unfold has_err. by rewrite lookup_empty, bool_decide_false by (by intros [? ?]).
  - unfold step_join, TryCommit. destruct (t_succs t !! i) as [s|] eqn:Hi; [|done].
    pose proof (inv_thread _ _ _ _ Hinv tid t Ht) as Hth. unfold thread_inv, node_inv in Hth. rewrite Hpc in Hth.
    destruct (t_node t) as [d|]; [|by destruct Hth as (_ & _ & _ & _ & _ & ?%caller_not_join)].
    destruct Hth as (_ & _ & _ & Hsu & _ & _ & Hin & _). rewrite Hsu in Hi.
    destruct (Hin s) as [b Hb]; [by eapply list_elem_of_lookup_2|]. rewrite Hb, Hb, Hctx. by destruct b.
Qed.

(** When no call fails and the caller does not cancel, [copyGraph] cannot
    panic, cannot return an error and, until it has returned, always has a
    goroutine that can go on: with the bound on the length of executions, every
    schedule ends with a nil result. *)
Theorem copyGraph_healthy (st : state) (Hh : healthy st) :
  st_panic st = false /\ (forall r, result_of st = Some r -> r = None)
  /\ (result_of st = None -> exists tid st', step st tid CNext = Some st').
Proof.
  pose proof (healthy_reachable st Hh) as Hr. pose proof (healthy_no_err st Hh) as Hne.
  split_and!; [apply (ne_panic _ Hne)| |].
  - intros r. unfold result_of. destruct (st_threads st !! 0) as [t0|] eqn:H0; [|done].
    destruct (t_pc t0) eqn:Hpc; try done. intros [= <-]. destruct err as [e|]; [|done].
    destruct (ne_returned _ Hne 0 t0 e H0). rewrite Hpc. unfold returned. auto.
  - intros Hrun. destruct (progress st Hr (ne_panic _ Hne) Hrun) as (tid & c & st' & [-> | ->] & Hs); [eauto|].
    destruct (no_err_CDone st tid st'); [by eapply inv_reachable|done..].
Qed.

End Progress.
End Liveness.

(** ** The example graph *)

Import sched_example.

Lemma children_example k s : s ∈ children succ k -> k = FromOCI root /\ (s = node "a" \/ s = node "b").
Proof.
  unfold children. rewrite removeForeignLayers_spec. unfold succ. case_decide as Hk; [|by intros ?%elem_of_nil].
  simpl. rewrite !elem_of_cons, elem_of_nil. naive_solver.
Qed.

Definition example_nodes : list Descriptor := FromOCI <$> [root; node "a"; node "b"].

Lemma example_nodes_closed k s :
  k ∈ example_nodes -> s ∈ children succ k -> FromOCI s ∈ example_nodes.
Proof.
  intros _ [_ [-> | ->]]%children_example; unfold example_nodes; simpl; rewrite !elem_of_cons; auto.
Qed.

Definition example_rank (k : Descriptor) : nat := if decide (k = FromOCI root) then 1 else 0.

Lemma example_rank_lt k s : s ∈ children succ k -> example_rank (FromOCI s) < example_rank k.
Proof. intros [-> [-> | ->]]%children_example; vm_compute; lia. Qed.

Lemma exec_run dst0 limit n sched st st' :
  exec succ src dst0 limit root n st -> run succ src sched st = Some st' ->
  exec succ src dst0 limit root (length sched + n) st'.
Proof.
  revert n st. induction sched as [|[tid c] l IH]; intros n st Hex; simpl; [by intros [= <-]|].
  destruct (step succ src st tid c) as [st1|] eqn:E; simpl; [|done]. intros Hrun.
  rewrite <- Nat.add_succ_r. eapply IH; [|done]. by eapply exec_step.
Qed.

Lemma healthy_run dst0 limit l st st' :
  healthy succ src dst0 limit root st -> run succ src (next l) st = Some st' ->
  healthy succ src dst0 limit root st'.
Proof.
  revert st. induction l as [|tid l IH]; intros st Hh; simpl; [by intros [= <-]|].
  destruct (step succ src st tid CNext) as [st1|] eqn:E; simpl; [|done]. intros Hrun.
  eapply IH; [|done]. by eapply healthy_step.
Qed.

Lemma copyGraph_terminates_witness :
  exists st, exec succ src ∅ 3 root 36 st
    /\ 36 <= 15 + sum_of (fun k => 8 + 6 * length (children succ k)) example_nodes.
Proof.
  destruct final_run as (st & Hrun & _). exists st.
  assert (Hex : exec succ src ∅ 3 root 36 st) by exact (exec_run ∅ 3 0 _ _ _ (exec_init _ _ _ _ _) Hrun).
  split; [exact Hex|].
  refine (copyGraph_terminates succ src ∅ 3 root example_nodes _ example_nodes_closed 36 st Hex).
  apply list_elem_of_here.
Defined.


Lemma copyGraph_healthy_witness :
  exists st, healthy succ src ∅ 3 root st /\ st_panic st = false /\ result_of st = Some None.
Proof.
  destruct final_run as (st & Hrun & Hres). exists st.
  assert (Hh : healthy succ src ∅ 3 root st) by exact (healthy_run ∅ 3 _ _ _ (healthy_init _ _ _ _ _) Hrun).
  assert (Hl : 0 < 3) by lia.
  destruct (copyGraph_healthy succ src ∅ 3 root example_rank example_rank_lt Hl st Hh) as (Hp & _).
  auto.
Defined.
