(* ===== verification/Copy.v ===== *)
(** [copy.go]: copying a tagged graph from a source target to a destination
    target.  The handlers are state-passing functions over a [world] that holds
    the destination, the caching proxy, the status tracker and the state of the
    user's callbacks.  [copyGraph] is executed here in the schedule in which a
    started goroutine runs to completion at once; [Sched] has all schedules. *)

From Stdlib Require Import ZArith Lia.
From S2P Require Import Prelude Errors Descriptor Reader Manifest Storage Proxy Sched.

(** ** Targets *)

(** What a destination may do beyond [content.Storage]: [Tag] of [oras.Target],
    and the optional interfaces that [copy.go] finds by type assertion. *)
Class Target (D : Type) := {
  tg_Tag : OciDescriptor -> string -> M D unit;
  tg_Resolve : string -> D -> result OciDescriptor;
  (* registry.ReferencePusher *)
  tg_PushReference : option (OciDescriptor -> Reader -> string -> M D unit);
  (* registry.Mounter: [Mount] either ends by itself or asks for the content
     ([getContent]) once and goes on with the answer *)
  tg_Mount : option (OciDescriptor -> string -> D ->
    (result unit * D) + (D * (result Reader -> M D unit)))
}.

(** What a source may do beyond [content.ReadOnlyStorage]. *)
Class Source (S : Type) := {
  sc_Resolve : string -> S -> result OciDescriptor;
  (* registry.ReferenceFetcher *)
  sc_FetchReference : option (string -> S -> result (OciDescriptor * Reader))
}.

Record world (S D U : Type) := mkWorld {
  w_dst : D;
  w_proxy : Proxy S;
  w_tracker : gmap Descriptor bool;   (* [true]: the done channel is closed *)
  w_user : U                          (* state of the user's callbacks *)
}.
Arguments mkWorld {S D U}.
Arguments w_dst {S D U}.
Arguments w_proxy {S D U}.
Arguments w_tracker {S D U}.
Arguments w_user {S D U}.

Section Copy.
Context {GD : GoDigest} {MJ : ManifestJSON}.
Context {S D U : Type} `{SS : Storage S} `{SD : Storage D} {TD : Target D} {SR : Source S}.

Notation W := (world S D U).

Definition set_dst (d : D) (w : W) : W := mkWorld d (w_proxy w) (w_tracker w) (w_user w).
Definition set_proxy (p : Proxy S) (w : W) : W := mkWorld (w_dst w) p (w_tracker w) (w_user w).
Definition set_tracker (m : gmap Descriptor bool) (w : W) : W :=
  mkWorld (w_dst w) (w_proxy w) m (w_user w).

Definition on_dst {A} (m : M D A) : M W A := on_part w_dst set_dst m.
Definition on_proxy {A} (m : M (Proxy S) A) : M W A := on_part w_proxy set_proxy m.
Definition on_proxy_b {A} (m : MB (Proxy S) A) : MB W A := on_part_b w_proxy set_proxy m.

(** [CopyGraphOptions] and [CopyOptions]; a nil function is [None]. *)
Record CopyGraphOptions := mkOpts {
  Concurrency : Z;
  MaxMetadataBytes : Z;
  PreCopy : option (OciDescriptor -> M W unit);
  PostCopy : option (OciDescriptor -> M W unit);
  OnCopySkipped : option (OciDescriptor -> M W unit);
  MountFrom : option (OciDescriptor -> M W (list string));
  OnMounted : option (OciDescriptor -> M W unit);
  FindSuccessors : option (OciDescriptor -> M W (list OciDescriptor))
}.

Record CopyOptions := mkCopyOpts {
  co_graph : CopyGraphOptions;
  MapRoot : option (OciDescriptor -> M W OciDescriptor)
}.

Definition defaultConcurrency : Z := 3.
Definition defaultCopyMaxMetadataBytes : Z := 4 * 1024 * 1024.
Definition DefaultCopyGraphOptions : CopyGraphOptions :=
  mkOpts 0 0 None None None None None None.

Definition set_PreCopy (h : option (OciDescriptor -> M W unit)) (o : CopyGraphOptions) :=
  mkOpts (Concurrency o) (MaxMetadataBytes o) h (PostCopy o) (OnCopySkipped o) (MountFrom o)
    (OnMounted o) (FindSuccessors o).
Definition set_PostCopy (h : option (OciDescriptor -> M W unit)) (o : CopyGraphOptions) :=
  mkOpts (Concurrency o) (MaxMetadataBytes o) (PreCopy o) h (OnCopySkipped o) (MountFrom o)
    (OnMounted o) (FindSuccessors o).
Definition set_OnCopySkipped (h : option (OciDescriptor -> M W unit)) (o : CopyGraphOptions) :=
  mkOpts (Concurrency o) (MaxMetadataBytes o) (PreCopy o) (PostCopy o) h (MountFrom o)
    (OnMounted o) (FindSuccessors o).

(** ** Copying one node *)

(** [err != nil && !errors.Is(err, errdef.ErrAlreadyExists)]. *)
Definition allow_exists (op : string) (m : M W unit) : M W unit :=
  fun w =>
    let '(r, w') := m w in
    (match r with
     | Err e => if errors_Is e ErrAlreadyExists then Ok tt
                else Err (ECopy op CopyErrorOriginDestination e)
     | r => r
     end, w').

(** [doCopyNode]; [fetch] is [src.Fetch] of the storage copied from. *)
Definition doCopyNode (fetch : OciDescriptor -> W -> result Reader) (desc : OciDescriptor) : M W unit :=
  rc ← on_err (ECopy "Fetch" CopyErrorOriginSource) (reads (fetch desc));
  allow_exists "Push" (on_dst (st_Push desc rc)).

Definition copyNode (fetch : OciDescriptor -> W -> result Reader) (desc : OciDescriptor)
    (opts : CopyGraphOptions) : M W unit :=
  fun w =>
    match if_set (PreCopy opts) desc w with
    | (Err e, w1) =>
        if decide (e = ESentinel SkipNode) then (Ok tt, w1) else (Err e, w1)
    | (Panic, w1) => (Panic, w1)
    | (Ok _, w1) =>
        (doCopyNode fetch desc ≫= fun _ => if_set (PostCopy opts) desc) w1
    end.

(** [src.Fetch] and [proxy.Cache.Fetch]. *)
Definition fetch_src (desc : OciDescriptor) (w : W) : result Reader :=
  st_Fetch desc (p_Base (w_proxy w)).
Definition fetch_cache (desc : OciDescriptor) (w : W) : result Reader :=
  st_Fetch desc (p_Cache (w_proxy w)).

(** One iteration of the mount loop.  The result is the error of [Mount] and
    whether [getContent] was called ([mountFailed]). *)
Definition try_mount (mount : OciDescriptor -> string -> D ->
      (result unit * D) + (D * (result Reader -> M D unit)))
    (desc : OciDescriptor) (opts : CopyGraphOptions) (repo : string) (last : bool)
    : W -> result unit * bool * W :=
  fun w =>
    match mount desc repo (w_dst w) with
    | inl (r, d') => (r, false, set_dst d' w)
    | inr (d1, k) =>
        let '(content, w2) :=
          (if last
           then if_set (PreCopy opts) desc ≫= fun _ => reads (fetch_src desc)
           else fails (ESentinel skipSource)) (set_dst d1 w) in
        let '(r, w3) := on_dst (k content) w2 in
        (r, true, w3)
    end.

Fixpoint mount_loop (mount : OciDescriptor -> string -> D ->
      (result unit * D) + (D * (result Reader -> M D unit)))
    (desc : OciDescriptor) (opts : CopyGraphOptions) (repos : list string) : M W unit :=
  match repos with
  | [] => if_set (PostCopy opts) desc
  | repo :: repos' => fun w =>
      let '(r, mountFailed, w1) := try_mount mount desc opts repo (bool_decide (repos' = [])) w in
      match r with
      | Panic => (Panic, w1)
      | Err e =>
          if errors_Is e skipSource
          then if (mountFailed : bool) then mount_loop mount desc opts repos' w1
               else if_set (OnMounted opts) desc w1
          else (Err (ECopy "Mount" CopyErrorOriginDestination e), w1)
      | Ok _ =>
          if (mountFailed : bool) then mount_loop mount desc opts repos' w1
          else if_set (OnMounted opts) desc w1
      end
  end.

Definition mountOrCopyNode (desc : OciDescriptor) (opts : CopyGraphOptions) : M W unit :=
  match MountFrom opts, tg_Mount with
  | Some mountFrom, Some mount =>
      if IsManifest desc then copyNode fetch_src desc opts
      else
        sourceRepositories ← mountFrom desc;
        match sourceRepositories with
        | [] => copyNode fetch_src desc opts
        | _ => mount_loop mount desc opts sourceRepositories
        end
  | _, _ => copyNode fetch_src desc opts
  end.

(** The end of [fn] in [copyGraph], once the successors are done. *)
Definition copy_one (desc : OciDescriptor) (opts : CopyGraphOptions) : M W unit :=
  exists_ ← on_err (EWrap ("failed to check cache existence: " +:+ Digest desc))
              (reads (fun w => st_Exists desc (p_Cache (w_proxy w))));
  if (exists_ : bool) then copyNode fetch_cache desc opts else mountOrCopyNode desc opts.

(** ** The traversal *)

(** [content.Successors(ctx, proxy, desc)]: a manifest is fetched through the
    caching proxy, once; a blob is not fetched. *)
Definition proxy_Successors (desc : OciDescriptor) : MB W (list OciDescriptor) :=
  if IsManifest desc
  then content ← on_proxy_b (Proxy_FetchAll desc); returns (reads (fun _ => successors_of desc content))
  else mret [].

Definition findSuccessors (opts : CopyGraphOptions) (desc : OciDescriptor) : MB W (list OciDescriptor) :=
  match FindSuccessors opts with
  | Some f => returns (f desc)
  | None => proxy_Successors desc
  end.

(** [close(done)] on success. *)
Definition close_done (desc : OciDescriptor) (w : W) : W :=
  set_tracker (<[FromOCI desc := true]> (w_tracker w)) w.

(** The loop over the done channels: [None] when it would block. *)
Fixpoint join_successors (desc : OciDescriptor) (successors : list OciDescriptor) (w : W)
    : option (result unit * W) :=
  match successors with
  | [] => Some (Ok tt, w)
  | node :: rest =>
      let (tracker, committed) := TryCommit node (w_tracker w) in
      if committed then
        Some (Err (ENew (Digest desc +:+ ": " +:+ Digest node +:+ ": successor not committed")),
              set_tracker tracker w)
      else if bool_decide (tracker !! FromOCI node = Some true) then join_successors desc rest w
      else None
  end.

(** [syncutil.Go] when each goroutine runs to completion as soon as it is
    started: the first error stops the loop. *)
Fixpoint go_seq (fn : OciDescriptor -> W -> option (result unit * W)) (items : list OciDescriptor)
    (w : W) : option (result unit * W) :=
  match items with
  | [] => Some (Ok tt, w)
  | item :: rest =>
      match fn item w with
      | Some (Ok _, w1) => go_seq fn rest w1
      | r => r
      end
  end.

(** [fn] of [copyGraph]; [None] when the fuel runs out, a channel blocks or the
    caching proxy does. *)
Fixpoint copy_fn (fuel : nat) (opts : CopyGraphOptions) (desc : OciDescriptor) (w : W)
    : option (result unit * W) :=
  match fuel with
  | O => None
  | Datatypes.S fuel' =>
      let (tracker, committed) := TryCommit desc (w_tracker w) in
      if committed then
        let w := set_tracker tracker w in
        let finish (r : result unit * W) : option (result unit * W) :=
          match r with
          | (Ok _, w') => Some (Ok tt, close_done desc w')
          | r => Some r
          end in
        match copy_err "Exists" CopyErrorOriginDestination (st_Exists desc (w_dst w)) with
        | Err e => Some (Err e, w)
        | Panic => Some (Panic, w)
        | Ok true => finish (if_set (OnCopySkipped opts) desc w)
        | Ok false =>
            match on_err_b (ECopy "FindSuccessors" CopyErrorOriginSource) (findSuccessors opts desc) w with
            | None => None
            | Some (Err e, w1) => Some (Err e, w1)
            | Some (Panic, w1) => Some (Panic, w1)
            | Some (Ok successors, w1) =>
                let successors := removeForeignLayers successors in
                match go_seq (copy_fn fuel' opts) successors w1 with
                | Some (Ok _, w2) =>
                    match join_successors desc successors w2 with
                    | Some (Ok _, w3) => finish (copy_one desc opts w3)
                    | r => r
                    end
                | r => r
                end
            end
        end
      else Some (Ok tt, w)
  end.

(** [copyGraph] with the caller's proxy and tracker. *)
Definition copyGraph (fuel : nat) (root : OciDescriptor) (opts : CopyGraphOptions) (w : W)
    : option (result unit * W) :=
  go_seq (copy_fn fuel opts) [root] w.

(** ** [Copy] and [CopyGraph] *)

Definition metadata_limit (opts : CopyGraphOptions) : Z :=
  if decide (MaxMetadataBytes opts <= 0)%Z then defaultCopyMaxMetadataBytes else MaxMetadataBytes opts.

(** A world with a new caching proxy and a new tracker. *)
Definition new_world (src : S) (dst : D) (opts : CopyGraphOptions) (u : U) : W :=
  mkWorld dst (NewProxyWithLimit src cas.NewMemory (metadata_limit opts)) ∅ u.

Definition CopyGraph (fuel : nat) (src : option S) (dst : option D) (root : OciDescriptor)
    (opts : CopyGraphOptions) (u : U) : option (result unit * option W) :=
  match src, dst with
  | None, _ => Some (Err (ECopy "CopyGraph" CopyErrorOriginSource (ENew "nil source target")), None)
  | _, None => Some (Err (ECopy "CopyGraph" CopyErrorOriginDestination (ENew "nil destination target")), None)
  | Some src, Some dst =>
      '(r, w) ← copyGraph fuel root opts (new_world src dst opts u); Some (r, Some w)
  end.

(** [registryutil.Proxy.FetchReference] followed by the use [resolveRoot] makes
    of the reader: read in full when the root is a manifest, closed unread when
    it is a blob. *)
Definition consume_reference (root : OciDescriptor) (rc : Reader) : MB (Proxy S) unit :=
  fun p =>
    match st_Exists root (p_Cache p) with
    | Err e => Some (Err (ECopy "FetchReference" CopyErrorOriginSource e), p)
    | Panic => Some (Panic, p)
    | Ok cached =>
        '(r, p') ←
          (if IsManifest root then
            if (cached : bool) then Some (ReadAll rc root, p) else tee_ReadAll root rc p
          else
            (* the push to the cache sees an empty stream *)
            Some (Ok [], if (cached : bool) then p else
              mkProxy (p_Base p) (st_Push root (bytes_NewReader []) (p_Cache p)).2 (p_StopCaching p)));
        Some (copy_err "Successors" CopyErrorOriginSource
          (content ← r; _ ← successors_of root content; Ok tt), p')
    end.

Definition resolveRoot (srcRef : string) : MB W OciDescriptor :=
  match sc_FetchReference with
  | None =>
      returns (on_err (ECopy "Resolve" CopyErrorOriginSource)
        (reads (fun w => sc_Resolve srcRef (p_Base (w_proxy w)))))
  | Some fetchReference =>
      '(root, rc) ← returns (on_err (ECopy "FetchReference" CopyErrorOriginSource)
                      (reads (fun w => fetchReference srcRef (p_Base (w_proxy w)))));
      _ ← on_proxy_b (consume_reference root rc);
      mret root
  end.

(** [copyCachedNodeWithReference]. *)
Definition copyCachedNodeWithReference (pushReference : OciDescriptor -> Reader -> string -> M D unit)
    (desc : OciDescriptor) (dstRef : string) : M W unit :=
  rc ← on_err (ECopy "Fetch" CopyErrorOriginSource) (reads (fun w => FetchCached desc (w_proxy w)));
  allow_exists "PushReference" (on_dst (pushReference desc rc dstRef)).

Definition tag_root (root : OciDescriptor) (dstRef : string) : M W unit :=
  on_err (ECopy "Tag" CopyErrorOriginDestination) (on_dst (tg_Tag root dstRef)).

(** [prepareCopy]: the callbacks that tag the root, built around the user's. *)
Definition prepareCopy (dstRef : string) (root : OciDescriptor) (opts : CopyGraphOptions)
    : CopyGraphOptions :=
  let opts1 :=
    match tg_PushReference with
    | Some pushReference =>
        let preCopy := PreCopy opts in
        set_PreCopy (Some (fun desc =>
          _ ← if_set preCopy desc;
          if negb (Equal desc root) then mret tt
          else
            _ ← copyCachedNodeWithReference pushReference desc dstRef;
            _ ← if_set (PostCopy opts) desc;
            fails (ESentinel SkipNode))) opts
    | None =>
        let postCopy := PostCopy opts in
        set_PostCopy (Some (fun desc =>
          _ ← (if Equal desc root then tag_root root dstRef else mret tt);
          if_set postCopy desc)) opts
    end in
  let onCopySkipped := OnCopySkipped opts in
  set_OnCopySkipped (Some (fun desc =>
    if negb (Equal desc root) then if_set onCopySkipped desc
    else
      match tg_PushReference with
      | Some pushReference => copyCachedNodeWithReference pushReference desc dstRef
      | None => _ ← if_set onCopySkipped desc; tag_root root dstRef
      end)) opts1.

(** The part of [Copy] before the traversal: the root to copy. *)
Definition select_root (srcRef : string) (opts : CopyOptions) : MB W OciDescriptor :=
  root ← resolveRoot srcRef;
  match MapRoot opts with
  | None => mret root
  | Some mapRoot => returns (
      _ ← on_proxy (fun p => (Ok tt, set_StopCaching true p));
      root' ← on_err (ECopy "MapRoot" CopyErrorOriginSource) (mapRoot root);
      _ ← on_proxy (fun p => (Ok tt, set_StopCaching false p));
      mret root')
  end.

(** [Copy]; [None] when it does not return, or the fuel runs out. *)
Definition Copy (fuel : nat) (src : option S) (srcRef : string) (dst : option D) (dstRef : string)
    (opts : CopyOptions) (u : U) : option (result OciDescriptor * option W) :=
  match src, dst with
  | None, _ => Some (Err (ECopy "Copy" CopyErrorOriginSource (ENew "nil source target")), None)
  | _, None => Some (Err (ECopy "Copy" CopyErrorOriginDestination (ENew "nil destination target")), None)
  | Some src, Some dst =>
      let dstRef := if decide (dstRef = EmptyString) then srcRef else dstRef in
      match select_root srcRef opts (new_world src dst (co_graph opts) u) with
      | None => None
      | Some (Err e, w) => Some (Err e, Some w)
      | Some (Panic, w) => Some (Panic, Some w)
      | Some (Ok root, w) =>
          match copyGraph fuel root (prepareCopy dstRef root (co_graph opts)) w with
          | Some (Ok _, w') => Some (Ok root, Some w')
          | Some (Err e, w') => Some (Err e, Some w')
          | Some (Panic, w') => Some (Panic, Some w')
          | None => None
          end
      end
  end.

End Copy.
