(* ===== verification/CopyCorrect.v ===== *)
(** Correctness of [Copy] ([copy.go]) against the promises of the destination:
    a nil error means that the graph is stored, as far as the destination did not
    already hold a node of it, and that the reference resolves to the root; where a
    copy leaves a destination incomplete, and where it blocks. *)

From Stdlib Require Import ZArith Lia.
From S2P Require Import Prelude Errors Descriptor Reader Manifest Storage Proxy Sched Copy.

(** The nodes that storing [d] may store: [d] itself and, in a destination that
    finds blobs by their digest alone, the blobs of that digest. *)
Definition leaf (k : Descriptor) : Prop := forall d, FromOCI d = k -> IsManifest d = false.
Definition same_node (d : OciDescriptor) (k : Descriptor) : Prop :=
  k = FromOCI d \/ (kDigest k = Digest d /\ leaf k).

(** What a destination of a copy promises.  It may be less than [StorageLaws]: when
    it finds content by the digest alone, [Exists] tells nothing about a descriptor
    whose size or media type is not the one of the content, that is, that is not
    [proper]. *)
Class DestLaws (D : Type) {GD : GoDigest} {SD : Storage D}
    (inv : D -> Prop) (view : D -> Descriptor -> option bytes) (proper : Descriptor -> Prop) := {
  dest_inv : forall d r s, inv s -> inv (st_Push d r s).2;
  dest_mono : forall d r s k c, inv s -> view s k = Some c -> view (st_Push d r s).2 k = Some c;
  dest_only : forall d r s k, inv s -> is_Some (view (st_Push d r s).2 k) ->
    is_Some (view s k) \/ same_node d k;
  dest_ok : forall d r s s', inv s -> st_Push d r s = (Ok tt, s') -> is_Some (view s' (FromOCI d));
  dest_already : forall d r s e s', inv s -> clean r -> st_Push d r s = (Err e, s') ->
    errors_Is e ErrAlreadyExists = true -> is_Some (view s' (FromOCI d));
  dest_exists : forall d s, inv s -> st_Exists d s = Ok true -> proper (FromOCI d) ->
    is_Some (view s (FromOCI d))
}.

#[global] Instance StorageLaws_dest (D : Type) {GD : GoDigest} {SD : Storage D} inv view
    {SL : StorageLaws D inv view} : DestLaws D inv view (fun _ => True).
Proof.
  split.
  - apply push_inv.
  - apply push_mono.
  - intros d r s k Hi [c Hk]. destruct (push_verified d r s k c Hi Hk) as [?|[-> _]]; [eauto|by right; left].
  - intros d r s s' Hi Hp. apply push_ok in Hp as (c & _ & _ & ?); eauto.
  - apply push_exists.
  - intros d s Hi He _. apply exists_view in He; [|done]. symmetry in He. by apply bool_decide_eq_true in He.
Qed.

(** What a destination promises about references and mounts.  [inv], [view] and
    [proper] are those of its [DestLaws]; [taggable k ref]: the destination files
    the content of [k] under the digest of [k] when it is given the reference. *)
Class TargetLaws (D : Type) {GD : GoDigest} {SD : Storage D} {TD : Target D}
    (inv : D -> Prop) (view : D -> Descriptor -> option bytes) (proper : Descriptor -> Prop)
    (taggable : Descriptor -> string -> Prop) := {
  (* tagging changes no content *)
  tag_keeps : forall d ref s, taggable (FromOCI d) ref -> inv s ->
    inv (tg_Tag d ref s).2 /\ (forall k, view (tg_Tag d ref s).2 k = view s k);
  tag_resolve : forall d ref s s', taggable (FromOCI d) ref -> inv s -> tg_Tag d ref s = (Ok tt, s') ->
    exists d', tg_Resolve ref s' = Ok d' /\ FromOCI d' = FromOCI d;
  (* a push with a reference stores at most the node and tags it *)
  pushref_keeps : forall pr d r ref s, tg_PushReference = Some pr -> taggable (FromOCI d) ref -> inv s ->
    let s' := (pr d r ref s).2 in
    inv s' /\ (forall k c, view s k = Some c -> view s' k = Some c)
    /\ (forall k, is_Some (view s' k) -> is_Some (view s k) \/ same_node d k);
  pushref_err : forall pr d r ref s e s', tg_PushReference = Some pr -> taggable (FromOCI d) ref -> inv s -> clean r ->
    pr d r ref s = (Err e, s') -> errors_Is e skipSource = false;
  pushref_ok : forall pr d r ref s res s', tg_PushReference = Some pr -> taggable (FromOCI d) ref -> inv s ->
    pr d r ref s = (res, s') ->
    match res with Ok _ => True | Err e => clean r /\ errors_Is e ErrAlreadyExists = true | Panic => False end ->
    is_Some (view s' (FromOCI d))
    /\ exists d', tg_Resolve ref s' = Ok d' /\ FromOCI d' = FromOCI d;
  (* a mount stores at most the node, which is a blob; [getContent] errors are reported *)
  mount_keeps : forall mt d repo s, tg_Mount = Some mt -> IsManifest d = false -> inv s ->
    match mt d repo s with
    | inl (res, s') =>
        inv s' /\ (forall k c, view s k = Some c -> view s' k = Some c)
        /\ (forall k, is_Some (view s' k) -> is_Some (view s k) \/ same_node d k)
        /\ match res with
           | Ok _ => proper (FromOCI d) -> is_Some (view s' (FromOCI d))
           | Err e => errors_Is e skipSource = false
           | Panic => True
           end
    | inr (s1, cont) =>
        inv s1 /\ (forall k, view s1 k = view s k)
        /\ forall content s2, inv s2 ->
             let '(res, s') := cont content s2 in
             inv s' /\ (forall k c, view s2 k = Some c -> view s' k = Some c)
             /\ (forall k, is_Some (view s' k) -> is_Some (view s2 k) \/ same_node d k)
             /\ match res with
                | Ok _ => proper (FromOCI d) -> is_Some (view s' (FromOCI d))
                | Err e => errors_Is e skipSource = true -> (forall rc, content = Ok rc -> clean rc) ->
                           exists e', content = Err e' /\ errors_Is e' skipSource = true
                | Panic => True
                end
    end
}.

Section Correct.
Context {GD : GoDigest} {MJ : ManifestJSON}.
Context {S D U : Type} `{SS : Storage S} `{SD : Storage D} {TD : Target D} {SR : Source S}.
Context (inv : D -> Prop) (view : D -> Descriptor -> option bytes) (proper : Descriptor -> Prop).
Context (taggable : Descriptor -> string -> Prop).
Context `{DL : !DestLaws D inv view proper} `{TL : !TargetLaws D inv view proper taggable}.
Context (inv_s : S -> Prop) (view_s : S -> Descriptor -> option bytes).
Context `{SSL : !StorageLaws S inv_s view_s}.
(** [skipSource] is local to [mountOrCopyNode]: no storage returns it. *)
Context (Hskip : forall d (s : S) e, st_Fetch d s = Err e -> errors_Is e skipSource = false).
Notation W := (world S D U).
Notation stored := (fun (w : W) k => is_Some (view (w_dst w) k)).

(** A call that adds at most the node [d] to the destination and leaves the
    proxy and the tracker alone. *)
Record adds (d : OciDescriptor) (w w' : W) : Prop := mkAdds {
  ad_inv : inv (w_dst w) -> inv (w_dst w');
  ad_mono : inv (w_dst w) -> forall k c, view (w_dst w) k = Some c -> view (w_dst w') k = Some c;
  ad_only : inv (w_dst w) -> forall k, stored w' k -> stored w k \/ same_node d k;
  ad_proxy : w_proxy w' = w_proxy w;
  ad_tracker : w_tracker w' = w_tracker w
}.

Lemma adds_refl d w : adds d w w.
Proof. by split; auto. Qed.

Lemma adds_trans d w1 w2 w3 : adds d w1 w2 -> adds d w2 w3 -> adds d w1 w3.
Proof.
  intros [I1 M1 O1 P1 T1] [I2 M2 O2 P2 T2]. split; [auto|auto| |congruence|congruence].
  intros Hi k Hk. destruct (O2 (I1 Hi) k Hk); auto.
Qed.

(** The contract of a callback. *)
Definition hook_ok {A} (h : OciDescriptor -> M W A) : Prop := forall d w, adds d w (h d w).2.

Lemma adds_bind {A B} d (m : M W A) (f : A -> M W B) w :
  adds d w (m w).2 -> (forall a w1, m w = (Ok a, w1) -> adds d w1 (f a w1).2) ->
  adds d w ((m ≫= f) w).2.
Proof.
  intros Hm Hf. unfold mbind, M_bind. destruct (m w) as [[a|e|] w1] eqn:E; try done.
  eapply adds_trans; [done|]. by apply Hf.
Qed.

Lemma adds_if_set d (h : option (OciDescriptor -> M W unit)) w :
  (forall f, h = Some f -> hook_ok f) -> adds d w (if_set h d w).2.
Proof. intros Hh. destruct h as [f|]; simpl; [by apply Hh|apply adds_refl]. Qed.

Lemma adds_push d r w : adds d w (on_dst (st_Push d r) w).2.
Proof.
  unfold on_dst, on_part. destruct (st_Push d r (w_dst w)) as [res s'] eqn:HP. simpl.
  split; simpl; try done; intros Hi.
  - pose proof (dest_inv d r (w_dst w) Hi) as H. by rewrite HP in H.
  - intros k c Hk. pose proof (dest_mono d r (w_dst w) k c Hi Hk) as H. by rewrite HP in H.
  - intros k Hk. pose proof (dest_only d r (w_dst w) k Hi) as H. rewrite HP in H. by apply H.
Qed.

(** ** One node *)

Definition src_ok (w : W) : Prop := inv_s (p_Base (w_proxy w)).

Lemma adds_src_ok d w w' : adds d w w' -> src_ok w -> src_ok w'.
Proof. intros [_ _ _ HP _]. unfold src_ok. by rewrite HP. Qed.

Definition fetch_clean (fetch : OciDescriptor -> W -> result Reader) : Prop :=
  forall d w r, src_ok w -> fetch d w = Ok r -> clean r.

Lemma fetch_src_clean : fetch_clean fetch_src.
Proof.
  intros d w r Hs Hf. unfold src_ok in Hs. unfold fetch_src in Hf.
  by apply (fetch_view d (p_Base (w_proxy w)) r Hs) in Hf as (c & _ & _ & ?).
Qed.

Lemma fetch_cache_clean : fetch_clean fetch_cache.
Proof.
  intros d w r _. unfold fetch_cache. rewrite cache_Fetch. destruct (cached _ _) as [c|]; [|done].
  intros [= <-]. by destruct (bytes_NewReader_spec c).
Qed.

Lemma adds_allow_exists op d (m : M W unit) w : adds d w (m w).2 -> adds d w (allow_exists op m w).2.
Proof. unfold allow_exists. by destruct (m w). Qed.

Lemma adds_doCopyNode fetch d w : adds d w (doCopyNode fetch d w).2.
Proof.
  unfold doCopyNode. apply adds_bind.
  - unfold on_err, reads. apply adds_refl.
  - intros rc w1 _. apply adds_allow_exists, adds_push.
Qed.

Lemma doCopyNode_ok fetch d w w' :
  fetch_clean fetch -> src_ok w -> inv (w_dst w) ->
  doCopyNode fetch d w = (Ok tt, w') -> stored w' (FromOCI d).
Proof.
  intros Hcl Hs Hi. unfold doCopyNode. rewrite M_bind_Ok. intros (rc & w1 & Hf & Hp).
  apply on_err_Ok in Hf. unfold reads in Hf. injection Hf as Hf <-.
  unfold allow_exists, on_dst, on_part in Hp.
  destruct (st_Push d rc (w_dst w)) as [[[]|e|] s'] eqn:HP; simplify_eq/=.
  - by apply dest_ok in HP.
  - destruct (errors_Is e ErrAlreadyExists) eqn:He; simplify_eq/=.
    eapply dest_already; [done| |done..]. by eapply Hcl.
Qed.

(** What [copyGraph] requires of the callbacks. *)
Record opts_ok (opts : CopyGraphOptions) : Prop := {
  oo_pre : forall h, PreCopy opts = Some h -> hook_ok h;
  oo_pre_skip : forall h d w w', PreCopy opts = Some h -> src_ok w -> inv (w_dst w) ->
    h d w = (Err (ESentinel SkipNode), w') -> stored w' (FromOCI d);
  oo_pre_err : forall h d w e w', PreCopy opts = Some h -> src_ok w -> inv (w_dst w) ->
    h d w = (Err e, w') -> errors_Is e skipSource = false;
  oo_post : forall h, PostCopy opts = Some h -> hook_ok h;
  oo_skipped : forall h, OnCopySkipped opts = Some h -> hook_ok h;
  oo_mounted : forall h, OnMounted opts = Some h -> hook_ok h;
  oo_mountFrom : forall h, MountFrom opts = Some h -> hook_ok h
}.

Section Node.
Context (opts : CopyGraphOptions) (Hopts : opts_ok opts).

Lemma adds_copyNode fetch d w : adds d w (copyNode fetch d opts w).2.
Proof.
  unfold copyNode. pose proof (adds_if_set d (PreCopy opts) w (oo_pre _ Hopts)) as Hpre.
  destruct (if_set (PreCopy opts) d w) as [[[]|e|] w1]; simpl in Hpre; [| |done].
  - eapply adds_trans; [done|]. apply adds_bind; [apply adds_doCopyNode|].
    intros _ w2 _. apply adds_if_set, (oo_post _ Hopts).
  - by case_decide.
Qed.

Lemma copyNode_ok fetch d w w' :
  fetch_clean fetch -> src_ok w -> inv (w_dst w) ->
  copyNode fetch d opts w = (Ok tt, w') -> stored w' (FromOCI d).
Proof.
  intros Hcl Hs Hi. unfold copyNode.
  pose proof (adds_if_set d (PreCopy opts) w (oo_pre _ Hopts)) as Hpre.
  destruct (if_set (PreCopy opts) d w) as [[[]|e|] w1] eqn:HP; simpl in Hpre; [| |done].
  - rewrite M_bind_Ok. intros ([] & w2 & Hd & Hpost).
    pose proof (adds_doCopyNode fetch d w1) as Hadd. rewrite Hd in Hadd. simpl in Hadd.
    apply doCopyNode_ok in Hd as [c Hc]; [|done|by eapply adds_src_ok|by apply Hpre].
    pose proof (adds_if_set d (PostCopy opts) w2 (oo_post _ Hopts)) as Hp. rewrite Hpost in Hp. simpl in Hp.
    exists c. apply Hp; [|done]. apply Hadd, Hpre, Hi.
  - case_decide as He; [|done]. intros [= <-]. subst e.
    destruct (PreCopy opts) as [h|] eqn:Hh; [|done]. by eapply (oo_pre_skip _ Hopts).
Qed.

(** *** Mounting *)

(** The answer of [getContent]. *)
Definition getContent (d : OciDescriptor) (last : bool) : M W Reader :=
  if last then if_set (PreCopy opts) d ≫= fun _ => reads (fetch_src d)
  else fails (ESentinel skipSource).

Lemma adds_getContent d last w : adds d w (getContent d last w).2.
Proof.
  unfold getContent. destruct last; [|apply adds_refl]. apply adds_bind.
  - apply adds_if_set, (oo_pre _ Hopts).
  - intros _ w1 _. apply adds_refl.
Qed.

Lemma getContent_err d w e w' :
  src_ok w -> inv (w_dst w) -> getContent d true w = (Err e, w') -> errors_Is e skipSource = false.
Proof.
  intros Hs Hi. unfold getContent, mbind, M_bind. destruct (if_set (PreCopy opts) d w) as [[[]|e'|] w1] eqn:HP.
  - unfold reads. intros [= Hf _]. by eapply Hskip.
  - intros [= <- _]. destruct (PreCopy opts) as [h|] eqn:Hh; [|done]. by eapply (oo_pre_err _ Hopts).
  - done.
Qed.

Lemma getContent_clean d last w rc w' : src_ok w -> getContent d last w = (Ok rc, w') -> clean rc.
Proof.
  intros Hs. unfold getContent. destruct last; [|done]. rewrite M_bind_Ok. intros ([] & w1 & Hp & Hf).
  pose proof (adds_if_set d (PreCopy opts) w (oo_pre _ Hopts)) as Hpre. rewrite Hp in Hpre. simpl in Hpre.
  unfold reads in Hf. injection Hf as Hf <-. eapply fetch_src_clean; [|done]. by eapply adds_src_ok.
Qed.

(** One attempt to mount: it adds at most the node; success means the node is
    stored, and on the last attempt "skip source" is not an outcome. *)
Lemma try_mount_spec mt d repo last w r failed w' :
  tg_Mount = Some mt -> IsManifest d = false -> try_mount mt d opts repo last w = (r, failed, w') ->
  adds d w w' /\ (src_ok w -> inv (w_dst w) -> match r with
    | Ok _ => proper (FromOCI d) -> stored w' (FromOCI d)
    | Err e => errors_Is e skipSource = true -> failed = true /\ last = false
    | Panic => True
    end).
Proof.
  intros Hmt Hblob. unfold try_mount. destruct (mt d repo (w_dst w)) as [[res s']|[s1 cont]] eqn:HM.
  - intros [= <- <- <-]. split; [split; simpl; try done; intros Hi|simpl; intros _ Hi];
      pose proof (mount_keeps mt d repo (w_dst w) Hmt Hblob Hi) as HK; rewrite HM in HK; try apply HK.
    destruct res as [|e|]; try done; [apply HK|]. intros He. destruct HK as (_ & _ & _ & HK). congruence.
  - fold (getContent d last). destruct (getContent d last (set_dst s1 w)) as [content w2] eqn:HG.
    pose proof (adds_getContent d last (set_dst s1 w)) as HA. rewrite HG in HA. simpl in HA.
    unfold on_dst, on_part. destruct (cont content (w_dst w2)) as [res s'] eqn:HC. intros [= <- <- <-].
    assert (H1 : adds d w (set_dst s1 w)).
    { split; simpl; try done; intros Hi; pose proof (mount_keeps mt d repo (w_dst w) Hmt Hblob Hi) as HK;
        rewrite HM in HK; destruct HK as (HK1 & HK2 & _); [done|intros; by rewrite HK2|].
      intros k. rewrite HK2. auto. }
    pose proof (adds_trans _ _ _ _ H1 HA) as H2.
    assert (HK : inv (w_dst w) ->
             inv s' /\ (forall k c, view (w_dst w2) k = Some c -> view s' k = Some c)
             /\ (forall k, is_Some (view s' k) -> is_Some (view (w_dst w2) k) \/ same_node d k)
             /\ match res with
                | Ok _ => proper (FromOCI d) -> is_Some (view s' (FromOCI d))
                | Err e => errors_Is e skipSource = true -> (forall rc, content = Ok rc -> clean rc) ->
                           exists e', content = Err e' /\ errors_Is e' skipSource = true
                | Panic => True
                end).
    { intros Hi. pose proof (mount_keeps mt d repo (w_dst w) Hmt Hblob Hi) as HK. rewrite HM in HK.
      destruct HK as (_ & _ & HK). specialize (HK content (w_dst w2) (ad_inv _ _ _ H2 Hi)).
      by rewrite HC in HK. }
    split.
    + split; simpl; try apply H2; intros Hi; destruct (HK Hi) as (K1 & K2 & K3 & _); [done| |].
      * intros k c Hk. by apply K2, H2.
      * intros k Hk. destruct (K3 k Hk) as [?|?]; [by apply H2|by right].
    + intros Hs Hi. destruct (HK Hi) as (_ & _ & _ & K4). destruct res as [|e|]; try done.
      intros He. destruct (K4 He) as (e' & -> & He').
      { intros rc ->. by eapply getContent_clean in HG. }
      split; [done|]. destruct last; [|done]. apply getContent_err in HG; [congruence|done|]. by apply H1.
Qed.

Lemma adds_mount_loop mt d repos : tg_Mount = Some mt -> IsManifest d = false ->
  forall w, adds d w (mount_loop mt d opts repos w).2.
Proof.
  intros Hmt Hblob. induction repos as [|repo repos IH]; intros w; simpl.
  { apply adds_if_set, (oo_post _ Hopts). }
  destruct (try_mount _ _ _ _ _ _) as [[r failed] w1] eqn:HT.
  destruct (try_mount_spec _ _ _ _ _ _ _ _ Hmt Hblob HT) as [HA _].
  assert (Hrest : adds d w (if (failed : bool) then mount_loop mt d opts repos w1
                            else if_set (OnMounted opts) d w1).2).
  { eapply adds_trans; [done|]. destruct failed; [apply IH|]. apply adds_if_set, (oo_mounted _ Hopts). }
  destruct r as [|e|]; [done| |done]. by destruct (errors_Is e skipSource).
Qed.

Lemma mount_loop_ok mt d repos : tg_Mount = Some mt -> IsManifest d = false -> repos <> [] ->
  forall w w', src_ok w -> inv (w_dst w) -> mount_loop mt d opts repos w = (Ok tt, w') ->
  proper (FromOCI d) -> stored w' (FromOCI d).
Proof.
  intros Hmt Hblob. induction repos as [|repo repos IH]; intros Hne w w' Hs Hi Hloop Hprop; [done|]. simpl in Hloop.
  destruct (try_mount _ _ _ _ _ _) as [[r failed] w1] eqn:HT.
  destruct (try_mount_spec _ _ _ _ _ _ _ _ Hmt Hblob HT) as [HA HR]. specialize (HR Hs Hi).
  assert (src_ok w1) as Hs1 by (by eapply adds_src_ok).
  assert (Hkeep : forall h, (forall f, h = Some f -> hook_ok f) -> stored w1 (FromOCI d) ->
    if_set h d w1 = (Ok tt, w') -> stored w' (FromOCI d)).
  { intros h Hh [c Hc] E. pose proof (adds_if_set d h w1 Hh) as Hp. rewrite E in Hp. simpl in Hp.
    exists c. apply Hp; [by apply HA|done]. }
  assert (Hdone : repos = [] -> failed = true -> mount_loop mt d opts repos w1 = (Ok tt, w') ->
    stored w1 (FromOCI d) -> stored w' (FromOCI d)).
  { intros -> _ E Hst. eapply Hkeep; [apply (oo_post _ Hopts)|done|done]. }
  destruct r as [[]|e|]; [| |done].
  - specialize (HR Hprop). destruct failed; [|eapply Hkeep; [apply (oo_mounted _ Hopts)|done|done]].
    destruct repos as [|repo' repos']; [by apply Hdone|].
    eapply IH; [done|done|by apply HA|done..].
  - destruct (errors_Is e skipSource) eqn:He; [|done]. destruct (HR eq_refl) as [-> Hl].
    destruct repos as [|repo' repos']; [by rewrite bool_decide_true in Hl|].
    eapply IH; [done|done|by apply HA|done..].
Qed.

Lemma adds_mountOrCopyNode d w : adds d w (mountOrCopyNode d opts w).2.
Proof.
  unfold mountOrCopyNode. destruct (MountFrom opts) as [mf|] eqn:Hmf; [|apply adds_copyNode].
  destruct tg_Mount as [mt|] eqn:Hmt; [|apply adds_copyNode].
  destruct (IsManifest d) eqn:Hblob; [apply adds_copyNode|]. apply adds_bind; [by apply (oo_mountFrom _ Hopts)|].
  intros [|repo repos] w1 _; [apply adds_copyNode|by apply adds_mount_loop].
Qed.

Lemma mountOrCopyNode_ok d w w' : src_ok w -> inv (w_dst w) ->
  mountOrCopyNode d opts w = (Ok tt, w') -> proper (FromOCI d) -> stored w' (FromOCI d).
Proof.
  intros Hs Hi Hm Hprop. revert Hm. pose proof (copyNode_ok fetch_src d w w' fetch_src_clean Hs Hi) as Hcopy.
  unfold mountOrCopyNode. destruct (MountFrom opts) as [mf|] eqn:Hmf; [|done].
  destruct tg_Mount as [mt|] eqn:Hmt; [|done]. destruct (IsManifest d) eqn:Hblob; [done|].
  rewrite M_bind_Ok. intros (repos & w1 & Hrep & Hrest).
  pose proof (oo_mountFrom _ Hopts mf Hmf d w) as HA. rewrite Hrep in HA. simpl in HA.
  destruct repos as [|repo repos].
  - eapply copyNode_ok; [apply fetch_src_clean|by eapply adds_src_ok|by apply HA|done].
  - eapply (mount_loop_ok mt d (repo :: repos) Hmt Hblob); [done|by eapply adds_src_ok|by apply HA|done..].
Qed.

(** [copy_one] refines the copy step of the concurrent model: it adds at most
    the node, and when it succeeds the node is stored. *)
Lemma adds_copy_one d w : adds d w (copy_one d opts w).2.
Proof.
  unfold copy_one. apply adds_bind.
  - unfold on_err, reads. apply adds_refl.
  - intros [] w1 _; [apply adds_copyNode|apply adds_mountOrCopyNode].
Qed.

Lemma copy_one_ok d w w' : src_ok w -> inv (w_dst w) ->
  copy_one d opts w = (Ok tt, w') -> proper (FromOCI d) -> stored w' (FromOCI d).
Proof.
  intros Hs Hi. unfold copy_one. rewrite M_bind_Ok. intros (b & w1 & Hb & Hrest) Hprop.
  apply on_err_Ok in Hb. unfold reads in Hb. injection Hb as _ <-. destruct b.
  - by eapply copyNode_ok; [apply fetch_cache_clean|..].
  - by eapply mountOrCopyNode_ok.
Qed.

End Node.
(** ** The graph *)

(** Collision resistance: a descriptor verifies at most one content. *)
Context (Hcr : forall d c c', verified d c -> verified d c' -> c = c').

(** [b] is a successor of [a] that is copied, as read from verified content. *)
Definition link (a b : Descriptor) : Prop :=
  exists d c l s, FromOCI d = a /\ IsManifest d = true /\ verified d c
    /\ successors_of d c = Ok l /\ s ∈ removeForeignLayers l /\ FromOCI s = b.

Lemma verified_key d d' c : FromOCI d = FromOCI d' -> verified d c -> verified d' c.
Proof. intros [= Hm Hd Hs]. unfold verified. by rewrite Hd, Hs. Qed.

Lemma successors_of_key d d' c : FromOCI d = FromOCI d' -> successors_of d c = successors_of d' c.
Proof. intros Hk. unfold successors_of. by apply Successors_key. Qed.

Lemma Proxy_FetchAll_verified d (p p' : Proxy S) c :
  Proxy_FetchAll d p = Some (Ok c, p') -> verified d c.
Proof.
  intros HF. apply Proxy_FetchAll_result in HF as [_ [[r' Hr]|?]]; [|done].
  symmetry in Hr. by apply ReadAll_verified in Hr as [? _].
Qed.

(** The successors of a manifest are read from content that was verified. *)
Lemma proxy_Successors_Ok d (w : W) l w' :
  proxy_Successors d w = Some (Ok l, w') ->
  (IsManifest d = false /\ l = [])
  \/ (IsManifest d = true /\ exists c, verified d c /\ successors_of d c = Ok l).
Proof.
  unfold proxy_Successors. destruct (IsManifest d); [|intros [= <- _]; by left].
  rewrite MB_bind_Ok. intros (c & w1 & Hf & Hl). right. split; [done|]. exists c.
  unfold returns, reads in Hl. injection Hl as Hl _. split; [|done].
  unfold on_proxy_b, on_part_b in Hf.
  destruct (Proxy_FetchAll d (w_proxy w)) as [[r p']|] eqn:HF; [|done]. simpl in Hf. injection Hf as -> _.
  by eapply Proxy_FetchAll_verified.
Qed.

(** The successors the traversal finds are the links of the node. *)
Lemma proxy_Successors_ok d (w : W) l w' :
  proxy_Successors d w = Some (Ok l, w') ->
  forall b, link (FromOCI d) b -> exists s, s ∈ removeForeignLayers l /\ FromOCI s = b.
Proof.
  intros Hp b (d' & c & l' & s & Hk & Hm & Hv & Hs & Hin & <-).
  apply proxy_Successors_Ok in Hp as [[Hm' _]|(_ & c' & Hv' & Hl)].
  { rewrite (IsManifest_key d d') in Hm' by done. by rewrite Hm in Hm'. }
  assert (c' = c) as -> by exact (Hcr _ _ _ Hv' (verified_key _ _ _ Hk Hv)).
  rewrite (successors_of_key d d') in Hl by done.
  assert (l = l') as -> by congruence. eauto.
Qed.

(** The traversal does not touch the destination or the tracker when it looks
    for successors. *)
Lemma proxy_Successors_frame d (w : W) r w' :
  proxy_Successors d w = Some (r, w') ->
  w_dst w' = w_dst w /\ w_tracker w' = w_tracker w /\ p_Base (w_proxy w') = p_Base (w_proxy w).
Proof.
  unfold proxy_Successors. destruct (IsManifest d); [|by intros [= _ <-]].
  unfold mbind, MB_bind, on_proxy_b, on_part_b.
  destruct (Proxy_FetchAll d (w_proxy w)) as [[rf p']|] eqn:HF; [|done]. simpl.
  apply Proxy_FetchAll_result in HF as [Hb _]. by destruct rf; intros [= _ <-].
Qed.

(** A source that delivers no data after the content of a manifest. *)
Definition exact_source : Prop := forall d (s : S) r, inv_s s -> IsManifest d = true ->
  st_Fetch d s = Ok r -> length (content r) <= Z.to_nat (Size d).

Lemma proxy_Successors_returns d (w : W) :
  exact_source -> src_ok w -> is_Some (proxy_Successors d w).
Proof.
  intros Hex Hs. unfold proxy_Successors. destruct (IsManifest d) eqn:Hm; [|by eexists].
  unfold mbind, MB_bind, on_proxy_b, on_part_b, Proxy_FetchAll.
  assert (Htee : forall rc, st_Fetch d (p_Base (w_proxy w)) = Ok rc ->
    is_Some (tee_ReadAll d rc (w_proxy w))) by (intros rc Hrc; by eapply tee_ReadAll_returns, Hex).
  destruct (Fetch d (w_proxy w)) as [[rc|rc]|e|] eqn:HF; simpl; [by destruct (ReadAll rc d); eexists| |by eexists..].
  destruct (Htee rc) as [[r p'] ->]; [|by destruct r; simpl; eexists].
  unfold Fetch in HF. destruct (p_StopCaching (w_proxy w)).
  - by destruct (FetchCached d (w_proxy w)).
  - destruct (st_Fetch d (p_Cache (w_proxy w))); [done|..]; by destruct (st_Fetch d (p_Base (w_proxy w))); simplify_eq/=.
Qed.

(** ** The traversal *)

Section Old.
(** The nodes the destination had before the copy: their successors may be missing. *)
Context (old : Descriptor -> Prop).

Record copy_inv (w : W) : Prop := {
  ci_inv : inv (w_dst w);
  ci_src : src_ok w;
  ci_closed : forall a b, stored w a -> ~ old a -> link a b -> proper a -> proper b -> stored w b;
  ci_done : forall k, w_tracker w !! k = Some true -> proper k -> stored w k
}.

(** What only grows. *)
Record grew (w w' : W) : Prop := {
  gw_view : forall k c, view (w_dst w) k = Some c -> view (w_dst w') k = Some c;
  gw_tracker : forall k, is_Some (w_tracker w !! k) -> is_Some (w_tracker w' !! k);
  gw_done : forall k, w_tracker w !! k = Some true -> w_tracker w' !! k = Some true
}.

Lemma grew_refl w : grew w w.
Proof. by split. Qed.
Lemma grew_trans w1 w2 w3 : grew w1 w2 -> grew w2 w3 -> grew w1 w3.
Proof. intros [] []. split; auto. Qed.

(** A world that differs from one satisfying the invariant by entries of the
    tracker that are not done, or by the proxy's cache. *)
Lemma copy_inv_quiet w w' :
  copy_inv w -> w_dst w' = w_dst w -> p_Base (w_proxy w') = p_Base (w_proxy w) ->
  (forall k, w_tracker w' !! k = Some true -> w_tracker w !! k = Some true) -> copy_inv w'.
Proof.
  intros [H1 H2 H3 H4] Hd Hb Ht. split; rewrite ?Hd; auto.
  unfold src_ok. by rewrite Hb.
Qed.

(** A callback or a copy of the node [d] whose successors are all stored. *)
Lemma copy_inv_adds d w w' :
  copy_inv w -> adds d w w' ->
  (~ old (FromOCI d) -> forall b, link (FromOCI d) b -> proper (FromOCI d) -> proper b -> stored w b) ->
  copy_inv w' /\ grew w w'.
Proof.
  intros [H1 H2 H3 H4] HA Hch. pose proof (ad_mono _ _ _ HA H1) as Hm.
  assert (Hst : forall k, stored w k -> stored w' k) by (intros k [c Hc]; eauto).
  split; split.
  - by apply HA.
  - by eapply adds_src_ok.
  - intros a b Ha Hold Hl Hpa Hb. apply Hst. destruct (ad_only _ _ _ HA H1 a Ha) as [?|[-> |[_ Hleaf]]]; [by eapply H3|by apply Hch|].
    destruct Hl as (d' & c & l & s & Hk & Hm' & _). rewrite (Hleaf d' Hk) in Hm'. done.
  - intros k. rewrite (ad_tracker _ _ _ HA). auto.
  - done.
  - by rewrite (ad_tracker _ _ _ HA).
  - by rewrite (ad_tracker _ _ _ HA).
Qed.

Lemma copy_inv_close d w :
  copy_inv w -> (proper (FromOCI d) -> stored w (FromOCI d)) -> copy_inv (close_done d w) /\ grew w (close_done d w).
Proof.
  intros [H1 H2 H3 H4] Hd. split; split; try done; simpl.
  - intros k. rewrite lookup_insert. case_decide; [by subst|apply H4].
  - intros k. rewrite lookup_insert_is_Some. destruct (decide (FromOCI d = k)); auto.
  - intros k. rewrite lookup_insert. by case_decide.
Qed.

(** What a call of [fn] on a node establishes. *)
Definition fn_spec (d : OciDescriptor) (w : W) (r : result unit) (w' : W) : Prop :=
  copy_inv w' /\ grew w w'
  /\ (r = Ok tt -> is_Some (w_tracker w' !! FromOCI d)
      /\ (w_tracker w !! FromOCI d = None -> w_tracker w' !! FromOCI d = Some true)).

(** The committed part of [fn] ends with an error, or with the node stored and
    its done channel closed. *)
Lemma fn_spec_err d w wa (ra : result unit) : copy_inv wa -> grew w wa -> ra <> Ok tt -> fn_spec d w ra wa.
Proof. intros Ha Hga Hne. by split_and!. Qed.

Lemma fn_spec_finish d w wa (rb : result unit) wb r w' :
  copy_inv wa -> grew w wa -> adds d wa wb ->
  (~ old (FromOCI d) -> forall b, link (FromOCI d) b -> proper (FromOCI d) -> proper b -> stored wa b) ->
  (rb = Ok tt -> proper (FromOCI d) -> stored wb (FromOCI d)) ->
  match rb with Ok _ => Some (Ok tt, close_done d wb) | _ => Some (rb, wb) end = Some (r, w') ->
  fn_spec d w r w'.
Proof.
  intros Ha Hga HA Hch Hok E. destruct (copy_inv_adds d wa wb Ha HA Hch) as [Hb Hgb].
  assert (grew w wb) by (by eapply grew_trans). destruct rb as [[]|e|]; simplify_eq; try (by split_and!).
  destruct (copy_inv_close d wb Hb (Hok eq_refl)) as [Hc Hgc]. split_and!; [done|by eapply grew_trans|].
  intros _. simpl. rewrite lookup_insert_eq. eauto.
Qed.

Lemma copy_inv_commit d w :
  copy_inv w -> w_tracker w !! FromOCI d = None ->
  let w0 := set_tracker (<[FromOCI d := false]> (w_tracker w)) w in copy_inv w0 /\ grew w w0.
Proof.
  intros Hw Hd. split; [|split; simpl; try done].
  - apply (copy_inv_quiet w); try done. simpl. intros k. rewrite lookup_insert. by case_decide.
  - intros k. rewrite lookup_insert_is_Some. destruct (decide (FromOCI d = k)); auto.
  - intros k Hk. rewrite lookup_insert_ne; [done|congruence].
Qed.

Lemma go_seq_spec fn items : (forall d w r w', copy_inv w -> fn d w = Some (r, w') -> fn_spec d w r w') ->
  forall w r w', copy_inv w -> go_seq fn items w = Some (r, w') -> copy_inv w' /\ grew w w'.
Proof.
  intros Hfn. induction items as [|d items IH]; intros w r w' Hw; simpl.
  { intros [= <- <-]. split; [done|apply grew_refl]. }
  destruct (fn d w) as [[[[]|e|] w1]|] eqn:E; try done.
  - destruct (Hfn d w _ w1 Hw E) as (H1 & H2 & _). intros HG.
    destruct (IH w1 r w' H1 HG) as [H3 H4]. split; [done|by eapply grew_trans].
  - intros [= <- <-]. by destruct (Hfn d w _ w1 Hw E) as (? & ? & _).
  - intros [= <- <-]. by destruct (Hfn d w _ w1 Hw E) as (? & ? & _).
Qed.

Lemma join_successors_spec d items w r w' :
  copy_inv w -> join_successors d items w = Some (r, w') ->
  copy_inv w' /\ grew w w'
  /\ (r = Ok tt -> w' = w /\ forall s, s ∈ items -> w_tracker w !! FromOCI s = Some true).
Proof.
  intros Hw. induction items as [|s items IH]; simpl.
  { intros [= <- <-]. split_and!; [done|apply grew_refl|]. intros _. split; [done|]. by intros ? ?%elem_of_nil. }
  unfold TryCommit. destruct (w_tracker w !! FromOCI s) as [b|] eqn:Hs.
  - case_bool_decide as Hb; [|done]. intros HJ. destruct (IH HJ) as (H1 & H2 & H3). split_and!; try done.
    intros Hr. destruct (H3 Hr) as [-> Hall]. split; [done|].
    intros s' [->|?]%elem_of_cons; [done|by apply Hall].
  - intros [= <- <-]. destruct (copy_inv_commit s w Hw Hs). by split_and!.
Qed.

Section Traversal.
Context (opts : CopyGraphOptions) (Hopts : opts_ok opts) (Hdef : FindSuccessors opts = None).

Lemma copy_fn_spec fuel : forall d w r w',
  copy_inv w -> copy_fn fuel opts d w = Some (r, w') -> fn_spec d w r w'.
Proof.
  induction fuel as [|fuel IH]; intros d w r w' Hw; [done|]. cbn [copy_fn].
  unfold TryCommit. destruct (w_tracker w !! FromOCI d) as [b|] eqn:Hd.
  { intros [= <- <-]. split_and!; [done|apply grew_refl|]. intros _. by rewrite Hd. }
  set (w0 := set_tracker _ w).
  destruct (copy_inv_commit d w Hw Hd) as [Hw0 Hg0]. fold w0 in Hw0, Hg0.
  destruct (copy_err _ _ _) as [[]|e|] eqn:HE; [| |intros [= <- <-]; by apply fn_spec_err..].
  - (* the node exists *)
    apply map_err_Ok in HE. pose proof (dest_exists _ _ (ci_inv _ Hw0) HE) as Hst.
    pose proof (adds_if_set d (OnCopySkipped opts) w0 (oo_skipped _ Hopts)) as HA.
    destruct (if_set (OnCopySkipped opts) d w0) as [rb wb]. simpl in HA. intros E.
    eapply (fn_spec_finish d w w0 rb wb); try done.
    + intros Hold b Hl Hp. apply (ci_closed _ Hw0 (FromOCI d)); auto.
    + intros _ Hp. destruct (Hst Hp) as [c Hc]. exists c. apply HA; [apply Hw0|done].
  - unfold on_err_b, findSuccessors. rewrite Hdef.
    destruct (proxy_Successors d w0) as [[rl w1]|] eqn:HS; [|done]. simpl.
    pose proof (proxy_Successors_frame d w0 rl w1 HS) as (F1 & F2 & F3).
    assert (copy_inv w1 /\ grew w w1) as [Hw1 Hg1].
    { split; [apply (copy_inv_quiet w0); try done; by rewrite F2|].
      eapply grew_trans; [done|]. split; rewrite ?F1, ?F2; auto. }
    destruct rl as [l|e|]; [|intros [= <- <-]; by apply fn_spec_err..]. simpl.
    destruct (go_seq _ _ w1) as [[rg w2]|] eqn:HG; [|done].
    destruct (go_seq_spec _ _ IH w1 rg w2 Hw1 HG) as [Hw2 Hg2].
    assert (grew w w2) by (by eapply grew_trans).
    destruct rg as [[]|e|]; [|intros [= <- <-]; by apply fn_spec_err..].
    destruct (join_successors d _ w2) as [[rj w3]|] eqn:HJ; [|done].
    destruct (join_successors_spec _ _ _ _ _ Hw2 HJ) as (Hw3 & Hg3 & Hj).
    assert (grew w w3) by (by eapply grew_trans).
    destruct rj as [[]|e|]; [|intros [= <- <-]; by apply fn_spec_err..].
    destruct (Hj eq_refl) as [-> Hall].
    pose proof (adds_copy_one opts Hopts d w2) as HA.
    pose proof (copy_one_ok opts Hopts d w2) as Hok.
    destruct (copy_one d opts w2) as [rb wb]. simpl in HA. intros E.
    eapply (fn_spec_finish d w w2 rb wb); try done.
    + intros _ b Hl _. destruct (proxy_Successors_ok d w0 l w1 HS b Hl) as (s & Hs & <-).
      by apply (ci_done _ Hw2), Hall.
    + intros -> Hp. by apply Hok; [apply Hw2|apply Hw2|..].
Qed.

(** The last thing [fn] does on a node it committed and finished. *)
Lemma copy_fn_last fuel d w w' :
  copy_inv w -> w_tracker w !! FromOCI d = None -> copy_fn fuel opts d w = Some (Ok tt, w') ->
  exists wa wb, copy_inv wa /\ w' = close_done d wb
    /\ (if_set (OnCopySkipped opts) d wa = (Ok tt, wb) \/ copy_one d opts wa = (Ok tt, wb)).
Proof.
  intros Hw Hd. destruct fuel as [|fuel]; [done|]. cbn [copy_fn]. unfold TryCommit. rewrite Hd.
  set (w0 := set_tracker _ w).
  destruct (copy_inv_commit d w Hw Hd) as [Hw0 Hg0]. fold w0 in Hw0, Hg0.
  destruct (copy_err _ _ _) as [[]|e|]; [| |done..].
  - destruct (if_set (OnCopySkipped opts) d w0) as [[[]|e|] wb] eqn:E; try done.
    intros [= <-]. exists w0, wb. auto.
  - unfold on_err_b, findSuccessors. rewrite Hdef.
    destruct (proxy_Successors d w0) as [[[l|e|] w1]|] eqn:HS; try done. simpl.
    pose proof (proxy_Successors_frame d w0 _ w1 HS) as (F1 & F2 & F3).
    assert (Hw1 : copy_inv w1) by (apply (copy_inv_quiet w0); try done; by rewrite F2).
    destruct (go_seq _ _ w1) as [[[[]|e|] w2]|] eqn:HG; try done.
    destruct (go_seq_spec _ _ (copy_fn_spec fuel) w1 _ w2 Hw1 HG) as [Hw2 _].
    destruct (join_successors d _ w2) as [[[[]|e|] w3]|] eqn:HJ; try done.
    destruct (join_successors_spec _ _ _ _ _ Hw2 HJ) as (Hw3 & _ & _).
    destruct (copy_one d opts w3) as [[[]|e|] wb] eqn:E; try done.
    intros [= <-]. exists w3, wb. auto.
Qed.

(** A node the destination has is skipped, with everything below it. *)
Lemma copy_fn_skip fuel d (w w' : W) :
  st_Exists d (w_dst w) = Ok true -> w_tracker w !! FromOCI d = None ->
  copy_fn fuel opts d w = Some (Ok tt, w') ->
  exists wb, adds d (set_tracker (<[FromOCI d := false]> (w_tracker w)) w) wb /\ w' = close_done d wb.
Proof.
  intros He Hd. destruct fuel as [|fuel]; [done|]. cbn [copy_fn]. unfold TryCommit. rewrite Hd.
  set (w0 := set_tracker _ w). simpl. rewrite He. simpl.
  pose proof (adds_if_set d (OnCopySkipped opts) w0 (oo_skipped _ Hopts)) as HA.
  destruct (if_set (OnCopySkipped opts) d w0) as [[[]|e|] wb]; try done. intros [= <-]. eauto.
Qed.

(** *** Termination *)

Context (rank : Descriptor -> nat) (Hrank : forall a b, link a b -> rank b < rank a).

(** Nodes in progress are above the node that is visited. *)
Definition above (d : Descriptor) (w : W) : Prop :=
  forall k, w_tracker w !! k = Some false -> rank d < rank k.

(** With an exact source and fuel above the rank a call returns; when it returns
    nil its node is done, and it leaves no node in progress. *)
Definition total_spec (fuel : nat) (d : OciDescriptor) (w : W) (o : option (result unit * W)) : Prop :=
  (exact_source -> rank (FromOCI d) < fuel -> is_Some o)
  /\ (forall w', o = Some (Ok tt, w') -> w_tracker w' !! FromOCI d = Some true
        /\ forall k, w_tracker w' !! k = Some false -> w_tracker w !! k = Some false).

Lemma go_seq_total fuel items :
  (forall d w, copy_inv w -> above (FromOCI d) w -> d ∈ items -> total_spec fuel d w (copy_fn fuel opts d w)) ->
  forall w, copy_inv w -> (forall d, d ∈ items -> above (FromOCI d) w) ->
  (exact_source -> (forall d, d ∈ items -> rank (FromOCI d) < fuel) ->
     is_Some (go_seq (copy_fn fuel opts) items w))
  /\ (forall w', go_seq (copy_fn fuel opts) items w = Some (Ok tt, w') ->
        (forall d, d ∈ items -> w_tracker w' !! FromOCI d = Some true)
        /\ forall k, w_tracker w' !! k = Some false -> w_tracker w !! k = Some false).
Proof.
  induction items as [|d items IH]; intros Hfn w Hw Hab; simpl.
  { split; [by eexists|]. intros w' [= <-]. split; [by intros ? ?%elem_of_nil|done]. }
  destruct (Hfn d w Hw (Hab d ltac:(by left)) ltac:(by left)) as [Ht Hr].
  destruct (copy_fn fuel opts d w) as [[r w1]|] eqn:E.
  2:{ split; [|done]. intros Hex Hlt. destruct (Ht Hex (Hlt d ltac:(by left))); done. }
  destruct r as [[]|e|]; [|split; [by eexists|done]..].
  destruct (Hr w1 eq_refl) as [Hd Hk]. destruct (copy_fn_spec fuel d w _ w1 Hw E) as (Hw1 & _ & _).
  destruct (IH) with (w := w1) as [Ht2 Hr2]; [intros; apply Hfn; [done..|by right]|done| |].
  { intros d' Hd' k Hfk. apply (Hab d'); [by right|by apply Hk]. }
  split; [intros Hex Hlt; apply Ht2; [done|]; intros d' Hd'; apply Hlt; by right|].
  intros w2 E2. destruct (Hr2 w2 E2) as [Hall Hk2]. split; [|auto].
  intros d' [->|Hd']%elem_of_cons; [|by apply Hall].
  destruct (go_seq_spec _ _ (copy_fn_spec fuel) w1 _ w2 Hw1 E2) as [_ Hg]. by apply (gw_done _ _ Hg).
Qed.

Lemma join_successors_total d items (w : W) :
  (forall s, s ∈ items -> w_tracker w !! FromOCI s = Some true) ->
  join_successors d items w = Some (Ok tt, w).
Proof.
  induction items as [|s items IH]; intros Hall; [done|]. simpl. unfold TryCommit.
  pose proof (Hall s ltac:(by left)) as Hs. rewrite Hs, bool_decide_true by done.
  apply IH. intros s' Hs'. apply Hall. by right.
Qed.

Lemma total_finish fuel d (w wa wb : W) (rb : result unit) :
  adds d wa wb ->
  (forall k, w_tracker wa !! k = Some false -> k = FromOCI d \/ w_tracker w !! k = Some false) ->
  total_spec fuel d w match rb with Ok _ => Some (Ok tt, close_done d wb) | _ => Some (rb, wb) end.
Proof.
  intros HA Hk. destruct rb as [[]|e|]; [|split; [by eexists|done]..]. split; [by eexists|]. intros w' [= <-].
  simpl. rewrite (ad_tracker _ _ _ HA), lookup_insert_eq. split; [done|].
  intros k. rewrite lookup_insert. case_decide as Hd; [done|]. intros Hf. destruct (Hk k Hf); [congruence|done].
Qed.

(** The successors found are links, so they are lower. *)
Lemma proxy_Successors_link d (w : W) l w' s :
  proxy_Successors d w = Some (Ok l, w') -> s ∈ removeForeignLayers l -> link (FromOCI d) (FromOCI s).
Proof.
  intros Hp Hs. apply proxy_Successors_Ok in Hp as [[_ ->]|(Hm & c & Hv & Hl)].
  { by apply elem_of_nil in Hs. }
  by exists d, c, l, s.
Qed.

Lemma total_err fuel d w (e : error) w1 : total_spec fuel d w (Some (Err e, w1)).
Proof. split; [by eexists|done]. Qed.
Lemma total_panic fuel d w w1 : total_spec fuel d w (Some (Panic, w1)).
Proof. split; [by eexists|done]. Qed.

Lemma copy_fn_total fuel : forall d w,
  copy_inv w -> above (FromOCI d) w -> total_spec fuel d w (copy_fn fuel opts d w).
Proof.
  induction fuel as [|fuel IH]; intros d w Hw Hab; [split; [lia|done]|]. cbn [copy_fn].
  unfold TryCommit. destruct (w_tracker w !! FromOCI d) as [b|] eqn:Hd.
  { split; [by eexists|]. intros w' [= <-]. split; [|done].
    destruct b; [done|]. specialize (Hab _ Hd). lia. }
  set (w0 := set_tracker _ w).
  destruct (copy_inv_commit d w Hw Hd) as [Hw0 _]. fold w0 in Hw0.
  assert (Hk0 : forall k, w_tracker w0 !! k = Some false -> k = FromOCI d \/ w_tracker w !! k = Some false).
  { intros k. simpl. rewrite lookup_insert. case_decide; auto. }
  destruct (copy_err _ _ _) as [[]|e|]; [| |apply total_err|apply total_panic].
  - pose proof (adds_if_set d (OnCopySkipped opts) w0 (oo_skipped _ Hopts)) as HA.
    destruct (if_set (OnCopySkipped opts) d w0) as [rb wb]. by apply (total_finish _ d w w0 wb rb).
  - unfold on_err_b, findSuccessors. rewrite Hdef.
    pose proof (fun Hex => proxy_Successors_returns d w0 Hex (ci_src _ Hw0)) as Hret.
    destruct (proxy_Successors d w0) as [[rl w1]|] eqn:HS.
    2:{ split; [|done]. intros Hex _. by destruct (Hret Hex). }
    pose proof (proxy_Successors_frame d w0 rl w1 HS) as (F1 & F2 & F3). simpl.
    destruct rl as [l|e|]; [|apply total_err|apply total_panic]. simpl.
    assert (Hw1 : copy_inv w1) by (apply (copy_inv_quiet w0); try done; by rewrite F2).
    assert (Hk1 : forall k, w_tracker w1 !! k = Some false -> k = FromOCI d \/ w_tracker w !! k = Some false)
      by (rewrite F2; exact Hk0).
    assert (Hlt : forall s, s ∈ removeForeignLayers l -> rank (FromOCI s) < rank (FromOCI d)).
    { intros s Hs. by eapply Hrank, proxy_Successors_link. }
    destruct (go_seq_total fuel (removeForeignLayers l)) with (w := w1) as [Htot Hrg].
    { intros s ws Hws Habs Hs. by apply IH. }
    { done. }
    { intros s Hs k Hk. specialize (Hlt s Hs). destruct (Hk1 k Hk) as [->|Hk']; [done|].
      specialize (Hab k Hk'). lia. }
    destruct (go_seq _ _ w1) as [[rg w2]|] eqn:HG.
    2:{ split; [|done]. intros Hex Hf. destruct Htot as [? ?]; [done| |done].
        intros s Hs. specialize (Hlt s Hs). lia. }
    destruct rg as [[]|e|]; [|apply total_err|apply total_panic].
    destruct (Hrg w2 eq_refl) as [Hall Hk2].
    rewrite join_successors_total by done.
    pose proof (adds_copy_one opts Hopts d w2) as HA. destruct (copy_one d opts w2) as [rb wb].
    apply (total_finish _ d w w2 wb rb); [done|]. auto.
Qed.

End Traversal.
End Old.

(** ** What is reached *)

(** A link out of a node that the destination did not have. *)
Definition missing_link (dst : D) (a b : Descriptor) : Prop := view dst a = None /\ link a b.

(** A destination in which every stored node has its successors. *)
Definition complete (dst : D) : Prop :=
  forall a b, is_Some (view dst a) -> link a b -> proper a -> proper b -> is_Some (view dst b).

Definition had (dst : D) (k : Descriptor) : Prop := is_Some (view dst k).

Lemma missing_link_reach dst r k : rtc (missing_link dst) r k -> rtc link r k.
Proof. apply rtc_subrel. by intros ? ? [_ ?]. Qed.

(** Everything reached through nodes the destination did not have is stored. *)
Lemma reach_stored dst r k (w : W) :
  copy_inv (had dst) w -> stored w r -> (forall j, rtc link r j -> proper j) ->
  rtc (missing_link dst) r k -> stored w k.
Proof.
  intros Hw Hr Hprop Hk. induction Hk as [|a b c [Hno Hab] _ IH]; [done|].
  apply IH; [|intros j Hj; apply Hprop; by eapply rtc_l].
  eapply (ci_closed _ _ Hw); [done| |done|apply Hprop, rtc_refl|by apply Hprop, rtc_once].
  unfold had. rewrite Hno. by intros [? ?].
Qed.

Lemma reach_complete dst r k :
  complete dst -> (forall j, rtc link r j -> proper j) -> rtc link r k ->
  had dst k \/ rtc (missing_link dst) r k.
Proof.
  intros Hc Hprop Hk. revert k Hk. apply rtc_ind_r; [right; apply rtc_refl|].
  intros a b Ha Hab [IH|IH]; [left; eapply Hc; [done..|by apply Hprop|apply Hprop; by eapply rtc_r]|].
  destruct (view dst a) as [c|] eqn:Hv; [|right; eapply rtc_r; [done|by split]].
  left. eapply Hc; [by exists c|done|by apply Hprop|apply Hprop; by eapply rtc_r].
Qed.

Lemma new_world_inv src dst (opts : @CopyGraphOptions S D U) (u : U) :
  inv dst -> inv_s src -> copy_inv (had dst) (new_world src dst opts u).
Proof. intros Hd Hs. split; [done|done| |done]. intros a b Ha Hno. by destruct Hno. Qed.

(** ** Tagging the root *)

(** The contract of the user's callbacks: they leave the destination, the proxy
    and the tracker alone, and [SkipNode] is only returned for stored nodes. *)
Definition quiet {A} (h : OciDescriptor -> M W A) : Prop :=
  forall d w, let w' := (h d w).2 in
    w_dst w' = w_dst w /\ w_proxy w' = w_proxy w /\ w_tracker w' = w_tracker w.

Record user_ok (opts : CopyGraphOptions) : Prop := {
  uo_pre : forall h, PreCopy opts = Some h -> quiet h;
  uo_pre_skip : forall h d w w', PreCopy opts = Some h ->
    h d w = (Err (ESentinel SkipNode), w') -> stored w' (FromOCI d);
  uo_pre_err : forall h d w e w', PreCopy opts = Some h -> h d w = (Err e, w') ->
    errors_Is e skipSource = false;
  uo_post : forall h, PostCopy opts = Some h -> quiet h;
  uo_post_err : forall h d w e w', PostCopy opts = Some h -> h d w = (Err e, w') ->
    errors_Is e skipSource = false;
  uo_skipped : forall h, OnCopySkipped opts = Some h -> quiet h;
  uo_mounted : forall h, OnMounted opts = Some h -> quiet h;
  uo_mountFrom : forall h, MountFrom opts = Some h -> quiet h;
  uo_find : FindSuccessors opts = None
}.

Lemma quiet_hook_ok {A} (h : OciDescriptor -> M W A) : quiet h -> hook_ok h.
Proof. intros Hq d w. destruct (Hq d w) as (H1 & H2 & H3). split; rewrite ?H1; auto. Qed.

Lemma quiet_if_set (h : option (OciDescriptor -> M W unit)) d w r w' :
  (forall f, h = Some f -> quiet f) -> if_set h d w = (r, w') ->
  w_dst w' = w_dst w /\ w_proxy w' = w_proxy w /\ w_tracker w' = w_tracker w.
Proof.
  intros Hh. destruct h as [f|]; simpl; [|by intros [= _ <-]]. intros E.
  pose proof (Hh f eq_refl d w) as Hq. by rewrite E in Hq.
Qed.

Lemma adds_tag_root d root ref w : taggable (FromOCI root) ref -> adds d w (tag_root root ref w).2.
Proof.
  intros Htg.
  unfold tag_root, on_err, on_dst, on_part. destruct (tg_Tag root ref (w_dst w)) as [r s'] eqn:HT. simpl.
  split; simpl; try done; intros Hi; pose proof (tag_keeps root ref (w_dst w) Htg Hi) as [HK1 HK2]; rewrite HT in HK1, HK2; simpl in *.
  - done.
  - intros k c. by rewrite HK2.
  - intros k. rewrite HK2. auto.
Qed.

Definition tagged (ref : string) (root : OciDescriptor) (w : W) : Prop :=
  exists d', tg_Resolve ref (w_dst w) = Ok d' /\ FromOCI d' = FromOCI root.

Lemma tag_root_tagged root ref w w' :
  taggable (FromOCI root) ref -> inv (w_dst w) -> tag_root root ref w = (Ok tt, w') -> tagged ref root w'.
Proof.
  intros Htg Hi. unfold tag_root. rewrite on_err_Ok. unfold on_dst, on_part.
  destruct (tg_Tag root ref (w_dst w)) as [r s'] eqn:HT. intros [= -> <-].
  by apply (tag_resolve root ref (w_dst w)).
Qed.

Lemma adds_copyCached pr d ref w :
  tg_PushReference = Some pr -> taggable (FromOCI d) ref -> adds d w (copyCachedNodeWithReference pr d ref w).2.
Proof.
  intros Hpr Htg. unfold copyCachedNodeWithReference. apply adds_bind; [apply adds_refl|].
  intros rc w1 _. apply adds_allow_exists. unfold on_dst, on_part.
  destruct (pr d rc ref (w_dst w1)) as [r s'] eqn:HP. simpl.
  split; simpl; try done; intros Hi; pose proof (pushref_keeps pr d rc ref (w_dst w1) Hpr Htg Hi) as HK;
    rewrite HP in HK; apply HK.
Qed.

Lemma FetchCached_clean d w rc : src_ok w -> FetchCached d (w_proxy w) = Ok rc -> clean rc.
Proof.
  intros Hs. unfold FetchCached. rewrite bind_Ok. intros ([] & _ & Hf).
  - by apply (fetch_cache_clean d w).
  - by apply (fetch_src_clean d w).
Qed.

Lemma copyCached_ok pr d ref w w' :
  tg_PushReference = Some pr -> taggable (FromOCI d) ref -> src_ok w -> inv (w_dst w) ->
  copyCachedNodeWithReference pr d ref w = (Ok tt, w') ->
  stored w' (FromOCI d) /\ tagged ref d w'.
Proof.
  intros Hpr Htg Hs Hi. unfold copyCachedNodeWithReference. rewrite M_bind_Ok. intros (rc & w1 & Hf & Hp).
  apply on_err_Ok in Hf. unfold reads in Hf. injection Hf as Hf <-.
  unfold allow_exists, on_dst, on_part in Hp.
  destruct (pr d rc ref (w_dst w)) as [res s'] eqn:HP.
  pose proof (pushref_ok pr d rc ref (w_dst w) res s' Hpr Htg Hi HP) as Hok.
  apply FetchCached_clean in Hf as Hc; [|done].
  destruct res as [[]|e|]; [|destruct (errors_Is e ErrAlreadyExists); [|done]|done];
    injection Hp as <-; by apply Hok.
Qed.

Lemma copyCached_err pr d ref (w : W) e w' :
  tg_PushReference = Some pr -> taggable (FromOCI d) ref -> src_ok w -> inv (w_dst w) ->
  copyCachedNodeWithReference pr d ref w = (Err e, w') ->
  errors_Is e skipSource = false /\ e <> ESentinel SkipNode.
Proof.
  intros Hpr Htg Hs Hi. unfold copyCachedNodeWithReference, mbind, M_bind, on_err, reads.
  destruct (FetchCached d (w_proxy w)) as [rc|e'|] eqn:HF; simpl; [| |done].
  - unfold allow_exists, on_dst, on_part. destruct (pr d rc ref (w_dst w)) as [[[]|e'|] s'] eqn:HP; try done.
    apply pushref_err in HP; [|done|done|done|by eapply FetchCached_clean]. destruct (errors_Is e' ErrAlreadyExists); [done|]. by intros [= <- _].
  - intros [= <- _]. split; [|done]. simpl. revert HF. unfold FetchCached. simpl. unfold cas.Exists.
    simpl. destruct (bool_decide _) eqn:Hb; [|by apply Hskip].
    unfold cas.Fetch. destruct (cas.mem_content _ !! _) eqn:Hm; [done|]. by intros [= <-].
Qed.

Section Prepared.
Context (opts : CopyGraphOptions) (Huser : user_ok opts) (ref : string) (root : OciDescriptor)
  (Htg : taggable (FromOCI root) ref).

(** The callbacks built by [prepareCopy] keep the contract of [copyGraph]. *)
Lemma prepared_skipped_ok h : OnCopySkipped (prepareCopy ref root opts) = Some h -> hook_ok h.
Proof.
  assert (Hs : forall d w, adds d w (if_set (OnCopySkipped opts) d w).2).
  { intros d w. apply adds_if_set. intros f Hf. by apply quiet_hook_ok, (uo_skipped _ Huser). }
  unfold prepareCopy. simpl. intros [= <-] d w. destruct (Equal d root) eqn:Heq; simpl; [|apply Hs].
  apply Equal_spec in Heq.
  destruct tg_PushReference as [pr|] eqn:Hpr; [apply adds_copyCached; [done|by rewrite Heq]|].
  apply adds_bind; [apply Hs|]. intros _ w1 _. by apply adds_tag_root.
Qed.

Lemma prepared_post_ok h : PostCopy (prepareCopy ref root opts) = Some h -> hook_ok h.
Proof.
  unfold prepareCopy. destruct tg_PushReference as [pr|]; simpl.
  - intros Hh. by apply quiet_hook_ok, (uo_post _ Huser).
  - intros [= <-] d w. apply adds_bind.
    + destruct (Equal d root); [by apply adds_tag_root|apply adds_refl].
    + intros _ w1 _. apply adds_if_set. intros f Hf. by apply quiet_hook_ok, (uo_post _ Huser).
Qed.

(** The optimised [PreCopy] of a destination that pushes by reference. *)
Definition ref_PreCopy (pr : OciDescriptor -> Reader -> string -> M D unit) (d : OciDescriptor) : M W unit :=
  _ ← if_set (PreCopy opts) d;
  if negb (Equal d root) then mret tt
  else
    _ ← copyCachedNodeWithReference pr d ref;
    _ ← if_set (PostCopy opts) d;
    fails (ESentinel SkipNode).

Lemma ref_PreCopy_hook pr : tg_PushReference = Some pr -> hook_ok (ref_PreCopy pr).
Proof.
  intros Hpr d w. unfold ref_PreCopy. apply adds_bind.
  { apply adds_if_set. intros f Hf. by apply quiet_hook_ok, (uo_pre _ Huser). }
  intros _ w1 _. destruct (Equal d root) eqn:Heq; simpl; [|apply adds_refl]. apply Equal_spec in Heq.
  apply adds_bind; [apply adds_copyCached; [done|by rewrite Heq]|]. intros _ w2 _. apply adds_bind.
  - apply adds_if_set. intros f Hf. by apply quiet_hook_ok, (uo_post _ Huser).
  - intros _ w3 _. apply adds_refl.
Qed.

(** How the optimised [PreCopy] can end with an error: as the user's [PreCopy]
    did, with an error of the push, or after the root was pushed and tagged. *)
Lemma ref_PreCopy_err pr d w e w' :
  tg_PushReference = Some pr -> src_ok w -> inv (w_dst w) -> ref_PreCopy pr d w = (Err e, w') ->
  if_set (PreCopy opts) d w = (Err e, w')
  \/ (errors_Is e skipSource = false
      /\ (e <> ESentinel SkipNode
          \/ (FromOCI d = FromOCI root /\ stored w' (FromOCI d) /\ tagged ref d w'))).
Proof.
  intros Hpr Hs Hi. unfold ref_PreCopy. rewrite M_bind_Err. intros [?|([] & w1 & HP & H1)]; [by left|].
  right. apply quiet_if_set in HP as (Hd1 & Hp1 & _); [|apply (uo_pre _ Huser)].
  assert (src_ok w1) as Hs1 by (unfold src_ok; by rewrite Hp1).
  destruct (Equal d root) eqn:Heq; simpl in H1; [|done]. apply Equal_spec in Heq.
  apply M_bind_Err in H1 as [Hcc|([] & w2 & Hcc & H2)].
  { apply copyCached_err in Hcc as [? ?]; [|done|by rewrite Heq|done|by rewrite Hd1]. auto. }
  apply copyCached_ok in Hcc as [Hst Htag]; [|done|by rewrite Heq|done|by rewrite Hd1].
  assert (errors_Is e skipSource = false /\ w_dst w' = w_dst w2) as [He Hd2].
  { apply M_bind_Err in H2 as [Hpost|([] & w3 & Hpost & H3)].
    - split; [|by apply quiet_if_set in Hpost as (? & _); [|apply (uo_post _ Huser)]].
      destruct (PostCopy opts) as [h|] eqn:Hh; [|done]. by eapply (uo_post_err _ Huser).
    - unfold fails in H3. injection H3 as <- <-. split; [done|].
      by apply quiet_if_set in Hpost as (? & _); [|apply (uo_post _ Huser)]. }
  split; [done|]. right. unfold tagged. rewrite Hd2. auto.
Qed.

Lemma prepared_pre : PreCopy (prepareCopy ref root opts) =
  match tg_PushReference with Some pr => Some (ref_PreCopy pr) | None => PreCopy opts end.
Proof. unfold prepareCopy. by destruct tg_PushReference. Qed.

Lemma if_set_pre_Some d w e w' : if_set (PreCopy opts) d w = (Err e, w') ->
  exists h, PreCopy opts = Some h /\ h d w = (Err e, w').
Proof. destruct (PreCopy opts); simpl; [eauto|done]. Qed.

Lemma prepared_opts_ok : opts_ok (prepareCopy ref root opts).
Proof.
  split.
  - rewrite prepared_pre. destruct tg_PushReference as [pr|] eqn:Hpr.
    + intros h [= <-]. by apply ref_PreCopy_hook.
    + intros h Hh. by apply quiet_hook_ok, (uo_pre _ Huser).
  - rewrite prepared_pre. destruct tg_PushReference as [pr|] eqn:Hpr.
    + intros h d w w' [= <-] Hs Hi Hp. apply ref_PreCopy_err in Hp as [Hp|[_ [?|(_ & ? & _)]]]; try done.
      apply if_set_pre_Some in Hp as (h & Hh & Hp). by eapply (uo_pre_skip _ Huser).
    + intros h d w w' Hh _ _. by apply (uo_pre_skip _ Huser).
  - rewrite prepared_pre. destruct tg_PushReference as [pr|] eqn:Hpr.
    + intros h d w e w' [= <-] Hs Hi Hp. apply ref_PreCopy_err in Hp as [Hp|[? _]]; try done.
      apply if_set_pre_Some in Hp as (h & Hh & Hp). by eapply (uo_pre_err _ Huser).
    + intros h d w e w' Hh _ _. by apply (uo_pre_err _ Huser).
  - apply prepared_post_ok.
  - apply prepared_skipped_ok.
  - intros h Hh. apply quiet_hook_ok, (uo_mounted _ Huser). unfold prepareCopy in Hh. by destruct tg_PushReference.
  - intros h Hh. apply quiet_hook_ok, (uo_mountFrom _ Huser). unfold prepareCopy in Hh. by destruct tg_PushReference.
Qed.

Lemma prepared_find : FindSuccessors (prepareCopy ref root opts) = None.
Proof. unfold prepareCopy. destruct tg_PushReference; apply (uo_find _ Huser). Qed.

(** The skipped root is tagged. *)
Lemma prepared_skip_tags w w' :
  src_ok w -> inv (w_dst w) -> if_set (OnCopySkipped (prepareCopy ref root opts)) root w = (Ok tt, w') ->
  tagged ref root w'.
Proof.
  intros Hsrc Hi. unfold prepareCopy. simpl. rewrite Equal_refl. simpl.
  destruct tg_PushReference as [pr|] eqn:Hpr.
  - intros Hcc. by apply copyCached_ok in Hcc as [_ ?].
  - rewrite M_bind_Ok. intros ([] & w1 & Hs & Ht).
    apply quiet_if_set in Hs as (Hd & _); [|apply (uo_skipped _ Huser)].
    eapply tag_root_tagged; [done| |done]. by rewrite Hd.
Qed.

(** The copied root is tagged, unless the user's [PreCopy] skips it or it is a
    blob that gets mounted. *)
Context (Hnoskip : forall h w w', PreCopy opts = Some h -> h root w <> (Err (ESentinel SkipNode), w'))
  (Hnomount : IsManifest root = true \/ MountFrom opts = None).

Lemma prepared_copyNode_tags fetch w w' :
  src_ok w -> inv (w_dst w) -> copyNode fetch root (prepareCopy ref root opts) w = (Ok tt, w') -> tagged ref root w'.
Proof.
  intros Hs Hi. unfold copyNode. pose proof (prepared_opts_ok) as Hok.
  pose proof (adds_if_set root (PreCopy (prepareCopy ref root opts)) w (oo_pre _ Hok)) as Hpre.
  destruct (if_set (PreCopy (prepareCopy ref root opts)) root w) as [[[]|e|] w1] eqn:HP; simpl in Hpre; [| |done].
  - rewrite M_bind_Ok. intros ([] & w2 & Hd & Hpost).
    pose proof (adds_doCopyNode fetch root w1) as Hadd. rewrite Hd in Hadd. simpl in Hadd.
    rewrite prepared_pre in HP. unfold prepareCopy in Hpost. destruct tg_PushReference as [pr|] eqn:Hpr.
    + exfalso. simpl in HP. unfold ref_PreCopy in HP. rewrite Equal_refl in HP. simpl in HP.
      apply M_bind_Ok in HP as ([] & ? & _ & HP). apply M_bind_Ok in HP as ([] & ? & _ & HP).
      by apply M_bind_Ok in HP as ([] & ? & _ & HP).
    + simpl in Hpost. rewrite Equal_refl in Hpost. apply M_bind_Ok in Hpost as ([] & w3 & Ht & Hp).
      apply tag_root_tagged in Ht; [|done|by apply Hadd, Hpre].
      apply quiet_if_set in Hp as (Hd3 & _); [|apply (uo_post _ Huser)]. unfold tagged. by rewrite Hd3.
  - case_decide as He; [|done]. intros [= <-]. subst e. rewrite prepared_pre in HP.
    assert (Huo : if_set (PreCopy opts) root w <> (Err (ESentinel SkipNode), w1)).
    { destruct (PreCopy opts) as [h|] eqn:Hh; [by apply Hnoskip|done]. }
    destruct tg_PushReference as [pr|] eqn:Hpr; [|done].
    by apply ref_PreCopy_err in HP as [?|[_ [?|(_ & _ & ?)]]].
Qed.

Lemma prepared_copy_one_tags w w' :
  src_ok w -> inv (w_dst w) -> copy_one root (prepareCopy ref root opts) w = (Ok tt, w') -> tagged ref root w'.
Proof.
  intros Hs Hi. unfold copy_one. rewrite M_bind_Ok. intros (b & w1 & Hb & Hrest).
  apply on_err_Ok in Hb. unfold reads in Hb. injection Hb as _ <-.
  destruct b; [by eapply prepared_copyNode_tags|]. revert Hrest. unfold mountOrCopyNode.
  assert (Hmf : MountFrom (prepareCopy ref root opts) = MountFrom opts).
  { unfold prepareCopy. by destruct tg_PushReference. }
  rewrite Hmf. destruct (MountFrom opts) as [mf|] eqn:E; [|by apply prepared_copyNode_tags].
  destruct Hnomount as [->|?]; [|done].
  destruct tg_Mount; by apply prepared_copyNode_tags.
Qed.

End Prepared.

(** ** Copy *)

(** What [MapRoot] may do: anything but change the destination, the tracker or
    the storage behind the proxy. *)
Definition map_ok (h : OciDescriptor -> M W OciDescriptor) : Prop :=
  forall d w, let w' := (h d w).2 in
    w_dst w' = w_dst w /\ w_tracker w' = w_tracker w /\ p_Base (w_proxy w') = p_Base (w_proxy w).

Definition same_base (w w' : W) : Prop :=
  w_dst w' = w_dst w /\ w_tracker w' = w_tracker w /\ p_Base (w_proxy w') = p_Base (w_proxy w).

Lemma same_base_trans w1 w2 w3 : same_base w1 w2 -> same_base w2 w3 -> same_base w1 w3.
Proof. intros (? & ? & ?) (? & ? & ?). split_and!; congruence. Qed.

Lemma consume_reference_base root rc (p : Proxy S) r p' :
  consume_reference root rc p = Some (r, p') -> p_Base p' = p_Base p.
Proof.
  unfold consume_reference. destruct (st_Exists root (p_Cache p)) as [c|e|]; try by intros [= _ <-].
  destruct (IsManifest root); [|destruct c; by intros [= _ <-]].
  destruct c; [by intros [= _ <-]|]. destruct (tee_ReadAll root rc p) as [[r' p1]|] eqn:HT; [|done].
  apply tee_ReadAll_result in HT as (? & _). by intros [= _ <-].
Qed.

Lemma on_proxy_base {A} (m : M (Proxy S) A) (w : W) :
  p_Base (m (w_proxy w)).2 = p_Base (w_proxy w) -> same_base w (on_proxy m w).2.
Proof. intros Hm. unfold on_proxy, on_part. destruct (m (w_proxy w)). by split_and!. Qed.

Lemma same_base_bind {A B} (m : M W A) (f : A -> M W B) w :
  same_base w (m w).2 -> (forall a w1, same_base w1 (f a w1).2) -> same_base w ((m ≫= f) w).2.
Proof.
  intros Hm Hf. unfold mbind, M_bind. destruct (m w) as [[a|e|] w1]; try done.
  eapply same_base_trans; [done|apply Hf].
Qed.

Lemma same_base_refl w : same_base w w.
Proof. done. Qed.

Lemma resolveRoot_base ref (w : W) r w' : resolveRoot ref w = Some (r, w') -> same_base w w'.
Proof.
  unfold resolveRoot. destruct sc_FetchReference as [fr|]; [|intros [= _ <-]; apply same_base_refl].
  unfold mbind, MB_bind, returns, on_err, reads.
  destruct (fr ref _) as [[root rc]|e|]; simpl; [|intros [= _ <-]; apply same_base_refl..].
  unfold on_proxy_b, on_part_b. destruct (consume_reference root rc (w_proxy w)) as [[rp p']|] eqn:HC; [|done].
  apply consume_reference_base in HC. simpl. by destruct rp as [[]| |]; intros [= _ <-].
Qed.

Lemma select_root_base ref (opts : CopyOptions) (w : W) r w' :
  (forall h, MapRoot opts = Some h -> map_ok h) ->
  select_root ref opts w = Some (r, w') -> same_base w w'.
Proof.
  intros Hmap. unfold select_root. rewrite MB_bind_Some. intros [(root & w1 & HR & HM)|[(e & HR & _)|[HR _]]];
    apply resolveRoot_base in HR as HB; [|done..].
  destruct (MapRoot opts) as [h|]; [|by injection HM as _ <-].
  eapply same_base_trans; [done|]. unfold returns in HM.
  assert (w' = (snd (_ : result OciDescriptor * W))) as -> by (injection HM as HM; exact (f_equal snd (eq_sym HM))).
  apply same_base_bind; [by apply on_proxy_base|]. intros [] w2. apply same_base_bind.
  { unfold on_err. pose proof (Hmap h eq_refl root w2) as Hm. by destruct (h root w2). }
  intros root' w3. apply same_base_bind; [by apply on_proxy_base|]. intros [] w4. apply same_base_refl.
Qed.

(** The whole of [Copy]. *)
Lemma Copy_spec fuel (src : S) srcRef (dst : D) dstRef (opts : CopyOptions) (u : U) root w'
    (Hdst : inv dst) (Hsrc : inv_s src)
    (Huser : user_ok (co_graph opts)) (Hmap : forall h, MapRoot opts = Some h -> map_ok h)
    (Hnoskip : forall h d w w', PreCopy (co_graph opts) = Some h -> h d w <> (Err (ESentinel SkipNode), w'))
    (Hnomount : IsManifest root = true \/ MountFrom (co_graph opts) = None)
    (Hproper : forall k, rtc link (FromOCI root) k -> proper k)
    (Htaggable : taggable (FromOCI root) (if decide (dstRef = EmptyString) then srcRef else dstRef))
    (Hcopy : Copy fuel (Some src) srcRef (Some dst) dstRef opts u = Some (Ok root, Some w')) :
  (forall k, rtc (missing_link dst) (FromOCI root) k -> is_Some (view (w_dst w') k))
  /\ (complete dst -> forall k, rtc link (FromOCI root) k -> is_Some (view (w_dst w') k))
  /\ tagged (if decide (dstRef = EmptyString) then srcRef else dstRef) root w'
  /\ (forall k c, view dst k = Some c -> view (w_dst w') k = Some c) /\ inv (w_dst w').
Proof.
  unfold Copy in Hcopy. set (ref := if decide _ then _ else _) in *.
  set (w0 := new_world src dst (co_graph opts) u) in *.
  destruct (select_root srcRef opts w0) as [[[root'|e|] w1]|] eqn:HS; try done.
  destruct (select_root_base srcRef opts w0 _ w1 Hmap HS) as (Hd & Ht & Hb).
  unfold copyGraph in Hcopy. simpl in Hcopy.
  destruct (copy_fn fuel _ root' w1) as [[[[]|e|] w2]|] eqn:HF; try done. injection Hcopy as -> ->.
  assert (Hw1 : copy_inv (had dst) w1).
  { eapply copy_inv_quiet; [by apply (new_world_inv src dst (co_graph opts) u)|done|done|]. by rewrite Ht. }
  assert (Hnone : w_tracker w1 !! FromOCI root = None) by (rewrite Ht; simpl; by rewrite lookup_empty).
  pose proof (prepared_opts_ok (co_graph opts) Huser ref root Htaggable) as Hok.
  pose proof (prepared_find (co_graph opts) Huser ref root) as Hfind.
  destruct (copy_fn_spec _ _ Hok Hfind fuel root w1 (Ok tt) w' Hw1 HF) as (Hw' & Hg & Hres).
  destruct (Hres eq_refl) as [_ Htrue]. specialize (Htrue Hnone).
  pose proof (ci_done _ _ Hw' _ Htrue (Hproper _ (rtc_refl _ _))) as Hroot.
  assert (Hmono : forall k c, view dst k = Some c -> view (w_dst w') k = Some c).
  { intros k c Hk. apply (gw_view _ _ Hg). by rewrite Hd. }
  split_and!; [| | |done|apply Hw'].
  - intros k Hk. by apply (reach_stored dst (FromOCI root)).
  - intros Hc k Hk. destruct (reach_complete dst _ k Hc Hproper Hk) as [[c ?]|?]; [eauto|by apply (reach_stored dst (FromOCI root))].
  - destruct (copy_fn_last _ _ Hok Hfind fuel root w1 w' Hw1 Hnone HF) as (wa & wb & Hwa & -> & Hlast).
    assert (Htb : tagged ref root wb); [|exact Htb].
    destruct Hlast as [Hs|Hc].
    + eapply prepared_skip_tags; [done|done|apply Hwa|apply Hwa|done].
    + eapply (prepared_copy_one_tags (co_graph opts) Huser); [done| |done|apply Hwa|apply Hwa|done].
      intros h w w3 Hh. by apply Hnoskip.
Qed.

(** C1: [Copy] is correct.  When [Copy] returns a descriptor, the destination
    holds every node reachable from it (foreign layers excepted) through nodes
    that it did not hold before - every reachable node when it was complete, that
    is, had the successors of what it held - the destination reference (the source
    reference when it is left empty) resolves to the descriptor, and nothing that
    was stored before is lost or changed.  [FindSuccessors] is the default, the
    user's callbacks leave the destination, the proxy and the tracker alone,
    [PreCopy] skips no node, and the root is a manifest or nothing is mounted.
    The destination may be any storage that keeps [DestLaws] and [TargetLaws],
    with or without the optional push by reference and cross-repository mount; one
    that finds content by the digest alone gives them for descriptors with the size
    and the media type of their content ([proper]). *)
Theorem Copy_correct fuel (src : S) srcRef (dst : D) dstRef (opts : CopyOptions) (u : U) root w'
    (Hdst : inv dst) (Hsrc : inv_s src)
    (Huser : user_ok (co_graph opts)) (Hmap : forall h, MapRoot opts = Some h -> map_ok h)
    (Hnoskip : forall h d w w', PreCopy (co_graph opts) = Some h -> h d w <> (Err (ESentinel SkipNode), w'))
    (Hnomount : IsManifest root = true \/ MountFrom (co_graph opts) = None)
    (Hproper : forall k, rtc link (FromOCI root) k -> proper k)
    (Htaggable : taggable (FromOCI root) (if decide (dstRef = EmptyString) then srcRef else dstRef))
    (Hcopy : Copy fuel (Some src) srcRef (Some dst) dstRef opts u = Some (Ok root, Some w')) :
  (forall k, rtc (missing_link dst) (FromOCI root) k -> is_Some (view (w_dst w') k))
  /\ (complete dst -> forall k, rtc link (FromOCI root) k -> is_Some (view (w_dst w') k))
  /\ tagged (if decide (dstRef = EmptyString) then srcRef else dstRef) root w'
  /\ (forall k c, view dst k = Some c -> view (w_dst w') k = Some c).
Proof. eapply Copy_spec in Hcopy as (H1 & H2 & H3 & H4 & _); eauto. Qed.

(** A partially populated destination is not completed.  When the destination
    already has the root that [Copy] resolves, [Copy] stores no other node: the
    successors that are missing stay missing. *)
Theorem Copy_skips_existing_root fuel (src : S) srcRef (dst : D) dstRef (opts : CopyOptions) (u : U) root w'
    (Hdst : inv dst) (Hexists : st_Exists root dst = Ok true)
    (Htaggable : taggable (FromOCI root) (if decide (dstRef = EmptyString) then srcRef else dstRef))
    (Huser : user_ok (co_graph opts)) (Hmap : forall h, MapRoot opts = Some h -> map_ok h)
    (Hcopy : Copy fuel (Some src) srcRef (Some dst) dstRef opts u = Some (Ok root, Some w')) :
  forall k, view dst k = None -> is_Some (view (w_dst w') k) -> same_node root k.
Proof.
  intros k Hno Hk. unfold Copy in Hcopy. set (ref := if decide _ then _ else _) in *.
  set (w0 := new_world src dst (co_graph opts) u) in *.
  destruct (select_root srcRef opts w0) as [[[root'|e|] w1]|] eqn:HS; try done.
  destruct (select_root_base srcRef opts w0 _ w1 Hmap HS) as (Hd & Ht & Hb).
  unfold copyGraph in Hcopy. simpl in Hcopy.
  destruct (copy_fn fuel _ root' w1) as [[[[]|e|] w2]|] eqn:HF; try done. injection Hcopy as -> ->.
  destruct (copy_fn_skip _ (prepared_opts_ok (co_graph opts) Huser ref root Htaggable) fuel root w1 w')
    as (wb & HA & ->); [by rewrite Hd|by rewrite Ht; apply lookup_empty|done|].
  destruct (ad_only _ _ _ HA ltac:(simpl; by rewrite Hd) k Hk) as [[c Hc]|?]; [|done].
  simpl in Hc. rewrite Hd in Hc. simpl in Hc. congruence.
Qed.

(** A source that delivers no data after the content of the manifest a reference
    names. *)
Definition exact_reference (src : S) (ref : string) : Prop :=
  forall f root rc, sc_FetchReference = Some f -> f ref src = Ok (root, rc) ->
    IsManifest root = true -> length (content rc) <= Z.to_nat (Size root).

Lemma select_root_returns ref (opts : CopyOptions) (w : W) :
  exact_reference (p_Base (w_proxy w)) ref -> is_Some (select_root ref opts w).
Proof.
  intros Hex. assert (is_Some (resolveRoot ref w)) as [[r w1] HR].
  { unfold resolveRoot. destruct sc_FetchReference as [fr|] eqn:Hf; [|by eexists].
    unfold mbind, MB_bind, returns, on_err, reads.
    destruct (fr ref _) as [[root rc]|e|] eqn:Hr; simpl; [|by eexists..].
    unfold on_proxy_b, on_part_b.
    assert (is_Some (consume_reference root rc (w_proxy w))) as [[rp p'] ->];
      [|simpl; destruct rp; by eexists].
    unfold consume_reference. destruct (st_Exists root (p_Cache (w_proxy w))) as [c|e|]; [|by eexists..].
    destruct (IsManifest root) eqn:Hm; [|by eexists]. destruct c; [by eexists|].
    destruct (tee_ReadAll_returns root rc (w_proxy w)) as [[r p'] ->]; [by eapply Hex|by eexists]. }
  unfold select_root, mbind, MB_bind. rewrite HR. destruct r as [root|e|]; [|by eexists..].
  destruct (MapRoot opts); by eexists.
Qed.

(** C9: [Copy] returns.  From a source that delivers no data after the content
    of its manifests, and with fuel above the ranks - the heights in the graph - the
    traversal neither runs out of fuel, nor waits on a done channel that nobody
    closes, nor blocks in the caching proxy, whatever the destination holds and
    whether the calls succeed or fail. *)
Theorem Copy_returns fuel (src : S) srcRef (dst : D) dstRef (opts : CopyOptions) (u : U)
    (rank : Descriptor -> nat) (Hrank : forall a b, link a b -> rank b < rank a)
    (Hfuel : forall k, rank k < fuel)
    (Hdst : inv dst) (Hsrc : inv_s src) (Hexact : exact_source) (Hexact_ref : exact_reference src srcRef)
    (Htaggable : forall root w, select_root srcRef opts (new_world src dst (co_graph opts) u) = Some (Ok root, w) ->
      taggable (FromOCI root) (if decide (dstRef = EmptyString) then srcRef else dstRef))
    (Huser : user_ok (co_graph opts)) (Hmap : forall h, MapRoot opts = Some h -> map_ok h) :
  is_Some (Copy fuel (Some src) srcRef (Some dst) dstRef opts u).
Proof.
  unfold Copy. set (ref := if decide _ then _ else _).
  set (w0 := new_world src dst (co_graph opts) u).
  destruct (select_root_returns srcRef opts w0 Hexact_ref) as [[r w1] HS]. rewrite HS.
  destruct (select_root_base srcRef opts w0 _ w1 Hmap HS) as (Hd & Ht & Hb).
  destruct r as [root|e|]; [|by eexists..].
  unfold copyGraph. simpl.
  assert (Hw1 : copy_inv (had dst) w1).
  { eapply copy_inv_quiet; [by apply (new_world_inv src dst (co_graph opts) u)|done|done|]. by rewrite Ht. }
  destruct (copy_fn_total (had dst) _ (prepared_opts_ok (co_graph opts) Huser ref root (Htaggable root w1 HS))
    (prepared_find (co_graph opts) Huser ref root) rank Hrank fuel root w1) as [Htot _]; [done| |].
  { intros k. rewrite Ht. simpl. by rewrite lookup_empty. }
  destruct Htot as [[[[]|e|] w2] ->]; [done|done|by eexists..].
Qed.

Lemma copy_fn_blocks fuel (opts : CopyGraphOptions) d (w : W) :
  w_tracker w !! FromOCI d = None -> st_Exists d (w_dst w) = Ok false -> FindSuccessors opts = None ->
  proxy_Successors d (set_tracker (<[FromOCI d := false]> (w_tracker w)) w) = None ->
  copy_fn fuel opts d w = None.
Proof.
  intros Hd He Hf Hp. destruct fuel as [|fuel]; [done|]. cbn [copy_fn]. unfold TryCommit. rewrite Hd.
  set (w0 := set_tracker _ w) in *. simpl. rewrite He. simpl.
  unfold on_err_b, findSuccessors. by rewrite Hf, Hp.
Qed.

(** [Copy] never returns from over-long manifests.  When the source names a
    manifest whose stream goes on after the content that the descriptor describes,
    [Copy] does not report the trailing data: the read through the caching proxy
    blocks, whatever the fuel.  This is so at once when the source fetches by
    reference, and at the traversal of the root when it does not and the
    destination lacks the root. *)
Theorem Copy_blocks_on_trailing_data fuel (src : S) srcRef (dst : D) dstRef (opts : CopyOptions) (u : U)
    root rc
    (Hroot : match sc_FetchReference with
             | Some f => f srcRef src = Ok (root, rc)
             | None => sc_Resolve srcRef src = Ok root /\ st_Fetch root src = Ok rc
                       /\ st_Exists root dst = Ok false /\ MapRoot opts = None
                       /\ FindSuccessors (co_graph opts) = None
             end)
    (Hmanifest : IsManifest root = true) (Hlimit : (Size root <= metadata_limit (co_graph opts))%Z)
    (Hlong : (Size root < Zlen (content rc))%Z)
    (Hvalid : is_ok (ReadAll (bytes_NewReader (take (Z.to_nat (Size root)) (content rc))) root) = true) :
  Copy fuel (Some src) srcRef (Some dst) dstRef opts u = None.
Proof.
  unfold Copy. set (ref := if decide _ then _ else _).
  set (w0 := new_world src dst (co_graph opts) u).
  assert (Hb : tee_ReadAll root rc (w_proxy w0) = None) by (by apply tee_ReadAll_blocks).
  unfold select_root, resolveRoot. destruct sc_FetchReference as [f|] eqn:Hf.
  - unfold mbind, MB_bind, returns, on_err, reads. simpl. rewrite Hroot. simpl.
    unfold on_proxy_b, on_part_b, consume_reference. rewrite Hmanifest.
    fold w0. rewrite Hb. by destruct (st_Exists root (p_Cache (w_proxy w0))) as [[]| |] eqn:He.
  - destruct Hroot as (Hres & Hfetch & Hno & Hmap & Hfind).
    unfold mbind, MB_bind, returns, on_err, reads. simpl. rewrite Hres, Hmap. simpl.
    unfold copyGraph. simpl. rewrite copy_fn_blocks; [done|apply lookup_empty|done| |].
    { unfold prepareCopy. by destruct tg_PushReference. }
    unfold proxy_Successors. rewrite Hmanifest. unfold mbind, MB_bind, on_proxy_b, on_part_b, Proxy_FetchAll.
    rewrite (Fetch_miss root _ rc) by done. fold w0. change (w_proxy (set_tracker _ w0)) with (w_proxy w0). by rewrite Hb.
Qed.

End Correct.
