(* ===== verification/CopyExample.v ===== *)
(** The in-memory store as the source and the destination of [Copy], and the
    theorems of [CopyCorrect] on a concrete graph: an index with two blobs. *)

From Stdlib Require Import ZArith Lia.
From S2P Require Import Prelude Errors Descriptor Reader Manifest Storage Proxy.
From S2P Require Import Graph Resolver MemoryStore Sched Copy CopyCorrect.

Section Memory.
Context {GD : GoDigest} {MJ : ManifestJSON} {MO : MapOrder}.

(** [memory.Store] implements [oras.Target] and no optional interface. *)
#[global] Instance memory_Target : Target memory.Store := {|
  tg_Tag := memory.Tag;
  tg_Resolve := memory.Resolve;
  tg_PushReference := None;
  tg_Mount := None
|}.

#[global] Instance memory_Source : Source memory.Store := {|
  sc_Resolve := memory.Resolve;
  sc_FetchReference := None
|}.

#[global] Instance memory_TargetLaws : TargetLaws memory.Store memory.wf memory.view
  (fun _ => True) (fun _ _ => True).
Proof.
  split; try done.
  - intros d ref s _ Hwf. split; [by apply memory.memory_Tag_wf|]. simpl. unfold memory.Tag.
    by destruct (cas.Exists d (memory.storage s)) as [[]| |].
  - intros d ref s s' _ Hwf. simpl. unfold memory.Tag.
    destruct (cas.Exists d (memory.storage s)) as [[]| |]; try done. intros [= <-].
    exists d. split; [|done]. unfold memory.Resolve, resolver.Resolve. simpl. by rewrite lookup_insert_eq.
Qed.

Lemma memory_Fetch_no_skip d (s : memory.Store) e : st_Fetch d s = Err e -> errors_Is e skipSource = false.
Proof. simpl. unfold memory.Fetch, cas.Fetch. destruct (_ !! _); [done|]. by intros [= <-]. Qed.

Lemma memory_exact : exact_source memory.wf.
Proof.
  intros d s r Hwf _. simpl. unfold memory.Fetch, cas.Fetch.
  destruct (cas.mem_content (memory.storage s) !! FromOCI d) as [c|] eqn:Hc; [|done]. intros [= <-].
  destruct Hwf as [Hw _]. destruct (Hw _ _ Hc) as [Hl _]. destruct (bytes_NewReader_spec c) as [_ ->].
  unfold Zlen in Hl. simpl in Hl. lia.
Qed.

End Memory.

Import HexDigest example.

(** The hexadecimal digest is collision free. *)
Lemma hex_collision_free d c c' : verified d c -> verified d c' -> c = c'.
Proof.
  intros (_ & v & Hv & Hc) (_ & v' & Hv' & Hc'). exact (verifier_one _ _ _ _ _ Hv Hc Hv' Hc').
Qed.

(** A source that holds the graph, the index tagged "v1". *)
Definition push_all (l : list (OciDescriptor * string)) (s : memory.Store) : memory.Store :=
  foldl (fun s p => (memory.Push p.1 (bytes_NewReader (str_bytes p.2)) s).2) s l.

Definition source : memory.Store :=
  (memory.Tag root "v1" (push_all [(blob "a", "a"); (blob "b", "b"); (root, "index")] memory.New)).2.

Lemma push_all_wf l s : memory.wf s -> memory.wf (push_all l s).
Proof.
  revert s. induction l as [|p l IH]; intros s Hs; [done|]. simpl. by apply IH, memory.memory_Push_wf.
Qed.

Lemma source_wf : memory.wf source.
Proof. apply memory.memory_Tag_wf, push_all_wf, memory.New_wf. Qed.

Notation W := (world memory.Store memory.Store unit).
Definition opts : @CopyOptions memory.Store memory.Store unit := mkCopyOpts DefaultCopyGraphOptions None.

Lemma opts_user_ok : user_ok memory.view (co_graph opts).
Proof. by split. Qed.

Definition height (k : Descriptor) : nat := if String.eqb (kMediaType k) "text/plain" then 0 else 1.

Lemma link_height a b : link a b -> height b < height a.
Proof.
  intros (d & c & l & s & <- & Hm & Hv & Hs & Hin & <-).
  assert (Hl : l = [blob "a"; blob "b"]).
  { unfold successors_of, Successors, IsManifest in *. rewrite mem_string_spec in Hm.
    destruct (FetchAll _ d) as [b| |]; case_media; simpl in Hs; try done.
    all: try (by case_decide; simplify_eq/=).
    all: exfalso; clear -Hm n n0 n1 n2 n3; set_solver. }
  subst l. rewrite removeForeignLayers_spec in Hin. simpl in Hin.
  assert (height (FromOCI s) = 0) as -> by (repeat (apply elem_of_cons in Hin as [->|Hin]; [done|]); by apply elem_of_nil in Hin).
  unfold height. simpl. destruct (String.eqb_spec (MediaType d) "text/plain") as [E|]; [|lia].
  unfold IsManifest in Hm. by rewrite E in Hm.
Qed.

Lemma new_complete : complete memory.view (fun _ => True) memory.New.
Proof. intros a b. unfold memory.view, cas.view. simpl. rewrite lookup_empty. by intros [? ?]. Qed.

Lemma Copy_returns_witness : is_Some (Copy 2 (Some source) "v1" (Some memory.New) "v2" opts tt).
Proof.
  refine (Copy_returns memory.wf memory.view (fun _ => True) (fun _ _ => True) memory.wf memory.view memory_Fetch_no_skip hex_collision_free
    2 source "v1" memory.New "v2" opts tt height link_height _ memory.New_wf source_wf memory_exact _ (fun _ _ _ => I) opts_user_ok _).
  - intros k. unfold height. destruct (String.eqb _ _); lia.
  - intros f r rc Hf. discriminate Hf.
  - intros h Hh. discriminate Hh.
Defined.

Lemma copy_run : exists w', Copy 2 (Some source) "v1" (Some memory.New) "v2" opts tt = Some (Ok root, Some w').
Proof.
  assert (H : match Copy 2 (Some source) "v1" (Some memory.New) "v2" opts tt with
              | Some (Ok d, Some _) => bool_decide (d = root)
              | _ => false
              end = true) by (vm_compute; reflexivity).
  destruct (Copy _ _ _ _ _ _ _) as [[[d|e|] [w'|]]|]; try discriminate H.
  apply bool_decide_eq_true in H as ->. eauto.
Qed.

Lemma Copy_correct_witness :
  exists w', Copy 2 (Some source) "v1" (Some memory.New) "v2" opts tt = Some (Ok root, Some w')
    /\ tagged "v2" root w' /\ is_Some (memory.view (w_dst w') (FromOCI root)).
Proof.
  destruct copy_run as [w' Hrun]. exists w'. split; [exact Hrun|].
  assert (Hnoskip : forall h d (w w1 : W), PreCopy (co_graph opts) = Some h -> h d w <> (Err (ESentinel SkipNode), w1))
    by (intros h d w w1 Hh; discriminate Hh).
  assert (Hmap : forall h, MapRoot opts = Some h -> map_ok h) by (intros h Hh; discriminate Hh).
  destruct (Copy_correct memory.wf memory.view (fun _ => True) (fun _ _ => True) memory.wf memory.view memory_Fetch_no_skip hex_collision_free
    2 source "v1" memory.New "v2" opts tt root w' memory.New_wf source_wf opts_user_ok Hmap
    Hnoskip (or_introl eq_refl) (fun _ _ => I) I Hrun) as (_ & Hr & Ht & _).
  split; [exact Ht|]. apply (Hr new_complete). constructor.
Defined.

(** A destination that holds the index and none of its blobs: the copy succeeds
    and the blobs are not there. *)
Definition partial : memory.Store := push_all [(root, "index")] memory.New.

Lemma partial_run : exists w', Copy 2 (Some source) "v1" (Some partial) "v2" opts tt = Some (Ok root, Some w').
Proof.
  assert (H : match Copy 2 (Some source) "v1" (Some partial) "v2" opts tt with
              | Some (Ok d, Some _) => bool_decide (d = root)
              | _ => false
              end = true) by (vm_compute; reflexivity).
  destruct (Copy _ _ _ _ _ _ _) as [[[d|e|] [w'|]]|]; try discriminate H.
  apply bool_decide_eq_true in H as ->. eauto.
Qed.

Lemma Copy_skips_existing_root_witness :
  exists w', Copy 2 (Some source) "v1" (Some partial) "v2" opts tt = Some (Ok root, Some w')
    /\ (is_Some (memory.view (w_dst w') (FromOCI (blob "a"))) -> same_node root (FromOCI (blob "a"))).
Proof.
  destruct partial_run as [w' Hrun]. exists w'. split; [exact Hrun|].
  apply (Copy_skips_existing_root memory.wf memory.view (fun _ => True) (fun _ _ => True) memory.wf memory.view
    memory_Fetch_no_skip 2 source "v1" partial "v2" opts tt root w'
    (push_all_wf _ _ memory.New_wf)); [vm_compute; reflexivity|exact I|exact opts_user_ok| |exact Hrun|vm_compute; reflexivity].
  intros h Hh. discriminate Hh.
Defined.

(** A source whose index is followed by a further byte. *)
Definition trailing : memory.Store :=
  (memory.Tag root "v1" (memory.mkStore (cas.mkMemory {[FromOCI root := str_bytes "index!"]})
    resolver.NewMemory graph.NewMemory)).2.

Lemma Copy_blocks_on_trailing_data_witness :
  Copy 2 (Some trailing) "v1" (Some memory.New) "v2" opts tt = None.
Proof.
  apply (Copy_blocks_on_trailing_data 2 trailing "v1" memory.New "v2" opts tt root
    (bytes_NewReader (str_bytes "index!"))).
  - repeat split; vm_compute; reflexivity.
  - reflexivity.
  - vm_compute. discriminate.
  - vm_compute. reflexivity.
  - vm_compute. reflexivity.
Defined.
