(* ===== verification/ExtendedCopy.v ===== *)
(** [extendedcopy.go]: copying a node together with its predecessors, with the
    stack of [internal/copyutil/stack.go]. *)

From Stdlib Require Import ZArith Lia.
From S2P Require Import Prelude Errors Descriptor Reader Manifest Storage Proxy Sched Copy CopyCorrect.

(** ** [copyutil.Stack] *)

Module copyutil.

Record NodeInfo := mkNodeInfo { Node : OciDescriptor; Depth : Z }.

(** The slice; its last element is the top. *)
Notation Stack := (list NodeInfo).

Definition IsEmpty (s : Stack) : bool := Nat.eqb (length s) 0.
Definition Push (i : NodeInfo) (s : Stack) : Stack := s ++ [i].
Definition Pop (s : Stack) : option (NodeInfo * Stack) :=
  if IsEmpty s then None
  else
    let last := length s - 1 in
    top ← s !! last;
    Some (top, take last s).

Lemma Pop_spec s :
  match Pop s with
  | None => s = []
  | Some (top, s') => s = s' ++ [top]
  end.
Proof.
  unfold Pop, IsEmpty. destruct (Nat.eqb_spec (length s) 0) as [E|E]; [by apply nil_length_inv|].
  destruct (lookup_lt_is_Some_2 s (length s - 1)) as [top Htop]; [lia|]. rewrite Htop. simpl.
  rewrite <- (take_S_r _ _ _ Htop), firstn_all2; [done|lia].
Qed.

(** Last in, first out. *)
Lemma Pop_Push i s : Pop (Push i s) = Some (i, s).
Proof.
  pose proof (Pop_spec (Push i s)) as H. destruct (Pop (Push i s)) as [[top s']|].
  - by apply app_inj_tail in H as [-> ->].
  - by destruct s.
Qed.

End copyutil.

(** ** [findRoots] *)

(** A descriptor with a given key. *)
Definition ofKey (k : Descriptor) : OciDescriptor :=
  mkOci (kMediaType k) (kDigest k) (kSize k) [] None [] None EmptyString.

Lemma FromOCI_ofKey k : FromOCI (ofKey k) = k.
Proof. by destruct k. Qed.

Section FindRoots.
Context {MO : MapOrder}.
(** [opts.FindPredecessors] on the source storage, and [opts.Depth]. *)
Context (findPredecessors : OciDescriptor -> result (list OciDescriptor)) (depth : Z).

Definition addRoot (key : Descriptor) (val : OciDescriptor) (rootMap : gmap Descriptor OciDescriptor) :=
  match rootMap !! key with
  | Some _ => rootMap
  | None => <[key := val]> rootMap
  end.

(** Push the predecessors that have not been visited. *)
Definition push_predecessors (visited : gset Descriptor) (d : Z) (predecessors : list OciDescriptor)
    (stack : copyutil.Stack) : copyutil.Stack :=
  fold_left (fun stack predecessor =>
    if decide (FromOCI predecessor ∈ visited) then stack
    else copyutil.Push (copyutil.mkNodeInfo predecessor (d + 1)) stack) predecessors stack.

(** The loop of [findRoots]; [None] when the fuel runs out. *)
Fixpoint find_roots (fuel : nat) (visited : gset Descriptor) (rootMap : gmap Descriptor OciDescriptor)
    (stack : copyutil.Stack) : option (result (gmap Descriptor OciDescriptor)) :=
  match fuel with
  | O => None
  | S fuel' =>
      match copyutil.Pop stack with
      | None => Some (Ok rootMap)
      | Some (current, stack) =>
          let currentNode := copyutil.Node current in
          let currentKey := FromOCI currentNode in
          if decide (currentKey ∈ visited) then find_roots fuel' visited rootMap stack
          else
            let visited := {[currentKey]} ∪ visited in
            if ((0 <? depth) && (copyutil.Depth current =? depth))%Z
            then find_roots fuel' visited (addRoot currentKey currentNode rootMap) stack
            else
              match findPredecessors currentNode with
              | Err e => Some (Err (ECopy "FindPredecessors" CopyErrorOriginSource e))
              | Panic => Some Panic
              | Ok [] => find_roots fuel' visited (addRoot currentKey currentNode rootMap) stack
              | Ok predecessors =>
                  find_roots fuel' visited rootMap
                    (push_predecessors visited (copyutil.Depth current) predecessors stack)
              end
      end
  end.

Definition findRoots (fuel : nat) (node : OciDescriptor) : option (result (list OciDescriptor)) :=
  r ← find_roots fuel ∅ ∅ (copyutil.Push (copyutil.mkNodeInfo node 0) []);
  Some (rootMap ← r; Ok (snd <$> range_map rootMap)).

(** *** Lemmas *)

Hypothesis fp_key : forall d d', FromOCI d = FromOCI d' -> findPredecessors d = findPredecessors d'.

(** [b] is a predecessor of [a]. *)
Definition pred (a b : Descriptor) : Prop :=
  exists d l p, FromOCI d = a /\ findPredecessors d = Ok l /\ p ∈ l /\ FromOCI p = b.

Lemma push_predecessors_elem visited d ps stack i :
  i ∈ push_predecessors visited d ps stack <->
  i ∈ stack \/ exists p, p ∈ ps /\ FromOCI p ∉ visited /\ i = copyutil.mkNodeInfo p (d + 1).
Proof.
  unfold push_predecessors. revert stack. induction ps as [|p ps IH]; intros stack; simpl.
  - split; [by left|]. intros [?|(? & ?%elem_of_nil & _)]; done.
  - rewrite IH. case_decide as Hv.
    + split; [intros [?|(q & ? & ? & ?)]; [by left|right; exists q; split; [by right|done]]|].
      intros [?|(q & [->|?]%elem_of_cons & ? & ?)]; [by left|done|right; eauto].
    + unfold copyutil.Push. rewrite elem_of_app, list_elem_of_singleton. split.
      * intros [[?| ->]|(q & ? & ? & ?)]; [by left|right..].
        -- exists p. split; [by left|done].
        -- exists q. split; [by right|done].
      * intros [?|(q & [->|?]%elem_of_cons & ? & ?)]; [by auto|by auto|right; eauto].
Qed.

Lemma length_push_predecessors visited d ps stack :
  length (push_predecessors visited d ps stack) <= length stack + length ps.
Proof.
  unfold push_predecessors. revert stack. induction ps as [|p ps IH]; intros stack; simpl; [lia|].
  specialize (IH (if decide (FromOCI p ∈ visited) then stack
                  else copyutil.Push (copyutil.mkNodeInfo p (d + 1)) stack)).
  case_decide; [lia|]. unfold copyutil.Push in *. rewrite length_app in IH. simpl in IH. lia.
Qed.

(** The invariant of the loop when no depth limit is set. *)
Record roots_inv (start : Descriptor) (visited : gset Descriptor)
    (rootMap : gmap Descriptor OciDescriptor) (stack : copyutil.Stack) : Prop := {
  ri_visited : forall k, k ∈ visited -> rtc pred start k;
  ri_stack : forall i, i ∈ stack -> rtc pred start (FromOCI (copyutil.Node i));
  ri_roots : forall k d, rootMap !! k = Some d ->
    k ∈ visited /\ FromOCI d = k /\ findPredecessors d = Ok [];
  ri_done : forall d, FromOCI d ∈ visited -> exists l, findPredecessors d = Ok l
    /\ (l = [] -> is_Some (rootMap !! FromOCI d))
    /\ forall p, p ∈ l -> FromOCI p ∈ visited \/ exists i, i ∈ stack /\ FromOCI (copyutil.Node i) = FromOCI p;
  ri_start : start ∈ visited \/ exists i, i ∈ stack /\ FromOCI (copyutil.Node i) = start
}.

Section Unlimited.
Context (Hdepth : (depth <= 0)%Z).

Lemma roots_inv_skip start visited rootMap stack current :
  roots_inv start visited rootMap (stack ++ [current]) ->
  FromOCI (copyutil.Node current) ∈ visited -> roots_inv start visited rootMap stack.
Proof.
  intros [H1 H2 H3 H4 H5] Hv.
  assert (Hin : forall k, (exists i, i ∈ stack ++ [current] /\ FromOCI (copyutil.Node i) = k) ->
    k ∈ visited \/ exists i, i ∈ stack /\ FromOCI (copyutil.Node i) = k).
  { intros k (i & [?| ->%list_elem_of_singleton]%elem_of_app & <-); eauto. }
  split; try done.
  - intros i Hi. apply H2, elem_of_app. by left.
  - intros d Hd. destruct (H4 d Hd) as (l & Hl & Hr & Hp). exists l. split_and!; try done.
    intros p Hpl. destruct (Hp p Hpl); auto.
  - destruct H5; auto.
Qed.

Lemma roots_inv_visit start visited rootMap rootMap' stack stack' current l :
  roots_inv start visited rootMap (stack ++ [current]) ->
  FromOCI (copyutil.Node current) ∉ visited ->
  findPredecessors (copyutil.Node current) = Ok l ->
  rootMap' = match l with [] => addRoot (FromOCI (copyutil.Node current)) (copyutil.Node current) rootMap
                        | _ => rootMap end ->
  stack' = push_predecessors ({[FromOCI (copyutil.Node current)]} ∪ visited) (copyutil.Depth current) l stack ->
  roots_inv start ({[FromOCI (copyutil.Node current)]} ∪ visited) rootMap' stack'.
Proof.
  set (d0 := copyutil.Node current). intros [H1 H2 H3 H4 H5] Hnv Hl -> ->.
  assert (Hr0 : rtc pred start (FromOCI d0)).
  { apply (H2 current), elem_of_app. right. by apply list_elem_of_singleton. }
  assert (Hnone : rootMap !! FromOCI d0 = None).
  { destruct (rootMap !! FromOCI d0) eqn:E; [|done]. by apply H3 in E as [? _]. }
  assert (Hadd : forall k d, match l with [] => addRoot (FromOCI d0) d0 rootMap | _ => rootMap end !! k = Some d <->
     (rootMap !! k = Some d \/ (l = [] /\ k = FromOCI d0 /\ d = d0))).
  { intros k d. destruct l; [|naive_solver]. unfold addRoot. rewrite Hnone, lookup_insert_Some. split.
    - intros [[<- <-]|[? ?]]; auto.
    - intros [?|(_ & -> & ->)]; [right; split; [congruence|done]|by left]. }
  assert (Hst : forall k, (exists i, i ∈ stack ++ [current] /\ FromOCI (copyutil.Node i) = k) ->
    k ∈ ({[FromOCI d0]} ∪ visited : gset Descriptor)
    \/ exists i, i ∈ push_predecessors ({[FromOCI d0]} ∪ visited) (copyutil.Depth current) l stack
        /\ FromOCI (copyutil.Node i) = k).
  { intros k (i & [Hi| ->%list_elem_of_singleton]%elem_of_app & <-).
    - right. exists i. split; [|done]. apply push_predecessors_elem. by left.
    - left. fold d0. set_solver. }
  split.
  - intros k [->%elem_of_singleton|?]%elem_of_union; [done|by apply H1].
  - intros i [Hi|(p & Hp & _ & ->)]%push_predecessors_elem; [apply H2, elem_of_app; by left|].
    simpl. eapply rtc_r; [done|]. exists d0, l, p. done.
  - intros k d [Hk|(-> & -> & ->)]%Hadd; [|set_solver]. destruct (H3 k d Hk) as (? & ? & ?). set_solver.
  - intros d [Hd%elem_of_singleton|Hd]%elem_of_union.
    + exists l. split_and!; [by rewrite (fp_key d d0)| |].
      * intros ->. exists d0. apply Hadd. right. by rewrite Hd.
      * intros p Hp. destruct (decide (FromOCI p ∈ ({[FromOCI d0]} ∪ visited : gset Descriptor))); [by left|right].
        eexists. split; [apply push_predecessors_elem; right; by exists p|done].
    + destruct (H4 d Hd) as (l' & Hl' & Hr & Hp). exists l'. split_and!; [done| |].
      * intros ->. destruct (Hr eq_refl) as [d' Hd']. exists d'. apply Hadd. by left.
      * intros p Hpl. destruct (Hp p Hpl) as [?|Hi]; [left; set_solver|by apply Hst].
  - destruct H5 as [?|Hi]; [left; set_solver|by apply Hst].
Qed.

Lemma find_roots_spec fuel : forall start visited rootMap stack m,
  roots_inv start visited rootMap stack -> find_roots fuel visited rootMap stack = Some (Ok m) ->
  exists visited', roots_inv start visited' m [].
Proof.
  induction fuel as [|fuel IH]; intros start visited rootMap stack m Hinv; [done|]. cbn [find_roots].
  pose proof (copyutil.Pop_spec stack) as HP. destruct (copyutil.Pop stack) as [[current stack']|].
  2:{ intros [= <-]. subst stack. by exists visited. }
  subst stack. case_decide as Hv; [by apply IH, (roots_inv_skip _ _ _ _ current)|].
  assert ((0 <? depth)%Z = false) as -> by lia. simpl.
  destruct (findPredecessors (copyutil.Node current)) as [l|e|] eqn:Hl; [|done..].
  pose proof (roots_inv_visit start visited rootMap _ stack' _ current l Hinv Hv Hl eq_refl eq_refl) as Hinv'.
  destruct l; by apply IH.
Qed.

(** At the end every node reachable through predecessors has been visited. *)
Lemma roots_inv_visited start visited m :
  roots_inv start visited m [] -> forall k, rtc pred start k -> k ∈ visited.
Proof.
  intros [_ _ _ H4 H5].
  assert (Hno : forall k, (exists i : copyutil.NodeInfo, i ∈ [] /\ FromOCI (copyutil.Node i) = k) -> False)
    by (intros k (i & ?%elem_of_nil & _); done).
  assert (Hstart : start ∈ visited) by (destruct H5; [done|by destruct (Hno start)]).
  intros k Hk. clear H5. revert Hstart. induction Hk as [|a b c (d & l & p & <- & Hl & Hp & <-) _ IH]; [done|].
  intros Ha. apply IH. destruct (H4 d Ha) as (l' & Hl' & _ & Hps).
  assert (l' = l) as -> by congruence.
  destruct (Hps p Hp); [done|by destruct (Hno (FromOCI p))].
Qed.

(** The keys collected are the nodes reachable through predecessors that have
    no predecessor. *)
Lemma roots_inv_end start visited m :
  roots_inv start visited m [] ->
  forall k, is_Some (m !! k) <-> rtc pred start k /\ findPredecessors (ofKey k) = Ok [].
Proof.
  intros Hinv k. pose proof (roots_inv_visited _ _ _ Hinv) as Hall. destruct Hinv as [H1 _ H3 H4 _]. split.
  - intros [d Hd]. destruct (H3 k d Hd) as (Hv & Hk & Hp). split; [by apply H1|].
    rewrite (fp_key (ofKey k) d); [done|]. by rewrite FromOCI_ofKey.
  - intros [Hk%Hall Hnone]. rewrite <- (FromOCI_ofKey k) in Hk. destruct (H4 _ Hk) as (l & Hl & Hr & _).
    rewrite FromOCI_ofKey in Hr. apply Hr. congruence.
Qed.

(** The result of [findRoots]. *)
Lemma findRoots_spec fuel node roots :
  findRoots fuel node = Some (Ok roots) ->
  NoDup (FromOCI <$> roots)
  /\ (forall k, k ∈ FromOCI <$> roots <-> rtc pred (FromOCI node) k /\ findPredecessors (ofKey k) = Ok [])
  /\ (forall k, rtc pred (FromOCI node) k -> exists l, findPredecessors (ofKey k) = Ok l).
Proof.
  unfold findRoots. destruct (find_roots _ _ _ _) as [r|] eqn:Hf; [|done]. simpl.
  destruct r as [m|e|]; [|done..]. simpl. intros [= <-].
  edestruct (find_roots_spec fuel (FromOCI node)) as [visited Hinv]; [|exact Hf|].
  { split.
    - by intros k ?%not_elem_of_empty.
    - by intros i ->%list_elem_of_singleton.
    - intros k d. by rewrite lookup_empty.
    - by intros d ?%not_elem_of_empty.
    - right. exists (copyutil.mkNodeInfo node 0). split; [|done]. by apply list_elem_of_singleton. }
  assert (Hkeys : FromOCI <$> (snd <$> range_map m) = (range_map m).*1).
  { rewrite <- list_fmap_compose. apply list_fmap_ext. intros i [k d] Hi. simpl.
    apply list_elem_of_lookup_2, elem_of_range_map in Hi.
    by destruct (ri_roots _ _ _ _ Hinv k d Hi) as (_ & ? & _). }
  rewrite Hkeys. split_and!.
  - rewrite (range_map_perm m). apply NoDup_fst_map_to_list.
  - intros k. rewrite <- (roots_inv_end _ _ _ Hinv k), list_elem_of_fmap. split.
    + intros ([k' d] & -> & Hd%elem_of_range_map). by eexists.
    + intros [d Hd]. exists (k, d). split; [done|]. by apply elem_of_range_map.
  - intros k Hk%(roots_inv_visited _ _ _ Hinv). rewrite <- (FromOCI_ofKey k) in Hk.
    destruct (ri_done _ _ _ _ Hinv _ Hk) as (l & Hl & _). eauto.
Qed.

End Unlimited.

(** *** With a depth limit *)

(** The invariant with a limit: the stack holds the length of the path to each
    node, a root ends a path of the limit's length or has no predecessor, and a
    visited node is a root or all its predecessors are visited or wait. *)
Record depth_inv (start : Descriptor) (visited : gset Descriptor)
    (rootMap : gmap Descriptor OciDescriptor) (stack : copyutil.Stack) : Prop := {
  di_stack : forall i, i ∈ stack -> (0 <= copyutil.Depth i)%Z /\ ((0 < depth)%Z -> (copyutil.Depth i <= depth)%Z)
    /\ nsteps pred (Z.to_nat (copyutil.Depth i)) start (FromOCI (copyutil.Node i));
  di_roots : forall k d, rootMap !! k = Some d -> FromOCI d = k
    /\ exists n, nsteps pred n start k /\ ((0 < depth)%Z -> (Z.of_nat n <= depth)%Z)
       /\ (((0 < depth)%Z /\ Z.of_nat n = depth) \/ findPredecessors d = Ok []);
  di_done : forall d, FromOCI d ∈ visited -> is_Some (rootMap !! FromOCI d)
    \/ exists p l, findPredecessors d = Ok (p :: l)
       /\ (FromOCI p ∈ visited \/ exists i, i ∈ stack /\ FromOCI (copyutil.Node i) = FromOCI p);
  di_start : start ∈ visited \/ exists i, i ∈ stack /\ FromOCI (copyutil.Node i) = start
}.

Lemma waits_pop (visited : gset Descriptor) stack current (k : Descriptor) :
  FromOCI (copyutil.Node current) ∈ visited ->
  (k ∈ visited \/ exists i, i ∈ stack ++ [current] /\ FromOCI (copyutil.Node i) = k) ->
  k ∈ visited \/ exists i, i ∈ stack /\ FromOCI (copyutil.Node i) = k.
Proof.
  intros Hv [?|(i & [?| ->%list_elem_of_singleton]%elem_of_app & <-)]; eauto.
Qed.

(** Popping a node that is visited before or by this step; [rootMap'] may have
    gained it. *)
Lemma depth_inv_pop start visited visited' rootMap rootMap' stack current :
  depth_inv start visited rootMap (stack ++ [current]) ->
  visited ⊆ visited' -> FromOCI (copyutil.Node current) ∈ visited' ->
  (forall k d, rootMap' !! k = Some d -> rootMap !! k = Some d
     \/ (k = FromOCI (copyutil.Node current) /\ d = copyutil.Node current
         /\ (((0 < depth)%Z /\ copyutil.Depth current = depth) \/ findPredecessors d = Ok []))) ->
  (forall k, is_Some (rootMap !! k) -> is_Some (rootMap' !! k)) ->
  (forall k, k ∈ visited' -> k ∈ visited \/ is_Some (rootMap' !! k)) ->
  depth_inv start visited' rootMap' stack.
Proof.
  intros [H1 H2 H3 H4] Hsub Hcur Hroots Hmono Hnew.
  assert (Hc : current ∈ stack ++ [current]) by (apply elem_of_app; right; by apply list_elem_of_singleton).
  split.
  - intros i Hi. apply H1, elem_of_app. by left.
  - intros k d [Hk|(-> & -> & Hd)]%Hroots; [by apply H2|]. split; [done|].
    destruct (H1 current Hc) as (Hpos & Hle & Hn). exists (Z.to_nat (copyutil.Depth current)).
    rewrite Z2Nat.id by done. auto.
  - intros d [Hv|?]%Hnew; [|by left]. destruct (H3 d Hv) as [?|(p & l & Hl & Hp)]; [left; auto|right].
    exists p, l. split; [done|]. eapply waits_pop; [done|]. destruct Hp as [?|?]; [left; set_solver|by right].
  - eapply waits_pop; [done|]. destruct H4; [left; set_solver|by right].
Qed.

Lemma depth_inv_push start visited rootMap stack current p l :
  depth_inv start visited rootMap (stack ++ [current]) ->
  FromOCI (copyutil.Node current) ∉ visited ->
  ((0 < depth)%Z -> copyutil.Depth current <> depth) ->
  findPredecessors (copyutil.Node current) = Ok (p :: l) ->
  let visited' := {[FromOCI (copyutil.Node current)]} ∪ visited in
  depth_inv start visited' rootMap
    (push_predecessors visited' (copyutil.Depth current) (p :: l) stack).
Proof.
  intros [H1 H2 H3 H4] Hnv Hne Hl visited'.
  assert (Hc : current ∈ stack ++ [current]) by (apply elem_of_app; right; by apply list_elem_of_singleton).
  destruct (H1 current Hc) as (Hpos & Hle & Hn).
  assert (Hw : forall k, (k ∈ visited \/ exists i, i ∈ stack ++ [current] /\ FromOCI (copyutil.Node i) = k) ->
    k ∈ visited' \/ exists i, i ∈ push_predecessors visited' (copyutil.Depth current) (p :: l) stack
      /\ FromOCI (copyutil.Node i) = k).
  { intros k Hk. destruct (waits_pop visited' stack current k) as [?|(i & Hi & <-)]; [set_solver| |by left|right].
    - destruct Hk; [left; set_solver|by right].
    - exists i. split; [|done]. apply push_predecessors_elem. by left. }
  split.
  - intros i [Hi|(q & Hq & _ & ->)]%push_predecessors_elem; [apply H1, elem_of_app; by left|]. simpl.
    split_and!; [lia|intros Hd; specialize (Hle Hd); specialize (Hne Hd); lia|].
    replace (Z.to_nat (copyutil.Depth current + 1)) with (S (Z.to_nat (copyutil.Depth current))) by lia.
    eapply nsteps_r; [done|]. exists (copyutil.Node current), (p :: l), q. done.
  - done.
  - intros d [Hd%elem_of_singleton|Hd]%elem_of_union.
    + right. exists p, l. split; [by rewrite (fp_key d (copyutil.Node current))|].
      destruct (decide (FromOCI p ∈ visited')); [by left|right].
      eexists. split; [apply push_predecessors_elem; right; exists p; split; [by left|done]|done].
    + destruct (H3 d Hd) as [?|(q & l' & Hq & Hwq)]; [by left|right; exists q, l'; auto].
  - auto.
Qed.

Lemma addRoot_lookup k d m : forall k' d', addRoot k d m !! k' = Some d' -> m !! k' = Some d' \/ (k' = k /\ d' = d).
Proof.
  intros k' d'. unfold addRoot. destruct (m !! k); [by left|]. rewrite lookup_insert_Some. naive_solver.
Qed.
Lemma addRoot_mono k d m k' : is_Some (m !! k') -> is_Some (addRoot k d m !! k').
Proof. unfold addRoot. destruct (m !! k); [done|]. rewrite lookup_insert_is_Some. destruct (decide (k = k')); auto. Qed.
Lemma addRoot_has k d m : is_Some (addRoot k d m !! k).
Proof. unfold addRoot. destruct (m !! k) eqn:E; [by rewrite E|]. by rewrite lookup_insert_eq. Qed.

Lemma depth_inv_root start visited rootMap stack current :
  depth_inv start visited rootMap (stack ++ [current]) ->
  ((0 < depth)%Z /\ copyutil.Depth current = depth) \/ findPredecessors (copyutil.Node current) = Ok [] ->
  depth_inv start ({[FromOCI (copyutil.Node current)]} ∪ visited)
    (addRoot (FromOCI (copyutil.Node current)) (copyutil.Node current) rootMap) stack.
Proof.
  intros Hinv Hr. eapply depth_inv_pop; [done|set_solver|set_solver| | |].
  - intros k d [?|[-> ->]]%addRoot_lookup; auto.
  - intros k. apply addRoot_mono.
  - intros k [->%elem_of_singleton|?]%elem_of_union; [right; apply addRoot_has|by left].
Qed.

Lemma find_roots_depth fuel : forall start visited rootMap stack m,
  depth_inv start visited rootMap stack -> find_roots fuel visited rootMap stack = Some (Ok m) ->
  exists visited', depth_inv start visited' m [].
Proof.
  induction fuel as [|fuel IH]; intros start visited rootMap stack m Hinv; [done|]. cbn [find_roots].
  pose proof (copyutil.Pop_spec stack) as HP. destruct (copyutil.Pop stack) as [[current stack']|].
  2:{ intros [= <-]. subst stack. by exists visited. }
  subst stack. case_decide as Hv.
  { apply IH. eapply depth_inv_pop; [done|done|done|by left|done|by left]. }
  destruct ((0 <? depth) && (copyutil.Depth current =? depth))%Z eqn:Hlim.
  { apply IH, depth_inv_root; [done|]. left. lia. }
  destruct (findPredecessors (copyutil.Node current)) as [[|p l]|e|] eqn:Hl; [| |done..].
  - apply IH, depth_inv_root; auto.
  - apply IH. apply depth_inv_push; [done|done|lia|done].
Qed.

(** The roots with any limit: distinct, each reached by a path of predecessors not
    longer than the limit, and each either at the limit or without predecessor. *)
Lemma findRoots_depth fuel node roots :
  findRoots fuel node = Some (Ok roots) ->
  NoDup (FromOCI <$> roots)
  /\ (forall k, k ∈ FromOCI <$> roots -> exists n, nsteps pred n (FromOCI node) k
       /\ ((0 < depth)%Z -> (Z.of_nat n <= depth)%Z)
       /\ (((0 < depth)%Z /\ Z.of_nat n = depth) \/ findPredecessors (ofKey k) = Ok []))
  /\ exists visited : gset Descriptor, FromOCI node ∈ visited
       /\ forall k, k ∈ visited -> k ∈ FromOCI <$> roots \/ exists k', k' ∈ visited /\ pred k k'.
Proof.
  unfold findRoots. destruct (find_roots _ _ _ _) as [r|] eqn:Hf; [|done]. simpl.
  destruct r as [m|e|]; [|done..]. simpl. intros [= <-].
  edestruct (find_roots_depth fuel (FromOCI node)) as [visited Hinv]; [|exact Hf|].
  { split.
    - intros i ->%list_elem_of_singleton. simpl. split_and!; [lia|lia|constructor].
    - intros k d. by rewrite lookup_empty.
    - by intros d ?%not_elem_of_empty.
    - right. exists (copyutil.mkNodeInfo node 0). split; [|done]. by apply list_elem_of_singleton. }
  assert (Hkeys : FromOCI <$> (snd <$> range_map m) = (range_map m).*1).
  { rewrite <- list_fmap_compose. apply list_fmap_ext. intros i [k d] Hi. simpl.
    apply list_elem_of_lookup_2, elem_of_range_map in Hi.
    by destruct (di_roots _ _ _ _ Hinv k d Hi) as (? & _). }
  assert (Hin : forall k, k ∈ (range_map m).*1 <-> is_Some (m !! k)).
  { intros k. rewrite list_elem_of_fmap. split.
    - intros ([k' d] & -> & Hd%elem_of_range_map). by eexists.
    - intros [d Hd]. exists (k, d). split; [done|]. by apply elem_of_range_map. }
  rewrite Hkeys. split_and!.
  - rewrite (range_map_perm m). apply NoDup_fst_map_to_list.
  - intros k [d Hd]%Hin. destruct (di_roots _ _ _ _ Hinv k d Hd) as (Hk & n & Hn & Hle & Hlast).
    exists n. split_and!; [done..|]. destruct Hlast; [by left|right].
    rewrite (fp_key (ofKey k) d); [done|]. by rewrite FromOCI_ofKey.
  - assert (Hno : forall (k : Descriptor),
      (k ∈ visited \/ exists i : copyutil.NodeInfo, i ∈ [] /\ FromOCI (copyutil.Node i) = k) -> k ∈ visited)
      by (intros k [?|(i & ?%elem_of_nil & _)]; done).
    exists visited. split; [apply Hno, (di_start _ _ _ _ Hinv)|]. intros k Hk.
    rewrite <- (FromOCI_ofKey k) in Hk. destruct (di_done _ _ _ _ Hinv _ Hk) as [?|(p & l & Hl & Hp)].
    + left. apply Hin. by rewrite FromOCI_ofKey in *.
    + right. exists (FromOCI p). split; [by apply Hno|].
      exists (ofKey k), (p :: l), p. split_and!; [apply FromOCI_ofKey|done|by left|done].
Qed.

(** *** Termination *)

Context (U : list Descriptor) (HU : forall d l p, FromOCI d ∈ U -> findPredecessors d = Ok l -> p ∈ l -> FromOCI p ∈ U).

Definition npreds (k : Descriptor) : nat :=
  match findPredecessors (ofKey k) with Ok l => length l | _ => 0 end.

Definition unvisited (visited : gset Descriptor) (k : Descriptor) : bool := bool_decide (k ∉ visited).

Definition roots_measure (visited : gset Descriptor) (stack : copyutil.Stack) : nat :=
  length stack + sum_of (fun k => S (npreds k)) (List.filter (unvisited visited) U).

Lemma roots_measure_visit visited stack (d : OciDescriptor) l :
  FromOCI d ∈ U -> FromOCI d ∉ visited -> findPredecessors d = Ok l ->
  forall dd, roots_measure ({[FromOCI d]} ∪ visited) (push_predecessors ({[FromOCI d]} ∪ visited) dd l stack)
  < roots_measure visited (stack ++ [copyutil.mkNodeInfo d dd]).
Proof.
  intros HdU Hnv Hl dd. unfold roots_measure. rewrite length_app. simpl.
  pose proof (length_push_predecessors ({[FromOCI d]} ∪ visited) dd l stack) as Hlen.
  assert (Hrem : sum_of (fun k => S (npreds k)) (List.filter (unvisited ({[FromOCI d]} ∪ visited)) U) + S (npreds (FromOCI d))
    <= sum_of (fun k => S (npreds k)) (List.filter (unvisited visited) U)).
  { apply (sum_of_filter_remove (fun k => S (npreds k))); [|done|by apply bool_decide_eq_true|].
    - intros x. unfold unvisited. rewrite !bool_decide_eq_true. set_solver.
    - apply bool_decide_eq_false. set_solver. }
  assert (npreds (FromOCI d) = length l) as Hn.
  { unfold npreds. by rewrite (fp_key _ d), Hl by apply FromOCI_ofKey. }
  lia.
Qed.

Lemma find_roots_total fuel : forall visited rootMap stack,
  (forall i, i ∈ stack -> FromOCI (copyutil.Node i) ∈ U) -> roots_measure visited stack < fuel ->
  is_Some (find_roots fuel visited rootMap stack).
Proof.
  induction fuel as [|fuel IH]; intros visited rootMap stack Hst Hm; [lia|]. cbn [find_roots].
  pose proof (copyutil.Pop_spec stack) as HP. destruct (copyutil.Pop stack) as [[[d dd] stack']|]; [|by eexists].
  subst stack. simpl.
  assert (Hst' : forall i, i ∈ stack' -> FromOCI (copyutil.Node i) ∈ U).
  { intros i Hi. apply Hst, elem_of_app. by left. }
  assert (HdU : FromOCI d ∈ U).
  { apply (Hst (copyutil.mkNodeInfo d dd)), elem_of_app. right. by apply list_elem_of_singleton. }
  case_decide as Hv.
  { apply IH; [done|]. unfold roots_measure in *. rewrite length_app in Hm. simpl in Hm. lia. }
  destruct (_ && _) eqn:Hlim.
  { apply IH; [done|]. unfold roots_measure in *. rewrite length_app in Hm. simpl in Hm.
    assert (forall x, unvisited ({[FromOCI d]} ∪ visited) x = true -> unvisited visited x = true) as Hsub.
    { intros x. unfold unvisited. rewrite !bool_decide_eq_true. set_solver. }
    pose proof (sum_of_filter_le (fun k => S (npreds k)) _ _ U Hsub). lia. }
  destruct (findPredecessors d) as [l|e|] eqn:Hl; [|by eexists..].
  pose proof (roots_measure_visit visited stack' d l HdU Hv Hl dd) as Hlt.
  destruct l as [|p l]; [apply IH; [done|unfold push_predecessors in Hlt; simpl in Hlt; lia]|].
  apply IH; [|lia]. intros i [Hi|(q & Hq & _ & ->)]%push_predecessors_elem; [by apply Hst'|].
  by apply (HU d (p :: l)).
Qed.

(** The fuel that is enough for a graph with the nodes [U]. *)
Definition roots_fuel : nat := 2 + sum_of (fun k => S (npreds k)) U.

Lemma findRoots_total node fuel :
  FromOCI node ∈ U -> roots_fuel <= fuel -> is_Some (findRoots fuel node).
Proof.
  intros Hn Hf. unfold findRoots.
  destruct (find_roots_total fuel ∅ ∅ (copyutil.Push (copyutil.mkNodeInfo node 0) [])) as [r Hr].
  - by intros i ->%list_elem_of_singleton.
  - unfold roots_measure. simpl.
    pose proof (sum_of_filter_le (fun k => S (npreds k)) (fun _ => true) (unvisited ∅) U ltac:(done)) as Hle.
    assert (List.filter (fun _ : Descriptor => true) U = U) as HUU by (clear; induction U; simpl; congruence).
    rewrite HUU in Hle. unfold roots_fuel in Hf. lia.
  - rewrite Hr. simpl. by eexists.
Qed.

End FindRoots.

(** ** [ExtendedCopyGraph] and [ExtendedCopy] *)

(** [content.PredecessorFinder] and, by type assertion, [registry.ReferrerLister]:
    the pages passed to the callback and the error of the listing. *)
Class GraphSource (S : Type) := {
  gs_Predecessors : OciDescriptor -> S -> result (list OciDescriptor);
  gs_Referrers : option (OciDescriptor -> string -> S -> list (list OciDescriptor) * option error)
}.

Notation FindPredecessors_t S := (S -> OciDescriptor -> result (list OciDescriptor)).

Section ExtendedCopy.
Context {GD : GoDigest} {MJ : ManifestJSON} {MO : MapOrder}.
Context {S D U : Type} `{SS : Storage S} `{SD : Storage D} {TD : Target D} {SR : Source S} {GS : GraphSource S}.
Notation W := (world S D U).

Record ExtendedCopyGraphOptions := mkExtOpts {
  eo_graph : @CopyGraphOptions S D U;
  eo_Depth : Z;
  eo_FindPredecessors : option (FindPredecessors_t S)
}.

Definition default_FindPredecessors : FindPredecessors_t S := fun src desc => gs_Predecessors desc src.

(** [ExtendedCopyGraph], the goroutines of the roots run one after the other as
    in [copyGraph]. *)
Definition ExtendedCopyGraph (fuel : nat) (src : option S) (dst : option D) (node : OciDescriptor)
    (opts : ExtendedCopyGraphOptions) (u : U) : option (result unit * option W) :=
  match src, dst with
  | None, _ => Some (Err (ECopy "ExtendedCopyGraph" CopyErrorOriginSource (ENew "nil source target")), None)
  | _, None => Some (Err (ECopy "ExtendedCopyGraph" CopyErrorOriginDestination (ENew "nil destination target")), None)
  | Some src, Some dst =>
      let fp := default default_FindPredecessors (eo_FindPredecessors opts) in
      let w := new_world src dst (eo_graph opts) u in
      match findRoots (fp src) (eo_Depth opts) fuel node with
      | None => None
      | Some (Err e) => Some (Err e, Some w)
      | Some Panic => Some (Panic, Some w)
      | Some (Ok roots) =>
          match go_seq (fun root => copyGraph fuel root (eo_graph opts)) roots w with
          | None => None
          | Some (r, w') => Some (r, Some w')
          end
      end
  end.

Definition ExtendedCopy (fuel : nat) (src : option S) (srcRef : string) (dst : option D) (dstRef : string)
    (opts : ExtendedCopyGraphOptions) (u : U) : option (result OciDescriptor * option W) :=
  match src, dst with
  | None, _ => Some (Err (ECopy "ExtendedCopy" CopyErrorOriginSource (ENew "nil source target")), None)
  | _, None => Some (Err (ECopy "ExtendedCopy" CopyErrorOriginDestination (ENew "nil destination target")), None)
  | Some s, Some d =>
      let dstRef := if decide (dstRef = EmptyString) then srcRef else dstRef in
      match copy_err "Resolve" CopyErrorOriginSource (sc_Resolve srcRef s) with
      | Err e => Some (Err e, None)
      | Panic => Some (Panic, None)
      | Ok node =>
          match ExtendedCopyGraph fuel src dst node opts u with
          | Some (Ok _, Some w) =>
              match tag_root node dstRef w with
              | (Ok _, w') => Some (Ok node, Some w')
              | (Err e, w') => Some (Err e, Some w')
              | (Panic, w') => Some (Panic, Some w')
              end
          | Some (Ok _, None) => None
          | Some (Err e, w) => Some (Err e, w)
          | Some (Panic, w) => Some (Panic, w)
          | None => None
          end
      end
  end.

(** ** Filters of [FindPredecessors] *)

(** [encoding/json] on a stream: [json.NewDecoder(rc).Decode] into the fields the
    filters use; an absent annotations object is [None]. *)
Context (decode_annotations : Reader -> result (option (gmap string string)))
        (decode_artifact : Reader -> result Artifact) (decode_manifest : Reader -> result Manifest).

Definition fetchAnnotations (src : S) (desc : OciDescriptor) : result (gmap string string) :=
  rc ← st_Fetch desc src;
  annotations ← decode_annotations rc;
  Ok (default ∅ annotations).

Definition fetchArtifactType (src : S) (desc : OciDescriptor) : result string :=
  rc ← st_Fetch desc src;
  if String.eqb (MediaType desc) spec_MediaTypeArtifactManifest then
    manifest ← decode_artifact rc; Ok (a_ArtifactType manifest)
  else if String.eqb (MediaType desc) MediaTypeImageManifest then
    manifest ← decode_manifest rc; Ok (MediaType (m_Config manifest))
  else Ok EmptyString.

(** A [FindPredecessors] that keeps some predecessors: those of the wrapped
    function or of the storage, completed from their manifests where the
    descriptor lacks the filtered field, or else the pages of [Referrers]. *)
Definition filtered (fp : option (FindPredecessors_t S)) (keep : OciDescriptor -> bool)
    (complete : S -> OciDescriptor -> result OciDescriptor) : FindPredecessors_t S :=
  fun src desc =>
    match fp, gs_Referrers with
    | None, Some referrers =>
        let '(pages, err) := referrers desc EmptyString src in
        match err with
        | Some e => Err e
        | None => Ok (List.filter keep (concat pages))
        end
    | _, _ =>
        predecessors ← match fp with Some f => f src desc | None => gs_Predecessors desc src end;
        completed ← mapM (complete src) predecessors;
        Ok (List.filter keep completed)
    end.

Definition set_FindPredecessors (fp : FindPredecessors_t S) (opts : ExtendedCopyGraphOptions) :=
  mkExtOpts (eo_graph opts) (eo_Depth opts) (Some fp).

(** [FilterAnnotation]; [regex] is the compiled expression's [MatchString]. *)
Definition keep_annotation (key : string) (regex : option (string -> bool)) (desc : OciDescriptor) : bool :=
  match Annotations desc ≫= (fun m => m !! key) with
  | Some value => match regex with None => true | Some re => re value end
  | None => false
  end.

Definition complete_annotations (src : S) (p : OciDescriptor) : result OciDescriptor :=
  match Annotations p with
  | None =>
      if mem_string (MediaType p) [docker_MediaTypeManifest; MediaTypeImageManifest;
           docker_MediaTypeManifestList; MediaTypeImageIndex; spec_MediaTypeArtifactManifest]
      then annotations ← fetchAnnotations src p; Ok (set_Annotations (Some annotations) p)
      else Ok p
  | Some _ => Ok p
  end.

Definition FilterAnnotation (key : string) (regex : option (string -> bool))
    (opts : ExtendedCopyGraphOptions) : ExtendedCopyGraphOptions :=
  set_FindPredecessors
    (filtered (eo_FindPredecessors opts) (keep_annotation key regex) complete_annotations) opts.

(** [FilterArtifactType]. *)
Definition complete_artifactType (src : S) (p : OciDescriptor) : result OciDescriptor :=
  if String.eqb (ArtifactType p) EmptyString then
    if mem_string (MediaType p) [spec_MediaTypeArtifactManifest; MediaTypeImageManifest]
    then artifactType ← fetchArtifactType src p; Ok (set_ArtifactType artifactType p)
    else Ok p
  else Ok p.

Definition FilterArtifactType (regex : option (string -> bool)) (opts : ExtendedCopyGraphOptions)
    : ExtendedCopyGraphOptions :=
  match regex with
  | None => opts
  | Some re =>
      set_FindPredecessors
        (filtered (eo_FindPredecessors opts) (fun desc => re (ArtifactType desc)) complete_artifactType) opts
  end.

(** *** Lemmas *)

Lemma complete_annotations_key src p q : complete_annotations src p = Ok q -> FromOCI q = FromOCI p.
Proof.
  unfold complete_annotations. destruct (Annotations p); [by intros [= ->]|].
  destruct (mem_string _ _); [|by intros [= ->]]. intros H. inv_ok. by subst q.
Qed.

Lemma complete_artifactType_key src p q : complete_artifactType src p = Ok q -> FromOCI q = FromOCI p.
Proof.
  unfold complete_artifactType. destruct (String.eqb _ _); [|by intros [= ->]].
  destruct (mem_string _ _); [|by intros [= ->]]. intros H. inv_ok. by subst q.
Qed.

Lemma mapM_Ok {A B} (f : A -> result B) l k : mapM f l = Ok k <-> Forall2 (fun x y => f x = Ok y) l k.
Proof.
  revert k. induction l as [|x l IH]; intros k; simpl.
  - split; [intros [= <-]; constructor|inversion 1; done].
  - split.
    + intros H. inv_ok. subst k. constructor; [done|by apply IH].
    + inversion 1 as [|? y ? k' Hx Hl]; subst. rewrite Hx. simpl. apply IH in Hl. by rewrite Hl.
Qed.

(** What a filter returns when it wraps another function or a plain storage. *)
Lemma filtered_spec fp keep complete src desc res :
  fp <> None \/ gs_Referrers = None -> filtered fp keep complete src desc = Ok res ->
  exists ps, default default_FindPredecessors fp src desc = Ok ps
    /\ forall q, q ∈ res <-> keep q = true /\ exists p, p ∈ ps /\ complete src p = Ok q.
Proof.
  intros Hfp Hf.
  assert (Hf' : (predecessors ← default default_FindPredecessors fp src desc;
    completed ← mapM (complete src) predecessors; Ok (List.filter keep completed)) = Ok res).
  { revert Hf. unfold filtered. destruct fp as [f|]; [done|].
    destruct Hfp as [?|Hn]; [done|]. by rewrite Hn. }
  clear Hf. apply bind_Ok in Hf' as (ps & Hps & Hf). apply bind_Ok in Hf as (cs & Hcs & Hf).
  injection Hf as <-. exists ps. split; [done|]. apply mapM_Ok in Hcs. intros q.
  rewrite list_elem_of_In, filter_In, <- list_elem_of_In. split.
  - intros [[i Hi]%list_elem_of_lookup Hk]. split; [done|].
    destruct (Forall2_lookup_r _ _ _ _ _ Hcs Hi) as (p & Hp & ?). exists p. split; [|done].
    by eapply list_elem_of_lookup_2.
  - intros [Hk (p & [i Hi]%list_elem_of_lookup & Hc)]. split; [|done].
    destruct (Forall2_lookup_l _ _ _ _ _ Hcs Hi) as (q' & Hq & Hc').
    assert (q' = q) as -> by congruence. by eapply list_elem_of_lookup_2.
Qed.

End ExtendedCopy.

#[global] Arguments filtered : simpl never.
