(* ===== verification/ExtendedCopyCorrect.v ===== *)
(** Correctness of [extendedcopy.go]: the roots found, the graph copied, the
    filters. *)

From Stdlib Require Import ZArith Lia.
From S2P Require Import Prelude Errors Descriptor Reader Manifest Storage Proxy Graph MemoryStore.
From S2P Require Import Sched Copy CopyCorrect CopyExample ExtendedCopy.

Section FindRoots.
Context {MO : MapOrder} (findPredecessors : OciDescriptor -> result (list OciDescriptor)).

(** C10: [findRoots] on a finite graph.  It terminates, and unless a call of
    [FindPredecessors] fails it returns distinct roots: without a depth limit
    ([Depth <= 0]) exactly the nodes that can be reached from the given node
    through predecessors and have no predecessor themselves; with a limit, nodes
    reached by a path of predecessors that is not longer than the limit, each
    either at the end of a path of exactly that length or without predecessor. *)
Theorem findRoots_correct (depth : Z) (node : OciDescriptor) (nodes : list Descriptor) (fuel : nat)
    (Hkey : forall d d', FromOCI d = FromOCI d' -> findPredecessors d = findPredecessors d')
    (Hnode : FromOCI node ∈ nodes)
    (Hnodes : forall d l p, FromOCI d ∈ nodes -> findPredecessors d = Ok l -> p ∈ l -> FromOCI p ∈ nodes)
    (Hfuel : roots_fuel findPredecessors nodes <= fuel) :
  exists r, findRoots findPredecessors depth fuel node = Some r
    /\ forall roots, r = Ok roots ->
         NoDup (FromOCI <$> roots)
         /\ ((depth <= 0)%Z -> forall k, k ∈ FromOCI <$> roots <->
              rtc (pred findPredecessors) (FromOCI node) k /\ findPredecessors (ofKey k) = Ok [])
         /\ ((0 < depth)%Z -> forall k, k ∈ FromOCI <$> roots ->
              exists n, nsteps (pred findPredecessors) n (FromOCI node) k /\ (Z.of_nat n <= depth)%Z
                /\ (Z.of_nat n = depth \/ findPredecessors (ofKey k) = Ok [])).
Proof.
  destruct (findRoots_total findPredecessors depth Hkey nodes Hnodes node fuel Hnode Hfuel) as [r Hr].
  exists r. split; [done|]. intros roots ->.
  destruct (findRoots_depth findPredecessors depth Hkey fuel node roots Hr) as (Hnd & Hroots & _).
  split_and!; [done| |].
  - intros Hd. by destruct (findRoots_spec findPredecessors depth Hkey Hd fuel node roots Hr) as (_ & ? & _).
  - intros Hd k Hk. destruct (Hroots k Hk) as (n & Hn & Hle & Hlast). exists n. naive_solver.
Qed.

End FindRoots.

Section ExtendedCopy.
Context {GD : GoDigest} {MJ : ManifestJSON} {MO : MapOrder}.
Context {S D U : Type} `{SS : Storage S} `{SD : Storage D} {TD : Target D} {SR : Source S} {GS : GraphSource S}.
Context (inv : D -> Prop) (view : D -> Descriptor -> option bytes) (proper : Descriptor -> Prop).
Context (taggable : Descriptor -> string -> Prop).
Context `{DL : !DestLaws D inv view proper} `{TL : !TargetLaws D inv view proper taggable}.
Context (inv_s : S -> Prop) (view_s : S -> Descriptor -> option bytes).
Context `{SSL : !StorageLaws S inv_s view_s}.
Context (Hskip : forall d (s : S) e, st_Fetch d s = Err e -> errors_Is e skipSource = false).
Context (Hcr : forall d c c', verified d c -> verified d c' -> c = c').
Context (rank : Descriptor -> nat) (Hrank : forall a b, link a b -> rank b < rank a).
Notation W := (world S D U).

Lemma user_opts_ok (opts : @CopyGraphOptions S D U) : user_ok view opts -> opts_ok inv view inv_s opts.
Proof.
  intros Hu. split.
  - intros h Hh. by apply quiet_hook_ok, (uo_pre _ _ Hu).
  - intros h d w w' Hh _ _. by apply (uo_pre_skip _ _ Hu).
  - intros h d w e w' Hh _ _. by apply (uo_pre_err _ _ Hu).
  - intros h Hh. by apply quiet_hook_ok, (uo_post _ _ Hu).
  - intros h Hh. by apply quiet_hook_ok, (uo_skipped _ _ Hu).
  - intros h Hh. by apply quiet_hook_ok, (uo_mounted _ _ Hu).
  - intros h Hh. by apply quiet_hook_ok, (uo_mountFrom _ _ Hu).
Qed.

(** One goroutine per root: the nested [Go] calls are one. *)
Lemma go_seq_copyGraph fuel (opts : @CopyGraphOptions S D U) roots (w : W) :
  go_seq (fun root => copyGraph fuel root opts) roots w = go_seq (copy_fn fuel opts) roots w.
Proof.
  revert w. induction roots as [|r roots IH]; intros w; [done|]. simpl. unfold copyGraph at 1. simpl.
  destruct (copy_fn fuel opts r w) as [[[[]|e|] w1]|]; [apply IH|done..].
Qed.

(** After a successful run over the roots everything below them is stored. *)
Lemma go_roots_stored fuel (opts : @CopyGraphOptions S D U) roots (dst : D) (w w' : W) :
  user_ok view opts -> copy_inv inv view proper inv_s (had view dst) w -> w_tracker w = ∅ ->
  go_seq (copy_fn fuel opts) roots w = Some (Ok tt, w') ->
  copy_inv inv view proper inv_s (had view dst) w'
  /\ grew view w w'
  /\ forall r k, r ∈ FromOCI <$> roots -> (forall j, rtc link r j -> proper j) ->
       rtc (missing_link view dst) r k -> is_Some (view (w_dst w') k).
Proof.
  intros Hu Hw Htr Hgo. pose proof (user_opts_ok opts Hu) as Hok.
  assert (Hempty : forall d, above rank d w) by (intros d k; by rewrite Htr, lookup_empty).
  destruct (go_seq_total inv view proper taggable inv_s view_s Hskip Hcr (had view dst) opts Hok (uo_find _ _ Hu) rank fuel roots)
    with (w := w) as [_ Hr]; [|done|done|].
  { intros d w1 Hw1 Hab _.
    exact (copy_fn_total inv view proper taggable inv_s view_s Hskip Hcr _ opts Hok (uo_find _ _ Hu) rank Hrank fuel d w1 Hw1 Hab). }
  destruct (Hr w' Hgo) as [Hall _].
  destruct (go_seq_spec inv view proper inv_s (had view dst) _ roots
    (copy_fn_spec inv view proper taggable inv_s view_s Hskip Hcr _ opts Hok (uo_find _ _ Hu) fuel) w _ w' Hw Hgo) as [Hw' Hg].
  split_and!; [done..|]. intros r k (d & -> & Hd)%list_elem_of_fmap Hprop Hk.
  apply (reach_stored inv view proper inv_s dst (FromOCI d) k w' Hw'); [|done..].
  by apply (ci_done _ _ _ _ _ _ Hw' _ (Hall d Hd)), Hprop, rtc_refl.
Qed.

Section Run.
Context (fuel : nat) (src : S) (fp : OciDescriptor -> result (list OciDescriptor))
  (Hfuel : forall k, rank k < fuel) (Hpl : forall a b, pred fp a b -> link b a).

Lemma pred_link a b : rtc (pred fp) a b -> rtc link b a.
Proof. induction 1 as [|a b c Hab _ IH]; [done|]. eapply rtc_r; [done|by apply Hpl]. Qed.

(** Every ancestor has a root above it. *)
Lemma climb node n : (forall k, rtc (pred fp) node k -> exists l, fp (ofKey k) = Ok l) ->
  forall r, fuel - rank r <= n -> rtc (pred fp) node r ->
  exists R, rtc (pred fp) r R /\ fp (ofKey R) = Ok [].
Proof.
  intros Hok. induction n as [|n IH]; intros r Hn Hr; [specialize (Hfuel r); lia|].
  destruct (Hok r Hr) as [[|p l] Hl]; [by exists r|].
  assert (Hp : pred fp r (FromOCI p)).
  { exists (ofKey r), (p :: l), p. split_and!; [apply FromOCI_ofKey|done|by left|done]. }
  pose proof (Hrank _ _ (Hpl _ _ Hp)) as Hlt. pose proof (Hfuel (FromOCI p)).
  destruct (IH (FromOCI p)) as (R & HR & Hnil); [lia|by eapply rtc_r|].
  exists R. split; [|done]. by eapply rtc_l.
Qed.

(** Whatever the depth limit, some root is above the node. *)
Lemma climb_visited (roots : list Descriptor) (visited : gset Descriptor) n :
  (forall k, k ∈ visited -> k ∈ roots \/ exists k', k' ∈ visited /\ pred fp k k') ->
  forall r, fuel - rank r <= n -> r ∈ visited -> exists R, rtc (pred fp) r R /\ R ∈ roots.
Proof.
  intros Hv. induction n as [|n IH]; intros r Hn Hr; [specialize (Hfuel r); lia|].
  destruct (Hv r Hr) as [?|(k & Hk & Hp)]; [by exists r|].
  pose proof (Hrank _ _ (Hpl _ _ Hp)) as Hlt. pose proof (Hfuel k).
  destruct (IH k) as (R & HR & ?); [lia|done|]. exists R. split; [|done]. by eapply rtc_l.
Qed.

End Run.

(** C2: [ExtendedCopy] is correct.  When it returns a node, the destination
    reference resolves to it, nothing that was stored before is lost or changed,
    and for every root that [findRoots] gives, the destination holds what is
    reachable from the root through nodes that the destination did not hold
    before.  When the destination was complete - had the successors of what it
    held - it holds everything below the node, whatever [Depth] is, and without a
    depth limit ([Depth <= 0]) everything below any ancestor of the node: its
    referrers, the referrers of these and all their contents.  [FindSuccessors] is
    the default, the user's callbacks leave the destination, the proxy and the
    tracker alone, and [FindPredecessors] returns nodes that have the given node as
    a successor.  As for [Copy], a destination that finds content by the digest
    alone promises this for descriptors with the size and the media type of their
    content. *)
Theorem ExtendedCopy_correct fuel (src : S) srcRef (dst : D) dstRef
    (opts : @ExtendedCopyGraphOptions S D U) (u : U) node w'
    (Hdst : inv dst) (Hsrc : inv_s src)
    (Huser : user_ok view (eo_graph opts))
    (Hfuel : forall k, rank k < fuel)
    (Hkey : forall d d', FromOCI d = FromOCI d' ->
      default default_FindPredecessors (eo_FindPredecessors opts) src d
      = default default_FindPredecessors (eo_FindPredecessors opts) src d')
    (Hpl : forall a b,
      pred (default default_FindPredecessors (eo_FindPredecessors opts) src) a b -> link b a)
    (Hproper : forall r k, rtc (pred (default default_FindPredecessors (eo_FindPredecessors opts) src)) (FromOCI node) r ->
      rtc link r k -> proper k)
    (Htaggable : taggable (FromOCI node) (if decide (dstRef = EmptyString) then srcRef else dstRef))
    (Hrun : ExtendedCopy fuel (Some src) srcRef (Some dst) dstRef opts u = Some (Ok node, Some w')) :
  tagged (if decide (dstRef = EmptyString) then srcRef else dstRef) node w'
  /\ (forall k c, view dst k = Some c -> view (w_dst w') k = Some c)
  /\ (forall roots r k,
        findRoots (default default_FindPredecessors (eo_FindPredecessors opts) src) (eo_Depth opts) fuel node
          = Some (Ok roots) ->
        r ∈ FromOCI <$> roots -> rtc (missing_link view dst) r k -> is_Some (view (w_dst w') k))
  /\ (complete view proper dst ->
        (forall k, rtc link (FromOCI node) k -> is_Some (view (w_dst w') k))
        /\ ((eo_Depth opts <= 0)%Z ->
              forall r k, rtc (pred (default default_FindPredecessors (eo_FindPredecessors opts) src)) (FromOCI node) r ->
                rtc link r k -> is_Some (view (w_dst w') k))).
Proof.
  set (fp := default default_FindPredecessors (eo_FindPredecessors opts) src) in *.
  unfold ExtendedCopy in Hrun. set (ref := if decide _ then _ else _) in *.
  destruct (copy_err _ _ (sc_Resolve srcRef src)) as [n|e|]; try done.
  destruct (ExtendedCopyGraph _ _ _ _ _ _) as [[[[]|e|] [w1|]]|] eqn:HG; try done.
  unfold ExtendedCopyGraph in HG. fold fp in HG.
  destruct (findRoots fp _ fuel n) as [[roots|e|]|] eqn:HF; try done.
  rewrite go_seq_copyGraph in HG. set (w0 := new_world src dst (eo_graph opts) u) in *.
  destruct (go_seq _ roots w0) as [[r w1']|] eqn:HS; [|done]. injection HG as -> ->.
  destruct (go_roots_stored fuel (eo_graph opts) roots dst w0 w1 Huser) as (Hw1 & Hg & Hst);
    [by apply new_world_inv|done..|].
  destruct (tag_root n ref w1) as [[[]|e|] w2] eqn:HT; try done. injection Hrun as -> ->.
  pose proof (adds_tag_root inv view proper taggable node node ref w1 Htaggable) as HA. rewrite HT in HA. simpl in HA.
  pose proof (ad_mono _ _ _ _ _ HA (ci_inv _ _ _ _ _ _ Hw1)) as Hmono.
  destruct (findRoots_depth fp (eo_Depth opts) Hkey fuel node roots HF) as (_ & Hroots & visited & Hnode & Hvis).
  assert (Hanc : forall R, R ∈ FromOCI <$> roots -> rtc (pred fp) (FromOCI node) R).
  { intros R HR. destruct (Hroots R HR) as (n & Hn & _). by eapply rtc_nsteps_2. }
  assert (Hmiss : forall R k, R ∈ FromOCI <$> roots -> rtc (missing_link view dst) R k -> is_Some (view (w_dst w') k)).
  { intros R k HR Hk. destruct (Hst R k HR) as [c Hc]; [|done|eauto]. intros j. by apply Hproper, Hanc. }
  assert (Hm' : forall k c, view dst k = Some c -> view (w_dst w') k = Some c).
  { intros k c Hk. by apply Hmono, (gw_view _ _ _ Hg). }
  assert (Hall : complete view proper dst -> forall R r k, R ∈ FromOCI <$> roots -> rtc (pred fp) r R ->
    rtc link r k -> is_Some (view (w_dst w') k)).
  { intros Hc R r k HR Hr Hk.
    destruct (reach_complete view proper dst R k Hc) as [[c ?]|?]; [|by transitivity r; [apply (pred_link fp Hpl)|]| |eauto].
    - intros j. by apply Hproper, Hanc.
    - eauto. }
  split_and!; [by eapply (tag_root_tagged inv view proper taggable); [done|apply Hw1|exact HT]|done| |].
  { intros roots' R k HF'. assert (roots' = roots) as -> by congruence. apply Hmiss. }
  intros Hc. split.
  - intros k Hk. destruct (climb_visited fuel fp Hfuel Hpl _ visited fuel Hvis (FromOCI node)) as (R & HR & Hin); [lia|done|].
    by eapply Hall.
  - intros Hdepth r k Hr Hk.
    destruct (findRoots_spec fp (eo_Depth opts) Hkey Hdepth fuel node roots HF) as (_ & Hex & Hok).
    destruct (climb fuel fp Hfuel Hpl (FromOCI node) fuel Hok r) as (R & HR & Hnil); [lia|done|].
    eapply (Hall Hc R); [|done..]. apply Hex. split; [|done]. by transitivity r.
Qed.

(** The predecessor filters.  [FilterArtifactType] followed by
    [FilterAnnotation] - over a function set by the caller, or over a storage
    without a referrers API - returns only predecessors that the unfiltered
    function returns, with the annotation present and matching, and whose
    artifact type matches. *)
Theorem Filter_compose decode_annotations decode_artifact decode_manifest
    (opts : @ExtendedCopyGraphOptions S D U) (re : string -> bool) key regex src desc res q
    (Hplain : eo_FindPredecessors opts <> None \/ gs_Referrers = (None : option (OciDescriptor -> string -> S -> _)))
    (Hres : default default_FindPredecessors
       (eo_FindPredecessors (FilterAnnotation decode_annotations key regex
         (FilterArtifactType decode_artifact decode_manifest (Some re) opts))) src desc = Ok res)
    (Hq : q ∈ res) :
  keep_annotation key regex q = true
  /\ exists p q1 ps, default default_FindPredecessors (eo_FindPredecessors opts) src desc = Ok ps /\ p ∈ ps
    /\ FromOCI q = FromOCI p
    /\ complete_artifactType decode_artifact decode_manifest src p = Ok q1 /\ re (ArtifactType q1) = true
    /\ complete_annotations decode_annotations src q1 = Ok q.
Proof.
  unfold FilterAnnotation in Hres. simpl in Hres. apply filtered_spec in Hres as (ps1 & Hps1 & Hres); [|by left].
  apply Hres in Hq as [Hk (q1 & Hq1 & Hc1)]. split; [done|]. simpl in Hps1.
  apply filtered_spec in Hps1 as (ps & Hps & Hps1); [|done].
  apply Hps1 in Hq1 as [Hre (p & Hp & Hc)]. exists p, q1, ps. split_and!; try done.
  rewrite (complete_annotations_key _ _ _ _ Hc1). by apply complete_artifactType_key in Hc.
Qed.

End ExtendedCopy.

(** ** The example graph, copied from one of its blobs *)

Import HexDigest example.

#[export] Instance memory_GraphSource : GraphSource memory.Store := {|
  gs_Predecessors d s := Ok (memory.Predecessors d s);
  gs_Referrers := None
|}.

(** Blob "a" has the index as its only predecessor. *)
Definition example_preds (d : OciDescriptor) : result (list OciDescriptor) :=
  if decide (FromOCI d = FromOCI (blob "a")) then Ok [root] else Ok [].

Lemma example_preds_key d d' : FromOCI d = FromOCI d' -> example_preds d = example_preds d'.
Proof. unfold example_preds. by intros ->. Qed.

Lemma example_preds_link a b : pred example_preds a b -> link b a.
Proof.
  intros (d & l & p & <- & Hl & Hp & <-). unfold example_preds in Hl. case_decide as Hd; injection Hl as <-;
    [|by apply elem_of_nil in Hp]. apply list_elem_of_singleton in Hp as ->. rewrite Hd.
  exists root, (str_bytes "index"), [blob "a"; blob "b"], (blob "a"). split_and!; try done.
  - split; [done|]. eexists. split; [reflexivity|]. vm_compute. reflexivity.
  - rewrite removeForeignLayers_spec. by left.
Qed.

Lemma findRoots_correct_witness :
  exists r, findRoots example_preds 0 10 (blob "a") = Some r
    /\ forall roots, r = Ok roots -> NoDup (FromOCI <$> roots)
      /\ forall k, k ∈ FromOCI <$> roots <->
           rtc (pred example_preds) (FromOCI (blob "a")) k /\ example_preds (ofKey k) = Ok [].
Proof.
  destruct (findRoots_correct example_preds 0 (blob "a") [FromOCI (blob "a"); FromOCI root] 10 example_preds_key) as (r & Hr & Hroots).
  - apply list_elem_of_here.
  - intros d l p _ Hl Hp. unfold example_preds in Hl. destruct (decide _); injection Hl as <-.
    + apply list_elem_of_singleton in Hp as ->. apply list_elem_of_further, list_elem_of_here.
    + destruct (proj1 (elem_of_nil _) Hp).
  - vm_compute. lia.
  - exists r. split; [exact Hr|]. intros roots Hok. destruct (Hroots roots Hok) as (Hnd & Hex & _).
    split; [exact Hnd|]. apply Hex. lia.
Defined.

Definition tagged_source : memory.Store := (memory.Tag (blob "a") "a" source).2.

Lemma tagged_source_wf : memory.wf tagged_source.
Proof. apply memory.memory_Tag_wf, source_wf. Qed.

Definition ext_opts : @ExtendedCopyGraphOptions memory.Store memory.Store unit :=
  mkExtOpts DefaultCopyGraphOptions 0 (Some (fun _ => example_preds)).

Lemma ext_run : exists w', ExtendedCopy 10 (Some tagged_source) "a" (Some memory.New) EmptyString ext_opts tt
  = Some (Ok (blob "a"), Some w').
Proof.
  assert (H : match ExtendedCopy 10 (Some tagged_source) "a" (Some memory.New) EmptyString ext_opts tt with
              | Some (Ok d, Some _) => bool_decide (d = blob "a")
              | _ => false
              end = true) by (vm_compute; reflexivity).
  destruct (ExtendedCopy _ _ _ _ _ _ _) as [[[d|e|] [w'|]]|]; try discriminate H.
  apply bool_decide_eq_true in H as ->. eauto.
Qed.

Lemma ExtendedCopy_correct_witness :
  exists w', ExtendedCopy 10 (Some tagged_source) "a" (Some memory.New) EmptyString ext_opts tt
      = Some (Ok (blob "a"), Some w')
    /\ tagged "a" (blob "a") w' /\ is_Some (memory.view (w_dst w') (FromOCI root)).
Proof.
  destruct ext_run as [w' Hrun]. exists w'. split; [exact Hrun|].
  assert (Hf : forall k, height k < 10) by (intros k; unfold height; destruct (String.eqb _ _); lia).
  destruct (ExtendedCopy_correct memory.wf memory.view (fun _ => True) (fun _ _ => True) memory.wf memory.view memory_Fetch_no_skip
    hex_collision_free height link_height 10 tagged_source "a" memory.New EmptyString ext_opts tt (blob "a") w'
    memory.New_wf tagged_source_wf opts_user_ok Hf example_preds_key
    example_preds_link (fun _ _ _ _ => I) I Hrun) as (Ht & _ & _ & Hst).
  split; [exact Ht|]. destruct (Hst new_complete) as [_ Hanc].
  apply (Hanc (Z.le_refl 0) (FromOCI root) (FromOCI root)); [|constructor].
  apply rtc_once. exists (blob "a"), [root], root. split_and!; [reflexivity| |apply list_elem_of_here|reflexivity].
  unfold example_preds. destruct (decide _) as [|n]; [reflexivity|destruct n; reflexivity].
Defined.

Definition annotated : OciDescriptor :=
  mkOci MediaTypeImageManifest "d" 1 [] (Some {["k" := "v"]}) [] None "t".

Definition filter_opts : @ExtendedCopyGraphOptions memory.Store memory.Store unit :=
  mkExtOpts DefaultCopyGraphOptions 0 (Some (fun _ _ => Ok [annotated])).

Lemma Filter_compose_witness :
  keep_annotation "k" (Some (String.eqb "v")) annotated = true.
Proof.
  destruct (Filter_compose (fun _ => Err (ENew "eof")) (fun _ => Err (ENew "eof")) (fun _ => Err (ENew "eof"))
    filter_opts (String.eqb "t") "k" (Some (String.eqb "v")) memory.New (blob "a") [annotated] annotated) as [H _].
  - left. discriminate.
  - reflexivity.
  - apply list_elem_of_here.
  - exact H.
Defined.
