(* ===== verification/GoStrings.v ===== *)
(** The parts of Go's [strings] and [regexp] packages that the registry code
    uses, over byte strings. *)

From Stdlib Require Import Ascii String ZArith Lia.
From stdpp Require Import sorting.
From S2P Require Import Prelude.

Definition chars (s : string) : list ascii := String.list_ascii_of_string s.
Definition of_chars (l : list ascii) : string := String.string_of_list_ascii l.

Lemma of_chars_chars s : of_chars (chars s) = s.
Proof. apply String.string_of_list_ascii_of_string. Qed.
Lemma chars_of_chars l : chars (of_chars l) = l.
Proof. apply String.list_ascii_of_string_of_list_ascii. Qed.

Lemma chars_app s t : chars (s +:+ t) = chars s ++ chars t.
Proof. induction s as [|a s IH]; simpl; [done|]. by rewrite IH. Qed.

Lemma string_app_nil_r s : s +:+ EmptyString = s.
Proof. induction s as [|a s IH]; [done|]. by apply (f_equal (String.String a)). Qed.

Lemma string_app_assoc s t u : (s +:+ t) +:+ u = s +:+ (t +:+ u).
Proof. induction s as [|a s IH]; [done|]. by apply (f_equal (String.String a)). Qed.

Lemma string_app_cons s c t u : (s +:+ String.String c t) +:+ u = s +:+ String.String c (t +:+ u).
Proof. exact (string_app_assoc s (String.String c t) u). Qed.

(** [strings.Contains(s, c)] for a one-byte [c]. *)
Definition has_char (c : ascii) (s : string) : bool := existsb (Ascii.eqb c) (chars s).

Lemma has_char_spec c s : has_char c s = true <-> In c (chars s).
Proof.
  unfold has_char. rewrite existsb_exists. split.
  - intros (x & Hx & ->%Ascii.eqb_eq). done.
  - intros Hc. exists c. split; [done|]. apply Ascii.eqb_refl.
Qed.

Lemma has_char_app c s t : has_char c (s +:+ t) = has_char c s || has_char c t.
Proof. unfold has_char. by rewrite chars_app, existsb_app. Qed.

(** [strings.Cut(s, c)]: split at the first [c]. *)
Fixpoint cut (c : ascii) (s : string) : option (string * string) :=
  match s with
  | EmptyString => None
  | String.String a s' =>
      if Ascii.eqb a c then Some (EmptyString, s')
      else match cut c s' with
           | Some (l, r) => Some (String.String a l, r)
           | None => None
           end
  end.

Lemma cut_Some c s l r :
  cut c s = Some (l, r) -> s = l +:+ String.String c r /\ has_char c l = false.
Proof.
  revert l r. induction s as [|a s IH]; intros l r; simpl; [done|].
  destruct (Ascii.eqb a c) eqn:E.
  - apply Ascii.eqb_eq in E as ->. by intros [= <- <-].
  - destruct (cut c s) as [[l' r']|]; [|done]. intros [= <- <-].
    destruct (IH l' r' eq_refl) as [-> Hl]. split; [done|].
    unfold has_char in *. simpl. by rewrite Hl, orb_false_r, Ascii.eqb_sym.
Qed.

Lemma cut_None c s : cut c s = None <-> has_char c s = false.
Proof.
  induction s as [|a s IH]; simpl; [done|]. unfold has_char. simpl. rewrite Ascii.eqb_sym.
  destruct (Ascii.eqb c a) eqn:E; simpl; [done|].
  destruct (cut c s) as [[l r]|]; [|by rewrite <- IH].
  split; [done|]. intros H. by apply IH in H.
Qed.

Lemma cut_app c l r : has_char c l = false -> cut c (l +:+ String.String c r) = Some (l, r).
Proof.
  unfold has_char. induction l as [|a l IH]; simpl; intros H.
  - by rewrite Ascii.eqb_refl.
  - apply orb_false_iff in H as [Ha Hl]. rewrite Ascii.eqb_sym, Ha. by rewrite IH.
Qed.

(** Split at the last [c] ([strings.LastIndex]). *)
Fixpoint cut_last (c : ascii) (s : string) : option (string * string) :=
  match s with
  | EmptyString => None
  | String.String a s' =>
      match cut_last c s' with
      | Some (l, r) => Some (String.String a l, r)
      | None => if Ascii.eqb a c then Some (EmptyString, s') else None
      end
  end.

Lemma cut_last_None c s : cut_last c s = None <-> has_char c s = false.
Proof.
  induction s as [|a s IH]; simpl; [done|]. unfold has_char in *. simpl. rewrite (Ascii.eqb_sym c a).
  destruct (cut_last c s) as [[l r]|] eqn:E.
  - split; [done|]. intros [_ H]%orb_false_iff. by apply IH in H.
  - rewrite (proj1 IH eq_refl), orb_false_r. by destruct (Ascii.eqb a c); split.
Qed.

Lemma cut_last_Some c s l r :
  cut_last c s = Some (l, r) -> s = l +:+ String.String c r /\ has_char c r = false.
Proof.
  revert l r. induction s as [|a s IH]; intros l r; simpl; [done|].
  destruct (cut_last c s) as [[l' r']|] eqn:E.
  - intros [= <- <-]. destruct (IH l' r' eq_refl) as [-> Hr]. done.
  - destruct (Ascii.eqb_spec a c) as [->|]; [|done]. intros [= <- <-]. split; [done|].
    by apply cut_last_None.
Qed.

Lemma cut_last_app c l r : has_char c r = false -> cut_last c (l +:+ String.String c r) = Some (l, r).
Proof.
  intros Hr. induction l as [|a l IH]; simpl.
  - by rewrite (proj2 (cut_last_None c r) Hr), Ascii.eqb_refl.
  - by rewrite IH.
Qed.

(** [slices.Sort] on strings: ascending by bytes. *)
Definition sort_strings (l : list string) : list string := merge_sort stdpp.strings.String.le l.

Lemma sort_strings_sorted l : Sorted stdpp.strings.String.le (sort_strings l).
Proof. apply Sorted_merge_sort, _. Qed.

Lemma sort_strings_perm l : sort_strings l ≡ₚ l.
Proof. apply merge_sort_Permutation. Qed.

(** The sorted list is determined by the elements. *)
Lemma sorted_unique l l' :
  Sorted stdpp.strings.String.le l -> Sorted stdpp.strings.String.le l' -> l ≡ₚ l' -> l = l'.
Proof. apply (Sorted_unique stdpp.strings.String.le). Qed.

Lemma sort_strings_unique l l' : Sorted stdpp.strings.String.le l' -> l ≡ₚ l' -> sort_strings l = l'.
Proof.
  intros Hs Hp. apply sorted_unique; [apply sort_strings_sorted|done|]. by rewrite sort_strings_perm.
Qed.

(** [strings.Split(s, c)]: all the pieces between the [c]s. *)
Fixpoint split_chars (c : ascii) (l : list ascii) : list (list ascii) :=
  match l with
  | [] => [[]]
  | a :: l' =>
      if Ascii.eqb a c then [] :: split_chars c l'
      else match split_chars c l' with
           | [] => [[a]]
           | p :: ps => (a :: p) :: ps
           end
  end.

Definition Split (c : ascii) (s : string) : list string := of_chars <$> split_chars c (chars s).

(** [strings.Join(l, c)]. *)
Fixpoint Join (c : ascii) (l : list string) : string :=
  match l with
  | [] => EmptyString
  | [s] => s
  | s :: l' => s +:+ String.String c (Join c l')
  end.

Lemma split_chars_ne c l : split_chars c l <> [].
Proof. destruct l as [|a l]; simpl; [done|]. destruct (Ascii.eqb a c), (split_chars c l); done. Qed.

Lemma Split_nil c : Split c EmptyString = [EmptyString].
Proof. done. Qed.

Lemma Split_app c s t : has_char c s = false -> Split c (s +:+ String.String c t) = s :: Split c t.
Proof.
  unfold Split. rewrite chars_app. induction s as [|a s IH]; intros Hs.
  - simpl. by rewrite Ascii.eqb_refl.
  - unfold has_char in Hs. simpl in Hs. apply orb_false_iff in Hs as [Ha Hs].
    simpl. rewrite Ascii.eqb_sym, Ha. specialize (IH Hs).
    destruct (split_chars c (chars s ++ _)) as [|p ps] eqn:E; [by apply split_chars_ne in E|].
    simpl in *. injection IH as IH1 IH2. by rewrite IH1, IH2.
Qed.

Lemma Split_single c s : has_char c s = false -> Split c s = [s].
Proof.
  unfold Split. induction s as [|a s IH]; intros Hs; [done|].
  unfold has_char in Hs. simpl in Hs. apply orb_false_iff in Hs as [Ha Hs].
  simpl. rewrite Ascii.eqb_sym, Ha. specialize (IH Hs).
  destruct (split_chars c (chars s)) as [|p ps] eqn:E; [by apply split_chars_ne in E|].
  simpl in *. injection IH as IH1 IH2. destruct ps; [by rewrite IH1|done].
Qed.

(** Splitting what was joined gives the pieces back. *)
Lemma Split_Join c l :
  l <> [] -> (forall s, s ∈ l -> has_char c s = false) -> Split c (Join c l) = l.
Proof.
  induction l as [|s l IH]; intros Hne Hl; [done|].
  destruct l as [|s' l'].
  - simpl. apply Split_single, Hl. by left.
  - change (Join c (s :: s' :: l')) with (s +:+ String.String c (Join c (s' :: l'))).
    rewrite Split_app by (apply Hl; by left). f_equal. apply IH; [done|]. intros x Hx. apply Hl. by right.
Qed.

(** A character range of a regular expression class. *)
Definition in_range (lo hi c : ascii) : bool :=
  (N_of_ascii lo <=? N_of_ascii c)%N && (N_of_ascii c <=? N_of_ascii hi)%N.

(** ** Regular expressions *)

Inductive re :=
| RNone
| REps
| RClass (p : ascii -> bool)
| RSeq (r1 r2 : re)
| RAlt (r1 r2 : re)
| RStar (r : re).

(** [r+], [r{0,n}] and a literal byte. *)
Definition RPlus (r : re) : re := RSeq r (RStar r).
Fixpoint RUpTo (n : nat) (r : re) : re :=
  match n with O => REps | S n' => RAlt REps (RSeq r (RUpTo n' r)) end.
Definition RLit (c : ascii) : re := RClass (Ascii.eqb c).

Inductive matches : re -> list ascii -> Prop :=
| m_eps : matches REps []
| m_class p c : p c = true -> matches (RClass p) [c]
| m_seq r1 r2 l1 l2 : matches r1 l1 -> matches r2 l2 -> matches (RSeq r1 r2) (l1 ++ l2)
| m_alt_l r1 r2 l : matches r1 l -> matches (RAlt r1 r2) l
| m_alt_r r1 r2 l : matches r2 l -> matches (RAlt r1 r2) l
| m_star_nil r : matches (RStar r) []
| m_star_cons r l1 l2 : matches r l1 -> matches (RStar r) l2 -> matches (RStar r) (l1 ++ l2).

Fixpoint nullable (r : re) : bool :=
  match r with
  | RNone | RClass _ => false
  | REps | RStar _ => true
  | RSeq r1 r2 => nullable r1 && nullable r2
  | RAlt r1 r2 => nullable r1 || nullable r2
  end.

Fixpoint deriv (c : ascii) (r : re) : re :=
  match r with
  | RNone | REps => RNone
  | RClass p => if p c then REps else RNone
  | RSeq r1 r2 =>
      if nullable r1 then RAlt (RSeq (deriv c r1) r2) (deriv c r2) else RSeq (deriv c r1) r2
  | RAlt r1 r2 => RAlt (deriv c r1) (deriv c r2)
  | RStar r => RSeq (deriv c r) (RStar r)
  end.

(** Remove what cannot match, to keep derivatives small. *)
Definition seq' (r1 r2 : re) : re :=
  match r1, r2 with
  | RNone, _ | _, RNone => RNone
  | REps, r => r
  | _, _ => RSeq r1 r2
  end.
Definition alt' (r1 r2 : re) : re :=
  match r1, r2 with
  | RNone, r => r
  | r, RNone => r
  | _, _ => RAlt r1 r2
  end.

Fixpoint simp (r : re) : re :=
  match r with
  | RSeq r1 r2 => seq' (simp r1) (simp r2)
  | RAlt r1 r2 => alt' (simp r1) (simp r2)
  | r => r
  end.

Fixpoint re_run (r : re) (l : list ascii) : bool :=
  match l with
  | [] => nullable r
  | c :: l' => re_run (simp (deriv c r)) l'
  end.

(** [MatchString] of an expression anchored at both ends. *)
Definition MatchString (r : re) (s : string) : bool := re_run r (chars s).

Lemma nullable_spec r : nullable r = true <-> matches r [].
Proof.
  split.
  - induction r; simpl; try done; intros H.
    + constructor.
    + apply andb_true_iff in H as [H1 H2]. change (@nil ascii) with (@nil ascii ++ []). constructor; auto.
    + apply orb_true_iff in H as [H|H]; [apply m_alt_l|apply m_alt_r]; auto.
    + constructor.
  - remember [] as l eqn:El. induction 1; simpl; subst; try done.
    + apply app_eq_nil in El as [-> ->]. by rewrite IHmatches1, IHmatches2.
    + by rewrite IHmatches.
    + rewrite IHmatches by done. apply orb_true_r.
Qed.

Lemma deriv_spec c r l : matches (deriv c r) l <-> matches r (c :: l).
Proof.
  split.
  - revert l. induction r; intros l H; simpl in H; try (by inversion H).
    + destruct (p c) eqn:E; [|by inversion H]. inversion H; subst. by constructor.
    + destruct (nullable r1) eqn:E.
      * inversion H as [| | |? ? ? H1|? ? ? H2| |]; subst.
        -- inversion H1; subst. change (c :: l1 ++ l2) with ((c :: l1) ++ l2). constructor; auto.
        -- change (c :: l) with ([] ++ c :: l). constructor; [by apply nullable_spec|auto].
      * inversion H; subst. change (c :: l1 ++ l2) with ((c :: l1) ++ l2). constructor; auto.
    + inversion H; subst; [apply m_alt_l|apply m_alt_r]; auto.
    + inversion H as [| |? ? l1 l2 H1 H2| | | |]; subst.
      change (c :: l1 ++ l2) with ((c :: l1) ++ l2). apply m_star_cons; auto.
  - remember (c :: l) as l' eqn:El. intros H. revert c l El.
    induction H as [|p x Hp|r1 r2 l1 l2 H1 IH1 H2 IH2|r1 r2 l0 H IH|r1 r2 l0 H IH|r|r l1 l2 H1 IH1 H2 IH2];
      intros c l El; simpl; try done.
    + injection El as -> <-. rewrite Hp. constructor.
    + destruct l1 as [|x l1]; simpl in El.
      * subst l2. apply nullable_spec in H1. rewrite H1. apply m_alt_r. by apply IH2.
      * injection El as -> <-. assert (matches (RSeq (deriv c r1) r2) (l1 ++ l2)) by (constructor; [by apply IH1|done]).
        destruct (nullable r1); [by apply m_alt_l|done].
    + apply m_alt_l. by apply IH.
    + apply m_alt_r. by apply IH.
    + destruct l1 as [|x l1]; simpl in El; [by apply IH2|].
      injection El as -> <-. constructor; [by apply IH1|done].
Qed.

Lemma seq'_spec r1 r2 l : matches (seq' r1 r2) l <-> matches (RSeq r1 r2) l.
Proof.
  assert (Hn : forall r l, matches RNone l -> matches r l) by (intros r l0 H; inversion H).
  assert (Hl : forall r l, matches (RSeq RNone r) l <-> matches RNone l).
  { intros r l0. split; [|apply Hn]. inversion 1 as [| |? ? ? ? H1 H2| | | |]; inversion H1. }
  assert (Hr : forall r l, matches (RSeq r RNone) l <-> matches RNone l).
  { intros r l0. split; [|apply Hn]. inversion 1 as [| |? ? ? ? _ H2| | | |]; subst. inversion H2. }
  assert (He : forall r l, matches r l <-> matches (RSeq REps r) l).
  { intros r l0. split.
    - intros H. change l0 with ([] ++ l0). constructor; [constructor|done].
    - inversion 1 as [| |? ? ? ? H1 H2| | | |]; subst. by inversion H1; subst. }
  destruct r1; simpl; try (by rewrite Hl); destruct r2; simpl; try done; try (by rewrite Hr); apply He.
Qed.

Lemma alt'_spec r1 r2 l : matches (alt' r1 r2) l <-> matches (RAlt r1 r2) l.
Proof.
  assert (Hl : forall r l, matches r l <-> matches (RAlt RNone r) l).
  { intros r l0. split; [apply m_alt_r|]. inversion 1 as [| | |? ? ? H1|? ? ? H1| |]; subst; [inversion H1|done]. }
  assert (Hr : forall r l, matches r l <-> matches (RAlt r RNone) l).
  { intros r l0. split; [apply m_alt_l|]. inversion 1 as [| | |? ? ? H1|? ? ? H1| |]; subst; [done|inversion H1]. }
  destruct r1; simpl; try apply Hl; destruct r2; simpl; try done; apply Hr.
Qed.

Lemma simp_spec r l : matches (simp r) l <-> matches r l.
Proof.
  revert l. induction r as [| | |r1 IH1 r2 IH2|r1 IH1 r2 IH2|r IH]; intros l; simpl; try done.
  - rewrite seq'_spec. split; inversion 1; subst; constructor; by (apply IH1 || apply IH2).
  - rewrite alt'_spec. split; inversion 1; subst;
      first [by apply m_alt_l, IH1 | by apply m_alt_r, IH2].
Qed.

(** The matcher decides the relation. *)
Lemma re_run_spec r l : re_run r l = true <-> matches r l.
Proof.
  revert r. induction l as [|c l IH]; intros r; simpl; [apply nullable_spec|].
  by rewrite IH, simp_spec, deriv_spec.
Qed.

Lemma MatchString_spec r s : MatchString r s = true <-> matches r (chars s).
Proof. apply re_run_spec. Qed.

(** The bytes an expression can match. *)
Fixpoint alphabet (r : re) (c : ascii) : bool :=
  match r with
  | RNone | REps => false
  | RClass p => p c
  | RSeq r1 r2 | RAlt r1 r2 => alphabet r1 c || alphabet r2 c
  | RStar r => alphabet r c
  end.

Lemma matches_alphabet r l : matches r l -> forall c, In c l -> alphabet r c = true.
Proof.
  induction 1 as [|p x Hp|r1 r2 l1 l2 _ IH1 _ IH2|r1 r2 l _ IH|r1 r2 l _ IH|r|r l1 l2 _ IH1 _ IH2];
    intros c Hc; simpl; try done.
  - by destruct Hc as [<-|[]].
  - apply in_app_iff in Hc as [Hc|Hc]; [by rewrite IH1|by rewrite IH2, orb_true_r].
  - by rewrite IH.
  - by rewrite IH, orb_true_r.
  - apply in_app_iff in Hc as [Hc|Hc]; [by apply IH1|by apply IH2].
Qed.

Lemma MatchString_no_char r s c : MatchString r s = true -> alphabet r c = false -> has_char c s = false.
Proof.
  intros Hm%MatchString_spec Ha. apply not_true_iff_false. intros Hc%has_char_spec.
  pose proof (matches_alphabet _ _ Hm c Hc). congruence.
Qed.
