(* ===== verification/Reference.v ===== *)
(** Artifact references: [registry/reference.go].  The repository and tag
    expressions are run by the matcher of [GoStrings]; the registry is checked
    against the host that Go's [net/url] extracts. *)

From Stdlib Require Import Ascii String ZArith Lia.
From S2P Require Import Prelude Errors Descriptor GoStrings.

#[local] Open Scope char_scope.

(** ** The host of a request URI ([net/url]) *)
Module url.

Definition is_digit (c : ascii) : bool := in_range "0" "9" c.
Definition is_lower (c : ascii) : bool := in_range "a" "z" c.
Definition is_upper (c : ascii) : bool := in_range "A" "Z" c.
Definition is_alnum (c : ascii) : bool := is_lower c || is_upper c || is_digit c.
Definition one_of (l : list ascii) (c : ascii) : bool := existsb (Ascii.eqb c) l.

(** A byte below 0x20, or 0x7f. *)
Definition is_ctl (c : ascii) : bool := (N_of_ascii c <? 32)%N || (N_of_ascii c =? 127)%N.

(** [!shouldEscape(c, encodeHost)], and bytes from 0x80 on. *)
Definition host_char (c : ascii) : bool :=
  is_alnum c || (128 <=? N_of_ascii c)%N
  || one_of ["-"; "_"; "."; "~"; "!"; "$"; "&"; "'"; "("; ")"; "*"; "+"; ","; ";"; "="; ":";
             "["; "]"; "<"; ">"; ascii_of_N 34] c.

Definition unhex (c : ascii) : option N :=
  let n := N_of_ascii c in
  if is_digit c then Some (n - 48)%N
  else if in_range "a" "f" c then Some (n - 87)%N
  else if in_range "A" "F" c then Some (n - 55)%N
  else None.

(** [unescape(s, encodeHost)] ([zone = false]) and [unescape(s, encodeZone)]:
    in a host only non-ASCII bytes and the percent sign may be escaped; in a
    zone also the bytes that need no escape, the space included. *)
Fixpoint unescape (zone : bool) (l : list ascii) : option (list ascii) :=
  match l with
  | [] => Some []
  | a :: l' =>
      if Ascii.eqb a "%" then
        match l' with
        | h1 :: h2 :: l'' =>
            n1 ← unhex h1;
            n2 ← unhex h2;
            let c := ascii_of_N (16 * n1 + n2) in
            if Ascii.eqb c "%" || (if zone then host_char c || Ascii.eqb c " " else (8 <=? n1)%N)
            then cons c <$> unescape zone l''
            else None
        | _ => None
        end
      else if host_char a then cons a <$> unescape zone l' else None
  end.

(** [validOptionalPort]. *)
Definition validOptionalPort (port : list ascii) : bool :=
  match port with
  | [] => true
  | c :: ds => Ascii.eqb c ":" && forallb is_digit ds
  end.

(** The suffix of [l] after the last [c], and what comes before it:
    [strings.LastIndex]. *)
Fixpoint cut_last (c : ascii) (l : list ascii) : option (list ascii * list ascii) :=
  match l with
  | [] => None
  | a :: l' =>
      match cut_last c l' with
      | Some (p, q) => Some (a :: p, q)
      | None => if Ascii.eqb a c then Some ([], l') else None
      end
  end.

(** The part of [l] before the first ["%25"], and from it on. *)
Fixpoint cut_zone (l : list ascii) : option (list ascii * list ascii) :=
  match l with
  | [] => None
  | a :: l' =>
      if bool_decide (take 3 l = ["%"; "2"; "5"]) then Some ([], l)
      else match cut_zone l' with Some (p, q) => Some (a :: p, q) | None => None end
  end.

Definition parse_bracket_host (host : list ascii) : option (list ascii) :=
  '(p, colonPort) ← cut_last "]" host;
  if negb (validOptionalPort colonPort) then None
  else match cut_zone p with
       | Some (h, z) =>
           host1 ← unescape false h;
           host2 ← unescape true z;
           host3 ← unescape false ("]" :: colonPort);
           Some (host1 ++ host2 ++ host3)
       | None => unescape false host
       end.

Definition parseHost (host : list ascii) : option (list ascii) :=
  if bool_decide (head host = Some "[") then parse_bracket_host host
  else match cut_last ":" host with
       | Some (_, port) =>
           if negb (validOptionalPort (":" :: port)) then None else unescape false host
       | None => unescape false host
       end.

(** The bytes before the first byte that satisfies [f]. *)
Fixpoint until (f : ascii -> bool) (l : list ascii) : list ascii :=
  match l with
  | [] => []
  | a :: l' => if f a then [] else a :: until f l'
  end.

(** [url.ParseRequestURI("dummy://" + s)] and its [Host]: the query and the path
    are cut off, the user information before the last ["@"] is dropped.  An
    error of the user information or of the path escapes is not modelled: with
    either of them the host differs from [s]. *)
Definition ParseRequestURI_Host (s : string) : option string :=
  if existsb is_ctl (chars s) then None
  else
    let rest := until (Ascii.eqb "?") (chars s) in
    let authority := until (Ascii.eqb "/") rest in
    let host := match cut_last "@" authority with Some (_, h) => h | None => authority end in
    of_chars <$> parseHost host.

Lemma unescape_length_lt zone n l r :
  length l <= n -> unescape zone l = Some r -> length r <= length l.
Proof.
  revert l r. induction n as [|n IH]; intros [|a l] r Hn; simpl in *; try lia;
    try (intros [= <-]; simpl; lia).
  destruct (Ascii.eqb a "%").
  - destruct l as [|h1 [|h2 l]]; try done. simpl in *.
    destruct (unhex h1) as [n1|]; [|done]. destruct (unhex h2) as [n2|]; [|done]. simpl.
    case_match; [|done]. destruct (unescape zone l) as [r'|] eqn:E; [|done].
    intros [= <-]. apply IH in E; simpl; lia.
  - destruct (host_char a); [|done]. destruct (unescape zone l) as [r'|] eqn:E; [|done].
    intros [= <-]. apply IH in E; simpl; lia.
Qed.

Lemma unescape_length zone l r : unescape zone l = Some r -> length r <= length l.
Proof. by apply unescape_length_lt with (n := length l). Qed.

Lemma cut_last_length c l p q : cut_last c l = Some (p, q) -> length l = S (length p + length q).
Proof.
  revert p q. induction l as [|a l IH]; intros p q; simpl; [done|].
  destruct (cut_last c l) as [[p' q']|].
  - intros [= <- <-]. simpl. by rewrite (IH p' q' eq_refl).
  - destruct (Ascii.eqb a c); [|done]. intros [= <- <-]. done.
Qed.

Lemma cut_zone_length l p q : cut_zone l = Some (p, q) -> length l = length p + length q.
Proof.
  revert p q. induction l as [|a l IH]; intros p q; [done|]. cbn [cut_zone].
  case_bool_decide; [by intros [= <- <-]|].
  destruct (cut_zone l) as [[p' q']|]; [|done]. intros [= <- <-]. simpl. by rewrite (IH p' q' eq_refl).
Qed.

Lemma parse_bracket_host_length l r : parse_bracket_host l = Some r -> length r <= length l.
Proof.
  unfold parse_bracket_host. destruct (cut_last "]" l) as [[p port]|] eqn:E; [|done].
  cbn [mbind option_bind]. destruct (validOptionalPort port); cbn [negb]; [|done].
  destruct (cut_zone p) as [[h z]|] eqn:Z; [|apply unescape_length].
  destruct (unescape false h) as [h1|] eqn:E1; [|done]. cbn [mbind option_bind].
  destruct (unescape true z) as [h2|] eqn:E2; [|done]. cbn [mbind option_bind].
  destruct (unescape false ("]" :: port)) as [h3|] eqn:E3; [|done].
  cbn [mbind option_bind]. intros [= <-]. apply cut_last_length in E. apply cut_zone_length in Z.
  apply unescape_length in E1, E2, E3. rewrite !length_app. simpl in *. lia.
Qed.

Lemma parseHost_length l r : parseHost l = Some r -> length r <= length l.
Proof.
  unfold parseHost. case_bool_decide; [apply parse_bracket_host_length|].
  repeat case_match; try done; apply unescape_length.
Qed.

Lemma until_length f l : length (until f l) <= length l.
Proof. induction l as [|a l IH]; simpl; [done|]. destruct (f a); simpl; lia. Qed.

Lemma until_full f l : length l <= length (until f l) -> existsb f l = false.
Proof.
  induction l as [|a l IH]; simpl; [done|]. destruct (f a); simpl; [lia|]. intros. apply IH. lia.
Qed.

Lemma existsb_until f l a : existsb (Ascii.eqb a) (until f l) = false -> f a = false ->
  existsb f l = false -> existsb (Ascii.eqb a) l = false.
Proof.
  intros H Ha. induction l as [|b l IH]; simpl in *; [done|]. intros [Hb Hl]%orb_false_iff.
  rewrite Hb in H. simpl in H. apply orb_false_iff in H as [-> H]. simpl. auto.
Qed.

(** A string that is its own host has no path. *)
Lemma Host_no_slash s : ParseRequestURI_Host s = Some s -> has_char "/" s = false.
Proof.
  unfold ParseRequestURI_Host. destruct (existsb is_ctl (chars s)); [done|]. cbn.
  set (rest := until (Ascii.eqb "?") (chars s)). set (au := until (Ascii.eqb "/") rest).
  set (h := match cut_last "@" au with Some (_, h) => h | None => au end).
  destruct (parseHost h) as [r|] eqn:E; [|done]. cbn. intros [= Hs].
  apply parseHost_length in E.
  assert (length r = length (chars s)) as Hr by (by rewrite <- Hs, chars_of_chars).
  assert (length h <= length au) as Hh.
  { unfold h. destruct (cut_last "@" au) as [[p q]|] eqn:C; [|done].
    apply cut_last_length in C. lia. }
  assert (length au <= length rest) as Hau by apply until_length.
  assert (length rest <= length (chars s)) by apply until_length.
  unfold has_char. apply existsb_until with (f := Ascii.eqb "?"); [|done|].
  - apply until_full. unfold au, rest in *. lia.
  - apply until_full. fold rest. lia.
Qed.

End url.

(** ** References *)
Module registry.

(** [[a-z0-9]], [\w] and [[\w.-]]. *)
Definition lower_digit (c : ascii) : bool := url.is_lower c || url.is_digit c.
Definition word_char (c : ascii) : bool := url.is_alnum c || Ascii.eqb c "_".
Definition tag_char (c : ascii) : bool := word_char c || url.one_of ["."; "-"] c.

(** A path component of a repository: runs of lower-case letters and digits
    separated by one of [.], [_], [__] or any number of dashes. *)
Definition name_component : re :=
  let alnum := RPlus (RClass lower_digit) in
  let separator :=
    RAlt (RClass (url.one_of ["."; "_"])) (RAlt (RSeq (RLit "_") (RLit "_")) (RStar (RLit "-"))) in
  RSeq alnum (RStar (RSeq separator alnum)).

Definition repositoryRegexp : re :=
  RSeq name_component (RStar (RSeq (RLit "/") name_component)).
Definition tagRegexp : re := RSeq (RClass word_char) (RUpTo 127 (RClass tag_char)).

Record Reference := mkReference {
  Registry : string;
  Repository : string;
  Ref : string
}.

#[export] Instance Reference_eq_dec : EqDecision Reference.
Proof. solve_decision. Defined.

Section with_digest.
Context {GD : GoDigest}.

Definition invalid (what : string) : result unit := Err (EWrap what ErrInvalidReference).

Definition ValidateRegistry (r : Reference) : result unit :=
  match url.ParseRequestURI_Host (Registry r) with
  | None => invalid "invalid registry"
  | Some h =>
      if String.eqb h EmptyString || negb (String.eqb h (Registry r))
      then invalid "invalid registry"
      else Ok tt
  end.

Definition ValidateRepository (r : Reference) : result unit :=
  if negb (MatchString repositoryRegexp (Repository r)) then invalid "invalid repository" else Ok tt.

Definition ValidateReferenceAsTag (r : Reference) : result unit :=
  if negb (MatchString tagRegexp (Ref r)) then invalid "invalid tag" else Ok tt.

(** [digest.Parse(r.Reference)]. *)
Definition Reference_Digest (r : Reference) : result string :=
  if digest_Validate (Ref r) then Ok (Ref r) else Err (ENew "invalid checksum digest").

Definition ValidateReferenceAsDigest (r : Reference) : result unit :=
  match Reference_Digest r with Ok _ => Ok tt | _ => invalid "invalid digest" end.

Definition ValidateReference (r : Reference) : result unit :=
  if String.eqb (Ref r) EmptyString then Ok tt
  else if has_char ":" (Ref r) then ValidateReferenceAsDigest r
  else ValidateReferenceAsTag r.

Definition Validate (r : Reference) : result unit :=
  _ ← ValidateRegistry r; _ ← ValidateRepository r; ValidateReference r.

Definition Host (r : Reference) : string :=
  if String.eqb (Registry r) "docker.io" then "registry-1.docker.io" else Registry r.

Definition ReferenceOrDefault (r : Reference) : string :=
  if String.eqb (Ref r) EmptyString then "latest" else Ref r.

(** [Reference.String]. *)
Definition Reference_String (r : Reference) : string :=
  if String.eqb (Repository r) EmptyString then Registry r
  else
    let ref := Registry r +:+ String.String "/" (Repository r) in
    if String.eqb (Ref r) EmptyString then ref
    else match Reference_Digest r with
         | Ok d => ref +:+ String.String "@" d
         | _ => ref +:+ String.String ":" (Ref r)
         end.

(** How [ParseReference] splits a path: repository, reference, [isTag]. *)
Definition split_path (path : string) : string * string * bool :=
  match cut "@" path with
  | Some (repository, reference) =>
      match cut ":" repository with
      | Some (repository, _) => (repository, reference, false)
      | None => (repository, reference, false)
      end
  | None =>
      match cut ":" path with
      | Some (repository, reference) => (repository, reference, true)
      | None => (path, EmptyString, false)
      end
  end.

(** The checks of [ParseReference] after the split. *)
Definition check_parts (ref : Reference) (isTag : bool) : result Reference :=
  _ ← ValidateRegistry ref;
  _ ← ValidateRepository ref;
  if String.eqb (Ref ref) EmptyString then Ok ref
  else
    _ ← (if isTag then ValidateReferenceAsTag ref else ValidateReferenceAsDigest ref);
    Ok ref.

Definition ParseReference (artifact : string) : result Reference :=
  match cut "/" artifact with
  | None => Err (EWrap "missing registry or repository" ErrInvalidReference)
  | Some (registry, path) =>
      let '(repository, reference, isTag) := split_path path in
      check_parts (mkReference registry repository reference) isTag
  end.

(** *** Lemmas *)

Lemma ValidateRegistry_Ok r :
  ValidateRegistry r = Ok tt <->
  url.ParseRequestURI_Host (Registry r) = Some (Registry r) /\ Registry r <> EmptyString.
Proof.
  unfold ValidateRegistry. destruct (url.ParseRequestURI_Host (Registry r)) as [h|]; [|by split; [|intros []]].
  destruct (String.eqb_spec h EmptyString) as [->|Hne]; simpl.
  - split; [done|]. intros [[= H] H']. by destruct H'.
  - destruct (String.eqb_spec h (Registry r)) as [->|]; simpl; [done|].
    split; [done|]. intros [[= ->] _]. done.
Qed.

Lemma registry_no_slash r : ValidateRegistry r = Ok tt -> has_char "/" (Registry r) = false.
Proof. intros [H _]%ValidateRegistry_Ok. by apply url.Host_no_slash. Qed.

Lemma ValidateRepository_Ok r :
  ValidateRepository r = Ok tt <-> MatchString repositoryRegexp (Repository r) = true.
Proof. unfold ValidateRepository. by destruct (MatchString _ _). Qed.

Lemma ValidateReferenceAsTag_Ok r :
  ValidateReferenceAsTag r = Ok tt <-> MatchString tagRegexp (Ref r) = true.
Proof. unfold ValidateReferenceAsTag. by destruct (MatchString _ _). Qed.

Lemma ValidateReferenceAsDigest_Ok r :
  ValidateReferenceAsDigest r = Ok tt <-> digest_Validate (Ref r) = true.
Proof. unfold ValidateReferenceAsDigest, Reference_Digest. by destruct (digest_Validate _). Qed.

Lemma repository_no_at r : ValidateRepository r = Ok tt -> has_char "@" (Repository r) = false.
Proof. intros H%ValidateRepository_Ok. by apply (MatchString_no_char _ _ _ H). Qed.

Lemma repository_no_colon r : ValidateRepository r = Ok tt -> has_char ":" (Repository r) = false.
Proof. intros H%ValidateRepository_Ok. by apply (MatchString_no_char _ _ _ H). Qed.

Lemma repository_nonempty r : ValidateRepository r = Ok tt -> Repository r <> EmptyString.
Proof. intros H%ValidateRepository_Ok E. by rewrite E in H. Qed.

Lemma tag_no_at r : ValidateReferenceAsTag r = Ok tt -> has_char "@" (Ref r) = false.
Proof. intros H%ValidateReferenceAsTag_Ok. by apply (MatchString_no_char _ _ _ H). Qed.

Lemma tag_no_colon r : ValidateReferenceAsTag r = Ok tt -> has_char ":" (Ref r) = false.
Proof. intros H%ValidateReferenceAsTag_Ok. by apply (MatchString_no_char _ _ _ H). Qed.

Lemma Validate_Ok r :
  Validate r = Ok tt <->
  ValidateRegistry r = Ok tt /\ ValidateRepository r = Ok tt /\ ValidateReference r = Ok tt.
Proof.
  unfold Validate. destruct (ValidateRegistry r) as [[]| |], (ValidateRepository r) as [[]| |]; naive_solver.
Qed.

Context {GL : GoDigestLaws GD}.

Lemma digest_has_colon d : digest_Validate d = true -> has_char ":" d = true.
Proof.
  intros Hd. rewrite (digest_split d Hd), has_char_app, has_char_app. simpl. apply orb_true_r.
Qed.

(** The reference of a valid [Reference] is empty, a digest or a tag, never two
    of them. *)
Lemma ValidateReference_cases r :
  ValidateReference r = Ok tt <->
  Ref r = EmptyString \/ (Ref r <> EmptyString /\ digest_Validate (Ref r) = true)
  \/ (Ref r <> EmptyString /\ digest_Validate (Ref r) = false /\ ValidateReferenceAsTag r = Ok tt).
Proof.
  unfold ValidateReference. destruct (String.eqb_spec (Ref r) EmptyString) as [->|Hne]; [tauto|].
  destruct (has_char ":" (Ref r)) eqn:Hc.
  - rewrite ValidateReferenceAsDigest_Ok. split; [auto|].
    intros [|[[_ H]|(_ & _ & H%tag_no_colon)]]; [done|done|congruence].
  - assert (digest_Validate (Ref r) = false) as Hd.
    { apply not_true_iff_false. intros H%digest_has_colon. congruence. }
    rewrite Hd. split; [auto|]. intros [|[[_ ]|(_ & _ & H)]]; done.
Qed.

(** The grammar of the doc comment of [ParseReference]: the four valid forms of a
    path.  In form B the tag is any text.  An empty reference is accepted after
    the separator of any form. *)
Inductive artifact (r : Reference) : string -> Prop :=
| form_A : Ref r = EmptyString \/ digest_Validate (Ref r) = true ->
    artifact r (Registry r +:+ String.String "/" (Repository r +:+ String.String "@" (Ref r)))
| form_B t : has_char "@" t = false -> Ref r = EmptyString \/ digest_Validate (Ref r) = true ->
    artifact r (Registry r +:+ String.String "/"
      (Repository r +:+ String.String ":" (t +:+ String.String "@" (Ref r))))
| form_C : Ref r = EmptyString \/ MatchString tagRegexp (Ref r) = true ->
    artifact r (Registry r +:+ String.String "/" (Repository r +:+ String.String ":" (Ref r)))
| form_D : Ref r = EmptyString ->
    artifact r (Registry r +:+ String.String "/" (Repository r)).

Lemma parse_checks r isTag res :
  check_parts r isTag = Ok res <->
  r = res /\ ValidateRegistry r = Ok tt /\ ValidateRepository r = Ok tt /\
  (Ref r = EmptyString \/
   if isTag then MatchString tagRegexp (Ref r) = true else digest_Validate (Ref r) = true).
Proof.
  transitivity (r = res /\ ValidateRegistry r = Ok tt /\ ValidateRepository r = Ok tt /\
    (Ref r = EmptyString \/
     (if isTag then ValidateReferenceAsTag r else ValidateReferenceAsDigest r) = Ok tt));
    unfold check_parts; [|by destruct isTag; rewrite ?ValidateReferenceAsTag_Ok, ?ValidateReferenceAsDigest_Ok].
  destruct (ValidateRegistry r) as [[]| |]; cbn [mbind outcome_bind]; [|by split; [|intros (_ & ? & _)]..].
  destruct (ValidateRepository r) as [[]| |]; cbn [mbind outcome_bind]; [|by split; [|intros (_ & _ & ? & _)]..].
  destruct (String.eqb_spec (Ref r) EmptyString) as [E|E].
  - split; [intros [= ->]; auto|by intros [-> _]].
  - destruct isTag;
      [destruct (ValidateReferenceAsTag r) as [[]| |]|destruct (ValidateReferenceAsDigest r) as [[]| |]];
      cbn [mbind outcome_bind]; (split; [by (intros [= ->]; auto)|]); intros (-> & _ & _ & [?|?]); done.
Qed.

Lemma split_path_D p : has_char "@" p = false -> has_char ":" p = false ->
  split_path p = (p, EmptyString, false).
Proof. intros Ha Hc. unfold split_path. apply cut_None in Ha, Hc. by rewrite Ha, Hc. Qed.

Lemma split_path_C p t : has_char "@" p = false -> has_char ":" p = false -> has_char "@" t = false ->
  split_path (p +:+ String.String ":" t) = (p, t, true).
Proof.
  intros Ha Hc Ht. unfold split_path. rewrite (proj2 (cut_None "@" _)).
  - by rewrite cut_app.
  - rewrite has_char_app, Ha. unfold has_char in *. simpl. done.
Qed.

Lemma split_path_A p d : has_char "@" p = false -> has_char ":" p = false ->
  split_path (p +:+ String.String "@" d) = (p, d, false).
Proof. intros Ha Hc. unfold split_path. rewrite cut_app by done. by rewrite (proj2 (cut_None ":" p)). Qed.

Lemma split_path_B p t d : has_char "@" p = false -> has_char ":" p = false -> has_char "@" t = false ->
  split_path (p +:+ String.String ":" (t +:+ String.String "@" d)) = (p, d, false).
Proof.
  intros Ha Hc Ht. unfold split_path.
  change (String.String ":" (t +:+ String.String "@" d)) with (String.String ":" t +:+ String.String "@" d).
  rewrite <- string_app_assoc, cut_app, cut_app; [done|done|].
  rewrite has_char_app, Ha. unfold has_char in *. simpl. done.
Qed.

(** Every path is one of the four forms of its parts. *)
Lemma split_path_inv p repo ref isTag :
  split_path p = (repo, ref, isTag) ->
  (isTag = false /\ p = repo +:+ String.String "@" ref)
  \/ (isTag = false /\ exists t, has_char "@" t = false /\
        p = repo +:+ String.String ":" (t +:+ String.String "@" ref))
  \/ (isTag = true /\ p = repo +:+ String.String ":" ref)
  \/ (isTag = false /\ p = repo /\ ref = EmptyString).
Proof.
  unfold split_path. destruct (cut "@" p) as [[l r]|] eqn:Ea.
  - apply cut_Some in Ea as [-> Hl]. destruct (cut ":" l) as [[l' t]|] eqn:Ec; intros [= <- <- <-].
    + apply cut_Some in Ec as [-> _]. right. left. split; [done|]. exists t.
      rewrite has_char_app in Hl. apply orb_false_iff in Hl as [_ Hl].
      split; [by unfold has_char in *; simpl in *|]. by rewrite string_app_assoc.
    + by left.
  - destruct (cut ":" p) as [[l r]|] eqn:Ec; intros [= <- <- <-].
    + apply cut_Some in Ec as [-> _]. right. right. by left.
    + right. right. by right.
Qed.

(** C38: [ParseReference] accepts exactly a valid registry, a slash and a valid
    repository, followed by nothing (form D), by a colon and a tag (form C), by an at
    sign and a digest (form A), or by a colon, any text without an at sign, an at sign
    and a digest (form B), and returns these parts; in form B the text in the place of
    the tag is dropped unread.  Beyond the documented forms, the tag of form C and the
    digest of forms A and B may be empty: [host/repo:], [host/repo@] and [host/repo:tag@]
    are accepted, with an empty reference. *)
Theorem ParseReference_grammar s r :
  ParseReference s = Ok r <->
  ValidateRegistry r = Ok tt /\ ValidateRepository r = Ok tt /\ artifact r s.
Proof.
  unfold ParseReference. split.
  - destruct (cut "/" s) as [[reg path]|] eqn:E; [|done]. apply cut_Some in E as [-> _].
    destruct (split_path path) as [[repo ref] isTag] eqn:Hp. intros H.
    apply parse_checks in H as (<- & H1 & H2 & H3). split; [done|split; [done|]].
    apply split_path_inv in Hp as [[-> ->]|[(-> & t & Ht & ->)|[[-> ->]|(-> & -> & ->)]]].
    + by apply (form_A (mkReference reg repo ref)).
    + by apply (form_B (mkReference reg repo ref)).
    + by apply (form_C (mkReference reg repo ref)).
    + by apply (form_D (mkReference reg repo EmptyString)).
  - intros (H1 & H2 & H3). pose proof (registry_no_slash r H1) as Hs.
    pose proof (repository_no_at r H2) as Ha. pose proof (repository_no_colon r H2) as Hc.
    destruct r as [reg repo ref]. simpl in *.
    destruct H3 as [Hd|t Ht Hd|Ht|Hd]; simpl in *; rewrite cut_app by done.
    + rewrite split_path_A by done. by apply parse_checks.
    + rewrite split_path_B by done. by apply parse_checks.
    + rewrite split_path_C; [by apply parse_checks|done|done|].
      destruct Ht as [->|Ht]; [done|]. by apply (tag_no_at (mkReference reg repo ref)), ValidateReferenceAsTag_Ok.
    + subst. rewrite split_path_D by done. apply parse_checks. auto.
Qed.

(** Printing a valid reference and parsing it gives the reference back. *)
Theorem ParseReference_String_roundtrip r :
  Validate r = Ok tt -> Repository r <> EmptyString /\ ParseReference (Reference_String r) = Ok r.
Proof.
  intros (H1 & H2 & H3)%Validate_Ok. pose proof (repository_nonempty r H2) as Hne. split; [done|].
  pose proof (registry_no_slash r H1) as Hs.
  pose proof (repository_no_at r H2) as Ha. pose proof (repository_no_colon r H2) as Hc.
  unfold Reference_String. destruct (String.eqb_spec (Repository r) EmptyString); [done|].
  unfold Reference_Digest. destruct r as [reg repo ref]. simpl in *.
  apply ValidateReference_cases in H3; simpl in H3. unfold ParseReference.
  destruct H3 as [->|[[Hr Hd]|(Hr & Hd & Ht)]].
  - simpl. rewrite cut_app, split_path_D by done. apply parse_checks. auto.
  - destruct (String.eqb_spec ref EmptyString); [done|]. rewrite Hd, string_app_cons.
    rewrite cut_app, split_path_A by done. apply parse_checks. auto.
  - destruct (String.eqb_spec ref EmptyString); [done|]. rewrite Hd, string_app_cons.
    rewrite cut_app by done. rewrite split_path_C by (done || by apply (tag_no_at (mkReference reg repo ref))).
    apply parse_checks. apply ValidateReferenceAsTag_Ok in Ht. auto.
Qed.

(** What [ParseReference] returns passes [Validate], and every failure is an
    [ErrInvalidReference]. *)
Theorem ParseReference_valid s :
  match ParseReference s with
  | Ok r => Validate r = Ok tt
  | Err e => errors_Is e ErrInvalidReference = true
  | Panic => False
  end.
Proof.
  unfold ParseReference. destruct (cut "/" s) as [[reg path]|]; [|done].
  destruct (split_path path) as [[repo ref] isTag]. set (r := mkReference reg repo ref).
  destruct (check_parts r isTag) as [r'|e|] eqn:E.
  - apply parse_checks in E as (<- & H1 & H2 & H3). apply Validate_Ok. split; [done|split; [done|]].
    apply ValidateReference_cases. destruct (decide (Ref r = EmptyString)) as [|Hne]; [by left|].
    destruct H3 as [|H3]; [done|]. right. destruct isTag; [right|by left].
    apply ValidateReferenceAsTag_Ok in H3. split; [done|split; [|done]].
    apply not_true_iff_false. intros Hd%digest_has_colon. apply tag_no_colon in H3. congruence.
  - revert E. unfold check_parts, ValidateRegistry, ValidateRepository, ValidateReferenceAsTag, ValidateReferenceAsDigest, Reference_Digest, invalid.
    repeat case_match; cbn; try done; repeat (case_match; cbn); congruence || (intros [= <-]; done).
  - revert E. unfold check_parts, ValidateRegistry, ValidateRepository, ValidateReferenceAsTag, ValidateReferenceAsDigest, Reference_Digest, invalid.
    repeat case_match; cbn; try done; repeat (case_match; cbn); congruence.
Qed.
End with_digest.

Import HexDigest.

(** A tagged image in a local registry. *)
Lemma ParseReference_String_roundtrip_witness :
  Repository (mkReference "localhost:5000" "org/app" "v1.2") <> EmptyString /\
  ParseReference (Reference_String (mkReference "localhost:5000" "org/app" "v1.2"))
  = Ok (mkReference "localhost:5000" "org/app" "v1.2").
Proof. apply ParseReference_String_roundtrip. vm_compute. reflexivity. Defined.

(** Form B: the text between the colon and the at sign is dropped. *)
Lemma ParseReference_grammar_witness :
  ParseReference "localhost:5000/org/app:not a tag@sha256:00ff"
  = Ok (mkReference "localhost:5000" "org/app" "sha256:00ff").
Proof.
  apply (ParseReference_grammar _ (mkReference "localhost:5000" "org/app" "sha256:00ff")).
  split; [vm_compute; reflexivity|split; [vm_compute; reflexivity|]].
  apply (form_B (mkReference "localhost:5000" "org/app" "sha256:00ff") "not a tag"); [reflexivity|].
  right. vm_compute. reflexivity.
Defined.

Lemma ParseReference_valid_witness :
  Validate (mkReference "ghcr.io" "org/app" "v1") = Ok tt.
Proof.
  assert (ParseReference "ghcr.io/org/app:v1" = Ok (mkReference "ghcr.io" "org/app" "v1")) as E
    by (vm_compute; reflexivity).
  pose proof (ParseReference_valid "ghcr.io/org/app:v1") as H. rewrite E in H. exact H.
Defined.
End registry.
