(* ===== verification/Referrers.v ===== *)
(** Referrers of a manifest: the list operations of
    [registry/remote/referrers.go]. *)

From Stdlib Require Import Ascii String ZArith Lia.
From S2P Require Import Prelude Errors Descriptor GoStrings.

(** [!content.Equal(r, ocispec.Descriptor{})]. *)
Definition nonempty (d : OciDescriptor) : bool := negb (Equal d zeroDescriptor).

Inductive referrerOperation := referrerOperationAdd | referrerOperationRemove.

Record referrerChange := mkChange {
  referrer : OciDescriptor;
  operation : referrerOperation
}.

(** [buildReferrersTag]; [Algorithm] and [Encoded] panic on a digest without a
    separator. *)
Definition buildReferrersTag {GD : GoDigest} (desc : OciDescriptor) : result string :=
  if has_char ":" (Digest desc)
  then Ok (digest_Algorithm (Digest desc) +:+ "-" +:+ digest_Encoded (Digest desc))
  else Panic.

(** [isReferrersFilterApplied]. *)
Definition isReferrersFilterApplied (applied requested : string) : bool :=
  if String.eqb applied EmptyString || String.eqb requested EmptyString then false
  else existsb (String.eqb requested) (Split "," applied).

(** [filterReferrers], in place. *)
Definition filterReferrers (refs : list OciDescriptor) (artifactType : string) : list OciDescriptor :=
  if String.eqb artifactType EmptyString then refs
  else inplace_filter (fun r => String.eqb (ArtifactType r) artifactType) refs.

(** ** [applyReferrerChanges] *)

(** [updatedReferrers], [referrersMap] and [updateRequired]. *)
Record apply_state := mkApply {
  updatedReferrers : list OciDescriptor;
  referrersMap : gmap Descriptor nat;
  updateRequired : bool
}.

Definition append_referrer (r : OciDescriptor) (s : apply_state) : apply_state :=
  mkApply (updatedReferrers s ++ [r])
    (<[FromOCI r := length (updatedReferrers s)]> (referrersMap s)) (updateRequired s).

(** One round of the first loop: bad entries and duplicates are skipped. *)
Definition collect_one (s : apply_state) (r : OciDescriptor) : apply_state :=
  if Equal r zeroDescriptor
     || match referrersMap s !! FromOCI r with Some _ => true | None => false end
  then mkApply (updatedReferrers s) (referrersMap s) true
  else append_referrer r s.

(** One round of the second loop. *)
Definition change_one (s : apply_state) (c : referrerChange) : apply_state :=
  let key := FromOCI (referrer c) in
  match operation c, referrersMap s !! key with
  | referrerOperationAdd, None => append_referrer (referrer c) s
  | referrerOperationRemove, Some pos =>
      mkApply (<[pos := zeroDescriptor]> (updatedReferrers s)) (delete key (referrersMap s))
        (updateRequired s)
  | _, _ => s
  end.

(** The loop of [removeEmptyDescriptors]: read index [i], write index [j]. *)
Fixpoint remove_empty_loop (n i j : nat) (hint : nat) (descs : list OciDescriptor)
    : list OciDescriptor :=
  match n with
  | O => take j descs
  | S n' =>
      match descs !! i with
      | None => take j descs
      | Some r =>
          let '(descs, j) :=
            if nonempty r then (if decide (j < i) then <[j := r]> descs else descs, S j)
            else (descs, j) in
          if decide (j = hint) then take j descs else remove_empty_loop n' (S i) j hint descs
      end
  end.

Definition removeEmptyDescriptors (descs : list OciDescriptor) (hint : nat) : list OciDescriptor :=
  remove_empty_loop (length descs) 0 0 hint descs.

Definition applyReferrerChanges (referrers : list OciDescriptor)
    (referrerChanges : list referrerChange) : result (list OciDescriptor) :=
  let s := foldl collect_one (mkApply [] ∅ false) referrers in
  let s := foldl change_one s referrerChanges in
  if negb (updateRequired s) && bool_decide (size (referrersMap s) = length referrers)
     && forallb (fun r => match referrersMap s !! FromOCI r with Some _ => true | None => false end)
          referrers
  then ErrS errNoReferrerUpdate
  else Ok (removeEmptyDescriptors (updatedReferrers s) (size (referrersMap s))).

(** ** The abstract view: a list without duplicate keys *)

(** Distinct non-empty entries, first occurrences in order. *)
Definition add_key (l : list OciDescriptor) (r : OciDescriptor) : list OciDescriptor :=
  if bool_decide (FromOCI r ∈ FromOCI <$> l) then l else l ++ [r].

Definition dedup (referrers : list OciDescriptor) : list OciDescriptor :=
  foldl add_key [] (List.filter nonempty referrers).

Definition apply_change (l : list OciDescriptor) (c : referrerChange) : list OciDescriptor :=
  match operation c with
  | referrerOperationAdd => add_key l (referrer c)
  | referrerOperationRemove =>
      List.filter (fun d => bool_decide (FromOCI d <> FromOCI (referrer c))) l
  end.

Definition updated (referrers : list OciDescriptor) (changes : list referrerChange) : list OciDescriptor :=
  foldl apply_change (dedup referrers) changes.

(** ** Lemmas *)

Notation keys l := (FromOCI <$> l).

Lemma nonempty_spec d : nonempty d = true <-> FromOCI d <> FromOCI zeroDescriptor.
Proof.
  unfold nonempty. rewrite negb_true_iff, <- not_true_iff_false, Equal_spec. done.
Qed.

Lemma filter_insert_false {A} (f g : A -> bool) (l : list A) p y :
  (forall i x, l !! i = Some x -> f x = if decide (i = p) then false else g x) ->
  g y = false -> List.filter g (<[p := y]> l) = List.filter f l.
Proof.
  intros Hf Hy. revert p Hf. induction l as [|x l IH]; intros p Hf; [done|].
  pose proof (Hf 0 x eq_refl) as H0. destruct p as [|p]; simpl in *.
  - rewrite Hy, H0. clear IH H0.
    assert (forall i z, l !! i = Some z -> f z = g z) as H by (intros i z Hz; exact (Hf (S i) z Hz)).
    clear Hf. induction l as [|z l IH]; simpl; [done|].
    rewrite (H 0 z eq_refl). rewrite IH; [done|]. intros i. apply (H (S i)).
  - rewrite <- H0. rewrite (IH p); [done|]. intros i z Hz. rewrite (Hf (S i) z Hz).
    repeat case_decide; try done; lia.
Qed.

Lemma filter_filter {A} (f g : A -> bool) (l : list A) :
  List.filter f (List.filter g l) = List.filter (fun x => g x && f x) l.
Proof.
  induction l as [|x l IH]; simpl; [done|]. destruct (g x) eqn:Hg; simpl; [|done].
  destruct (f x); by rewrite IH.
Qed.

Lemma keys_filter_key l k :
  keys (List.filter (fun d => bool_decide (FromOCI d <> k)) l)
  = List.filter (fun k' => bool_decide (k' <> k)) (keys l).
Proof. symmetry. apply List.filter_map_swap. Qed.

Record apply_inv (s : apply_state) (l : list OciDescriptor) : Prop := {
  ai_filter : List.filter nonempty (updatedReferrers s) = List.filter nonempty l;
  ai_map : forall k p, referrersMap s !! k = Some p ->
    exists d, updatedReferrers s !! p = Some d /\ FromOCI d = k;
  ai_pos : forall p d, updatedReferrers s !! p = Some d -> nonempty d = true ->
    referrersMap s !! FromOCI d = Some p;
  ai_dom : dom (referrersMap s) = list_to_set (keys l);
  ai_nodup : NoDup (keys l)
}.

Lemma ai_in s l k : apply_inv s l -> is_Some (referrersMap s !! k) <-> k ∈ keys l.
Proof. intros H. by rewrite <- elem_of_dom, (ai_dom _ _ H), elem_of_list_to_set. Qed.

Lemma ai_size s l : apply_inv s l -> size (referrersMap s) = length l.
Proof.
  intros H. rewrite <- size_dom, (ai_dom _ _ H), size_list_to_set by apply (ai_nodup _ _ H).
  apply length_fmap.
Qed.

Lemma ai_append s l r :
  apply_inv s l -> FromOCI r ∉ keys l -> apply_inv (append_referrer r s) (l ++ [r]).
Proof.
  intros H Hr. pose proof (ai_in _ _ (FromOCI r) H) as Hin.
  assert (referrersMap s !! FromOCI r = None) as Hm.
  { apply eq_None_not_Some. by rewrite Hin. }
  constructor; simpl.
  - by rewrite !List.filter_app, (ai_filter _ _ H).
  - intros k p. rewrite lookup_insert_Some. intros [[<- <-]|[Hk Hp]].
    + exists r. split; [|done]. by apply list_lookup_middle.
    + destruct (ai_map _ _ H k p Hp) as (d & Hd & <-). exists d. split; [|done]. by apply lookup_app_l_Some.
  - intros p d [Hp|[Hp Hd]]%lookup_app_Some Hne.
    + pose proof (ai_pos _ _ H p d Hp Hne) as Hpos.
      rewrite lookup_insert_ne; [done|]. intros E. rewrite E in Hm. congruence.
    + apply list_lookup_singleton_Some in Hd as [Hz ->]. rewrite lookup_insert_eq. f_equal. lia.
  - rewrite dom_insert_L, (ai_dom _ _ H), fmap_app, list_to_set_app_L. set_solver.
  - rewrite fmap_app. apply list.NoDup_app. split; [apply (ai_nodup _ _ H)|].
    split; [|apply list.NoDup_singleton]. intros k Hk ->%list_elem_of_singleton. done.
Qed.

Lemma ai_remove s l k p :
  apply_inv s l -> referrersMap s !! k = Some p ->
  apply_inv (mkApply (<[p := zeroDescriptor]> (updatedReferrers s)) (delete k (referrersMap s))
               (updateRequired s))
    (List.filter (fun d => bool_decide (FromOCI d <> k)) l).
Proof.
  intros H Hp. destruct (ai_map _ _ H k p Hp) as (d & Hd & Hk).
  constructor; simpl.
  - rewrite filter_filter. transitivity (List.filter (fun x => bool_decide (FromOCI x <> k)) (List.filter nonempty l)).
    + rewrite <- (ai_filter _ _ H), filter_filter. apply filter_insert_false; [|done].
      intros i x Hx. case_decide as Hi; subst.
      * assert (x = d) as -> by congruence. rewrite bool_decide_eq_false_2; [apply andb_false_r|]. tauto.
      * destruct (nonempty x) eqn:Hne; [|done]. simpl. apply bool_decide_eq_true_2.
        intros E. pose proof (ai_pos _ _ H i x Hx Hne). congruence.
    + rewrite filter_filter. apply List.filter_ext. intros x. apply andb_comm.
  - intros k' p' [Hne Hp']%lookup_delete_Some. destruct (ai_map _ _ H k' p' Hp') as (d' & Hd' & Hk').
    exists d'. split; [|done]. rewrite list_lookup_insert_ne; [done|]. intros ->. congruence.
  - intros p' d' Hp' Hne. apply list_lookup_insert_Some in Hp' as [(-> & <- & _)|[Hpp Hp']]; [done|].
    pose proof (ai_pos _ _ H p' d' Hp' Hne) as Hpos. rewrite lookup_delete_ne; [done|].
    intros E. rewrite <- E in Hpos. congruence.
  - rewrite dom_delete_L, (ai_dom _ _ H), keys_filter_key. apply leibniz_equiv. intros k'.
    rewrite elem_of_difference, !elem_of_list_to_set, !list_elem_of_In, List.filter_In, not_elem_of_singleton.
    by rewrite bool_decide_eq_true.
  - rewrite keys_filter_key. apply NoDup_ListNoDup, List.NoDup_filter, NoDup_ListNoDup, (ai_nodup _ _ H).
Qed.

Lemma ai_change s l c : apply_inv s l -> apply_inv (change_one s c) (apply_change l c).
Proof.
  intros H. unfold change_one, apply_change, add_key.
  pose proof (ai_in _ _ (FromOCI (referrer c)) H) as Hin.
  destruct (operation c), (referrersMap s !! FromOCI (referrer c)) as [p|] eqn:E.
  - rewrite bool_decide_eq_true_2 by (apply Hin; eauto). done.
  - rewrite bool_decide_eq_false_2; [apply ai_append; [done|]|]; (intros Hk%Hin; by destruct Hk).
  - by apply ai_remove.
  - replace (List.filter _ l) with l; [done|]. symmetry. apply forallb_filter_id.
    apply forallb_forall. intros d Hd. apply bool_decide_eq_true_2. intros Ek.
    rewrite <- Ek in Hin. apply list_elem_of_In in Hd.
    destruct (proj2 Hin) as [x Hx]; [by apply list_elem_of_fmap_2|]. congruence.
Qed.

Lemma ai_changes s l cs : apply_inv s l -> apply_inv (foldl change_one s cs) (foldl apply_change l cs).
Proof. revert s l. induction cs as [|c cs IH]; intros s l H; simpl; [done|]. by apply IH, ai_change. Qed.

Lemma ai_collect s l r :
  apply_inv s l -> apply_inv (collect_one s r) (if nonempty r then add_key l r else l).
Proof.
  intros H. unfold collect_one, add_key, nonempty. destruct (Equal r zeroDescriptor); simpl.
  - by destruct H; split.
  - pose proof (ai_in _ _ (FromOCI r) H) as Hin. destruct (referrersMap s !! FromOCI r) as [p|] eqn:E.
    + rewrite bool_decide_eq_true_2 by (apply Hin; eauto). by destruct H; split.
    + rewrite bool_decide_eq_false_2; [apply ai_append; [done|]|]; (intros Hk%Hin; by destruct Hk).
Qed.

Lemma ai_collects s l rs :
  apply_inv s l -> apply_inv (foldl collect_one s rs) (foldl add_key l (List.filter nonempty rs)).
Proof.
  revert s l. induction rs as [|r rs IH]; intros s l H; simpl; [done|].
  apply (ai_collect s l r) in H. specialize (IH _ _ H). by destruct (nonempty r).
Qed.

Lemma collect_flag s l rs :
  apply_inv s l ->
  updateRequired (foldl collect_one s rs) = false <->
  updateRequired s = false /\ Forall (fun r => nonempty r = true) rs /\ NoDup (keys l ++ keys rs).
Proof.
  revert s l. induction rs as [|r rs IH]; intros s l H; simpl.
  - rewrite app_nil_r. pose proof (ai_nodup _ _ H). split; [auto|tauto].
  - rewrite (IH _ _ (ai_collect s l r H)). rewrite list.Forall_cons.
    pose proof (ai_in _ _ (FromOCI r) H) as Hin. unfold collect_one, add_key, nonempty.
    destruct (Equal r zeroDescriptor); simpl; [naive_solver|].
    destruct (referrersMap s !! FromOCI r) as [p|] eqn:E; simpl.
    + rewrite bool_decide_eq_true_2 by (apply Hin; eauto). split; [intros [? _]; done|].
      intros (_ & _ & Hnd). apply list.NoDup_app in Hnd as (_ & Hd & _). exfalso.
      apply (Hd (FromOCI r)); [apply Hin; eauto|by left].
    + rewrite bool_decide_eq_false_2 by (intros Hk%Hin; by destruct Hk).
      rewrite fmap_app, <- app_assoc. simpl. tauto.
Qed.

Lemma change_flag s cs : updateRequired (foldl change_one s cs) = updateRequired s.
Proof.
  revert s. induction cs as [|c cs IH]; intros s; simpl; [done|]. rewrite IH.
  unfold change_one. by destruct (operation c), (referrersMap s !! _).
Qed.

Lemma remove_empty_loop_spec n i j hint descs :
  j <= i -> n = length descs - i -> i <= length descs ->
  j + length (List.filter nonempty (drop i descs)) <= hint ->
  remove_empty_loop n i j hint descs = take j descs ++ List.filter nonempty (drop i descs).
Proof.
  revert i j descs. induction n as [|n IH]; intros i j descs Hji Hn Hi Hh; simpl.
  - rewrite drop_ge by lia. by rewrite app_nil_r.
  - destruct (descs !! i) as [r|] eqn:Hr; [|apply lookup_ge_None in Hr; lia].
    assert (i < length descs) as Hlt by (by apply lookup_lt_Some in Hr).
    rewrite (drop_S descs r i Hr) in *. simpl in *. destruct (nonempty r); simpl in *.
    + set (descs' := if decide (j < i) then <[j := r]> descs else descs).
      assert (take (S j) descs' = take j descs ++ [r]) as Ht.
      { unfold descs'. case_decide; [apply take_insert_S; lia|].
        assert (j = i) as -> by lia. by apply take_S_r. }
      assert (drop (S i) descs' = drop (S i) descs) as Hd.
      { unfold descs'. case_decide; [|done]. apply drop_insert_lt; lia. }
      assert (length descs' = length descs) as Hl.
      { unfold descs'. case_decide; [apply length_insert|done]. }
      case_decide as Hj.
      * rewrite Ht. replace (List.filter nonempty (drop (S i) descs)) with (@nil OciDescriptor); [done|].
        symmetry. apply length_zero_iff_nil. lia.
      * rewrite IH by (rewrite ?Hd, ?Hl; lia). by rewrite Ht, Hd, <- app_assoc.
    + case_decide as Hj.
      * replace (List.filter nonempty (drop (S i) descs)) with (@nil OciDescriptor); [by rewrite app_nil_r|].
        symmetry. apply length_zero_iff_nil. lia.
      * apply IH; lia.
Qed.

Lemma removeEmptyDescriptors_spec descs hint :
  length (List.filter nonempty descs) <= hint ->
  removeEmptyDescriptors descs hint = List.filter nonempty descs.
Proof. intros H. unfold removeEmptyDescriptors. by rewrite remove_empty_loop_spec by (rewrite ?drop_0; lia). Qed.

(** The conditions under which [applyReferrerChanges] reports that nothing
    changed: no bad or duplicate entry, and the same keys afterwards. *)
Definition no_update (referrers : list OciDescriptor) (changes : list referrerChange) : Prop :=
  Forall (fun r => nonempty r = true) referrers /\ keys (updated referrers changes) ≡ₚ keys referrers.

Lemma apply_final referrers changes :
  let s := foldl change_one (foldl collect_one (mkApply [] ∅ false) referrers) changes in
  apply_inv s (updated referrers changes) /\
  (updateRequired s = false <-> Forall (fun r => nonempty r = true) referrers /\ NoDup (keys referrers)).
Proof.
  assert (apply_inv (mkApply [] ∅ false) []) as H0.
  { split; simpl; [done|by intros k p; rewrite lookup_empty|by intros p d; rewrite lookup_nil| |constructor].
    apply dom_empty_L. }
  split.
  - by apply ai_changes, ai_collects.
  - rewrite change_flag, (collect_flag _ _ _ H0). simpl. tauto.
Qed.

Lemma no_update_test referrers changes :
  let s := foldl change_one (foldl collect_one (mkApply [] ∅ false) referrers) changes in
  negb (updateRequired s) && bool_decide (size (referrersMap s) = length referrers)
    && forallb (fun r => match referrersMap s !! FromOCI r with Some _ => true | None => false end) referrers
  = true <-> no_update referrers changes.
Proof.
  intros s. destruct (apply_final referrers changes) as [H Hf]. fold s in H, Hf.
  rewrite !andb_true_iff, negb_true_iff, Hf, bool_decide_eq_true, (ai_size _ _ H), forallb_forall.
  assert ((forall r, In r referrers ->
            match referrersMap s !! FromOCI r with Some _ => true | None => false end = true)
          <-> forall k, k ∈ keys referrers -> k ∈ keys (updated referrers changes)) as ->.
  { split.
    - intros Hr k (r & -> & Hin)%list_elem_of_fmap. apply (ai_in _ _ _ H).
      specialize (Hr r). destruct (referrersMap s !! FromOCI r); [eauto|].
      discriminate Hr. by apply list_elem_of_In.
    - intros Hk r Hr%list_elem_of_In. destruct (proj2 (ai_in _ _ (FromOCI r) H)) as [p ->]; [|done].
      apply Hk. by apply list_elem_of_fmap_2. }
  unfold no_update. split.
  - intros [[[Hne Hnd] Hlen] Hin]. split; [done|]. symmetry. apply NoDup_Permutation_bis.
    + by apply NoDup_ListNoDup.
    + rewrite !length_fmap. lia.
    + intros k Hk. apply list_elem_of_In, Hin. by apply list_elem_of_In.
  - intros [Hne Hp]. split; [split; [split; [done|]|]|].
    + rewrite <- Hp. apply (ai_nodup _ _ H).
    + apply Permutation_length in Hp. by rewrite !length_fmap in Hp.
    + intros k. by rewrite Hp.
Qed.

Lemma applyReferrerChanges_spec' referrers changes :
  (no_update referrers changes /\
   applyReferrerChanges referrers changes = ErrS errNoReferrerUpdate)
  \/ (~ no_update referrers changes /\
      applyReferrerChanges referrers changes = Ok (List.filter nonempty (updated referrers changes))).
Proof.
  unfold applyReferrerChanges. pose proof (no_update_test referrers changes) as Ht. cbv zeta in *.
  destruct (apply_final referrers changes) as [H _].
  set (s := foldl change_one _ changes) in *.
  match goal with |- context [if ?b then _ else _] => destruct b eqn:E end.
  - left. split; [by apply Ht|done].
  - right. split; [intros Hn%Ht; congruence|]. f_equal.
    rewrite <- (ai_filter _ _ H). apply removeEmptyDescriptors_spec.
    rewrite (ai_size _ _ H), (ai_filter _ _ H). apply List.filter_length_le.
Qed.

(** C22: [applyReferrerChanges], which works on an array with holes and a map of
    positions, computes the list obtained by applying the changes one by one to
    the distinct valid entries: an addition appends a key that is not there, a
    removal drops its key; it reports [errNoReferrerUpdate] exactly when the old
    list had no bad or duplicate entry and the keys are the same as before. *)
Theorem applyReferrerChanges_spec referrers changes :
  (no_update referrers changes /\
   applyReferrerChanges referrers changes = ErrS errNoReferrerUpdate)
  \/ (~ no_update referrers changes /\
      applyReferrerChanges referrers changes = Ok (List.filter nonempty (updated referrers changes))).
Proof. apply applyReferrerChanges_spec'. Qed.

(** [filterReferrers] keeps exactly the referrers of the wanted type, in order. *)
Lemma filterReferrers_spec refs t :
  filterReferrers refs t =
  List.filter (fun r => String.eqb t EmptyString || String.eqb (ArtifactType r) t) refs.
Proof.
  unfold filterReferrers. destruct (String.eqb t EmptyString); simpl.
  - symmetry. apply forallb_filter_id. by apply forallb_forall.
  - apply inplace_filter_spec.
Qed.

(** *** The keys of an updated list *)

Lemma keys_add_key l r k : k ∈ keys (add_key l r) <-> k ∈ keys l \/ k = FromOCI r.
Proof.
  unfold add_key. case_bool_decide as H.
  - split; [by left|]. intros [?| ->]; done.
  - rewrite fmap_app, elem_of_app. simpl. by rewrite list_elem_of_singleton.
Qed.

Lemma keys_foldl_add_key rs l k : k ∈ keys (foldl add_key l rs) <-> k ∈ keys l \/ k ∈ keys rs.
Proof.
  revert l. induction rs as [|r rs IH]; intros l; simpl.
  - rewrite elem_of_nil. tauto.
  - rewrite IH, keys_add_key, elem_of_cons. tauto.
Qed.

Lemma foldl_add_key_nonempty rs l :
  Forall (fun r => nonempty r = true) l -> Forall (fun r => nonempty r = true) rs ->
  Forall (fun r => nonempty r = true) (foldl add_key l rs).
Proof.
  intros Hl Hrs. revert l Hl. induction Hrs as [|r rs Hr Hrs IH]; intros l Hl; simpl; [done|].
  apply IH. unfold add_key. case_bool_decide; [done|]. apply Forall_app. auto.
Qed.

Lemma filter_nonempty_Forall rs : Forall (fun r => nonempty r = true) (List.filter nonempty rs).
Proof. apply Forall_forall. intros r Hr%List.filter_In. tauto. Qed.

Lemma filter_nonempty_id rs : Forall (fun r => nonempty r = true) rs -> List.filter nonempty rs = rs.
Proof. intros H. apply forallb_filter_id. apply forallb_forall. intros r Hr. rewrite Forall_forall in H. by apply H. Qed.

(** Adding one valid referrer: its key is listed and no valid entry is lost. *)
Lemma updated_add l d :
  nonempty d = true ->
  let new := updated l [mkChange d referrerOperationAdd] in
  List.filter nonempty new = new /\ FromOCI d ∈ keys new /\
  (forall r, r ∈ l -> nonempty r = true -> FromOCI r ∈ keys new) /\ (new = l -> no_update l [mkChange d referrerOperationAdd]).
Proof.
  intros Hd new. assert (new = add_key (dedup l) d) as En by done.
  assert (Forall (fun r => nonempty r = true) new) as Hne.
  { rewrite En. apply (foldl_add_key_nonempty [d]); [|by constructor].
    apply foldl_add_key_nonempty; [constructor|apply filter_nonempty_Forall]. }
  split; [by apply filter_nonempty_id|]. split; [rewrite En; apply keys_add_key; by right|]. split.
  - intros r Hr Hnr. rewrite En. apply keys_add_key. left. apply keys_foldl_add_key. right.
    apply list_elem_of_fmap_2, list_elem_of_In, List.filter_In. by rewrite <- list_elem_of_In.
  - intros E. split; [by rewrite <- E|]. fold new. by rewrite E.
Qed.
