(* ===== verification/Scope.v ===== *)
(** Scope hints of the auth client: [registry/remote/auth/scope.go]. *)

From Stdlib Require Import Ascii String ZArith Lia.
From S2P Require Import Prelude Errors GoStrings Reference.

#[local] Open Scope string_scope.

Definition ActionPull : string := "pull".
Definition ActionPush : string := "push".
Definition ActionDelete : string := "delete".
Definition ScopeRegistryCatalog : string := "registry:catalog:*".

(** ** Actions *)

(** The loop of [cleanActions] over the sorted slice, compacting it in place:
    [None] when a wildcard is found, else the slice and the last index kept. *)
Fixpoint dedup_loop (k i n : nat) (a : list string) : option (list string * nat) :=
  match k with
  | O => Some (a, n)
  | S k' =>
      match a !! i, a !! n with
      | Some x, Some y =>
          if String.eqb x "*" then None
          else if String.eqb x y then dedup_loop k' (S i) n a
          else dedup_loop k' (S i) (S n) (if decide (S n = i) then a else <[S n := x]> a)
      | _, _ => Some (a, n)
      end
  end.

Definition cleanActions (actions : list string) : list string :=
  match actions with
  | [] => []
  | [x] => if String.eqb x EmptyString then [] else [x]
  | _ =>
      let a := sort_strings actions in
      match dedup_loop (length a) 0 0 a with
      | None => ["*"]
      | Some (a, n) =>
          if bool_decide (a !! 0 = Some EmptyString)
          then if decide (S n = 1) then [] else drop 1 (take (S n) a)
          else take (S n) a
      end
  end.

Definition ScopeRepository (repository : string) (actions : list string) : string :=
  let actions := cleanActions actions in
  if String.eqb repository EmptyString || bool_decide (actions = []) then EmptyString
  else Join ":" ["repository"; repository; Join "," actions].

(** ** Scopes *)

(** The resource type, resource name and actions of a recognizable scope. *)
Definition parse_scope (scope : string) : option (string * string * string) :=
  match cut ":" scope with
  | None => None
  | Some (resourceType, rest) =>
      match cut_last ":" rest with
      | None => None
      | Some (resourceName, actions) => Some (resourceType, resourceName, actions)
      end
  end.

(** The maps from resource types to names to action sets. *)
Notation scope_map := (gmap string (gmap string (gset string))).

Definition action_set (actions : string) : gset string :=
  list_to_set (List.filter (fun a => negb (String.eqb a EmptyString)) (Split "," actions)).

(** One iteration of the merging loop. *)
Definition add_scope (st : list string * scope_map) (scope : string) : list string * scope_map :=
  let '(result, resourceTypes) := st in
  match parse_scope scope with
  | None => (result ++ [scope], resourceTypes)%list
  | Some (resourceType, resourceName, actions) =>
      if String.eqb actions EmptyString then st
      else
        let namedActions := default ∅ (resourceTypes !! resourceType) in
        let actionSet := default ∅ (namedActions !! resourceName) in
        (result, <[resourceType := <[resourceName := actionSet ∪ action_set actions]> namedActions]> resourceTypes)
  end.

Definition scope_text (resourceType resourceName : string) (actions : list string) : string :=
  resourceType +:+ ":" +:+ resourceName +:+ ":" +:+ Join "," actions.

Section Scopes.
Context {MO : MapOrder}.

(** The actions written for a set: a wildcard hides the others. *)
Definition set_actions (actionSet : gset string) : list string :=
  sort_strings (if decide ("*" ∈ actionSet) then ["*"] else range_set actionSet).

(** The reconstruction loops. *)
Definition type_scopes (resourceType : string) (namedActions : gmap string (gset string)) : list string :=
  foldr (fun p result =>
    if decide (p.2 = ∅) then result else scope_text resourceType p.1 (set_actions p.2) :: result)
    [] (range_map namedActions).

Definition all_scopes (resourceTypes : scope_map) : list string :=
  concat ((fun p => type_scopes p.1 p.2) <$> range_map resourceTypes).

Definition merge_scopes (scopes : list string) : list string :=
  let '(result, resourceTypes) := foldl add_scope ([], ∅) scopes in
  sort_strings (result ++ all_scopes resourceTypes)%list.

Definition CleanScopes (scopes : list string) : list string :=
  match scopes with
  | [] => []
  | [scope] =>
      match cut_last ":" scope with
      | None => [scope]
      | Some (prefix, actions) =>
          match cleanActions (Split "," actions) with
          | [] => []
          | actionList => [prefix +:+ ":" +:+ Join "," actionList]
          end
      end
  | _ => merge_scopes scopes
  end.

(** ** Scopes in a context *)

(** The values a context holds under the keys of this package. *)
Record Context_ := mkContext {
  ctx_scopes : option (list string);
  ctx_host_scopes : gmap string (list string)
}.

(** [context.Background()]. *)
Definition Background : Context_ := mkContext None ∅.

Definition GetScopes (ctx : Context_) : list string := default [] (ctx_scopes ctx).
Definition WithScopes (ctx : Context_) (scopes : list string) : Context_ :=
  mkContext (Some (CleanScopes scopes)) (ctx_host_scopes ctx).
Definition AppendScopes (ctx : Context_) (scopes : list string) : Context_ :=
  match scopes with [] => ctx | _ => WithScopes ctx (GetScopes ctx ++ scopes)%list end.

Definition GetScopesForHost (ctx : Context_) (host : string) : list string :=
  default [] (ctx_host_scopes ctx !! host).
Definition WithScopesForHost (ctx : Context_) (host : string) (scopes : list string) : Context_ :=
  mkContext (ctx_scopes ctx) (<[host := CleanScopes scopes]> (ctx_host_scopes ctx)).
Definition AppendScopesForHost (ctx : Context_) (host : string) (scopes : list string) : Context_ :=
  match scopes with [] => ctx | _ => WithScopesForHost ctx host (GetScopesForHost ctx host ++ scopes)%list end.

Definition GetAllScopesForHost (ctx : Context_) (host : string) : list string :=
  let scopes := GetScopesForHost ctx host in
  let globalScopes := GetScopes ctx in
  match scopes, globalScopes with
  | [], _ => globalScopes
  | _, [] => scopes
  | _, _ => CleanScopes (scopes ++ globalScopes)%list
  end.

Definition AppendRepositoryScope (ctx : Context_) (ref : registry.Reference) (actions : list string) : Context_ :=
  match actions with
  | [] => ctx
  | _ => AppendScopesForHost ctx (registry.Host ref) [ScopeRepository (registry.Repository ref) actions]
  end.
End Scopes.
