(* ===== verification/ScopeCorrect.v ===== *)
(** Canonical form of actions and scopes: what [cleanActions] and [CleanScopes]
    compute, as functions of the set of actions that are asked for. *)

From Stdlib Require Import Ascii String ZArith Lia.
From stdpp Require Import sorting.
From S2P Require Import Prelude Errors GoStrings Scope.

#[local] Open Scope string_scope.
Notation le := stdpp.strings.String.le.

(** The canonical list of a set of actions. *)
Definition canon_actions (s : gset string) : list string :=
  if decide ("*" ∈ s) then ["*"] else sort_strings (elements s).

(** ** Actions *)

(** Consecutive duplicates removed, [y] being the element before. *)
Fixpoint uniq (y : string) (l : list string) : list string :=
  match l with
  | [] => []
  | x :: l' => if String.eqb x y then uniq y l' else x :: uniq x l'
  end.

Lemma uniq_elem y l x : x ∈ y :: uniq y l <-> x ∈ y :: l.
Proof.
  revert y. induction l as [|z l IH]; intros y; simpl; [done|].
  destruct (String.eqb_spec z y) as [->|Hne].
  - rewrite IH, !elem_of_cons. tauto.
  - specialize (IH z). rewrite !elem_of_cons in *. tauto.
Qed.

Lemma sorted_le y l x : StronglySorted le (y :: l) -> x ∈ l -> le y x.
Proof.
  intros [_ Hy]%StronglySorted_inv Hx. rewrite Stdlib.Lists.List.Forall_forall in Hy. apply Hy. by apply list_elem_of_In.
Qed.

Lemma uniq_sorted y l : StronglySorted le (y :: l) ->
  StronglySorted le (y :: uniq y l) /\ NoDup (y :: uniq y l).
Proof.
  revert y. induction l as [|z l IH]; intros y Hs; simpl.
  { split; [done|]. apply list.NoDup_singleton. }
  pose proof (fun x => sorted_le y (z :: l) x Hs) as Hy. apply StronglySorted_inv in Hs as [Hs Hf].
  destruct (String.eqb_spec z y) as [->|Hne]; [by apply IH|].
  destruct (IH z Hs) as [Hs' Hnd]. pose proof (fun x => sorted_le z l x Hs) as Hz. split.
  - constructor; [done|]. apply Stdlib.Lists.List.Forall_forall. intros x Hx%list_elem_of_In. by apply Hy, uniq_elem.
  - apply list.NoDup_cons. split; [|done]. intros Hin. apply Hne.
    apply (anti_symm le); [|apply Hy; by left]. rewrite uniq_elem in Hin. apply elem_of_cons in Hin as [->|Hin]; [done|auto].
Qed.

Lemma dedup_loop_star k i n a :
  i + k = length a -> n < length a -> "*" ∈ drop i a -> n <= i -> dedup_loop k i n a = None.
Proof.
  revert i n a. induction k as [|k IH]; intros i n a Hk Hn Hin Hni; simpl.
  { rewrite drop_ge in Hin by lia. by apply elem_of_nil in Hin. }
  destruct (lookup_lt_is_Some_2 a i) as [x Hx]; [lia|]. destruct (lookup_lt_is_Some_2 a n) as [y Hy]; [lia|].
  rewrite Hx, Hy. rewrite (drop_S a x i Hx) in Hin.
  destruct (String.eqb_spec x "*"); [done|]. apply elem_of_cons in Hin as [?|Hin]; [done|].
  destruct (String.eqb_spec x y) as [->|Hne]; [apply IH; [lia|lia|done|lia]|].
  assert (n <> i) as Hnei by (intros ->; congruence).
  case_decide as He; [apply IH; [lia|lia|done|lia]|].
  apply IH; rewrite ?length_insert; [lia|lia| |lia]. by rewrite drop_insert_lt by lia.
Qed.

Lemma dedup_loop_spec k i n a y :
  i + k = length a -> n <= i -> a !! n = Some y -> "*" ∉ drop i a ->
  exists a' n', dedup_loop k i n a = Some (a', n') /\ n' < length a'
    /\ take (S n') a' = (take (S n) a ++ uniq y (drop i a))%list.
Proof.
  revert i n a y. induction k as [|k IH]; intros i n a y Hk Hni Hy Hstar; simpl.
  { exists a, n. rewrite drop_ge by lia. simpl. rewrite app_nil_r. split; [done|].
    split; [by apply lookup_lt_Some in Hy|done]. }
  destruct (lookup_lt_is_Some_2 a i) as [x Hx]; [lia|]. rewrite Hx, Hy.
  rewrite (drop_S a x i Hx) in *. rewrite not_elem_of_cons in Hstar. destruct Hstar as [Hx1 Hstar].
  destruct (String.eqb_spec x "*") as [->|_]; [done|]. simpl.
  destruct (String.eqb_spec x y) as [->|Hne]; [apply IH; [lia|lia|done|done]|].
  assert (n <> i) as Hnei by (intros ->; congruence).
  assert (Htake : forall a1, take (S (S n)) a1 = (take (S n) a ++ [x])%list -> drop (S i) a1 = drop (S i) a ->
      length a1 = length a -> a1 !! S n = Some x ->
      exists a' n', dedup_loop k (S i) (S n) a1 = Some (a', n') /\ n' < length a'
        /\ take (S n') a' = (take (S n) a ++ x :: uniq x (drop (S i) a))%list).
  { intros a1 Ht Hd Hl Hl1. destruct (IH (S i) (S n) a1 x) as (a' & n' & H1 & H2 & H3);
      [lia|lia|done|by rewrite Hd|]. exists a', n'. split; [done|]. split; [done|].
    rewrite H3, Ht, Hd, <- app_assoc. done. }
  case_decide as He.
  - apply Htake; [by rewrite (take_S_r _ _ x) by congruence|done|done|congruence].
  - apply Htake; [by rewrite take_insert_S by lia|by rewrite drop_insert_lt by lia|by rewrite length_insert|].
    apply list_lookup_insert_eq. lia.
Qed.

(** A sorted list without duplicates is the sorted list of its elements. *)
Lemma sorted_canon l (s : gset string) :
  Sorted le l -> NoDup l -> (forall x, x ∈ l <-> x ∈ s) -> sort_strings (elements s) = l.
Proof.
  intros Hs Hnd Hel. apply sort_strings_unique; [done|]. apply NoDup_Permutation; [apply NoDup_elements|done|].
  intros x. by rewrite elem_of_elements, Hel.
Qed.

Lemma empty_le (x : string) : le EmptyString x.
Proof. unfold le. by destruct x. Qed.

(** Whatever the order, the duplicates and the empty entries of a list of
    actions, [cleanActions] - which sorts and compacts the slice in place -
    returns the sorted list of the distinct non-empty actions, or the wildcard
    alone when it is there. *)
Lemma cleanActions_canonical (actions : list string) :
  cleanActions actions = canon_actions (list_to_set actions ∖ {[EmptyString]}).
Proof.
  assert (Hone : forall x : string, sort_strings [x] = [x])
    by (intros x; apply sort_strings_unique; [by repeat constructor|done]).
  unfold canon_actions. destruct actions as [|x [|y actions]]; cbn [cleanActions].
  - rewrite decide_False by set_solver. symmetry.
    replace (list_to_set [] ∖ {[EmptyString]}) with (∅ : gset string) by set_solver. by rewrite elements_empty.
  - destruct (String.eqb_spec x EmptyString) as [->|Hne].
    + replace (list_to_set [EmptyString] ∖ {[EmptyString]}) with (∅ : gset string) by set_solver.
      rewrite decide_False by set_solver. by rewrite elements_empty.
    + replace (list_to_set [x] ∖ {[EmptyString]}) with ({[x]} : gset string) by set_solver.
      rewrite elements_singleton, Hone. case_decide as E; [|done]. apply elem_of_singleton in E. by subst.
  - set (l := x :: y :: actions). set (a := sort_strings l).
    assert (Hel : forall z, z ∈ a <-> z ∈ l) by (intros z; unfold a; by rewrite sort_strings_perm).
    assert (Hlen : length a = S (S (length actions))) by (unfold a; by rewrite sort_strings_perm).
    destruct a as [|a0 a1] eqn:Ea; [done|].
    destruct (decide ("*" ∈ list_to_set l ∖ {[EmptyString]})) as [Hstar|Hstar].
    + rewrite dedup_loop_star; [done|done|simpl; lia| |done]. rewrite drop_0. apply Hel. set_solver.
    + assert ("*" ∉ a0 :: a1) as Hns by (rewrite Hel; set_solver).
      destruct (dedup_loop_spec (length (a0 :: a1)) 0 0 (a0 :: a1) a0) as (a' & n & -> & Hn & Ht); [done|done|done|done|].
      rewrite drop_0 in Ht. simpl in Ht. rewrite String.eqb_refl in Ht.
      assert (Hs : StronglySorted le (a0 :: a1)).
      { rewrite <- Ea. apply Sorted_StronglySorted; [apply _|apply sort_strings_sorted]. }
      destruct (uniq_sorted a0 a1 Hs) as [Hu Hnd].
      destruct a' as [|b a']; [simpl in Hn; lia|]. injection Ht as -> Ht. cbn [lookup list_lookup].
      case_bool_decide as Hb.
      * injection Hb as ->. symmetry. apply StronglySorted_inv in Hu as [Hu _]. apply list.NoDup_cons in Hnd as [Hne Hnd].
        assert (sort_strings (elements (list_to_set l ∖ {[EmptyString]} : gset string)) = uniq EmptyString a1) as ->.
        { apply sorted_canon; [by apply StronglySorted_Sorted|done|]. intros z.
          rewrite elem_of_difference, elem_of_list_to_set, elem_of_singleton, <- Hel, <- uniq_elem, elem_of_cons.
          split; [intros Hz; split; [by right|]; by intros ->|intros [[?|?] ?]; done]. }
        case_decide as Hn1; [|by rewrite <- Ht; simpl; rewrite ?drop_0].
        assert (n = 0) as -> by lia. by rewrite <- Ht.
      * symmetry. assert (take (S n) (a0 :: a') = a0 :: uniq a0 a1) as -> by (simpl; by rewrite Ht).
        apply sorted_canon; [by apply StronglySorted_Sorted|done|]. intros z.
        rewrite uniq_elem, elem_of_difference, elem_of_list_to_set, elem_of_singleton, Hel. split; [|by intros [? _]].
        intros Hz. split; [done|]. intros ->. apply Hb. f_equal. apply (anti_symm le); [|apply empty_le].
        apply Hel in Hz. apply elem_of_cons in Hz as [<-|Hz]; [done|]. by apply (sorted_le a0 a1).
Qed.

(** ** Scopes *)

(** The actions that a list of scopes asks for on a resource. *)
Definition scope_actions (resourceType resourceName scope : string) : gset string :=
  match parse_scope scope with
  | Some (t, n, actions) => if decide (t = resourceType /\ n = resourceName) then action_set actions else ∅
  | None => ∅
  end.
Definition actions_of (l : list string) (resourceType resourceName : string) : gset string :=
  foldr (fun s acc => scope_actions resourceType resourceName s ∪ acc) ∅ l.

(** The canonical scope of a resource. *)
Definition canon_scope (l : list string) (t n : string) : string :=
  scope_text t n (canon_actions (actions_of l t n)).

Lemma elem_of_actions_of l t n a : a ∈ actions_of l t n <-> exists s, s ∈ l /\ a ∈ scope_actions t n s.
Proof.
  induction l as [|s l IH]; simpl.
  - split; [set_solver|intros (s & Hs & _); by apply elem_of_nil in Hs].
  - rewrite elem_of_union, IH. split.
    + intros [H|(s' & ? & ?)]; [exists s|exists s']; (split; [|done]); [by left|by right].
    + intros (s' & [->|?]%elem_of_cons & ?); [by left|right; eauto].
Qed.

Lemma actions_of_perm l l' t n : l ≡ₚ l' -> actions_of l t n = actions_of l' t n.
Proof.
  intros Hp. apply set_eq. intros a. rewrite !elem_of_actions_of. by setoid_rewrite Hp.
Qed.

Lemma Split_chars c d s x : x ∈ Split c s -> has_char d x = true -> d <> c /\ has_char d s = true.
Proof.
  unfold Split, has_char. intros Hx. apply list_elem_of_fmap in Hx as (p & -> & Hp).
  unfold of_chars. replace (chars (String.string_of_list_ascii p)) with p
    by (symmetry; apply String.list_ascii_of_string_of_list_ascii). revert p Hp.
  induction s as [|a s IH]; simpl; intros p Hp Hd.
  { apply list_elem_of_singleton in Hp as ->. done. }
  destruct (Ascii.eqb_spec a c) as [->|Hac].
  - apply elem_of_cons in Hp as [->|Hp]; [done|]. destruct (IH p Hp Hd) as [? ->]. by rewrite orb_true_r.
  - destruct (split_chars c (chars s)) as [|q qs] eqn:E.
    { by apply split_chars_ne in E. }
    apply elem_of_cons in Hp as [->|Hp].
    + simpl in Hd. destruct (Ascii.eqb_spec d a) as [->|_]; simpl in *; [done|].
      apply (IH q); [by left|done].
    + destruct (IH p) as [? ->]; [by right|done|]. by rewrite orb_true_r.
Qed.

(** The actions of a scope have neither separator. *)
Lemma scope_actions_chars t n s a :
  a ∈ scope_actions t n s ->
  has_char ":" t = false /\ a <> EmptyString /\ has_char "," a = false /\ has_char ":" a = false.
Proof.
  unfold scope_actions, parse_scope. destruct (cut ":" s) as [[t' rest]|] eqn:Ec; [|set_solver].
  destruct (cut_last ":" rest) as [[n' acts]|] eqn:El; [|set_solver].
  case_decide as E; [|set_solver]. destruct E as [-> ->]. apply cut_Some in Ec as [_ Ht].
  apply cut_last_Some in El as [_ Ha]. unfold action_set. rewrite elem_of_list_to_set, list_elem_of_In, List.filter_In.
  intros [Hin Hne]. apply list_elem_of_In in Hin. split; [done|]. split; [by intros ->|]. split.
  - destruct (has_char "," a) eqn:E; [|done]. by apply (Split_chars "," "," acts a Hin) in E as [? _].
  - destruct (has_char ":" a) eqn:E; [|done]. apply (Split_chars "," ":" acts a Hin) in E as [_ E]. congruence.
Qed.

Lemma has_char_Join c l : (forall x, x ∈ l -> has_char c x = false) -> has_char c "," = false ->
  has_char c (Join "," l) = false.
Proof.
  intros Hl Hc. induction l as [|x l IH]; [done|]. destruct l as [|y l]; [apply Hl; by left|].
  change (Join "," (x :: y :: l)) with (x +:+ String.String "," (Join "," (y :: l))).
  rewrite has_char_app. apply orb_false_iff. split; [apply Hl; by left|].
  change (String.String "," (Join "," (y :: l))) with ("," +:+ Join "," (y :: l)).
  rewrite has_char_app, Hc. apply IH. intros z Hz. apply Hl. by right.
Qed.

Lemma parse_scope_text t n l :
  has_char ":" t = false -> (forall a, a ∈ l -> has_char ":" a = false) ->
  parse_scope (scope_text t n l) = Some (t, n, Join "," l).
Proof.
  intros Ht Hl. unfold parse_scope, scope_text.
  change (":" +:+ n +:+ ":" +:+ Join "," l) with (String.String ":" (n +:+ ":" +:+ Join "," l)).
  rewrite cut_app by done.
  change (":" +:+ Join "," l) with (String.String ":" (Join "," l)). rewrite cut_last_app; [done|].
  by apply has_char_Join.
Qed.

Lemma canon_actions_elem s x : x ∈ canon_actions s -> x ∈ s.
Proof.
  unfold canon_actions. case_decide; [by intros ->%list_elem_of_singleton|].
  by rewrite sort_strings_perm, elem_of_elements.
Qed.

Lemma canon_actions_ne s : s <> ∅ -> canon_actions s <> [].
Proof.
  intros Hs E. destruct (set_choose_L s Hs) as [x Hx]. unfold canon_actions in E.
  case_decide; [done|]. apply elem_of_elements in Hx. rewrite <- sort_strings_perm, E in Hx. by apply elem_of_nil in Hx.
Qed.

Lemma canon_actions_idem s : canon_actions (list_to_set (canon_actions s)) = canon_actions s.
Proof.
  unfold canon_actions at 2 3. destruct (decide ("*" ∈ s)) as [H|H].
  - unfold canon_actions. rewrite decide_True; [done|]. set_solver.
  - assert (list_to_set (sort_strings (elements s)) = s) as ->.
    { apply set_eq. intros x. by rewrite elem_of_list_to_set, sort_strings_perm, elem_of_elements. }
    unfold canon_actions. by rewrite decide_False.
Qed.

(** A canonical scope asks for the canonical actions on its own resource. *)
Lemma scope_actions_canon l t n t' n' :
  actions_of l t n <> ∅ ->
  scope_actions t' n' (canon_scope l t n)
  = if decide (t = t' /\ n = n') then list_to_set (canon_actions (actions_of l t n)) else ∅.
Proof.
  intros Hne. assert (Hch : forall a, a ∈ canon_actions (actions_of l t n) ->
    has_char ":" t = false /\ a <> EmptyString /\ has_char "," a = false /\ has_char ":" a = false).
  { intros a Ha%canon_actions_elem. apply elem_of_actions_of in Ha as (s & _ & Hs). by apply (scope_actions_chars t n s). }
  pose proof (canon_actions_ne _ Hne) as Hcne.
  unfold scope_actions, canon_scope. rewrite parse_scope_text.
  - destruct (decide _) as [[-> ->]|]; [|done]. unfold action_set.
    rewrite Split_Join; [|done|intros s Hs; by apply Hch].
    apply set_eq. intros x. rewrite !elem_of_list_to_set, !list_elem_of_In, List.filter_In. split; [by intros [? _]|].
    intros Hx. split; [done|]. apply list_elem_of_In, Hch in Hx as (_ & Hx & _). by destruct (String.eqb_spec x EmptyString).
  - destruct (canon_actions (actions_of l t n)) as [|a0 ?]; [done|]. apply (Hch a0). by left.
  - intros a Ha. by apply Hch.
Qed.

Lemma canon_scope_inj l t n t' n' :
  actions_of l t n <> ∅ -> actions_of l t' n' <> ∅ -> canon_scope l t n = canon_scope l t' n' -> t = t' /\ n = n'.
Proof.
  intros H H' E. pose proof (scope_actions_canon l t n t n H) as H1. rewrite decide_True in H1 by done.
  rewrite E, scope_actions_canon in H1 by done. case_decide as Hd; [naive_solver|].
  exfalso. apply (canon_actions_ne _ H).
  destruct (canon_actions (actions_of l t n)) as [|a ?]; [done|]. exfalso. set_solver.
Qed.

(** *** The merging loop *)

Definition at2 (m : scope_map) (t n : string) : gset string := default ∅ (m !! t ≫= fun nm => nm !! n).

Definition unrecognized (s : string) : bool := bool_decide (parse_scope s = None).

Lemma add_scope_spec r m s :
  let '(r', m') := add_scope (r, m) s in
  r' = (r ++ List.filter unrecognized [s])%list /\
  forall t n, at2 m' t n = at2 m t n ∪ scope_actions t n s.
Proof.
  unfold add_scope, unrecognized, scope_actions. simpl. destruct (parse_scope s) as [[[t n] acts]|].
  - rewrite bool_decide_eq_false_2 by done. rewrite app_nil_r.
    destruct (String.eqb_spec acts EmptyString) as [->|Hne].
    + split; [done|]. intros t' n'. case_decide; unfold action_set; simpl; set_solver.
    + split; [done|]. intros t' n'. unfold at2. rewrite lookup_insert. destruct (decide (t = t')) as [->|Ht]; simpl.
      * rewrite lookup_insert. destruct (decide (n = n')) as [->|Hn]; simpl.
        -- rewrite decide_True by done. destruct (m !! t') as [nm|]; simpl; [done|]. by rewrite lookup_empty.
        -- rewrite decide_False by naive_solver. destruct (m !! t') as [nm|]; simpl; [set_solver|].
           rewrite lookup_empty. simpl. set_solver.
      * rewrite decide_False by naive_solver. set_solver.
  - rewrite bool_decide_eq_true_2 by done. split; [done|]. intros. set_solver.
Qed.

Lemma fold_scopes_spec l r m :
  let '(r', m') := foldl add_scope (r, m) l in
  r' = (r ++ List.filter unrecognized l)%list /\ forall t n, at2 m' t n = at2 m t n ∪ actions_of l t n.
Proof.
  revert r m. induction l as [|s l IH]; intros r m.
  { simpl. rewrite app_nil_r. split; [done|]. set_solver. }
  change (foldl add_scope (r, m) (s :: l)) with (foldl add_scope (add_scope (r, m) s) l).
  pose proof (add_scope_spec r m s) as H. destruct (add_scope (r, m) s) as [r1 m1]. destruct H as [-> Hm].
  specialize (IH (r ++ List.filter unrecognized [s])%list m1). destruct (foldl add_scope _ l) as [r2 m2].
  destruct IH as [-> IH]. split.
  - rewrite <- app_assoc. f_equal. simpl. by destruct (unrecognized s).
  - intros t n. rewrite IH, Hm. simpl. set_solver.
Qed.

Lemma elem_of_flat {A B} (f : A -> list B) (l : list A) b :
  b ∈ concat (f <$> l) <-> exists x, x ∈ l /\ b ∈ f x.
Proof.
  induction l as [|x l IH]; simpl.
  - split; [intros H; by apply elem_of_nil in H|intros (x & H & _); by apply elem_of_nil in H].
  - rewrite elem_of_app, IH. split.
    + intros [H|(y & ? & ?)]; [exists x|exists y]; (split; [|done]); [by left|by right].
    + intros (y & [->|?]%elem_of_cons & ?); [by left|right; eauto].
Qed.

Lemma NoDup_flat {A B} (f : A -> list B) (l : list A) :
  NoDup l -> (forall x, x ∈ l -> NoDup (f x)) ->
  (forall x y b, x ∈ l -> y ∈ l -> b ∈ f x -> b ∈ f y -> x = y) -> NoDup (concat (f <$> l)).
Proof.
  induction l as [|x l IH]; intros Hnd Hf Hinj; simpl; [apply list.NoDup_nil; done|].
  apply list.NoDup_cons in Hnd as [Hx Hnd]. apply list.NoDup_app. split; [apply Hf; by left|]. split.
  - intros b Hb Hc. apply elem_of_flat in Hc as (y & Hy & Hby). apply Hx. rewrite (Hinj x y b); [done|by left|by right|done|done].
  - apply IH; [done|intros; apply Hf; by right|]. intros y z b Hy Hz. apply Hinj; by right.
Qed.

Section merge.
Context {MO : MapOrder}.

Lemma set_actions_canon s : set_actions s = canon_actions s.
Proof.
  unfold set_actions, canon_actions. case_decide.
  - apply sort_strings_unique; [by repeat constructor|done].
  - apply sort_strings_unique; [apply sort_strings_sorted|]. by rewrite sort_strings_perm, range_set_perm.
Qed.

Definition name_scopes (t : string) (p : string * gset string) : list string :=
  if decide (p.2 = ∅) then [] else [scope_text t p.1 (canon_actions p.2)].

Lemma type_scopes_flat t nm : type_scopes t nm = concat (name_scopes t <$> range_map nm).
Proof.
  unfold type_scopes. induction (range_map nm) as [|p l IH]; simpl; [done|]. unfold name_scopes at 1.
  rewrite IH, set_actions_canon. by case_decide.
Qed.

Lemma elem_of_all_scopes m s :
  s ∈ all_scopes m <-> exists t n, at2 m t n <> ∅ /\ s = scope_text t n (canon_actions (at2 m t n)).
Proof.
  unfold all_scopes. rewrite elem_of_flat. split.
  - intros ([t nm] & Ht%elem_of_range_map & Hs). simpl in Hs. rewrite type_scopes_flat in Hs.
    apply elem_of_flat in Hs as ([n a] & Hn%elem_of_range_map & Hs). unfold name_scopes in Hs. simpl in Hs.
    case_decide; [by apply elem_of_nil in Hs|]. apply list_elem_of_singleton in Hs as ->.
    exists t, n. unfold at2. by rewrite Ht; simpl; rewrite Hn.
  - intros (t & n & Hne & ->). unfold at2 in Hne |- *. destruct (m !! t) as [nm|] eqn:Ht; [|done]. simpl in *.
    destruct (nm !! n) as [a|] eqn:Hn; [|done]. simpl in *. exists (t, nm).
    split; [by apply elem_of_range_map|]. simpl. rewrite type_scopes_flat. apply elem_of_flat. exists (n, a).
    split; [by apply elem_of_range_map|]. unfold name_scopes. simpl. rewrite decide_False by done. by left.
Qed.

Lemma NoDup_all_scopes m :
  (forall t n t' n', at2 m t n <> ∅ -> at2 m t' n' <> ∅ ->
     scope_text t n (canon_actions (at2 m t n)) = scope_text t' n' (canon_actions (at2 m t' n')) ->
     t = t' /\ n = n') ->
  NoDup (all_scopes m).
Proof.
  intros Hinj.
  assert (Hat : forall t nm n a s, m !! t = Some nm -> nm !! n = Some a -> s ∈ name_scopes t (n, a) ->
    at2 m t n = a /\ at2 m t n <> ∅ /\ s = scope_text t n (canon_actions (at2 m t n))).
  { intros t nm n a s Ht Hn Hs. unfold at2. rewrite Ht. simpl. rewrite Hn. unfold name_scopes in Hs. simpl in *.
    case_decide; [by apply elem_of_nil in Hs|]. by apply list_elem_of_singleton in Hs as ->. }
  assert (Hnd : forall {V} (m0 : gmap string V), NoDup (range_map m0))
    by (intros V m0; rewrite range_map_perm; apply NoDup_map_to_list).
  unfold all_scopes. apply NoDup_flat; [done| |].
  - intros [t nm] Ht%elem_of_range_map. simpl. rewrite type_scopes_flat. apply NoDup_flat; [done| |].
    + intros [n a] _. unfold name_scopes. case_decide; [by apply list.NoDup_nil|apply list.NoDup_singleton].
    + intros [n a] [n' a'] s Hn%elem_of_range_map Hn'%elem_of_range_map Hs Hs'.
      destruct (Hat _ _ _ _ _ Ht Hn Hs) as (? & ? & E). destruct (Hat _ _ _ _ _ Ht Hn' Hs') as (? & ? & E').
      destruct (Hinj t n t n') as [_ ->]; [done|done|congruence|]. congruence.
  - intros [t nm] [t' nm'] s Ht%elem_of_range_map Ht'%elem_of_range_map. simpl. rewrite !type_scopes_flat, !elem_of_flat.
    intros ([n a] & Hn%elem_of_range_map & Hs) ([n' a'] & Hn'%elem_of_range_map & Hs').
    destruct (Hat _ _ _ _ _ Ht Hn Hs) as (? & ? & E). destruct (Hat _ _ _ _ _ Ht' Hn' Hs') as (? & ? & E').
    destruct (Hinj t n t' n') as [-> _]; [done|done|congruence|]. congruence.
Qed.

(** [l] is the canonical list for the scopes of [l0]. *)
Definition canonical_for (l0 l : list string) : Prop :=
  Sorted le l /\ NoDup l /\ forall s, s ∈ l <-> exists t n, actions_of l0 t n <> ∅ /\ s = canon_scope l0 t n.

Lemma canonical_unique l0 l0' l l' :
  (forall t n, canon_actions (actions_of l0 t n) = canon_actions (actions_of l0' t n)) ->
  (forall t n, actions_of l0 t n = ∅ <-> actions_of l0' t n = ∅) ->
  canonical_for l0 l -> canonical_for l0' l' -> l = l'.
Proof.
  intros Hc He (Hs & Hnd & Hm) (Hs' & Hnd' & Hm'). apply sorted_unique; [done|done|].
  apply NoDup_Permutation; [done|done|]. intros s. rewrite Hm, Hm'. unfold canon_scope.
  split; intros (t & n & Hne & ->); exists t, n; rewrite Hc; (split; [|done]); intros E; by apply Hne, He.
Qed.

Lemma merge_scopes_spec l :
  Sorted le (merge_scopes l) /\
  (forall s, s ∈ merge_scopes l <-> s ∈ List.filter unrecognized l \/
     exists t n, actions_of l t n <> ∅ /\ s = canon_scope l t n) /\
  (List.filter unrecognized l = [] -> NoDup (merge_scopes l)).
Proof.
  unfold merge_scopes. pose proof (fold_scopes_spec l [] ∅) as H. destruct (foldl add_scope ([], ∅) l) as [r m].
  destruct H as [-> Hm]. simpl.
  assert (Hat : forall t n, at2 m t n = actions_of l t n) by (intros; rewrite Hm; unfold at2; rewrite lookup_empty; set_solver).
  split; [apply sort_strings_sorted|]. split.
  - intros s. rewrite sort_strings_perm, elem_of_app, elem_of_all_scopes. by setoid_rewrite Hat.
  - intros ->. simpl. rewrite sort_strings_perm. apply NoDup_all_scopes. intros t n t' n'. rewrite !Hat. apply canon_scope_inj.
Qed.

Definition recognizable (l : list string) : Prop := forall s, s ∈ l -> is_Some (parse_scope s).

Lemma recognizable_filter l : recognizable l -> List.filter unrecognized l = [].
Proof.
  intros H. destruct (List.filter unrecognized l) as [|x xs] eqn:E; [done|].
  assert (In x (List.filter unrecognized l)) as [Hin Hu]%List.filter_In by (rewrite E; by left).
  apply list_elem_of_In, H in Hin as [? Hs]. apply bool_decide_eq_true in Hu. congruence.
Qed.

Lemma CleanScopes_single s :
  is_Some (parse_scope s) -> canonical_for [s] (CleanScopes [s]).
Proof.
  intros [[[t n] acts] Hp]. unfold canonical_for. cbn [CleanScopes].
  assert (Hact : forall t' n', actions_of [s] t' n' = if decide (t = t' /\ n = n') then action_set acts else ∅).
  { intros t' n'. simpl. unfold scope_actions. rewrite Hp. case_decide; set_solver. }
  assert (cut_last ":" s = Some (t +:+ ":" +:+ n, acts)) as ->.
  { unfold parse_scope in Hp. destruct (cut ":" s) as [[t' rest]|] eqn:Ec; [|done].
    destruct (cut_last ":" rest) as [[n' a']|] eqn:El; [|done]. injection Hp as -> -> ->.
    apply cut_Some in Ec as [-> _]. apply cut_last_Some in El as [-> Ha].
    replace (t +:+ String.String ":" (n +:+ String.String ":" acts))
      with ((t +:+ ":" +:+ n) +:+ String.String ":" acts); [by apply cut_last_app|].
    by rewrite !string_app_assoc. }
  assert (cleanActions (Split "," acts) = canon_actions (action_set acts)) as ->.
  { rewrite cleanActions_canonical. f_equal. apply set_eq. intros x. unfold action_set.
    rewrite elem_of_difference, !elem_of_list_to_set, elem_of_singleton, !list_elem_of_In, List.filter_In.
    destruct (String.eqb_spec x EmptyString); naive_solver. }
  destruct (decide (action_set acts = ∅)) as [He|Hne].
  - rewrite He. unfold canon_actions. rewrite decide_False by set_solver. rewrite elements_empty.
    split; [constructor|]. split; [by apply list.NoDup_nil|]. intros x. split; [intros Hx; by apply elem_of_nil in Hx|].
    intros (t' & n' & Ha & _). rewrite Hact in Ha. case_decide; done.
  - pose proof (canon_actions_ne _ Hne) as Hcne.
    assert (Htext : (t +:+ ":" +:+ n) +:+ ":" +:+ Join "," (canon_actions (action_set acts))
      = canon_scope [s] t n).
    { unfold canon_scope, scope_text. rewrite Hact, decide_True by done. by rewrite !string_app_assoc. }
    destruct (canon_actions (action_set acts)) as [|a0 al] eqn:Ea; [done|]. rewrite Htext.
    split; [by repeat constructor|]. split; [apply list.NoDup_singleton|]. intros x. rewrite list_elem_of_singleton. split.
    + intros ->. exists t, n. rewrite Hact, decide_True by done. done.
    + intros (t' & n' & Ha & ->). rewrite Hact in Ha. case_decide as Hd; [|done]. by destruct Hd as [-> ->].
Qed.

Lemma CleanScopes_canon l : recognizable l -> canonical_for l (CleanScopes l).
Proof.
  intros Hr. destruct l as [|s [|s' l]].
  - split; [constructor|]. split; [by apply list.NoDup_nil|]. intros x. split; [intros Hx; by apply elem_of_nil in Hx|].
    by intros (t & n & Ha & _).
  - apply CleanScopes_single, Hr. by left.
  - pose proof (merge_scopes_spec (s :: s' :: l)) as (Hs & Hm & Hnd). pose proof (recognizable_filter _ Hr) as Hf.
    rewrite Hf in Hm. split; [exact Hs|]. split; [by apply Hnd|]. intros x. change (CleanScopes _) with (merge_scopes (s :: s' :: l)).
    rewrite Hm. split; [intros [Hx|?]; [by apply elem_of_nil in Hx|done]|by right].
Qed.

Lemma actions_of_clean l t n :
  recognizable l -> actions_of (CleanScopes l) t n = list_to_set (canon_actions (actions_of l t n)).
Proof.
  intros (_ & _ & Hm)%CleanScopes_canon. apply set_eq. intros a. rewrite elem_of_actions_of, elem_of_list_to_set. split.
  - intros (s & (t' & n' & Hne & ->)%Hm & Ha). rewrite scope_actions_canon in Ha by done.
    case_decide as Hd; [|set_solver]. destruct Hd as [-> ->]. by apply elem_of_list_to_set in Ha.
  - intros Ha. assert (actions_of l t n <> ∅) as Hne by (apply canon_actions_elem in Ha; set_solver).
    exists (canon_scope l t n). split; [apply Hm; eauto|].
    rewrite scope_actions_canon, decide_True by done. by apply elem_of_list_to_set.
Qed.

Lemma recognizable_clean l : recognizable l -> recognizable (CleanScopes l).
Proof.
  intros (_ & _ & Hm)%CleanScopes_canon s (t & n & Hne & ->)%Hm.
  pose proof (scope_actions_canon l t n t n Hne) as Hc. rewrite decide_True in Hc by done.
  unfold scope_actions in Hc. destruct (parse_scope (canon_scope l t n)); [by eexists|].
  exfalso. apply (canon_actions_ne _ Hne). destruct (canon_actions _) as [|a ?]; [done|]. exfalso. set_solver.
Qed.

(** C40: for scopes of the form [type:name:actions], [CleanScopes] returns the
    sorted list, without duplicates, of one scope per resource on which some
    action is asked for, with the distinct actions sorted or the wildcard alone;
    cleaning again changes nothing, and neither the order of the scopes nor that
    of the maps matters. *)
Theorem CleanScopes_canonical (l : list string) (Hl : recognizable l) :
  Sorted le (CleanScopes l) /\ NoDup (CleanScopes l)
  /\ (forall s, s ∈ CleanScopes l <-> exists t n, actions_of l t n <> ∅
        /\ s = scope_text t n (canon_actions (actions_of l t n)))
  /\ CleanScopes (CleanScopes l) = CleanScopes l
  /\ forall l', l' ≡ₚ l -> CleanScopes l' = CleanScopes l.
Proof.
  pose proof (CleanScopes_canon l Hl) as Hc. pose proof Hc as (Hs & Hnd & Hm).
  split; [done|]. split; [done|]. split; [done|]. split.
  - apply (canonical_unique (CleanScopes l) l); [| |by apply CleanScopes_canon, recognizable_clean|done].
    + intros t n. rewrite actions_of_clean by done. apply canon_actions_idem.
    + intros t n. rewrite actions_of_clean by done. split.
      * intros E. destruct (decide (actions_of l t n = ∅)) as [|Hne]; [done|]. apply canon_actions_ne in Hne.
        destruct (canon_actions _) as [|a ?]; [done|]. exfalso. set_solver.
      * intros ->. unfold canon_actions. rewrite decide_False by set_solver. by rewrite elements_empty.
  - intros l' Hp. apply (canonical_unique l' l); [| |apply CleanScopes_canon|done].
    + intros t n. by rewrite (actions_of_perm l' l).
    + intros t n. by rewrite (actions_of_perm l' l).
    + intros s Hin. apply Hl. by rewrite <- Hp.
Qed.
End merge.

Module scope_example.
#[export] Instance order : MapOrder := canonical_order.

Lemma CleanScopes_canonical_witness :
  CleanScopes ["repository:b:push,pull"; "repository:a:pull,*"; "repository:b:delete"]
  = ["repository:a:*"; "repository:b:delete,pull,push"]
  /\ CleanScopes (CleanScopes ["repository:b:push,pull"; "repository:a:pull,*"; "repository:b:delete"])
     = CleanScopes ["repository:b:push,pull"; "repository:a:pull,*"; "repository:b:delete"].
Proof.
  split; [vm_compute; reflexivity|].
  assert (Hr : recognizable ["repository:b:push,pull"; "repository:a:pull,*"; "repository:b:delete"]).
  { intros s Hs. repeat (apply elem_of_cons in Hs as [->|Hs]; [eexists; vm_compute; reflexivity|]).
    by apply elem_of_nil in Hs. }
  destruct (CleanScopes_canonical _ Hr) as (_ & _ & _ & H & _). exact H.
Defined.

(** Scopes that are not of that form are neither merged nor de-duplicated, unless
    there is just one: cleaning is then not idempotent. *)
Lemma CleanScopes_unrecognized :
  CleanScopes ["x:b,a"; "x:b,a"] = ["x:b,a"; "x:b,a"]
  /\ CleanScopes ["x:b,a"; "repository:r:"] = ["x:b,a"]
  /\ CleanScopes (CleanScopes ["x:b,a"; "repository:r:"]) = ["x:a,b"].
Proof. vm_compute. split_and!; reflexivity. Qed.
End scope_example.
