(* ===== verification/Http.v ===== *)
(** What the registry client uses of Go's [net/http], [net/url], [mime] and of
    the JSON messages of the registry API; the small helpers of
    [registry/remote/utils.go], [url.go], [manifest.go] and
    [internal/errutil] on top of them. *)

From Stdlib Require Import Ascii String ZArith Lia.
From S2P Require Import Prelude Errors Descriptor Reader Manifest GoStrings Reference Scope.
Import registry.

#[local] Open Scope string_scope.

(** ** Libraries

    A URL is what [net/url] parses; only the parts the client looks at are
    named.  [url_Ref u s] is [u.Parse(s)]; [url_SetQuery k v u] is
    [q := u.Query(); q.Set(k, v); u.RawQuery = q.Encode()]. *)
Class NetURL := {
  URL : Type;
  url_Parse : string -> option URL;
  url_Ref : URL -> string -> option URL;
  url_String : URL -> string;
  url_Scheme : URL -> string;
  url_Hostname : URL -> string;
  url_Port : URL -> string;
  url_SetHost : string -> URL -> URL;
  url_SetQuery : string -> string -> URL -> URL;
  ParseMediaType : string -> option string
}.

(** Streaming decoders of the API's JSON messages ([json.NewDecoder(r).Decode]). *)
Class RegistryJSON := {
  Decode_Index : Reader -> result Index;
  Decode_Tags : Reader -> result (list string);
  Decode_Repositories : Reader -> result (list string);
  Decode_ErrorCodes : Reader -> option (list string)
}.

Inductive Method := GET | HEAD | POST | PUT | DELETE.

#[export] Instance Method_eq_dec : EqDecision Method.
Proof. solve_decision. Defined.

(** Headers by canonical name; [Get] returns the empty string when unset. *)
Notation Header := (gmap string string).
Definition Header_Get (k : string) (h : Header) : string := default EmptyString (h !! k).

Section http.
Context {NU : NetURL}.

Record Request := mkRequest {
  rq_Method : Method;
  rq_URL : URL;
  rq_Header : Header;
  rq_Body : option Reader;
  rq_GetBody : option Reader;   (* what [GetBody] returns, when it is set *)
  rq_ContentLength : Z;
  rq_Context : Context_
}.

Record Response := mkResponse {
  StatusCode : Z;
  rs_Header : Header;
  rs_Warning : list string;   (* the values of the Warning header *)
  ContentLength : Z;
  Body : Reader;
  rs_Request : Request    (* the request as it was sent *)
}.

(** The content of a push: [http.NewRequest] knows the length of the built-in
    in-memory readers (and sets [GetBody] for them only; the body of an empty one,
    [http.NoBody] in Go, is a reader without content). *)
Inductive Content := CBytes (b : bytes) | CStream (r : Reader).

Definition content_reader (c : Content) : Reader :=
  match c with CBytes b => bytes_NewReader b | CStream r => r end.

Definition NewRequest (ctx : Context_) (method : Method) (url : string) (body : option Content) : result Request :=
  match url_Parse url with
  | None => Err (ENew "parse url")
  | Some u =>
      Ok (mkRequest method u ∅ (content_reader <$> body)
            match body with Some (CBytes b) => Some (bytes_NewReader b) | _ => None end
            match body with Some (CBytes b) => Zlen b | _ => 0%Z end ctx)
  end.

Definition Header_Set (k v : string) (r : Request) : Request :=
  mkRequest (rq_Method r) (rq_URL r) (<[k := v]> (rq_Header r)) (rq_Body r) (rq_GetBody r) (rq_ContentLength r) (rq_Context r).
Definition SetQuery (k v : string) (r : Request) : Request :=
  mkRequest (rq_Method r) (url_SetQuery k v (rq_URL r)) (rq_Header r) (rq_Body r) (rq_GetBody r) (rq_ContentLength r) (rq_Context r).
Definition SetContentLength (n : Z) (r : Request) : Request :=
  mkRequest (rq_Method r) (rq_URL r) (rq_Header r) (rq_Body r) (rq_GetBody r) n (rq_Context r).
(** [req.GetBody = ...; req.Body = req.GetBody()]. *)
Definition SetBody (b : Reader) (r : Request) : Request :=
  mkRequest (rq_Method r) (rq_URL r) (rq_Header r) (Some b) (Some b) (rq_ContentLength r) (rq_Context r).
Definition set_resp_Body (b : Reader) (r : Response) : Response :=
  mkResponse (StatusCode r) (rs_Header r) (rs_Warning r) (ContentLength r) b (rs_Request r).

(** [resp.Location()]. *)
Definition Location (resp : Response) : result URL :=
  let l := Header_Get "Location" (rs_Header resp) in
  if String.eqb l EmptyString then Err (ENew "no Location header in response")
  else match url_Ref (rq_URL (rs_Request resp)) l with
       | Some u => Ok u
       | None => Err (ENew "parse url")
       end.

(** The HTTP client: what the network does on a request. *)
Class Client (N : Type) := { Do : Request -> M N Response }.

(** [io.ReadAll]. *)
Definition io_ReadAll (r : Reader) : result bytes :=
  if decide (clean r) then Ok (content r)
  else Err (match rd_chunks r, rd_eager r with
            | _ :: _, Some e => e
            | _, _ => final_err r
            end).

(** ** utils.go *)

Definition defaultMaxMetadataBytes : Z := 4 * 1024 * 1024.

Definition metadata_bytes (n : Z) : Z := if decide (n <= 0)%Z then defaultMaxMetadataBytes else n.

Definition limitReader (r : Reader) (n : Z) : Reader := LimitReader (metadata_bytes n) r.

Definition limitSize (desc : OciDescriptor) (n : Z) : result unit :=
  if decide (metadata_bytes n < Size desc)%Z
  then Err (EWrap "content size exceeds MaxMetadataBytes" ErrSizeExceedsLimit)
  else Ok tt.

(** [strings.ToLower] and [strings.EqualFold] on the ASCII letters that schemes
    and host names are made of. *)
Definition lower_char (c : ascii) : ascii :=
  if url.is_upper c then ascii_of_N (N_of_ascii c + 32) else c.
Definition ToLower (s : string) : string := of_chars (lower_char <$> chars s).
Definition EqualFold (s t : string) : bool := String.eqb (ToLower s) (ToLower t).

Definition canonicalHostPort (u : URL) : string :=
  let port := url_Port u in
  let port :=
    if String.eqb port EmptyString then
      if String.eqb (ToLower (url_Scheme u)) "https" then "443"
      else if String.eqb (ToLower (url_Scheme u)) "http" then "80"
      else EmptyString
    else port in
  ToLower (url_Hostname u) +:+ ":" +:+ port.

Definition isSameOrigin (a b : URL) : bool :=
  if negb (EqualFold (url_Scheme a) (url_Scheme b)) then false
  else String.eqb (canonicalHostPort a) (canonicalHostPort b).

Definition parseLink (resp : Response) : result string :=
  let link := Header_Get "Link" (rs_Header resp) in
  match link with
  | EmptyString => ErrS errNoLink
  | String.String c rest =>
      if negb (Ascii.eqb c "<") then Err (ENew "invalid next link: missing '<'")
      else match cut ">" rest with
           | None => Err (ENew "invalid next link: missing '>'")
           | Some (link, _) =>
               match url_Ref (rq_URL (rs_Request resp)) link with
               | None => Err (ENew "parse url")
               | Some linkURL =>
                   if negb (isSameOrigin (rq_URL (rs_Request resp)) linkURL)
                   then Err (ENew "invalid next link: not the same origin")
                   else Ok (url_String linkURL)
               end
           end
  end.

Section json.
Context {GD : GoDigest} {MJ : ManifestJSON} {RJ : RegistryJSON}.

(** [decodeJSON] at [ocispec.Index]. *)
Definition decodeJSON_Index (r : Reader) (desc : OciDescriptor) : result Index :=
  jsonBytes ← ReadAll r desc; Unmarshal_Index jsonBytes.

(** ** internal/errutil *)

Definition maxErrorBytes : Z := 8 * 1024.

Definition ParseErrorResponse (resp : Response) : error :=
  EResponse (StatusCode resp) (default [] (Decode_ErrorCodes (LimitReader maxErrorBytes (Body resp)))).

(** [errors.As] reaches an [errcode.Error] only through a response with exactly
    one error. *)
Fixpoint IsErrorCode (err : error) (code : string) : bool :=
  match err with
  | EResponse _ [c] => String.eqb c code
  | EWrap _ e | ECopy _ _ e | EReferrers _ _ e => IsErrorCode e code
  | _ => false
  end.
End json.

(** ** url.go *)

Definition buildScheme (plainHTTP : bool) : string := if plainHTTP then "http" else "https".

Definition buildRegistryBaseURL (plainHTTP : bool) (ref : Reference) : string :=
  buildScheme plainHTTP +:+ "://" +:+ Host ref +:+ "/v2/".
Definition buildRegistryCatalogURL (plainHTTP : bool) (ref : Reference) : string :=
  buildScheme plainHTTP +:+ "://" +:+ Host ref +:+ "/v2/_catalog".
Definition buildRepositoryBaseURL (plainHTTP : bool) (ref : Reference) : string :=
  buildScheme plainHTTP +:+ "://" +:+ Host ref +:+ "/v2/" +:+ Repository ref.
Definition buildRepositoryTagListURL (plainHTTP : bool) (ref : Reference) : string :=
  buildRepositoryBaseURL plainHTTP ref +:+ "/tags/list".
Definition buildRepositoryManifestURL (plainHTTP : bool) (ref : Reference) : string :=
  Join "/" [buildRepositoryBaseURL plainHTTP ref; "manifests"; Ref ref].
Definition buildRepositoryBlobURL (plainHTTP : bool) (ref : Reference) : string :=
  Join "/" [buildRepositoryBaseURL plainHTTP ref; "blobs"; Ref ref].
Definition buildRepositoryBlobUploadURL (plainHTTP : bool) (ref : Reference) : string :=
  buildRepositoryBaseURL plainHTTP ref +:+ "/blobs/uploads/".
Definition buildRepositoryBlobMountURL (plainHTTP : bool) (ref : Reference) (d fromRepo : string)
    : string :=
  buildRepositoryBlobUploadURL plainHTTP ref +:+ "?mount=" +:+ d +:+ "&from=" +:+ fromRepo.

(** [url.QueryEscape]. *)
Definition hex_upper (n : N) : ascii := ascii_of_N (if decide (n < 10)%N then 48 + n else 55 + n)%N.
Definition query_escape_char (c : ascii) : list ascii :=
  if url.is_alnum c || url.one_of ["-"; "_"; "."; "~"]%char c then [c]
  else if Ascii.eqb c " " then ["+"%char]
  else ["%"%char; hex_upper (N_of_ascii c / 16); hex_upper (N_of_ascii c mod 16)].
Definition QueryEscape (s : string) : string := of_chars (concat (query_escape_char <$> chars s)).

Definition buildReferrersURL (plainHTTP : bool) (ref : Reference) (artifactType : string) : string :=
  let query :=
    if String.eqb artifactType EmptyString then EmptyString
    else "?artifactType=" +:+ QueryEscape artifactType in
  buildRepositoryBaseURL plainHTTP ref +:+ "/referrers/" +:+ Ref ref +:+ query.

(** ** manifest.go *)

Definition defaultManifestMediaTypes : list string :=
  [docker_MediaTypeManifest; docker_MediaTypeManifestList; MediaTypeImageManifest;
   MediaTypeImageIndex; spec_MediaTypeArtifactManifest].

Fixpoint JoinComma (l : list string) : string :=
  match l with
  | [] => EmptyString
  | [s] => s
  | s :: l' => s +:+ ", " +:+ JoinComma l'
  end.

Definition isManifest (manifestMediaTypes : list string) (desc : OciDescriptor) : bool :=
  let types := match manifestMediaTypes with [] => defaultManifestMediaTypes | l => l end in
  mem_string (MediaType desc) types.

Definition manifestAcceptHeader (manifestMediaTypes : list string) : string :=
  match manifestMediaTypes with
  | [] => JoinComma defaultManifestMediaTypes
  | l => JoinComma l
  end.

(** ** Lemmas *)

Lemma metadata_bytes_pos n : (0 < metadata_bytes n)%Z.
Proof. unfold metadata_bytes, defaultMaxMetadataBytes. case_decide; lia. Qed.

(** A link is followed only to the origin of the request that returned it. *)
Lemma parseLink_same_origin resp s :
  parseLink resp = Ok s ->
  exists link u, url_Ref (rq_URL (rs_Request resp)) link = Some u /\ s = url_String u
    /\ isSameOrigin (rq_URL (rs_Request resp)) u = true.
Proof.
  unfold parseLink. intros H. repeat case_match; try done; simplify_eq.
  eexists _, _. split; [eassumption|]. split; [done|]. by apply negb_false_iff.
Qed.

Lemma isSameOrigin_spec a b :
  isSameOrigin a b = true <->
  ToLower (url_Scheme a) = ToLower (url_Scheme b) /\ canonicalHostPort a = canonicalHostPort b.
Proof.
  unfold isSameOrigin, EqualFold.
  destruct (String.eqb_spec (ToLower (url_Scheme a)) (ToLower (url_Scheme b))); simpl.
  - rewrite String.eqb_eq. tauto.
  - naive_solver.
Qed.
End http.

Arguments Client {NU} N.
