(* ===== verification/Challenge.v ===== *)
(** Authentication challenges and warnings in response headers:
    [registry/remote/auth/challenge.go] and [registry/remote/warning.go].  The quoted
    strings of [strconv] are an interface. *)

From Stdlib Require Import Ascii String ZArith Lia.
From S2P Require Import Prelude Errors GoStrings Reference Http.

#[local] Open Scope string_scope.
#[local] Open Scope list_scope.

(** [strconv.QuotedPrefix] and [strconv.Unquote]. *)
Class GoQuote := {
  QuotedPrefix : string -> option string;
  Unquote : string -> option string
}.

(** The double quote. *)
Definition dquote : ascii := ascii_of_N 34.

(** ** Schemes *)

Inductive Scheme := SchemeUnknown | SchemeBasic | SchemeBearer.

#[export] Instance Scheme_eq_dec : EqDecision Scheme.
Proof. solve_decision. Defined.

Definition parseScheme (scheme : string) : Scheme :=
  if EqualFold scheme "basic" then SchemeBasic
  else if EqualFold scheme "bearer" then SchemeBearer
  else SchemeUnknown.

Definition Scheme_String (s : Scheme) : string :=
  match s with SchemeBasic => "Basic" | SchemeBearer => "Bearer" | SchemeUnknown => "Unknown" end.

(** ** Tokens *)

(** The bytes of a token; the bytes of other runes are none of them. *)
Definition isTokenChar (c : ascii) : bool :=
  in_range "A" "Z" c || in_range "a" "z" c || in_range "0" "9" c || has_char c "!#$%&'*+-.^_`|~".

(** Split after the longest prefix of characters that pass a test. *)
Fixpoint span (p : ascii -> bool) (s : string) : string * string :=
  match s with
  | EmptyString => (EmptyString, EmptyString)
  | String.String c s' =>
      if p c then let '(a, b) := span p s' in (String.String c a, b) else (EmptyString, s)
  end.

Definition parseToken (s : string) : string * string := span isTokenChar s.

Definition is_space (c : ascii) : bool := Ascii.eqb c " " || Ascii.eqb c (ascii_of_N 9).

(** [skipSpace]: a string of spaces only is returned as it is. *)
Definition skipSpace (s : string) : string :=
  match (span is_space s).2 with EmptyString => s | rest => rest end.

(** What follows a prefix. *)
Definition drop_prefix (p s : string) : string := String.substring (String.length p) (String.length s) s.

Section challenge.
Context {GQ : GoQuote}.

(** The value of a parameter: quoted or a token. *)
Definition parseValue (rest : string) : option (string * string) :=
  match rest with
  | String.String c _ =>
      if Ascii.eqb c dquote then
        match QuotedPrefix rest with
        | Some prefix =>
            match Unquote prefix with
            | Some value => Some (value, drop_prefix prefix rest)
            | None => None
            end
        | None => None
        end
      else
        let '(value, rest') := parseToken rest in
        if String.eqb value EmptyString then None else Some (value, rest')
  | EmptyString => None
  end.

(** The loop of [parseChallenge]: [params] are those read so far. *)
Fixpoint parse_params (fuel : nat) (rest : string) (params : gmap string string) : gmap string string :=
  match fuel with
  | O => params
  | S fuel' =>
      let '(key, rest) := parseToken (skipSpace rest) in
      if String.eqb key EmptyString then params
      else match skipSpace rest with
      | String.String c rest =>
          if negb (Ascii.eqb c "=") then params
          else match parseValue (skipSpace rest) with
          | None => params
          | Some (value, rest) =>
              let params := <[key := value]> params in
              match skipSpace rest with
              | String.String c rest => if Ascii.eqb c "," then parse_params fuel' rest params else params
              | EmptyString => params
              end
          end
      | EmptyString => params
      end
  end.

Definition parseChallenge (header : string) : Scheme * gmap string string :=
  let '(schemeString, rest) := parseToken header in
  match parseScheme schemeString with
  | SchemeBearer => (SchemeBearer, parse_params (S (String.length header)) rest ∅)
  | scheme => (scheme, ∅)
  end.

(** ** Warnings *)

Record WarningValue := mkWarning { Code : Z; Agent : string; Text : string }.

Definition warnCode299 : Z := 299.
Definition warnAgentUnknown : string := "-".

(** [strings.HasSuffix(s, c)] for one byte. *)
Fixpoint ends_with (c : ascii) (s : string) : bool :=
  match s with
  | EmptyString => false
  | String.String a EmptyString => Ascii.eqb a c
  | String.String _ s' => ends_with c s'
  end.

Definition parseWarningHeader (header : string) : result WarningValue :=
  if (String.length header <? 9)%nat || negb (String.prefix ("299 - " +:+ String.String dquote EmptyString) header)
     || negb (ends_with dquote header)
  then Err (EWrap header errUnexpectedWarningFormat)
  else match Unquote (drop_prefix "299 - " header) with
  | None => Err (EWrap header errUnexpectedWarningFormat)
  | Some text => Ok (mkWarning warnCode299 warnAgentUnknown text)
  end.

(** The warnings that [handleWarningHeaders] passes to the handler, in order. *)
Definition handleWarningHeaders (headers : list string) : list WarningValue :=
  omap (fun h => match parseWarningHeader h with Ok v => Some v | _ => None end) headers.

End challenge.
