(* ===== verification/Remote.v ===== *)
(** The client of a remote repository: [registry/remote/repository.go] and
    [registry.go].  Every operation is a sequence of HTTP exchanges with a
    [Client], each request with the context that carries the scope hints; the state
    the client keeps itself is the referrers capability. *)

From Stdlib Require Import Ascii String ZArith Lia.
From stdpp Require Import pretty.
From S2P Require Import Prelude Errors Descriptor Reader Manifest Storage.
From S2P Require Import GoStrings Reference Referrers Scope Http Challenge.
Import registry.

#[local] Open Scope string_scope.

Inductive referrersState :=
| referrersStateUnknown | referrersStateSupported | referrersStateUnsupported.

#[export] Instance referrersState_eq_dec : EqDecision referrersState.
Proof. solve_decision. Defined.

(** The fields of [Repository] that configure it; [authClient] says whether its
    client is an [*auth.Client]. *)
Record Repo := mkRepo {
  rp_Reference : Reference;
  PlainHTTP : bool;
  ManifestMediaTypes : list string;
  TagListPageSize : Z;
  ReferrerListPageSize : Z;
  MaxMetadataBytes : Z;
  SkipReferrersGC : bool;
  authClient : bool
}.

(** The referrers capability, the network and what the callbacks see. *)
Record rworld (N U : Type) := mkRW { rw_state : referrersState; rw_net : N; rw_user : U }.
Arguments mkRW {N U} rw_state rw_net rw_user.
Arguments rw_state {N U} r.
Arguments rw_net {N U} r.
Arguments rw_user {N U} r.

Definition zeroDigest : string :=
  "sha256:0000000000000000000000000000000000000000000000000000000000000000".

Definition StatusOK : Z := 200.
Definition StatusCreated : Z := 201.
Definition StatusAccepted : Z := 202.
Definition StatusNotFound : Z := 404.
Definition headerDockerContentDigest : string := "Docker-Content-Digest".
Definition headerOCIFiltersApplied : string := "OCI-Filters-Applied".
Definition headerOCISubject : string := "OCI-Subject".
Definition ErrorCodeNameUnknown : string := "NAME_UNKNOWN".
Definition AnnotationReferrersFiltersApplied : string := "org.opencontainers.referrers.filtersApplied".

(** [Repository.do] and [Registry.do]: the client of a repository, which passes the
    warnings of each response to [HandleWarning] when it is set.  A handler is a
    function of the program, so it may change the state [N] of the outside world. *)
Definition Repository_do `{NetURL} `{GoQuote} {N} (HandleWarning : option (WarningValue -> N -> N)) (client : Client N)
    : Client N := {|
  Do req :=
    match HandleWarning with
    | None => Do req
    | Some handle =>
        resp ← Do req;
        (fun n => (Ok resp, fold_left (fun n value => handle value n) (handleWarningHeaders (rs_Warning resp)) n))
          : M N Response
    end
|}.

Definition opDeleteReferrersIndex : string := "DeleteReferrersIndex".

(** [IsReferrersIndexDelete], for an error found with [errors.As]. *)
Definition IsReferrersIndexDelete (e : error) : bool :=
  match e with EReferrers op _ _ => String.eqb op opDeleteReferrersIndex | _ => false end.

Section Remote.
Context {GD : GoDigest} {MJ : ManifestJSON} {RJ : RegistryJSON} {NU : NetURL} {MO : MapOrder}.
Context {N U : Type} {CL : Client N}.
Notation W := (rworld N U).

Definition NewRepository (reference : string) : result Repo :=
  ref ← ParseReference reference; Ok (mkRepo ref false [] 0 0 0 false true).

Definition with_Reference (ref : Reference) (r : Repo) : Repo :=
  mkRepo ref (PlainHTTP r) (ManifestMediaTypes r) (TagListPageSize r) (ReferrerListPageSize r)
    (MaxMetadataBytes r) (SkipReferrersGC r) (authClient r).

Definition newRepositoryWithOptions (ref : Reference) (opts : Repo) : result Repo :=
  _ ← ValidateRepository ref; Ok (with_Reference ref opts).

(** [ref := r.Reference; ref.Reference = s]. *)
Definition at_ref (s : string) (r : Repo) : Reference :=
  mkReference (Registry (rp_Reference r)) (Repository (rp_Reference r)) s.

Definition set_state (st : referrersState) (w : W) : W := mkRW st (rw_net w) (rw_user w).
Definition set_net (n : N) (w : W) : W := mkRW (rw_state w) n (rw_user w).

(** [SetReferrersCapability]: the first call decides. *)
Definition SetReferrersCapability (capable : bool) : M W unit := fun w =>
  let state := if capable then referrersStateSupported else referrersStateUnsupported in
  if decide (rw_state w = referrersStateUnknown) then (Ok tt, set_state state w)
  else if decide (rw_state w = state) then (Ok tt, w)
  else (Err (EWrap "current capability" ErrReferrersCapabilityAlreadySet), w).

(** A call whose error is dropped. *)
Definition ignore_err (m : M W unit) : M W unit := fun w => (Ok tt, (m w).2).

Definition loadReferrersState : M W referrersState := reads (fun w => Ok (rw_state w)).

(** [r.do(req)], by the client that [Repository_do] makes. *)
Definition do (req : Request) : M W Response := on_part rw_net set_net (Do req).

(** A request without a body. *)
Definition send (ctx : Context_) (method : Method) (url : string) (prepare : Request -> Request) : M W Response :=
  req ← reads (fun _ => NewRequest ctx method url None); do (prepare req).

Definition lift {A} (r : result A) : M W A := reads (fun _ => r).

(** [Repository.ParseReference]. *)
Definition Repository_ParseReference (r : Repo) (reference : string) : result Reference :=
  ref ←
    match ParseReference reference with
    | Ok ref =>
        if negb (String.eqb (Registry ref) (Registry (rp_Reference r)))
           || negb (String.eqb (Repository ref) (Repository (rp_Reference r)))
        then Err (EWrap "mismatch" ErrInvalidReference)
        else Ok ref
    | _ =>
        match cut "@" reference with
        | Some (_, d) => _ ← ValidateReferenceAsDigest (at_ref d r); Ok (at_ref d r)
        | None => _ ← ValidateReference (at_ref reference r); Ok (at_ref reference r)
        end
    end;
  if String.eqb (Ref ref) EmptyString then ErrS ErrInvalidReference else Ok ref.

(** ** Responses *)

Definition verifyContentDigest (resp : Response) (expected : string) : result unit :=
  let digestStr := Header_Get headerDockerContentDigest (rs_Header resp) in
  if String.eqb digestStr EmptyString then Ok tt
  else if negb (digest_Validate digestStr) then Err (ENew "invalid response header")
  else if negb (String.eqb digestStr expected) then Err (ENew "digest mismatch")
  else Ok tt.

Definition generateBlobDescriptor (resp : Response) (refDigest : string) : result OciDescriptor :=
  let mediaType := default EmptyString (ParseMediaType (Header_Get "Content-Type" (rs_Header resp))) in
  let mediaType := if String.eqb mediaType EmptyString then "application/octet-stream" else mediaType in
  if decide (ContentLength resp = -1)%Z then Err (ENew "unknown response Content-Length")
  else
    _ ← verifyContentDigest resp refDigest;
    Ok (mkOci mediaType refDigest (ContentLength resp) [] None [] None EmptyString).

(** The digest of the body, which is read up to the limit and put back. *)
Definition calculateDigestFromResponse (resp : Response) (maxMetadataBytes : Z)
    : result (string * Response) :=
  content ← map_err (EWrap "failed to read response body")
    (io_ReadAll (limitReader (Body resp) maxMetadataBytes));
  Ok (digest_FromBytes content, set_resp_Body (bytes_NewReader content) resp).

(** The digest of the response by the truth table of [generateDescriptor], and
    the response, whose body may have been replaced. *)
Definition contentDigest (r : Repo) (resp : Response) (refDigest serverHeaderDigest : string)
    (httpMethod : Method) : result (string * Response) :=
  if String.eqb serverHeaderDigest EmptyString then
    if decide (httpMethod = HEAD) then
      if String.eqb refDigest EmptyString
      then Err (ENew "HTTP HEAD request missing required header")
      else Ok (refDigest, resp)
    else map_err (EWrap "failed to calculate digest on response body")
           (calculateDigestFromResponse resp (MaxMetadataBytes r))
  else Ok (serverHeaderDigest, resp).

Definition generateDescriptor (r : Repo) (resp : Response) (ref : Reference) (httpMethod : Method)
    : result (OciDescriptor * Response) :=
  match ParseMediaType (Header_Get "Content-Type" (rs_Header resp)) with
  | None => Err (ENew "invalid response Content-Type")
  | Some mediaType =>
      if decide (ContentLength resp = -1)%Z then Err (ENew "unknown response Content-Length")
      else
        let refDigest := match Reference_Digest ref with Ok d => d | _ => EmptyString end in
        let header := Header_Get headerDockerContentDigest (rs_Header resp) in
        if negb (String.eqb header EmptyString) && negb (digest_Validate header)
        then Err (ENew "invalid response header value")
        else
          '(d, resp') ← contentDigest r resp refDigest header httpMethod;
          if negb (String.eqb refDigest EmptyString) && negb (String.eqb refDigest d)
          then Err (ENew "digest mismatch")
          else Ok (mkOci mediaType d (ContentLength resp) [] None [] None EmptyString, resp')
  end.

(** [fmt.Errorf("%s: %w", _, errdef.ErrNotFound)]. *)
Definition not_found {A} : result A := Err (EWrap "not found" ErrNotFound).

(** ** Deleting *)

Definition Repository_delete (ctx : Context_) (r : Repo) (target : OciDescriptor) (isManifest : bool) : M W unit :=
  let ref := at_ref (Digest target) r in
  let ctx := AppendRepositoryScope ctx ref [ActionDelete] in
  let url := (if isManifest then buildRepositoryManifestURL else buildRepositoryBlobURL) (PlainHTTP r) ref in
  resp ← send ctx DELETE url id;
  lift (if decide (StatusCode resp = StatusAccepted) then verifyContentDigest resp (Digest target)
        else if decide (StatusCode resp = StatusNotFound) then not_found
        else Err (ParseErrorResponse resp)).

(** ** The blob store *)

(** The body is wrapped in a seeker when the server accepts ranges; its content
    read from the start is the same. *)
Definition blobStore_Fetch (ctx : Context_) (r : Repo) (target : OciDescriptor) : M W Reader :=
  let ref := at_ref (Digest target) r in
  let ctx := AppendRepositoryScope ctx ref [ActionPull] in
  resp ← send ctx GET (buildRepositoryBlobURL (PlainHTTP r) ref) id;
  lift (if decide (StatusCode resp = StatusOK) then
          if negb (bool_decide (ContentLength resp = -1)%Z)
             && negb (bool_decide (ContentLength resp = Size target))
          then Err (ENew "mismatch Content-Length")
          else _ ← verifyContentDigest resp (Digest target); Ok (Body resp)
        else if decide (StatusCode resp = StatusNotFound) then not_found
        else Err (ParseErrorResponse resp)).

(** The request body and its length: [http.NewRequest] and the size check after
    it. *)
Definition new_upload (ctx : Context_) (url : string) (expected : OciDescriptor) (content : Content) : result Request :=
  req ← NewRequest ctx PUT url (Some content);
  match content with
  | CBytes b =>
      if negb (bool_decide (rq_ContentLength req = Size expected))
      then Err (ENew "mismatch content length")
      else Ok (SetContentLength (Size expected) req)
  | CStream _ => Ok (SetContentLength (Size expected) req)
  end.

(** The port 443 of the request, when the location lost it. *)
Definition add_port (reqURL location : URL) : URL :=
  let reqPort := url_Port reqURL in
  if String.eqb reqPort "443" && String.eqb (url_Hostname location) (url_Hostname reqURL)
     && String.eqb (url_Port location) EmptyString
  then url_SetHost (url_Hostname location +:+ ":" +:+ reqPort) location
  else location.

Definition completePushAfterInitialPost (ctx : Context_) (r : Repo) (req : Request) (resp : Response)
    (expected : OciDescriptor) (content : Content) : M W unit :=
  location ← lift (Location resp);
  put ← lift (new_upload ctx (url_String (add_port (rq_URL req) location)) expected content);
  let put := SetQuery "digest" (Digest expected)
               (Header_Set "Content-Type" "application/octet-stream" put) in
  let auth := Header_Get "Authorization" (rq_Header (rs_Request resp)) in
  let put := if String.eqb auth EmptyString then put else Header_Set "Authorization" auth put in
  resp ← do put;
  lift (if decide (StatusCode resp = StatusCreated) then Ok tt else Err (ParseErrorResponse resp)).

Definition blobStore_Push (ctx : Context_) (r : Repo) (expected : OciDescriptor) (content : Content) : M W unit :=
  let ctx := AppendRepositoryScope ctx (rp_Reference r) [ActionPull; ActionPush] in
  req ← lift (NewRequest ctx POST (buildRepositoryBlobUploadURL (PlainHTTP r) (rp_Reference r)) None);
  resp ← do req;
  if decide (StatusCode resp = StatusAccepted)
  then completePushAfterInitialPost ctx r req resp expected content
  else lift (Err (ParseErrorResponse resp)).

(** [sibling]: the blob store of another repository of the registry. *)
Definition sibling (r : Repo) (otherRepoName : string) : Repo :=
  with_Reference (mkReference (Registry (rp_Reference r)) otherRepoName (Ref (rp_Reference r))) r.

Definition blobStore_Mount (ctx : Context_) (r : Repo) (desc : OciDescriptor) (fromRepo : string)
    (getContent : option (M W Reader)) : M W unit :=
  let ctx := AppendRepositoryScope ctx (rp_Reference r) [ActionPull; ActionPush] in
  let ctx := AppendRepositoryScope ctx (rp_Reference (sibling r fromRepo)) [ActionPull] in
  req ← lift (NewRequest ctx POST
    (buildRepositoryBlobMountURL (PlainHTTP r) (rp_Reference r) (Digest desc) fromRepo) None);
  resp ← do req;
  if decide (StatusCode resp = StatusCreated) then lift (verifyContentDigest resp (Digest desc))
  else if decide (StatusCode resp = StatusAccepted) then
    rc ← on_err (EWrap "cannot read source blob")
      match getContent with
      | Some get => get
      | None => blobStore_Fetch ctx (sibling r fromRepo) desc
      end;
    completePushAfterInitialPost ctx r req resp desc (CStream rc)
  else lift (Err (ParseErrorResponse resp)).

Definition blobStore_Resolve (ctx : Context_) (r : Repo) (reference : string) : M W OciDescriptor :=
  ref ← lift (Repository_ParseReference r reference);
  refDigest ← lift (Reference_Digest ref);
  let ctx := AppendRepositoryScope ctx ref [ActionPull] in
  resp ← send ctx HEAD (buildRepositoryBlobURL (PlainHTTP r) ref) id;
  lift (if decide (StatusCode resp = StatusOK) then generateBlobDescriptor resp refDigest
        else if decide (StatusCode resp = StatusNotFound) then not_found
        else Err (ParseErrorResponse resp)).

(** [Exists] of both stores. *)
Definition exists_by (resolve : string -> M W OciDescriptor) (target : OciDescriptor) : M W bool :=
  fun w =>
    match resolve (Digest target) w with
    | (Ok _, w') => (Ok true, w')
    | (Err e, w') => if errors_Is e ErrNotFound then (Ok false, w') else (Err e, w')
    | (Panic, w') => (Panic, w')
    end.

Definition blobStore_Exists (ctx : Context_) (r : Repo) : OciDescriptor -> M W bool := exists_by (blobStore_Resolve ctx r).
Definition blobStore_Delete (ctx : Context_) (r : Repo) (target : OciDescriptor) : M W unit := Repository_delete ctx r target false.

Definition blobStore_FetchReference (ctx : Context_) (r : Repo) (reference : string) : M W (OciDescriptor * Reader) :=
  ref ← lift (Repository_ParseReference r reference);
  refDigest ← lift (Reference_Digest ref);
  let ctx := AppendRepositoryScope ctx ref [ActionPull] in
  resp ← send ctx GET (buildRepositoryBlobURL (PlainHTTP r) ref) id;
  if decide (StatusCode resp = StatusOK) then
    desc ← (if decide (ContentLength resp = -1)%Z then blobStore_Resolve ctx r reference
            else lift (generateBlobDescriptor resp refDigest));
    mret (desc, Body resp)
  else if decide (StatusCode resp = StatusNotFound) then lift not_found
  else lift (Err (ParseErrorResponse resp)).

(** ** The manifest store *)

Definition manifestStore_Fetch (ctx : Context_) (r : Repo) (target : OciDescriptor) : M W Reader :=
  let ref := at_ref (Digest target) r in
  let ctx := AppendRepositoryScope ctx ref [ActionPull] in
  resp ← send ctx GET (buildRepositoryManifestURL (PlainHTTP r) ref)
           (Header_Set "Accept" (MediaType target));
  lift (if decide (StatusCode resp = StatusOK) then
          match ParseMediaType (Header_Get "Content-Type" (rs_Header resp)) with
          | None => Err (ENew "invalid response Content-Type")
          | Some mediaType =>
              if negb (String.eqb mediaType (MediaType target))
              then Err (ENew "mismatch response Content-Type")
              else if negb (bool_decide (ContentLength resp = -1)%Z)
                      && negb (bool_decide (ContentLength resp = Size target))
              then Err (ENew "mismatch Content-Length")
              else _ ← verifyContentDigest resp (Digest target); Ok (Body resp)
          end
        else if decide (StatusCode resp = StatusNotFound) then not_found
        else Err (ParseErrorResponse resp)).

Definition manifestStore_Resolve (ctx : Context_) (r : Repo) (reference : string) : M W OciDescriptor :=
  ref ← lift (Repository_ParseReference r reference);
  let ctx := AppendRepositoryScope ctx ref [ActionPull] in
  resp ← send ctx HEAD (buildRepositoryManifestURL (PlainHTTP r) ref)
           (Header_Set "Accept" (manifestAcceptHeader (ManifestMediaTypes r)));
  lift (if decide (StatusCode resp = StatusOK) then fst <$> generateDescriptor r resp ref HEAD
        else if decide (StatusCode resp = StatusNotFound) then not_found
        else Err (ParseErrorResponse resp)).

Definition manifestStore_Exists (ctx : Context_) (r : Repo) : OciDescriptor -> M W bool :=
  exists_by (manifestStore_Resolve ctx r).

Definition manifestStore_FetchReference (ctx : Context_) (r : Repo) (reference : string) : M W (OciDescriptor * Reader) :=
  ref ← lift (Repository_ParseReference r reference);
  let ctx := AppendRepositoryScope ctx ref [ActionPull] in
  resp ← send ctx GET (buildRepositoryManifestURL (PlainHTTP r) ref)
           (Header_Set "Accept" (manifestAcceptHeader (ManifestMediaTypes r)));
  if decide (StatusCode resp = StatusOK) then
    if decide (ContentLength resp = -1)%Z then
      desc ← manifestStore_Resolve ctx r reference; mret (desc, Body resp)
    else
      '(desc, resp') ← lift (generateDescriptor r resp ref GET); mret (desc, Body resp')
  else if decide (StatusCode resp = StatusNotFound) then lift not_found
  else lift (Err (ParseErrorResponse resp)).

Definition checkOCISubjectHeader (resp : Response) : M W unit :=
  if negb (String.eqb (Header_Get headerOCISubject (rs_Header resp)) EmptyString)
  then ignore_err (SetReferrersCapability true)
  else mret tt.

(** With an auth client a streamed manifest is first read into memory, so that
    it can be sent again after a challenge. *)
Definition buffer_body (r : Repo) (expected : OciDescriptor) (content : Content) (req : Request)
    : result Request :=
  match content with
  | CStream rd =>
      if authClient r then
        let '(res, store) := cas.Push expected rd cas.NewMemory in
        _ ← res; body ← cas.Fetch expected store; Ok (SetBody body req)
      else Ok req
  | CBytes _ => Ok req
  end.

Definition push (ctx : Context_) (r : Repo) (expected : OciDescriptor) (content : Content) (reference : string) : M W unit :=
  let ref := at_ref reference r in
  let ctx := AppendRepositoryScope ctx ref [ActionPull; ActionPush] in
  let url := buildRepositoryManifestURL (PlainHTTP r) ref in
  req ← lift (new_upload ctx url expected content);
  req ← lift (buffer_body r expected content (Header_Set "Content-Type" (MediaType expected) req));
  resp ← do req;
  if decide (StatusCode resp = StatusCreated) then
    _ ← checkOCISubjectHeader resp; lift (verifyContentDigest resp (Digest expected))
  else lift (Err (ParseErrorResponse resp)).

Definition Tag (ctx : Context_) (r : Repo) (desc : OciDescriptor) (reference : string) : M W unit :=
  ref ← lift (Repository_ParseReference r reference);
  let ctx := AppendRepositoryScope ctx ref [ActionPull; ActionPush] in
  rc ← manifestStore_Fetch ctx r desc;
  push ctx r desc (CStream rc) (Ref ref).

(** *** Referrers index *)

Definition generateIndex (manifests : list OciDescriptor) : result (OciDescriptor * bytes) :=
  let index := mkIndex 2 MediaTypeImageIndex EmptyString manifests None None in
  indexJSON ← Marshal_Index index;
  Ok (NewDescriptorFromBytes (i_MediaType index) indexJSON, indexJSON).

Definition referrersFromIndex (ctx : Context_) (r : Repo) (referrersTag : string)
    : M W (OciDescriptor * list OciDescriptor) :=
  '(desc, rc) ← manifestStore_FetchReference ctx r referrersTag;
  _ ← lift (map_err (EWrap "failed to read referrers index") (limitSize desc (MaxMetadataBytes r)));
  index ← lift (map_err (EWrap "failed to decode referrers index") (decodeJSON_Index rc desc));
  mret (desc, i_Manifests index).

(** The closures [prepare] and [update] of [updateReferrersIndex]. *)
Definition prepare_index (ctx : Context_) (r : Repo) (referrersTag : string)
    : M W (option OciDescriptor * list OciDescriptor) := fun w =>
  match referrersFromIndex ctx r referrersTag w with
  | (Ok (indexDesc, referrers), w') => (Ok (Some indexDesc, referrers), w')
  | (Err e, w') => if errors_Is e ErrNotFound then (Ok (None, []), w') else (Err e, w')
  | (Panic, w') => (Panic, w')
  end.

Definition push_index (ctx : Context_) (r : Repo) (referrersTag : string) (updatedReferrers : list OciDescriptor) : M W unit :=
  if bool_decide (0 < length updatedReferrers) || SkipReferrersGC r then
    '(newIndexDesc, newIndex) ← lift (map_err (EWrap "failed to generate referrers index")
                                       (generateIndex updatedReferrers));
    on_err (EWrap "failed to push referrers index")
      (push ctx r newIndexDesc (CBytes newIndex) referrersTag)
  else mret tt.

Definition update_index (ctx : Context_) (r : Repo) (subject : OciDescriptor) (referrersTag : string) (oldIndexDesc : option OciDescriptor)
    (oldReferrers : list OciDescriptor) (referrerChanges : list referrerChange) : M W unit :=
  match applyReferrerChanges oldReferrers referrerChanges with
  | Err e => if decide (e = ESentinel errNoReferrerUpdate) then mret tt else fails e
  | Panic => lift Panic
  | Ok updatedReferrers =>
      _ ← push_index ctx r referrersTag updatedReferrers;
      match oldIndexDesc with
      | Some old =>
          if SkipReferrersGC r then mret tt
          else on_err (fun e => EReferrers opDeleteReferrersIndex (Digest subject)
                          (EWrap "failed to delete dangling referrers index" e)) (Repository_delete ctx r old true)
      | None => mret tt
      end
  end.

(** [updateReferrersIndex] of a caller that meets no other: the merge of its
    single change runs [prepare] and [update] once. *)
Definition updateReferrersIndex (ctx : Context_) (r : Repo) (subject : OciDescriptor) (change : referrerChange) : M W unit :=
  referrersTag ← lift (buildReferrersTag subject);
  '(oldIndexDesc, oldReferrers) ← prepare_index ctx r referrersTag;
  update_index ctx r subject referrersTag oldIndexDesc oldReferrers [change].

(** The subject of a pushed manifest and the descriptor listed for it. *)
Definition referrer_of (desc : OciDescriptor) (manifestJSON : bytes)
    : result (option (OciDescriptor * OciDescriptor)) :=
  let mt := MediaType desc in
  let listed t a s := Some (s, set_Annotations a (set_ArtifactType t desc)) in
  map_err (EWrap "failed to decode manifest")
    (if String.eqb mt spec_MediaTypeArtifactManifest then
       m ← Unmarshal_Artifact manifestJSON;
       Ok (a_Subject m ≫= listed (a_ArtifactType m) (a_Annotations m))
     else if String.eqb mt MediaTypeImageManifest then
       m ← Unmarshal_Manifest manifestJSON;
       let t := if String.eqb (m_ArtifactType m) EmptyString
                then MediaType (m_Config m) else m_ArtifactType m in
       Ok (m_Subject m ≫= listed t (m_Annotations m))
     else if String.eqb mt MediaTypeImageIndex then
       m ← Unmarshal_Index manifestJSON;
       Ok (i_Subject m ≫= listed (i_ArtifactType m) (i_Annotations m))
     else Ok None).

Definition indexReferrersForPush (ctx : Context_) (r : Repo) (desc : OciDescriptor) (manifestJSON : bytes) : M W unit :=
  s ← lift (referrer_of desc manifestJSON);
  match s with
  | None => mret tt
  | Some (subject, desc) =>
      _ ← ignore_err (SetReferrersCapability false);
      updateReferrersIndex ctx r subject (mkChange desc referrerOperationAdd)
  end.

(** The media types whose manifests can have a subject. *)
Definition has_subject_type (desc : OciDescriptor) : bool :=
  mem_string (MediaType desc)
    [spec_MediaTypeArtifactManifest; MediaTypeImageManifest; MediaTypeImageIndex].

Definition pushWithIndexing (ctx : Context_) (r : Repo) (expected : OciDescriptor) (rd : Content) (reference : string)
    : M W unit :=
  if has_subject_type expected then
    state ← loadReferrersState;
    if decide (state = referrersStateSupported) then push ctx r expected rd reference
    else
      _ ← lift (limitSize expected (MaxMetadataBytes r));
      manifestJSON ← lift (ReadAll (content_reader rd) expected);
      _ ← push ctx r expected (CBytes manifestJSON) reference;
      state ← loadReferrersState;
      if decide (state = referrersStateSupported) then mret tt
      else indexReferrersForPush ctx r expected manifestJSON
  else push ctx r expected rd reference.

Definition manifestStore_Push (ctx : Context_) (r : Repo) (expected : OciDescriptor) (content : Content) : M W unit :=
  pushWithIndexing ctx r expected content (Digest expected).

Definition PushReference (ctx : Context_) (r : Repo) (expected : OciDescriptor) (content : Content) (reference : string)
    : M W unit :=
  ref ← lift (Repository_ParseReference r reference);
  pushWithIndexing ctx r expected content (Ref ref).

(** [pingReferrers]; the second check under the lock sees the same state. *)
Definition pingReferrers (ctx : Context_) (r : Repo) : M W bool :=
  state ← loadReferrersState;
  match state with
  | referrersStateSupported => mret true
  | referrersStateUnsupported => mret false
  | referrersStateUnknown =>
      let ctx := AppendRepositoryScope ctx (at_ref zeroDigest r) [ActionPull] in
      resp ← send ctx GET (buildReferrersURL (PlainHTTP r) (at_ref zeroDigest r) EmptyString) id;
      if decide (StatusCode resp = StatusOK) then
        let supported := String.eqb (Header_Get "Content-Type" (rs_Header resp)) MediaTypeImageIndex in
        _ ← ignore_err (SetReferrersCapability supported);
        mret supported
      else if decide (StatusCode resp = StatusNotFound) then
        let err := ParseErrorResponse resp in
        if IsErrorCode err ErrorCodeNameUnknown then fails err
        else _ ← ignore_err (SetReferrersCapability false); mret false
      else fails (ParseErrorResponse resp)
  end.

Definition indexReferrersForDelete (ctx : Context_) (r : Repo) (desc : OciDescriptor) (manifestJSON : bytes) : M W unit :=
  subject ← lift (map_err (EWrap "failed to decode manifest") (Unmarshal_Subject manifestJSON));
  match subject with
  | None => mret tt
  | Some subject =>
      ok ← pingReferrers ctx r;
      if ok : bool then mret tt
      else updateReferrersIndex ctx r subject (mkChange desc referrerOperationRemove)
  end.

Definition deleteWithIndexing (ctx : Context_) (r : Repo) (target : OciDescriptor) : M W unit :=
  state ← loadReferrersState;
  if has_subject_type target && negb (bool_decide (state = referrersStateSupported)) then
    _ ← lift (limitSize target (MaxMetadataBytes r));
    let ctx := AppendRepositoryScope ctx (rp_Reference r) [ActionPull; ActionDelete] in
    rc ← manifestStore_Fetch ctx r target;
    manifestJSON ← lift (ReadAll rc target);
    _ ← indexReferrersForDelete ctx r target manifestJSON;
    Repository_delete ctx r target true
  else Repository_delete ctx r target true.

(** ** Listing *)

(** The loops that follow the links of a listing: [page url] handles one page
    and returns the next link, [errNoLink] ends the listing. *)
Fixpoint pages (fuel : nat) (page : string -> M W string) (url : string) (w : W)
    : option (result unit * W) :=
  match fuel with
  | O => None
  | S fuel' =>
      match page url w with
      | (Ok next, w') => pages fuel' page next w'
      | (Err e, w') => Some (if decide (e = ESentinel errNoLink) then (Ok tt, w') else (Err e, w'))
      | (Panic, w') => Some (Panic, w')
      end
  end.

(** [filterTypeArtifactType]. *)
Definition filterTypeArtifactType : string := "artifactType".

Definition Itoa (n : Z) : string := pretty n.

Definition page_referrers (artifactType : string) (resp : Response) (index : Index) : list OciDescriptor :=
  if String.eqb artifactType EmptyString then i_Manifests index
  else
    let filtersHeader := Header_Get headerOCIFiltersApplied (rs_Header resp) in
    let filtersAnnotation :=
      default EmptyString (default ∅ (i_Annotations index) !! AnnotationReferrersFiltersApplied) in
    if negb (isReferrersFilterApplied filtersHeader filterTypeArtifactType)
       && negb (isReferrersFilterApplied filtersAnnotation filterTypeArtifactType)
    then filterReferrers (i_Manifests index) artifactType
    else i_Manifests index.

Definition referrersPageByAPI (ctx : Context_) (r : Repo) (artifactType : string)
    (fn : list OciDescriptor -> M W unit) (url : string) : M W string :=
  resp ← send ctx GET url
    (if decide (0 < ReferrerListPageSize r)%Z then SetQuery "n" (Itoa (ReferrerListPageSize r)) else id);
  if decide (StatusCode resp = StatusOK) then
    if negb (String.eqb (Header_Get "Content-Type" (rs_Header resp)) MediaTypeImageIndex)
    then fails (EWrap "unknown content returned" ErrUnsupported)
    else
      index ← lift (map_err (EWrap "failed to decode response")
                     (Decode_Index (limitReader (Body resp) (MaxMetadataBytes r))));
      let referrers := page_referrers artifactType resp index in
      _ ← (if decide (0 < length referrers) then fn referrers else mret tt);
      lift (parseLink resp)
  else if decide (StatusCode resp = StatusNotFound) then
    let errResp := ParseErrorResponse resp in
    if IsErrorCode errResp ErrorCodeNameUnknown then fails errResp
    else fails (EWrap "failed to query referrers API" ErrUnsupported)
  else fails (ParseErrorResponse resp).

Definition referrersByAPI (fuel : nat) (ctx : Context_) (r : Repo) (desc : OciDescriptor) (artifactType : string)
    (fn : list OciDescriptor -> M W unit) (w : W) : option (result unit * W) :=
  let ctx := AppendRepositoryScope ctx (at_ref (Digest desc) r) [ActionPull] in
  pages fuel (referrersPageByAPI ctx r artifactType fn)
    (buildReferrersURL (PlainHTTP r) (at_ref (Digest desc) r) artifactType) w.

Definition referrersByTagSchema (ctx : Context_) (r : Repo) (desc : OciDescriptor) (artifactType : string)
    (fn : list OciDescriptor -> M W unit) : M W unit := fun w =>
  match buildReferrersTag desc with
  | Panic => (Panic, w)
  | Err e => (Err e, w)
  | Ok referrersTag =>
      match referrersFromIndex ctx r referrersTag w with
      | (Err e, w') => if errors_Is e ErrNotFound then (Ok tt, w') else (Err e, w')
      | (Panic, w') => (Panic, w')
      | (Ok (_, referrers), w') =>
          let filtered := filterReferrers referrers artifactType in
          if decide (length filtered = 0) then (Ok tt, w') else fn filtered w'
      end
  end.

Definition Referrers (fuel : nat) (ctx : Context_) (r : Repo) (desc : OciDescriptor) (artifactType : string)
    (fn : list OciDescriptor -> M W unit) (w : W) : option (result unit * W) :=
  match rw_state w with
  | referrersStateUnsupported => Some (referrersByTagSchema ctx r desc artifactType fn w)
  | referrersStateSupported => referrersByAPI fuel ctx r desc artifactType fn w
  | referrersStateUnknown =>
      match referrersByAPI fuel ctx r desc artifactType fn w with
      | None => None
      | Some (Ok _, w') => Some (ignore_err (SetReferrersCapability true) w')
      | Some (Err e, w') =>
          if errors_Is e ErrUnsupported
          then let '(_, w2) := ignore_err (SetReferrersCapability false) w' in
               Some (referrersByTagSchema ctx r desc artifactType fn w2)
          else Some (Err e, w')
      | Some (Panic, w') => Some (Panic, w')
      end
  end.

(** The page queries of [tags] and [repositories]. *)
Definition list_query (pageSize : Z) (last : string) (req : Request) : Request :=
  let req := if decide (0 < pageSize)%Z then SetQuery "n" (Itoa pageSize) req else req in
  if String.eqb last EmptyString then req else SetQuery "last" last req.

Definition list_page (ctx : Context_) (pageSize limit : Z) (decode : Reader -> result (list string)) (last : string)
    (fn : list string -> M W unit) (url : string) : M W string :=
  resp ← send ctx GET url (list_query pageSize last);
  if decide (StatusCode resp = StatusOK) then
    page ← lift (map_err (EWrap "failed to decode response") (decode (limitReader (Body resp) limit)));
    _ ← fn page;
    lift (parseLink resp)
  else fails (ParseErrorResponse resp).

(** [last] is used for the first page only. *)
Definition list_all (fuel : nat) (page : string -> string -> M W string) (last url : string) (w : W)
    : option (result unit * W) :=
  match fuel with
  | O => None
  | S fuel' =>
      match page last url w with
      | (Ok next, w') => pages fuel' (page EmptyString) next w'
      | (Err e, w') => Some (if decide (e = ESentinel errNoLink) then (Ok tt, w') else (Err e, w'))
      | (Panic, w') => Some (Panic, w')
      end
  end.

Definition tags (ctx : Context_) (r : Repo) (last : string) (fn : list string -> M W unit) (url : string) : M W string :=
  list_page ctx (TagListPageSize r) (MaxMetadataBytes r) Decode_Tags last fn url.

Definition Tags (fuel : nat) (ctx : Context_) (r : Repo) (last : string) (fn : list string -> M W unit) (w : W)
    : option (result unit * W) :=
  let ctx := AppendRepositoryScope ctx (rp_Reference r) [ActionPull] in
  list_all fuel (fun last => tags ctx r last fn) last (buildRepositoryTagListURL (PlainHTTP r) (rp_Reference r)) w.

(** ** [registry.go] *)

Definition Ping (ctx : Context_) (r : Repo) : M W unit :=
  resp ← send ctx GET (buildRegistryBaseURL (PlainHTTP r) (rp_Reference r)) id;
  lift (if decide (StatusCode resp = StatusOK) then Ok tt
        else if decide (StatusCode resp = StatusNotFound) then ErrS ErrNotFound
        else Err (ParseErrorResponse resp)).

Definition repositories (ctx : Context_) (r : Repo) (pageSize : Z) (last : string) (fn : list string -> M W unit)
    (url : string) : M W string :=
  list_page ctx pageSize (MaxMetadataBytes r) Decode_Repositories last fn url.

Definition Repositories (fuel : nat) (ctx : Context_) (r : Repo) (pageSize : Z) (last : string)
    (fn : list string -> M W unit) (w : W) : option (result unit * W) :=
  let ctx := AppendScopesForHost ctx (Host (rp_Reference r)) [ScopeRegistryCatalog] in
  list_all fuel (fun last => repositories ctx r pageSize last fn) last
    (buildRegistryCatalogURL (PlainHTTP r) (rp_Reference r)) w.

(** [Registry]: its options are the template of its repositories. *)
Record RemoteRegistry := mkRegistry { RepositoryOptions : Repo; RepositoryListPageSize : Z }.

Definition NewRegistry (name : string) : result RemoteRegistry :=
  let ref := mkReference name EmptyString EmptyString in
  _ ← ValidateRegistry ref; Ok (mkRegistry (mkRepo ref false [] 0 0 0 false true) 0).

Definition Registry_Repository (reg : RemoteRegistry) (name : string) : result Repo :=
  newRepositoryWithOptions (mkReference (Registry (rp_Reference (RepositoryOptions reg))) name EmptyString)
    (RepositoryOptions reg).

(** ** The repository dispatches on the media type *)

Definition Repository_Fetch (ctx : Context_) (r : Repo) (target : OciDescriptor) : M W Reader :=
  if isManifest (ManifestMediaTypes r) target then manifestStore_Fetch ctx r target else blobStore_Fetch ctx r target.
Definition Repository_Push (ctx : Context_) (r : Repo) (expected : OciDescriptor) (content : Content) : M W unit :=
  if isManifest (ManifestMediaTypes r) expected
  then manifestStore_Push ctx r expected content else blobStore_Push ctx r expected content.
Definition Repository_Exists (ctx : Context_) (r : Repo) (target : OciDescriptor) : M W bool :=
  if isManifest (ManifestMediaTypes r) target then manifestStore_Exists ctx r target else blobStore_Exists ctx r target.
Definition Repository_Delete (ctx : Context_) (r : Repo) (target : OciDescriptor) : M W unit :=
  if isManifest (ManifestMediaTypes r) target then deleteWithIndexing ctx r target else blobStore_Delete ctx r target.
End Remote.

(** [Predecessors]: the callback appends to a slice. *)
Definition Predecessors `{GoDigest} `{ManifestJSON} `{RegistryJSON} `{NetURL} `{MapOrder} {N} {CL : Client N}
    (fuel : nat) (ctx : Context_) (r : Repo) (desc : OciDescriptor) (w : rworld N (list OciDescriptor))
    : option (result (list OciDescriptor) * rworld N (list OciDescriptor)) :=
  let append (referrers : list OciDescriptor) : M (rworld N (list OciDescriptor)) unit :=
    fun w => (Ok tt, mkRW (rw_state w) (rw_net w) (app (rw_user w) referrers)) in
  match Referrers fuel ctx r desc EmptyString append (mkRW (rw_state w) (rw_net w) []) with
  | None => None
  | Some (Ok _, w') => Some (Ok (rw_user w'), w')
  | Some (Err e, w') => Some (Err e, w')
  | Some (Panic, w') => Some (Panic, w')
  end.
