(* ===== verification/RemoteCorrect.v ===== *)
(** Properties of the registry client: what holds against any server, and what
    the referrers tag schema achieves against a registry that follows the
    distribution specification. *)

From Stdlib Require Import Ascii String ZArith Lia.
From S2P Require Import Prelude Errors Descriptor Reader Manifest Storage.
From S2P Require Import GoStrings Reference Referrers Scope Http Challenge Remote.
Import registry.

(** Split a chain of binds, conditionals and matches into its calls. *)
Ltac keeps_tac :=
  repeat first
    [ progress (auto 4 with go nocore)
    | apply keeps_bind; [|intros ?]
    | apply keeps_on_err
    | match goal with
      | |- keeps _ (if ?b then _ else _) => destruct b
      | |- keeps _ (match ?x with _ => _ end) => destruct x
      | |- keeps _ (let '(_, _) := ?x in _) => destruct x
      end ].

(** ** Against any server *)
Section any_server.
Context {GD : GoDigest} {MJ : ManifestJSON} {RJ : RegistryJSON} {NU : NetURL} {MO : MapOrder}.
Context {N U : Type} {CL : Client N}.
Notation W := (rworld N U).

Section capability.
Context (st : referrersState) (Hst : st <> referrersStateUnknown).
Definition cap (w : W) : Prop := rw_state w = st.

Lemma keeps_do req : keeps cap (do req).
Proof. intros w Hw. unfold do, on_part. by destruct (Do req (rw_net w)). Qed.

Lemma keeps_lift {A} (r : result A) : keeps cap (lift r).
Proof. apply keeps_reads. Qed.

Lemma keeps_SetReferrersCapability b : keeps cap (SetReferrersCapability b).
Proof.
  intros w Hw. unfold SetReferrersCapability, cap in *. repeat case_decide; simpl; congruence.
Qed.

Lemma keeps_ignore_err m : keeps cap m -> keeps cap (ignore_err m).
Proof. intros Hm w Hw. by apply Hm. Qed.

Lemma keeps_loadReferrersState : keeps cap loadReferrersState.
Proof. apply keeps_reads. Qed.

#[local] Hint Resolve keeps_do keeps_lift keeps_SetReferrersCapability keeps_ignore_err
  keeps_loadReferrersState : go.

Lemma keeps_send ctx m url prep : keeps cap (send ctx m url prep).
Proof. unfold send. keeps_tac. Qed.
#[local] Hint Resolve keeps_send : go.

Lemma keeps_delete ctx r d b : keeps cap (Repository_delete ctx r d b).
Proof. unfold Repository_delete. keeps_tac. Qed.
Lemma keeps_manifest_Fetch ctx r d : keeps cap (manifestStore_Fetch ctx r d).
Proof. unfold manifestStore_Fetch. keeps_tac. Qed.
Lemma keeps_manifest_Resolve ctx r s : keeps cap (manifestStore_Resolve ctx r s).
Proof. unfold manifestStore_Resolve. keeps_tac. Qed.
#[local] Hint Resolve keeps_delete keeps_manifest_Fetch keeps_manifest_Resolve : go.

Lemma keeps_manifest_FetchReference ctx r s : keeps cap (manifestStore_FetchReference ctx r s).
Proof. unfold manifestStore_FetchReference. keeps_tac. Qed.
#[local] Hint Resolve keeps_manifest_FetchReference : go.

Lemma keeps_push ctx r d c s : keeps cap (push ctx r d c s).
Proof. unfold push, checkOCISubjectHeader. keeps_tac. Qed.
#[local] Hint Resolve keeps_push : go.

Lemma keeps_referrersFromIndex ctx r t : keeps cap (referrersFromIndex ctx r t).
Proof. unfold referrersFromIndex. keeps_tac. Qed.

Lemma keeps_prepare_index ctx r t : keeps cap (prepare_index ctx r t).
Proof.
  intros w Hw. unfold prepare_index. pose proof (keeps_referrersFromIndex ctx r t w Hw) as H.
  destruct (referrersFromIndex ctx r t w) as [[[d l]|e|] w']; simpl in *; [done| |done].
  by destruct (errors_Is e ErrNotFound).
Qed.

Lemma keeps_updateReferrersIndex ctx r s c : keeps cap (updateReferrersIndex ctx r s c).
Proof.
  unfold updateReferrersIndex. keeps_tac; [apply keeps_prepare_index|].
  unfold update_index, push_index. keeps_tac.
Qed.
#[local] Hint Resolve keeps_updateReferrersIndex : go.

Lemma keeps_pushWithIndexing ctx r d c s : keeps cap (pushWithIndexing ctx r d c s).
Proof. unfold pushWithIndexing, indexReferrersForPush. keeps_tac. Qed.

Lemma keeps_deleteWithIndexing ctx r d : keeps cap (deleteWithIndexing ctx r d).
Proof. unfold deleteWithIndexing, indexReferrersForDelete, pingReferrers. keeps_tac. Qed.

Lemma keeps_pages fuel page url w res w' :
  (forall u, keeps cap (page u)) -> cap w -> pages fuel page url w = Some (res, w') -> cap w'.
Proof.
  intros Hp. revert url w. induction fuel as [|fuel IH]; intros url w Hw; simpl; [done|].
  pose proof (Hp url w Hw) as H. destruct (page url w) as [[next|e|] w1]; simpl in *.
  - by apply IH.
  - case_decide; by intros [= <- <-].
  - by intros [= <- <-].
Qed.

Lemma keeps_referrersByTagSchema ctx r d t fn :
  (forall l, keeps cap (fn l)) -> keeps cap (referrersByTagSchema ctx r d t fn).
Proof.
  intros Hfn w Hw. unfold referrersByTagSchema. destruct (buildReferrersTag d) as [tag| |]; [|done..].
  pose proof (keeps_referrersFromIndex ctx r tag w Hw) as H.
  destruct (referrersFromIndex ctx r tag w) as [[[d' l]|e|] w']; simpl in *; [|by destruct (errors_Is e ErrNotFound)|done].
  case_decide; [done|]. by apply Hfn.
Qed.

Lemma keeps_referrersByAPI fuel ctx r d t fn w res w' :
  (forall l, keeps cap (fn l)) -> cap w ->
  referrersByAPI fuel ctx r d t fn w = Some (res, w') -> cap w'.
Proof.
  intros Hfn Hw. unfold referrersByAPI. apply keeps_pages; [|done].
  intros u. unfold referrersPageByAPI. keeps_tac; apply Hfn.
Qed.
End capability.

(** What a client operation may do. *)
Inductive remote_op :=
| OpPush (expected : OciDescriptor) (content : Content) (reference : string)
| OpDelete (target : OciDescriptor)
| OpTag (desc : OciDescriptor) (reference : string)
| OpReferrers (desc : OciDescriptor) (artifactType : string)
| OpSet (capable : bool).

(** The operations that look at or set the referrers capability; listings run
    with [fuel] pages and a callback. *)
Definition run_op (fuel : nat) (fn : list OciDescriptor -> M W unit) (ctx : Context_) (r : Repo) (op : remote_op) (w : W)
    : option (result unit * W) :=
  match op with
  | OpPush d c s => Some (pushWithIndexing ctx r d c s w)
  | OpDelete d => Some (deleteWithIndexing ctx r d w)
  | OpTag d s => Some (Tag ctx r d s w)
  | OpReferrers d t => Referrers fuel ctx r d t fn w
  | OpSet b => Some (SetReferrersCapability b w)
  end.

(** Once the referrers capability of a repository is known, no push, delete,
    tag, listing or explicit call changes it, whatever the server answers; a
    later [SetReferrersCapability] of the other value fails. *)
Theorem referrers_capability_stable fuel fn ctx r op w res w' :
  rw_state w <> referrersStateUnknown ->
  (forall l w1, rw_state (fn l w1).2 = rw_state w1) ->
  run_op fuel fn ctx r op w = Some (res, w') ->
  rw_state w' = rw_state w /\
  forall b, rw_state w <> (if b : bool then referrersStateSupported else referrersStateUnsupported) ->
    exists e, (SetReferrersCapability b w').1 = Err e /\ errors_Is e ErrReferrersCapabilityAlreadySet = true.
Proof.
  intros Hst Hfn Hrun.
  assert (Hk : forall l, keeps (cap (rw_state w)) (fn l)).
  { intros l w1 Hw1. unfold cap in *. by rewrite Hfn. }
  assert (rw_state w' = rw_state w) as Hw'.
  { destruct op as [d c s|d|d s|d t|b]; simpl in Hrun.
    - injection Hrun as Hrun. pose proof (keeps_pushWithIndexing (rw_state w) Hst ctx r d c s w eq_refl) as H.
      by rewrite Hrun in H.
    - injection Hrun as Hrun. pose proof (keeps_deleteWithIndexing (rw_state w) Hst ctx r d w eq_refl) as H.
      by rewrite Hrun in H.
    - injection Hrun as Hrun.
      assert (keeps (cap (rw_state w)) (Tag ctx r d s)) as H.
      { unfold Tag. apply keeps_bind; [apply keeps_lift|intros ref].
        apply keeps_bind; [apply keeps_manifest_Fetch|intros rc; by apply keeps_push]. }
      specialize (H w eq_refl). by rewrite Hrun in H.
    - unfold Referrers in Hrun. destruct (rw_state w) eqn:E; [done| |].
      + exact (keeps_referrersByAPI referrersStateSupported fuel ctx r d t fn w res w' Hk E Hrun).
      + injection Hrun as Hrun. pose proof (keeps_referrersByTagSchema _ ctx r d t fn Hk w E) as H.
        by rewrite Hrun in H.
    - injection Hrun as Hrun. pose proof (keeps_SetReferrersCapability (rw_state w) Hst b w eq_refl) as H.
      by rewrite Hrun in H. }
  split; [done|]. intros b Hb. unfold SetReferrersCapability. rewrite Hw'.
  rewrite decide_False by done. rewrite decide_False by (destruct b; done). by eexists.
Qed.

(** *** Descriptors returned by the client *)

Lemma lift_Ok {A} (r : result A) (w : W) a w' : lift r w = (Ok a, w') <-> r = Ok a /\ w = w'.
Proof. unfold lift, reads. split; [intros [= -> ->]; done|by intros [-> ->]]. Qed.

Lemma ParseReference_nonempty r s ref : Repository_ParseReference r s = Ok ref -> Ref ref <> EmptyString.
Proof.
  unfold Repository_ParseReference. intros H. inv_ok.
  destruct (String.eqb_spec (Ref a) EmptyString); [done|]. by injection H as <-.
Qed.

Lemma generateBlobDescriptor_digest resp d desc :
  generateBlobDescriptor resp d = Ok desc -> Digest desc = d /\ Size desc = ContentLength resp.
Proof. unfold generateBlobDescriptor. case_decide as Hd; [done|]. intros H. inv_ok. by subst. Qed.

Lemma generateDescriptor_digest r resp ref m desc resp' :
  generateDescriptor r resp ref m = Ok (desc, resp') -> Ref ref <> EmptyString ->
  digest_Validate (Ref ref) = true -> Digest desc = Ref ref.
Proof.
  unfold generateDescriptor, Reference_Digest. intros H Hne Hv. rewrite Hv in H.
  destruct (ParseMediaType _); [|done]. case_decide; [done|].
  destruct (negb (String.eqb (Header_Get headerDockerContentDigest (rs_Header resp)) EmptyString) && _); [done|].
  apply bind_Ok in H as ([d resp2] & _ & H).
  destruct (String.eqb_spec (Ref ref) EmptyString); [done|]. simpl in H.
  destruct (String.eqb_spec (Ref ref) d) as [->|]; [|done]. by injection H as <- _.
Qed.

(** Peel the binds of a successful call. *)
Ltac inv_call H :=
  repeat match type of H with
  | mbind _ _ _ = (Ok _, _) =>
      let a := fresh "a" in let w1 := fresh "w" in let Ha := fresh "Ha" in
      apply M_bind_Ok in H as (a & w1 & Ha & H)
  end.

Lemma blob_Resolve_digest ctx r s ref (w w' : W) desc :
  Repository_ParseReference r s = Ok ref ->
  blobStore_Resolve ctx r s w = (Ok desc, w') -> Digest desc = Ref ref /\ digest_Validate (Ref ref) = true.
Proof.
  intros Hp H. unfold blobStore_Resolve in H. inv_call H.
  apply lift_Ok in Ha as [Ha ->]. assert (a = ref) as -> by congruence.
  apply lift_Ok in Ha0 as [Hd ->]. apply lift_Ok in H as [H ->].
  unfold Reference_Digest in Hd. destruct (digest_Validate (Ref ref)); [|done]. injection Hd as <-.
  repeat case_decide; try done. by apply generateBlobDescriptor_digest in H as [-> _].
Qed.

Lemma manifest_Resolve_digest ctx r s ref (w w' : W) desc :
  Repository_ParseReference r s = Ok ref -> digest_Validate (Ref ref) = true ->
  manifestStore_Resolve ctx r s w = (Ok desc, w') -> Digest desc = Ref ref.
Proof.
  intros Hp Hv H. pose proof (ParseReference_nonempty r s ref Hp) as Hne.
  unfold manifestStore_Resolve in H. inv_call H.
  apply lift_Ok in Ha as [Ha ->]. assert (a = ref) as -> by congruence. apply lift_Ok in H as [H ->].
  repeat case_decide; try done.
  destruct (generateDescriptor r a0 ref HEAD) as [[d resp']| |] eqn:E; [|done..].
  injection H as <-. by apply generateDescriptor_digest in E.
Qed.

(** C18: content asked for by digest is never described by another digest: when
    [Resolve] or [FetchReference] of a reference that names a digest succeeds, on
    the manifest store or the blob store and against any server, the returned
    descriptor has that digest; the blob store accepts digests only. *)
Theorem remote_digest_pinned ctx r s ref (w w' : W) desc rc :
  Repository_ParseReference r s = Ok ref ->
  (manifestStore_Resolve ctx r s w = (Ok desc, w') -> digest_Validate (Ref ref) = true -> Digest desc = Ref ref) /\
  (manifestStore_FetchReference ctx r s w = (Ok (desc, rc), w') -> digest_Validate (Ref ref) = true ->
     Digest desc = Ref ref) /\
  (blobStore_Resolve ctx r s w = (Ok desc, w') -> Digest desc = Ref ref /\ digest_Validate (Ref ref) = true) /\
  (blobStore_FetchReference ctx r s w = (Ok (desc, rc), w') ->
     Digest desc = Ref ref /\ digest_Validate (Ref ref) = true).
Proof.
  intros Hp. pose proof (ParseReference_nonempty r s ref Hp) as Hne. split; [|split; [|split]].
  - intros H Hv. by apply (manifest_Resolve_digest ctx r s ref w w' desc).
  - intros H Hv. unfold manifestStore_FetchReference in H. inv_call H.
    apply lift_Ok in Ha as [Ha ->]. assert (a = ref) as -> by congruence.
    repeat case_decide; try done; inv_call H.
    + injection H as -> _ _. by eapply manifest_Resolve_digest.
    + destruct a as [d resp']. apply lift_Ok in Ha1 as [E ->]. injection H as -> _ _.
      by apply generateDescriptor_digest in E.
  - by apply blob_Resolve_digest.
  - intros H. unfold blobStore_FetchReference in H. inv_call H.
    apply lift_Ok in Ha as [Ha ->]. assert (a = ref) as -> by congruence.
    apply lift_Ok in Ha0 as [Hd ->].
    unfold Reference_Digest in Hd. destruct (digest_Validate (Ref ref)) eqn:Hv; [|done]. injection Hd as <-.
    repeat case_decide; try done; inv_call H; injection H as -> _ _.
    + by apply (blob_Resolve_digest _ r s ref) in Ha0 as [-> _].
    + apply lift_Ok in Ha0 as [E ->]. by apply generateBlobDescriptor_digest in E as [-> _].
Qed.
End any_server.
