(* ===== verification/RemoteReferrers.v ===== *)
(** The referrers tag schema against a registry that follows the distribution
    specification and has no referrers API: the index of the referrers of a
    manifest, kept under a tag by the clients themselves. *)

From Stdlib Require Import Ascii String ZArith Lia.
From S2P Require Import Prelude Errors Descriptor Reader Manifest Storage.
From S2P Require Import GoStrings Reference Referrers Scope Http Challenge Remote RemoteCorrect.
Import registry.

(** ** What a registry stores *)
Record regview := mkView {
  rv_manifests : gmap string (string * bytes);   (* digest to media type, content *)
  rv_tags : gmap string string                   (* tag to digest *)
}.

Section view.
Context {GD : GoDigest}.

Definition rv_digest (x : string) (v : regview) : option string :=
  if digest_Validate x then Some x else rv_tags v !! x.

Definition rv_get (x : string) (v : regview) : option (string * string * bytes) :=
  d ← rv_digest x v; '(mt, c) ← rv_manifests v !! d; Some (d, mt, c).

Definition rv_put (x mt : string) (c : bytes) (v : regview) : regview :=
  let d := digest_FromBytes c in
  mkView (<[d := (mt, c)]> (rv_manifests v))
    (if digest_Validate x then rv_tags v else <[x := d]> (rv_tags v)).

(** Deleting a manifest removes the tags that point to it. *)
Definition rv_delete (d : string) (v : regview) : regview :=
  mkView (base.delete d (rv_manifests v)) (filter (fun p => p.2 <> d) (rv_tags v)).
End view.

(** The manifest endpoints of a conforming registry, for one repository. *)
Class RegistryLaws {GD : GoDigest} {NU : NetURL} {N : Type} {CL : Client N} (r : Repo)
    (view : N -> regview) := {
  reg_url : forall x, ValidateReference (at_ref x r) = Ok tt ->
    is_Some (url_Parse (buildRepositoryManifestURL (PlainHTTP r) (at_ref x r)));
  reg_get : forall x n u h ctx,
    url_Parse (buildRepositoryManifestURL (PlainHTTP r) (at_ref x r)) = Some u ->
    exists resp, Do (mkRequest GET u h None None 0 ctx) n = (Ok resp, n) /\
      match rv_get x (view n) with
      | Some (d, mt, c) =>
          StatusCode resp = StatusOK
          /\ ParseMediaType (Header_Get "Content-Type" (rs_Header resp)) = Some mt
          /\ ContentLength resp = Zlen c
          /\ Header_Get headerDockerContentDigest (rs_Header resp) = d
          /\ clean (Body resp) /\ content (Body resp) = c
      | None => StatusCode resp = StatusNotFound
      end;
  reg_put : forall x n u h b g mt ctx,
    url_Parse (buildRepositoryManifestURL (PlainHTTP r) (at_ref x r)) = Some u ->
    h !! "Content-Type" = Some mt -> clean b ->
    (digest_Validate x = true -> x = digest_FromBytes (content b)) ->
    exists resp n', Do (mkRequest PUT u h (Some b) g (Zlen (content b)) ctx) n = (Ok resp, n')
      /\ StatusCode resp = StatusCreated
      /\ Header_Get headerOCISubject (rs_Header resp) = EmptyString
      /\ Header_Get headerDockerContentDigest (rs_Header resp) = digest_FromBytes (content b)
      /\ view n' = rv_put x mt (content b) (view n);
  reg_delete : forall x n u h ctx,
    url_Parse (buildRepositoryManifestURL (PlainHTTP r) (at_ref x r)) = Some u ->
    is_Some (rv_manifests (view n) !! x) ->
    exists resp n', Do (mkRequest DELETE u h None None 0 ctx) n = (Ok resp, n')
      /\ StatusCode resp = StatusAccepted
      /\ Header_Get headerDockerContentDigest (rs_Header resp) = EmptyString
      /\ view n' = rv_delete x (view n)
}.

Section referrers.
Context {GD : GoDigest} {GL : GoDigestLaws GD} {MJ : ManifestJSON}.
Context {RJ : RegistryJSON} {NU : NetURL} {MO : MapOrder} {N U : Type} {CL : Client N}.
Context (r : Repo) (view : N -> regview) {RL : RegistryLaws r view}.
Notation W := (rworld N U).
Notation limit := (metadata_bytes (MaxMetadataBytes r)).

(** Digests do not collide, and the metadata limit can be allocated. *)
Hypothesis digest_inj : forall b b', digest_FromBytes b = digest_FromBytes b' -> b = b'.
Hypothesis limit_alloc : (limit <= maxAlloc)%Z.

(** The index stored under [tag] lists [l]; no index stands for no referrers. *)
Definition referrers_at (v : regview) (tag : string) (l : list OciDescriptor) : Prop :=
  match rv_tags v !! tag with
  | None => l = []
  | Some d =>
      exists c idx, d = digest_FromBytes c /\ rv_manifests v !! d = Some (MediaTypeImageIndex, c)
        /\ Unmarshal_Index c = Ok idx /\ i_Manifests idx = l /\ (Zlen c <= limit)%Z
  end.

(** A tag that the repository accepts as it is. *)
Definition plain_tag (tag : string) : Prop :=
  Repository_ParseReference r tag = Ok (at_ref tag r)
  /\ digest_Validate tag = false /\ ValidateReference (at_ref tag r) = Ok tt.

Lemma FromBytes_verified mt b : verified (mkOci mt (digest_FromBytes b) (Zlen b) [] None [] None EmptyString) b.
Proof.
  split; [done|]. simpl. destruct (digest_Verifier_total (digest_FromBytes b)) as [vf Hv]; [apply digest_FromBytes_valid|].
  exists vf. split; [done|]. by apply digest_Verifier_FromBytes.
Qed.

Lemma FromBytes_nonempty b : digest_FromBytes b <> EmptyString.
Proof.
  intros E. pose proof (digest_FromBytes_valid b) as Hv. rewrite E in Hv. apply digest_has_colon in Hv. done.
Qed.

Lemma rw_eta (w : W) : set_net (rw_net w) w = w.
Proof. by destruct w. Qed.

(** A request to the manifest endpoint reaches the network. *)
Lemma send_spec ctx m x prep (w : W) u resp n' :
  url_Parse (buildRepositoryManifestURL (PlainHTTP r) (at_ref x r)) = Some u ->
  Do (prep (mkRequest m u ∅ None None 0 ctx)) (rw_net w) = (Ok resp, n') ->
  send ctx m (buildRepositoryManifestURL (PlainHTTP r) (at_ref x r)) prep w = (Ok resp, set_net n' w).
Proof.
  intros Hu HD. unfold send, NewRequest. unfold mbind, M_bind, reads at 1. rewrite Hu. simpl.
  unfold do, on_part. by rewrite HD.
Qed.

Lemma FetchReference_tag ctx tag (w : W) :
  plain_tag tag ->
  match rv_tags (view (rw_net w)) !! tag with
  | Some d => forall c mt, d = digest_FromBytes c -> rv_manifests (view (rw_net w)) !! d = Some (mt, c) ->
      exists rc, manifestStore_FetchReference ctx r tag w
                 = (Ok (mkOci mt d (Zlen c) [] None [] None EmptyString, rc), w)
        /\ clean rc /\ content rc = c
  | None => manifestStore_FetchReference ctx r tag w = (not_found, w)
  end.
Proof.
  intros (Hp & Hd & Hv). destruct (reg_url tag Hv) as [u Hu].
  destruct (reg_get tag (rw_net w) u (<["Accept" := manifestAcceptHeader (ManifestMediaTypes r)]> ∅)
    (AppendRepositoryScope ctx (at_ref tag r) [ActionPull]) Hu)
    as (resp & HD & Hresp).
  pose proof (send_spec _ GET tag (Header_Set "Accept" (manifestAcceptHeader (ManifestMediaTypes r))) w u resp
    (rw_net w) Hu HD) as Hs. rewrite rw_eta in Hs.
  unfold rv_get, rv_digest in Hresp. rewrite Hd in Hresp.
  destruct (rv_tags (view (rw_net w)) !! tag) as [d|] eqn:Et; simpl in Hresp.
  - intros c mt Hdc Hm. rewrite Hm in Hresp. simpl in Hresp. exists (Body resp).
    unfold manifestStore_FetchReference. unfold mbind at 1, M_bind at 1, lift at 1, reads at 1. rewrite Hp.
    unfold mbind at 1, M_bind at 1. rewrite Hs.
    destruct Hresp as (Hst & Hmt & Hcl & Hh & Hc & Hcont). rewrite decide_True by done.
    rewrite decide_False by (rewrite Hcl; unfold Zlen; lia).
    split; [|done]. unfold mbind at 1, M_bind at 1, lift, reads.
    unfold generateDescriptor, Reference_Digest. cbn [Ref at_ref]. rewrite Hmt, Hd, Hh, Hcl.
    rewrite decide_False by (unfold Zlen; lia).
    rewrite Hdc, digest_FromBytes_valid, andb_false_r. unfold contentDigest.
    destruct (String.eqb_spec (digest_FromBytes c) EmptyString) as [E|]; [by apply FromBytes_nonempty in E|].
    simpl. done.
  - unfold manifestStore_FetchReference. unfold mbind at 1, M_bind at 1, lift at 1, reads at 1. rewrite Hp.
    unfold mbind at 1, M_bind at 1. rewrite Hs. by rewrite Hresp.
Qed.

Lemma limitSize_Ok desc : (Size desc <= limit)%Z -> limitSize desc (MaxMetadataBytes r) = Ok tt.
Proof. intros H. unfold limitSize. rewrite decide_False by lia. done. Qed.

(** Reading the index back. *)
Lemma referrersFromIndex_spec ctx tag l (w : W) :
  plain_tag tag -> referrers_at (view (rw_net w)) tag l ->
  match rv_tags (view (rw_net w)) !! tag with
  | Some d => exists desc, referrersFromIndex ctx r tag w = (Ok (desc, l), w) /\ Digest desc = d
  | None => l = [] /\ referrersFromIndex ctx r tag w = (not_found, w)
  end.
Proof.
  intros Ht Hl. pose proof (FetchReference_tag ctx tag w Ht) as Hf. unfold referrers_at in Hl.
  destruct (rv_tags (view (rw_net w)) !! tag) as [d|].
  - destruct Hl as (c & idx & Hd & Hm & Hi & Hmf & Hlim).
    destruct (Hf c MediaTypeImageIndex Hd Hm) as (rc & Hfetch & Hc & Hcont).
    exists (mkOci MediaTypeImageIndex d (Zlen c) [] None [] None EmptyString). split; [|done].
    unfold referrersFromIndex. unfold mbind at 1, M_bind at 1.
    rewrite Hfetch. unfold mbind at 1, M_bind at 1, lift at 1, reads at 1.
    rewrite limitSize_Ok by done. simpl. unfold mbind at 1, M_bind at 1, lift at 1, reads at 1.
    unfold decodeJSON_Index. subst d.
    destruct (FromBytes_verified MediaTypeImageIndex c) as [_ (vf & Hvf & Hvc)].
    rewrite (proj2 (ReadAll_Ok_spec rc _ c)); [simpl; rewrite Hi; simpl; by rewrite Hmf|].
    split; [simpl; unfold Zlen; unfold Zlen in Hlim; lia|]. split; [done|split; [done|split; [done|eauto]]].
  - split; [done|]. unfold referrersFromIndex. unfold mbind at 1, M_bind at 1. by rewrite Hf.
Qed.

(** Pushing bytes that match their descriptor stores them; a registry without a
    referrers API leaves the capability as it is. *)
Lemma push_spec ctx x mt b (w : W) :
  ValidateReference (at_ref x r) = Ok tt ->
  (digest_Validate x = true -> x = digest_FromBytes b) ->
  forall expected, MediaType expected = mt -> Digest expected = digest_FromBytes b -> Size expected = Zlen b ->
  exists n', push ctx r expected (CBytes b) x w = (Ok tt, set_net n' w)
    /\ view n' = rv_put x mt b (view (rw_net w)).
Proof.
  intros Hv Hx expected Hmt Hd Hs. destruct (reg_url x Hv) as [u Hu].
  destruct (bytes_NewReader_spec b) as [Hc Hcont].
  destruct (reg_put x (rw_net w) u (<["Content-Type" := mt]> ∅) (bytes_NewReader b) (Some (bytes_NewReader b)) mt
    (AppendRepositoryScope ctx (at_ref x r) [ActionPull; ActionPush]) Hu)
    as (resp & n' & HD & Hst & Hsub & Hh & Hview); [by rewrite lookup_insert_eq|done|by rewrite Hcont|].
  rewrite Hcont in *. exists n'. split; [|done].
  unfold push. unfold mbind at 1, M_bind at 1, lift at 1, reads at 1. unfold new_upload, NewRequest.
  rewrite Hu. cbn [mbind outcome_bind rq_ContentLength]. rewrite Hs, bool_decide_eq_true_2 by done. cbn [negb].
  unfold mbind at 1, M_bind at 1, lift at 1, reads at 1. cbn [buffer_body].
  unfold mbind at 1, M_bind at 1, do, on_part. rewrite Hmt.
  unfold SetContentLength, Header_Set. cbn [rq_Method rq_URL rq_Header rq_Body rq_GetBody rq_ContentLength rq_Context fmap option_fmap option_map content_reader].
  rewrite HD, Hst. rewrite decide_True by done. unfold checkOCISubjectHeader. rewrite Hsub.
  cbn [String.eqb negb]. unfold mbind at 1, M_bind at 1, mret, M_ret, lift, reads, verifyContentDigest.
  rewrite Hh, Hd, digest_FromBytes_valid, String.eqb_refl.
  destruct (String.eqb_spec (digest_FromBytes b) EmptyString); done.
Qed.

Lemma delete_spec ctx d (w : W) desc :
  Digest desc = d -> ValidateReference (at_ref d r) = Ok tt -> is_Some (rv_manifests (view (rw_net w)) !! d) ->
  exists n', Repository_delete ctx r desc true w = (Ok tt, set_net n' w)
    /\ view n' = rv_delete d (view (rw_net w)).
Proof.
  intros <- Hv Hm. destruct (reg_url _ Hv) as [u Hu].
  destruct (reg_delete (Digest desc) (rw_net w) u ∅ (AppendRepositoryScope ctx (at_ref (Digest desc) r) [ActionDelete]) Hu Hm) as (resp & n' & HD & Hst & Hh & Hview).
  exists n'. split; [|done]. unfold Repository_delete. unfold mbind at 1, M_bind at 1.
  rewrite (send_spec _ DELETE (Digest desc) id w u resp n' Hu HD).
  unfold lift, reads, verifyContentDigest. rewrite Hst, Hh. done.
Qed.

Lemma FromBytes_reference b : ValidateReference (at_ref (digest_FromBytes b) r) = Ok tt.
Proof.
  apply ValidateReference_cases. right. left. simpl.
  split; [apply FromBytes_nonempty|apply digest_FromBytes_valid].
Qed.

(** The old index is gone and the tag points to the new one. *)
Lemma rv_put_index tag j v :
  digest_Validate tag = false ->
  rv_tags (rv_put tag MediaTypeImageIndex j v) !! tag = Some (digest_FromBytes j)
  /\ rv_manifests (rv_put tag MediaTypeImageIndex j v) !! digest_FromBytes j = Some (MediaTypeImageIndex, j).
Proof. intros Ht. unfold rv_put. simpl. rewrite Ht. by rewrite !lookup_insert_eq. Qed.

Lemma rv_delete_other d v x y :
  rv_tags v !! x = Some y -> y <> d -> rv_tags (rv_delete d v) !! x = Some y.
Proof. intros Hx Hy. simpl. by apply map_lookup_filter_Some_2. Qed.

Lemma push_index_spec ctx tag new j (w : W) n1 :
  new <> [] -> Marshal_Index (mkIndex 2 MediaTypeImageIndex EmptyString new None None) = Ok j ->
  push ctx r (NewDescriptorFromBytes MediaTypeImageIndex j) (CBytes j) tag w = (Ok tt, set_net n1 w) ->
  push_index ctx r tag new w = (Ok tt, set_net n1 w).
Proof.
  intros Hne Hj Hpush. unfold push_index, generateIndex. cbv zeta.
  rewrite bool_decide_eq_true_2 by (destruct new; simpl; [done|lia]). rewrite Hj.
  transitivity (on_err (EWrap "failed to push referrers index")
    (push ctx r (NewDescriptorFromBytes MediaTypeImageIndex j) (CBytes j) tag) w); [done|].
  unfold on_err. by rewrite Hpush.
Qed.

(** [update]: the new list is stored under the tag, the old index is removed. *)
Lemma update_index_spec ctx subject tag l cs j new (w : W) old :
  plain_tag tag -> referrers_at (view (rw_net w)) tag l ->
  match rv_tags (view (rw_net w)) !! tag with
  | Some d => exists desc, old = Some desc /\ Digest desc = d
  | None => old = None
  end ->
  ~ no_update l cs -> new = List.filter nonempty (updated l cs) -> new <> [] -> new <> l ->
  encodes_Index (mkIndex 2 MediaTypeImageIndex EmptyString new None None) j -> (Zlen j <= limit)%Z ->
  exists n', update_index ctx r subject tag old l cs w = (Ok tt, set_net n' w)
    /\ referrers_at (view n') tag new
    /\ forall d mc, rv_manifests (view (rw_net w)) !! d = Some mc -> d <> digest_FromBytes j ->
         rv_tags (view (rw_net w)) !! tag <> Some d -> rv_manifests (view n') !! d = Some mc.
Proof.
  intros Ht Hl Hold Hnu Hnew Hne Hdiff [Hj Hdec] Hlim. pose proof Ht as (_ & Hd & Hv).
  unfold update_index. destruct (applyReferrerChanges_spec' l cs) as [[? _]|[_ ->]]; [done|]. rewrite <- Hnew.
  destruct (push_spec ctx tag MediaTypeImageIndex j w Hv) with (expected := NewDescriptorFromBytes MediaTypeImageIndex j)
    as (n1 & Hpush & Hv1); [congruence|done..|].
  destruct (rv_put_index tag j (view (rw_net w)) Hd) as [Htag Hman]. rewrite <- Hv1 in Htag, Hman.
  assert (referrers_at (view n1) tag new) as Hat1.
  { unfold referrers_at. rewrite Htag. eexists j, _. split; [done|]. split; [done|].
    split; [exact Hdec|]. done. }
  assert (forall d mc, rv_manifests (view (rw_net w)) !! d = Some mc -> d <> digest_FromBytes j ->
            rv_manifests (view n1) !! d = Some mc) as Hkeep1.
  { intros d mc Hm Hdj. rewrite Hv1. simpl. by rewrite lookup_insert_ne. }
  unfold mbind at 1, M_bind at 1. rewrite (push_index_spec ctx tag new j w n1 Hne Hj Hpush).
  unfold referrers_at in Hl. destruct (rv_tags (view (rw_net w)) !! tag) as [d|] eqn:Etag.
  - destruct Hold as (desc & -> & Hdd). destruct (SkipReferrersGC r); [exists n1; auto|].
    destruct Hl as (c & idx & -> & Hm & Hi & Hmf & _).
    assert (digest_FromBytes c <> digest_FromBytes j) as Hcj.
    { intros E. apply digest_inj in E as ->. apply Hdiff.
      assert (idx = mkIndex 2 MediaTypeImageIndex EmptyString new None None) as -> by congruence.
      by rewrite <- Hmf. }
    destruct (delete_spec ctx (digest_FromBytes c) (set_net n1 w) desc Hdd (FromBytes_reference c)) as (n2 & Hdel & Hv2).
    { simpl. rewrite (Hkeep1 _ _ Hm Hcj). eauto. }
    exists n2. unfold on_err. rewrite Hdel. split; [done|]. simpl in Hv2. split.
    + unfold referrers_at in *. rewrite Htag in Hat1. rewrite Hv2, (rv_delete_other _ _ _ _ Htag) by done.
      destruct Hat1 as (c' & idx' & E & Hm' & H'). exists c', idx'. split; [done|]. split; [|done].
      simpl. rewrite lookup_delete_ne; [done|]. congruence.
    + intros d mc Hdm Hdj Hdt. rewrite Hv2. simpl. rewrite lookup_delete_ne; [by apply Hkeep1|]. congruence.
  - subst old. exists n1. auto.
Qed.

Lemma referrer_of_key desc b subject listed :
  referrer_of desc b = Ok (Some (subject, listed)) -> FromOCI listed = FromOCI desc.
Proof.
  unfold referrer_of. intros H. apply map_err_Ok in H.
  repeat match type of H with (if ?c then _ else _) = _ => destruct c end; inv_ok; try done;
    match type of H with ?o ≫= _ = _ => destruct o; [|done] end; simpl in H; by injection H as _ <-.
Qed.

Lemma subject_type_nonempty desc d :
  has_subject_type desc = true -> FromOCI d = FromOCI desc -> nonempty d = true.
Proof.
  intros Ht E. apply nonempty_spec. rewrite E. intros E'. injection E' as Hm _ _.
  unfold has_subject_type in Ht. rewrite Hm in Ht. done.
Qed.

(** What a push of the manifest [desc] with the bytes [b], whose subject has the
    referrers [l] so far, needs in order to be indexed. *)
Record push_ready (v : regview) (desc : OciDescriptor) (c : Content) (b : bytes)
    (subject listed : OciDescriptor) (tag : string) (l : list OciDescriptor) (j : bytes) : Prop := {
  pr_type : has_subject_type desc = true;
  pr_read : ReadAll (content_reader c) desc = Ok b;
  pr_digest : Digest desc = digest_FromBytes b;
  pr_limit : (Size desc <= limit)%Z;
  pr_subject : referrer_of desc b = Ok (Some (subject, listed));
  pr_tag : buildReferrersTag subject = Ok tag;
  pr_plain : plain_tag tag;
  pr_old : referrers_at v tag l;
  pr_self : rv_tags v !! tag <> Some (Digest desc);
  pr_json : encodes_Index (mkIndex 2 MediaTypeImageIndex EmptyString
              (List.filter nonempty (updated l [mkChange listed referrerOperationAdd])) None None) j;
  pr_jlimit : (Zlen j <= limit)%Z;
  pr_new : Digest desc <> digest_FromBytes j
}.

Lemma referrers_at_put v desc b tag l mt :
  Digest desc = digest_FromBytes b -> rv_tags v !! tag <> Some (Digest desc) ->
  referrers_at v tag l -> referrers_at (rv_put (Digest desc) mt b v) tag l.
Proof.
  intros Hd Hself H. unfold referrers_at in *. simpl. rewrite Hd, digest_FromBytes_valid.
  destruct (rv_tags v !! tag) as [d|]; [|done]. destruct H as (c & idx & -> & Hm & H).
  exists c, idx. split; [done|split; [|done]]. rewrite lookup_insert_ne; [done|]. congruence.
Qed.

(** [updateReferrersIndex] with an added referrer. *)
Lemma update_add_spec ctx tag subject listed l j (w : W) :
  buildReferrersTag subject = Ok tag -> plain_tag tag -> referrers_at (view (rw_net w)) tag l ->
  nonempty listed = true ->
  encodes_Index (mkIndex 2 MediaTypeImageIndex EmptyString
    (List.filter nonempty (updated l [mkChange listed referrerOperationAdd])) None None) j ->
  (Zlen j <= limit)%Z ->
  exists n' l', updateReferrersIndex ctx r subject (mkChange listed referrerOperationAdd) w = (Ok tt, set_net n' w)
    /\ referrers_at (view n') tag l' /\ FromOCI listed ∈ keys l'
    /\ (forall x, x ∈ l -> nonempty x = true -> FromOCI x ∈ keys l')
    /\ (forall d mc, rv_manifests (view (rw_net w)) !! d = Some mc -> d <> digest_FromBytes j ->
          rv_tags (view (rw_net w)) !! tag <> Some d -> rv_manifests (view n') !! d = Some mc).
Proof.
  intros Htag Hp Hl Hne Hj Hjl. set (cs := [mkChange listed referrerOperationAdd]) in *.
  destruct (updated_add l listed Hne) as (Hf & Hin & Hkeep & Hsame). fold cs in Hf, Hin, Hkeep, Hsame.
  assert (exists old, prepare_index ctx r tag w = (Ok (old, l), w) /\
    match rv_tags (view (rw_net w)) !! tag with
    | Some d => exists desc, old = Some desc /\ Digest desc = d
    | None => old = None
    end) as (old & Hprep & Hold).
  { unfold prepare_index. pose proof (referrersFromIndex_spec ctx tag l w Hp Hl) as H.
    destruct (rv_tags (view (rw_net w)) !! tag) as [d|].
    - destruct H as (desc & -> & <-). eauto.
    - destruct H as [-> ->]. eauto. }
  assert (Hupd : updateReferrersIndex ctx r subject (mkChange listed referrerOperationAdd) w
                 = update_index ctx r subject tag old l cs w).
  { unfold updateReferrersIndex. unfold mbind at 1, M_bind at 1, lift, reads. rewrite Htag.
    unfold mbind at 1, M_bind at 1. by rewrite Hprep. }
  rewrite Hupd. destruct (applyReferrerChanges_spec' l cs) as [[Hnu Heq]|[Hnu _]].
  - exists (rw_net w), l. unfold update_index. rewrite Heq, decide_True, rw_eta by done.
    split; [done|]. split; [done|]. destruct Hnu as [_ Hperm]. split; [by rewrite <- Hperm|]. split; [|auto].
    intros x Hx Hnx. by apply list_elem_of_fmap_2.
  - destruct (update_index_spec ctx subject tag l cs j (List.filter nonempty (updated l cs)) w old) as (n' & H1 & H2 & H3);
      try done.
    + rewrite Hf. intros E. rewrite E in Hin. by apply elem_of_nil in Hin.
    + rewrite Hf. intros E. by apply Hnu, Hsame.
    + exists n', (updated l cs). rewrite Hf in H2. auto.
Qed.

(** C20: pushing a manifest with a subject to a conforming registry that has no
    referrers API succeeds, stores the manifest, records that the API is missing
    and updates the index under the referrers tag of the subject: afterwards
    listing the referrers of the subject gives the manifest and every valid
    referrer listed before. *)
Theorem push_referrer_listed ctx v desc c b subject listed tag l j (w : W) :
  rw_state w <> referrersStateSupported -> v = view (rw_net w) ->
  push_ready v desc c b subject listed tag l j ->
  exists w' l',
    manifestStore_Push ctx r desc c w = (Ok tt, w')
    /\ rw_state w' = referrersStateUnsupported
    /\ rv_manifests (view (rw_net w')) !! Digest desc = Some (MediaType desc, b)
    /\ FromOCI desc ∈ keys l'
    /\ (forall x, x ∈ l -> nonempty x = true -> FromOCI x ∈ keys l')
    /\ forall fuel fn, Referrers fuel ctx r subject EmptyString fn w' = Some (fn l' w').
Proof.
  intros Hst -> [Htype Hread Hdig Hlim Hsub Htag Hplain Hold Hself Hj Hjl Hnewd].
  apply ReadAll_Ok_spec in Hread as Hr. destruct Hr as (_ & _ & _ & Hlen & _).
  destruct (push_spec ctx (Digest desc) (MediaType desc) b w) with (expected := desc) as (n1 & Hpush & Hv1);
    [rewrite Hdig; apply FromBytes_reference|done..|].
  pose proof (referrer_of_key desc b subject listed Hsub) as Hkey.
  set (w1 := mkRW referrersStateUnsupported n1 (rw_user w)).
  destruct (update_add_spec ctx tag subject listed l j w1) as (n2 & l' & Hupd & Hat & Hin & Hkeep & Hman);
    [done|done| |by apply (subject_type_nonempty desc)|done|done|].
  { simpl. rewrite Hv1. by apply referrers_at_put. }
  assert (Hpw : manifestStore_Push ctx r desc c w = (Ok tt, set_net n2 w1)).
  { unfold manifestStore_Push, pushWithIndexing. rewrite Htype.
    unfold mbind at 1, M_bind at 1, loadReferrersState at 1, reads at 1. rewrite decide_False by done.
    unfold mbind at 1, M_bind at 1, lift at 1, reads at 1. rewrite limitSize_Ok by done.
    unfold mbind at 1, M_bind at 1, lift at 1, reads at 1. rewrite Hread.
    unfold mbind at 1, M_bind at 1. rewrite Hpush.
    unfold mbind at 1, M_bind at 1, loadReferrersState, reads at 1. cbn [rw_state set_net].
    rewrite decide_False by done. unfold indexReferrersForPush.
    unfold mbind at 1, M_bind at 1, lift at 1, reads at 1. rewrite Hsub.
    unfold mbind at 1, M_bind at 1, ignore_err, SetReferrersCapability. rewrite <- Hupd. unfold w1.
    destruct w as [st n u]. simpl in *. destruct st; [done..|]; done. }
  exists (set_net n2 w1), l'. split; [done|]. split; [done|]. split; [|split; [by rewrite <- Hkey|split; [done|]]].
  - simpl. apply Hman; [|done|].
    + simpl. rewrite Hv1. simpl. by rewrite <- Hdig, lookup_insert_eq.
    + simpl. rewrite Hv1. simpl. by rewrite Hdig, digest_FromBytes_valid, <- Hdig.
  - intros fuel fn. unfold Referrers. simpl. f_equal. unfold referrersByTagSchema. rewrite Htag.
    pose proof (referrersFromIndex_spec ctx tag l' (set_net n2 w1) Hplain Hat) as H. simpl in H.
    destruct (rv_tags (view n2) !! tag) as [d|].
    + destruct H as (dd & -> & _). unfold filterReferrers. simpl.
      rewrite decide_False; [done|]. destruct l'; [by apply elem_of_nil in Hin|done].
    + destruct H as [-> _]. by apply elem_of_nil in Hin.
Qed.
End referrers.

(** ** A concrete registry

    URLs are their text, the registry of the examples serves the manifests of one
    repository from a [regview]; the codec knows one manifest with a subject and
    the index that lists it. *)
Module registry_example.
Import HexDigest.

#[export] Instance order : MapOrder := canonical_order.

#[export] Instance net : NetURL := {|
  URL := string;
  url_Parse s := Some s;
  url_Ref _ s := Some s;
  url_String u := u;
  url_Scheme _ := "https";
  url_Hostname _ := "localhost";
  url_Port _ := "5000";
  url_SetHost _ u := u;
  url_SetQuery _ _ u := u;
  ParseMediaType s := Some s
|}.

#[export] Instance no_json : RegistryJSON := {|
  Decode_Index _ := Err (ENew "json");
  Decode_Tags _ := Err (ENew "json");
  Decode_Repositories _ := Err (ENew "json");
  Decode_ErrorCodes _ := None
|}.

Definition repo : Repo := mkRepo (mkReference "localhost:5000" "app" EmptyString) false [] 0 0 0 false true.

Definition base : string := "https://localhost:5000/v2/app/manifests/".

Definition reply (status : Z) (h : list (string * string)) (body : bytes) (req : Request) : Response :=
  mkResponse status (list_to_map h) [] (Zlen body) (bytes_NewReader body) req.

Definition serve (req : Request) (n : regview) : result Response * regview :=
  match strip base (rq_URL req) with
  | None => (Ok (reply 404 [] [] req), n)
  | Some x =>
      match rq_Method req with
      | GET | HEAD =>
          match rv_get x n with
          | Some (d, mt, c) =>
              (Ok (reply 200 [("Content-Type", mt); (headerDockerContentDigest, d)] c req), n)
          | None => (Ok (reply 404 [] [] req), n)
          end
      | PUT =>
          match rq_Body req with
          | Some b =>
              let c := content b in
              (Ok (reply 201 [(headerDockerContentDigest, digest_FromBytes c)] [] req),
               rv_put x (Header_Get "Content-Type" (rq_Header req)) c n)
          | None => (Ok (reply 400 [] [] req), n)
          end
      | DELETE =>
          match rv_manifests n !! x with
          | Some _ => (Ok (reply 202 [] [] req), rv_delete x n)
          | None => (Ok (reply 404 [] [] req), n)
          end
      | POST => (Ok (reply 404 [] [] req), n)
      end
  end.

#[export] Instance server : Client regview := {| Do := serve |}.

Lemma serve_url x : strip base (buildRepositoryManifestURL (PlainHTTP repo) (at_ref x repo)) = Some x.
Proof. apply (strip_app base x). Qed.

#[export] Instance server_laws : RegistryLaws repo (fun n => n).
Proof.
  split; cbn [url_Parse net].
  - by eexists.
  - intros x n u h ctx [= <-]. unfold Do, server, serve. cbn [rq_URL rq_Method]. rewrite serve_url.
    destruct (rv_get x n) as [[[d mt] c]|]; eexists; (split; [done|]); [|done].
    destruct (bytes_NewReader_spec c). split_and!; done.
  - intros x n u h b g mt ctx [= <-] Hh Hc Hx. unfold Do, server, serve.
    cbn [rq_URL rq_Method rq_Body rq_Header]. rewrite serve_url. eexists _, _.
    split; [done|]. split_and!; try done. unfold Header_Get. by rewrite Hh.
  - intros x n u h ctx [= <-] [mc Hm]. unfold Do, server, serve. cbn [rq_URL rq_Method]. rewrite serve_url, Hm.
    eexists _, _. split; [done|]. by split_and!.
Qed.

Definition subject : OciDescriptor := NewDescriptorFromBytes MediaTypeImageManifest (str_bytes "a").
Definition config : OciDescriptor := NewDescriptorFromBytes "application/config" (str_bytes "{}").
Definition signature : OciDescriptor := NewDescriptorFromBytes MediaTypeImageManifest (str_bytes "m").
Definition listed : OciDescriptor := set_ArtifactType "signature" signature.

Definition manifest : Manifest :=
  mkManifest 2 MediaTypeImageManifest "signature" config [] (Some subject) None.
Definition index : Index := mkIndex 2 MediaTypeImageIndex EmptyString [listed] None None.

#[export] Instance Index_eq_dec : EqDecision Index.
Proof. solve_decision. Defined.

#[export] Instance json : ManifestJSON := {|
  Unmarshal_Manifest b := if decide (b = str_bytes "m") then Ok manifest else Err (ENew "json");
  Unmarshal_Index b := if decide (b = str_bytes "idx") then Ok index else Err (ENew "json");
  Unmarshal_Artifact _ := Err (ENew "json");
  Unmarshal_Subject b :=
    if decide (b = str_bytes "m") then Ok (Some subject)
    else if decide (b = str_bytes "idx") then Ok None else Err (ENew "json");
  Marshal_Manifest _ := Err (ENew "json");
  Marshal_Index i := if decide (i = index) then Ok (str_bytes "idx") else Err (ENew "json");
  Marshal_Artifact _ := Err (ENew "json")
|}.

Lemma example_ready :
  push_ready repo (mkView ∅ ∅) signature (CBytes (str_bytes "m")) (str_bytes "m") subject listed
    "sha256-61" [] (str_bytes "idx").
Proof.
  split; try (vm_compute; reflexivity); try (vm_compute; done).
Qed.

Lemma push_referrer_listed_witness :
  exists w' (l' : list OciDescriptor), manifestStore_Push Background repo signature (CBytes (str_bytes "m"))
      (mkRW referrersStateUnknown (mkView ∅ ∅) tt) = (Ok tt, w')
    /\ rw_state w' = referrersStateUnsupported /\ FromOCI signature ∈ keys l'.
Proof.
  destruct (push_referrer_listed (GD := hex_digest) repo (fun n => n) from_bytes_inj ltac:(vm_compute; done)
    Background (mkView ∅ ∅) signature (CBytes (str_bytes "m")) (str_bytes "m") subject listed "sha256-61" []
    (str_bytes "idx") (mkRW referrersStateUnknown (mkView ∅ ∅) tt)) as (w' & l' & H1 & H2 & _ & H3 & _).
  - done.
  - reflexivity.
  - exact example_ready.
  - exists w', l'. auto.
Defined.

Definition no_callback : list OciDescriptor -> M (rworld regview unit) unit := fun _ => mret tt.

(** A repository known not to have the API, after another push. *)
Lemma referrers_capability_stable_witness :
  exists res w', run_op 0 no_callback Background repo (OpPush signature (CBytes (str_bytes "m")) "v1")
      (mkRW referrersStateUnsupported (mkView ∅ ∅) tt) = Some (res, w')
    /\ rw_state w' = referrersStateUnsupported.
Proof.
  destruct (run_op 0 no_callback Background repo (OpPush signature (CBytes (str_bytes "m")) "v1")
    (mkRW referrersStateUnsupported (mkView ∅ ∅) tt)) as [[res w']|] eqn:E; [|discriminate E].
  exists res, w'. split; [reflexivity|].
  destruct (referrers_capability_stable 0 no_callback Background repo
    (OpPush signature (CBytes (str_bytes "m")) "v1") (mkRW referrersStateUnsupported (mkView ∅ ∅) tt) res w')
    as [H _]; [done|done|exact E|exact H].
Defined.

(** Resolving the digest of a stored manifest. *)
Lemma remote_digest_pinned_witness :
  exists desc w',
    manifestStore_Resolve Background repo "sha256:6d"
      (mkRW referrersStateUnknown (mkView {["sha256:6d" := (MediaTypeImageManifest, str_bytes "m")]} ∅) tt)
    = (Ok desc, w') /\ Digest desc = "sha256:6d".
Proof.
  set (w := mkRW referrersStateUnknown (mkView {["sha256:6d" := (MediaTypeImageManifest, str_bytes "m")]} ∅) tt).
  destruct (manifestStore_Resolve Background repo "sha256:6d" w) as [[desc| |] w'] eqn:E;
    [|exfalso; vm_compute in E; discriminate E..].
  exists desc, w'. split; [reflexivity|].
  destruct (remote_digest_pinned Background repo "sha256:6d" (at_ref "sha256:6d" repo) w w' desc (bytes_NewReader []))
    as [H _]; [vm_compute; reflexivity|]. apply H; [exact E|vm_compute; reflexivity].
Defined.
End registry_example.
