(* ===== verification/RemoteRequests.v ===== *)
(** The requests of a remote repository: every one of them carries the scope hints
    that its method needs, and none but the upload of a blob carries a credential of
    its own. *)

From Stdlib Require Import Ascii String ZArith Lia.
From S2P Require Import Prelude Errors Descriptor Reader Manifest Storage.
From S2P Require Import GoStrings Reference Referrers Scope ScopeCorrect Http Challenge Remote RemoteCorrect RemoteReferrers.
Import registry.

#[local] Open Scope string_scope.

(** ** Scope hints in a context *)
Section hints.
Context {MO : MapOrder} (r : Repo).

Notation scopes ctx := (GetScopesForHost ctx (Host (rp_Reference r))).

(** The actions on the repository that a context asks for. *)
Definition hints (ctx : Context_) : gset string :=
  actions_of (scopes ctx) "repository" (Repository (rp_Reference r)).
Definition asks (ctx : Context_) (a : string) : Prop := a ∈ hints ctx \/ "*" ∈ hints ctx.

(** The hints of the caller are scopes that [CleanScopes] recognizes. *)
Definition clean_ctx (ctx : Context_) : Prop := recognizable (scopes ctx).

(** The lists of actions that the repository asks for. *)
Definition repository_actions : list (list string) :=
  [[ActionPull]; [ActionDelete]; [ActionPull; ActionPush]; [ActionPull; ActionDelete]].

Lemma ScopeRepository_text n actions : n <> EmptyString -> actions ∈ repository_actions ->
  exists l, ScopeRepository n actions = scope_text "repository" n l /\
    (forall a, a ∈ l -> has_char ":" a = false) /\ forall a, a ∈ actions -> a ∈ action_set (Join "," l).
Proof.
  intros Hn Ha. exists (cleanActions actions). unfold ScopeRepository.
  destruct (String.eqb_spec n EmptyString); [done|].
  repeat (apply elem_of_cons in Ha as [->|Ha]; [|]); [..|by apply elem_of_nil in Ha].
  all: split; [vm_compute cleanActions; simpl; done|].
  all: split; [intros a; vm_compute cleanActions|intros a].
  all: rewrite ?elem_of_cons, elem_of_nil; naive_solver (by vm_compute).
Qed.

(** Cleaning loses no action. *)
Lemma asks_clean l a n : recognizable l ->
  a ∈ actions_of l "repository" n \/ "*" ∈ actions_of l "repository" n ->
  a ∈ actions_of (CleanScopes l) "repository" n \/ "*" ∈ actions_of (CleanScopes l) "repository" n.
Proof.
  intros Hl Ha. rewrite actions_of_clean by done. rewrite !elem_of_list_to_set. unfold canon_actions.
  case_decide as Hs; [right; by apply list_elem_of_singleton|]. left.
  rewrite sort_strings_perm, elem_of_elements. tauto.
Qed.

Lemma actions_of_app l1 l2 t n : actions_of (l1 ++ l2)%list t n = actions_of l1 t n ∪ actions_of l2 t n.
Proof. apply set_eq. intros a. rewrite elem_of_union, !elem_of_actions_of. set_solver. Qed.

Lemma GetScopesForHost_With ctx h l : GetScopesForHost (WithScopesForHost ctx h l) h = CleanScopes l.
Proof. unfold GetScopesForHost, WithScopesForHost. simpl. by rewrite lookup_insert_eq. Qed.

(** [AppendRepositoryScope] for the repository adds its actions and keeps the others;
    for another repository of the registry it keeps them. *)
Lemma AppendRepositoryScope_spec ctx ref actions :
  Registry ref = Registry (rp_Reference r) -> Repository ref <> EmptyString ->
  actions ∈ repository_actions -> clean_ctx ctx ->
  let ctx' := AppendRepositoryScope ctx ref actions in
  clean_ctx ctx' /\ (forall a, asks ctx a -> asks ctx' a) /\
  (Repository ref = Repository (rp_Reference r) -> forall a, a ∈ actions -> asks ctx' a).
Proof.
  intros Hreg Hne Hact Hc ctx'. destruct (ScopeRepository_text (Repository ref) actions Hne Hact) as (l & Hl & Hcol & Hin).
  assert (scopes ctx' = CleanScopes (scopes ctx ++ [scope_text "repository" (Repository ref) l])%list) as Hs.
  { unfold ctx', AppendRepositoryScope, AppendScopesForHost.
    assert (Host ref = Host (rp_Reference r)) as -> by (unfold Host; by rewrite Hreg). rewrite Hl.
    destruct actions as [|a0 al]; [unfold repository_actions in Hact; set_solver|]. apply GetScopesForHost_With. }
  pose proof (parse_scope_text "repository" (Repository ref) l eq_refl Hcol) as Hp.
  assert (recognizable (scopes ctx ++ [scope_text "repository" (Repository ref) l])%list) as Hrec.
  { intros s [Hs'|Hs']%elem_of_app; [by apply Hc|]. apply list_elem_of_singleton in Hs' as ->. by rewrite Hp. }
  split; [|split].
  - unfold clean_ctx. rewrite Hs. by apply recognizable_clean.
  - intros a Ha. unfold asks, hints. rewrite Hs. apply asks_clean; [done|]. rewrite actions_of_app, !elem_of_union.
    destruct Ha; tauto.
  - intros Hrepo a Ha. unfold asks, hints. rewrite Hs. apply asks_clean; [done|]. left.
    rewrite actions_of_app, elem_of_union. right. simpl. unfold scope_actions. rewrite Hp, Hrepo.
    rewrite decide_True by done. rewrite elem_of_union. left. by apply Hin.
Qed.
End hints.

(** ** Requests *)

(** What a request with that method does to the repository. *)
Definition needs (m : Method) : list string :=
  match m with
  | GET | HEAD => [ActionPull]
  | PUT | POST => [ActionPull; ActionPush]
  | DELETE => [ActionDelete]
  end.

Section requests.
Context {GD : GoDigest} {MJ : ManifestJSON} {RJ : RegistryJSON} {NU : NetURL} {MO : MapOrder}.
Context {N U : Type} {CL : Client N}.
Notation W := (rworld N U).

Definition hinted (r : Repo) (req : Request) : Prop := forall a, a ∈ needs (rq_Method req) -> asks r (rq_Context req) a.
(** Without a credential of its own, so that the client adds the one for its host. *)
Definition unauthorized (req : Request) : Prop := Header_Get "Authorization" (rq_Header req) = EmptyString.

(** What the operations do to a request before they send it. *)
Definition harmless (prep : Request -> Request) : Prop := forall q,
  rq_Method (prep q) = rq_Method q /\ rq_Context (prep q) = rq_Context q /\
  Header_Get "Authorization" (rq_Header (prep q)) = Header_Get "Authorization" (rq_Header q).

Lemma harmless_id : harmless id.
Proof. done. Qed.
Lemma harmless_Header k v : k <> "Authorization" -> harmless (Header_Set k v).
Proof. intros Hk q. split_and!; [done..|]. unfold Header_Get. simpl. by rewrite lookup_insert_ne. Qed.
Lemma harmless_Accept v : harmless (Header_Set "Accept" v).
Proof. by apply harmless_Header. Qed.
Lemma harmless_SetQuery k v : harmless (SetQuery k v).
Proof. done. Qed.
Lemma harmless_if {A B : Prop} (b : {A} + {B}) p q : harmless p -> harmless q -> harmless (if b then p else q).
Proof. by destruct b. Qed.
Lemma harmless_list_query n last : harmless (list_query n last).
Proof. intros q. unfold list_query. repeat case_decide; by destruct (String.eqb last EmptyString). Qed.

(** ** The operations of a repository *)

Inductive call :=
| CFetch (d : OciDescriptor)
| CExists (d : OciDescriptor)
| CDelete (d : OciDescriptor)
| CResolve (s : string)
| CFetchReference (s : string)
| CBlobResolve (s : string)
| CBlobFetchReference (s : string)
| CPushManifest (d : OciDescriptor) (c : Content)
| CPushReference (d : OciDescriptor) (c : Content) (s : string)
| CTag (d : OciDescriptor) (s : string)
| CReferrers (d : OciDescriptor) (artifactType : string)
| CTags (last : string)
| CPushBlob (d : OciDescriptor) (c : Content)
| CMount (d : OciDescriptor) (fromRepo : string).

(** The state after a call; listings run with [fuel] pages and a callback. *)
Definition run_call (fuel : nat) (fn : list OciDescriptor -> M W unit) (tagsFn : list string -> M W unit)
    (ctx : Context_) (r : Repo) (c : call) (w : W) : option W :=
  match c with
  | CFetch d => Some (Repository_Fetch ctx r d w).2
  | CExists d => Some (Repository_Exists ctx r d w).2
  | CDelete d => Some (Repository_Delete ctx r d w).2
  | CResolve s => Some (manifestStore_Resolve ctx r s w).2
  | CFetchReference s => Some (manifestStore_FetchReference ctx r s w).2
  | CBlobResolve s => Some (blobStore_Resolve ctx r s w).2
  | CBlobFetchReference s => Some (blobStore_FetchReference ctx r s w).2
  | CPushManifest d c => Some (manifestStore_Push ctx r d c w).2
  | CPushReference d c s => Some (PushReference ctx r d c s w).2
  | CTag d s => Some (Tag ctx r d s w).2
  | CReferrers d t => snd <$> Referrers fuel ctx r d t fn w
  | CTags last => snd <$> Tags fuel ctx r last tagsFn w
  | CPushBlob d c => Some (blobStore_Push ctx r d c w).2
  | CMount d fromRepo => Some (blobStore_Mount ctx r d fromRepo None w).2
  end.

Definition uploads_blob (c : call) : bool := match c with CPushBlob _ _ | CMount _ _ => true | _ => false end.
Definition names_source (c : call) : Prop := match c with CMount _ fromRepo => fromRepo <> EmptyString | _ => True end.

Section invariant.
Context (r : Repo) (Hr : Repository (rp_Reference r) <> EmptyString).
Context (P : N -> Prop) (ok : Request -> Prop).
Hypothesis ok_plain : forall req, hinted r req -> unauthorized req -> ok req.
Hypothesis ok_Do : forall req, ok req -> keeps P (Do req).

(** The requests of a call keep [P]. *)
Definition inv (w : W) : Prop := P (rw_net w).

Lemma inv_do req : ok req -> keeps inv (do req).
Proof.
  intros Hok w Hw. unfold do, on_part. pose proof (ok_Do req Hok (rw_net w) Hw) as H.
  by destruct (Do req (rw_net w)).
Qed.
Lemma inv_lift {A} (x : result A) : keeps inv (lift x).
Proof. apply keeps_reads. Qed.
Lemma inv_lift_bind {A B} (x : result A) (f : A -> M W B) :
  (forall a, x = Ok a -> keeps inv (f a)) -> keeps inv (a ← lift x; f a).
Proof. intros Hf w Hw. unfold mbind, M_bind, lift, reads. destruct x as [a|e|]; [by apply Hf|done..]. Qed.
Lemma inv_Set b : keeps inv (SetReferrersCapability b).
Proof. intros w Hw. unfold SetReferrersCapability. by repeat case_decide. Qed.
Lemma inv_ignore_err m : keeps inv m -> keeps inv (ignore_err m).
Proof. intros Hm w Hw. by apply Hm. Qed.
Lemma inv_load : keeps inv loadReferrersState.
Proof. apply keeps_reads. Qed.
#[local] Hint Resolve inv_lift inv_Set inv_ignore_err inv_load : go.
#[local] Hint Resolve harmless_id harmless_Accept harmless_SetQuery harmless_if harmless_list_query : core.

(** A context with the hints for a method. *)
Definition ready (ctx : Context_) (m : Method) : Prop := forall a, a ∈ needs m -> asks r ctx a.

Lemma inv_send ctx m url prep : ready ctx m -> harmless prep -> keeps inv (send ctx m url prep).
Proof.
  intros Hc Hp. apply (inv_lift_bind (NewRequest ctx m url None)). intros q Hq. apply inv_do.
  unfold NewRequest in Hq. destruct (url_Parse url) as [u|]; [|done]. injection Hq as <-.
  destruct (Hp (mkRequest m u ∅ None None 0 ctx)) as (Hm & Hx & Ha). apply ok_plain.
  - intros a. rewrite Hm, Hx. apply Hc.
  - unfold unauthorized. by rewrite Ha.
Qed.
#[local] Hint Resolve inv_send : go.

(** A reference to the repository. *)
Definition of_repo (ref : Reference) : Prop :=
  Registry ref = Registry (rp_Reference r) /\ Repository ref = Repository (rp_Reference r).

Lemma at_ref_of_repo x : of_repo (at_ref x r).
Proof. done. Qed.
Lemma self_of_repo : of_repo (rp_Reference r).
Proof. done. Qed.
Lemma parsed_of_repo s ref : Repository_ParseReference r s = Ok ref -> of_repo ref.
Proof.
  unfold Repository_ParseReference. intros H. apply bind_Ok in H as (ref' & H & H').
  assert (of_repo ref') as Hof.
  { destruct (ParseReference s) as [p|e|].
    - destruct (String.eqb_spec (Registry p) (Registry (rp_Reference r))); [|done].
      destruct (String.eqb_spec (Repository p) (Repository (rp_Reference r))); [|done]. by injection H as <-.
    - destruct (cut "@" s) as [[? d]|]; apply bind_Ok in H as (? & _ & H); by injection H as <-.
    - destruct (cut "@" s) as [[? d]|]; apply bind_Ok in H as (? & _ & H); by injection H as <-. }
  by destruct (String.eqb (Ref ref') EmptyString); [|injection H' as <-].
Qed.

Lemma Append_clean ctx ref acts : of_repo ref -> acts ∈ repository_actions -> clean_ctx r ctx ->
  clean_ctx r (AppendRepositoryScope ctx ref acts).
Proof. intros [H1 H2] Ha Hc. apply AppendRepositoryScope_spec; [done|congruence|done..]. Qed.
Lemma Append_ready ctx ref acts m : of_repo ref -> acts ∈ repository_actions -> clean_ctx r ctx ->
  (forall a, a ∈ needs m -> a ∈ acts) -> ready (AppendRepositoryScope ctx ref acts) m.
Proof.
  intros [H1 H2] Ha Hc Hm a Hn. apply AppendRepositoryScope_spec; [done|congruence|done|done|done|by apply Hm].
Qed.

(** The hints of a context and of an extended one. *)
Ltac hints_tac :=
  match goal with
  | |- clean_ctx _ (AppendRepositoryScope _ _ _) => apply Append_clean; [|unfold repository_actions; set_solver|]
  | |- ready (AppendRepositoryScope _ _ _) _ => apply Append_ready; [|unfold repository_actions; set_solver| |set_solver]
  end; eauto using at_ref_of_repo, self_of_repo, parsed_of_repo.
#[local] Hint Extern 1 (clean_ctx _ (AppendRepositoryScope _ _ _)) => hints_tac : go.
#[local] Hint Extern 1 (ready (AppendRepositoryScope _ _ _) _) => hints_tac : go.

(** Split a call into its requests. *)
Ltac inv_tac :=
  repeat first
    [ progress (eauto 4 with go)
    | apply inv_lift_bind; intros ? ?
    | apply keeps_bind; [|intros ?]
    | apply keeps_on_err
    | match goal with
      | |- keeps _ (if ?b then _ else _) => destruct b
      | |- keeps _ (match ?x with _ => _ end) => destruct x
      | |- keeps _ (let '(_, _) := ?x in _) => destruct x
      end ].

Lemma inv_delete ctx d b : clean_ctx r ctx -> keeps inv (Repository_delete ctx r d b).
Proof. intros Hc. unfold Repository_delete. inv_tac. Qed.
Lemma inv_blob_Fetch ctx d : clean_ctx r ctx -> keeps inv (blobStore_Fetch ctx r d).
Proof. intros Hc. unfold blobStore_Fetch. inv_tac. Qed.
Lemma inv_blob_Resolve ctx s : clean_ctx r ctx -> keeps inv (blobStore_Resolve ctx r s).
Proof. intros Hc. unfold blobStore_Resolve. inv_tac. Qed.
Lemma inv_manifest_Fetch ctx d : clean_ctx r ctx -> keeps inv (manifestStore_Fetch ctx r d).
Proof. intros Hc. unfold manifestStore_Fetch. inv_tac. Qed.
Lemma inv_manifest_Resolve ctx s : clean_ctx r ctx -> keeps inv (manifestStore_Resolve ctx r s).
Proof. intros Hc. unfold manifestStore_Resolve. inv_tac. Qed.
#[local] Hint Resolve inv_delete inv_blob_Fetch inv_blob_Resolve inv_manifest_Fetch inv_manifest_Resolve : go.

Lemma inv_blob_FetchReference ctx s : clean_ctx r ctx -> keeps inv (blobStore_FetchReference ctx r s).
Proof. intros Hc. unfold blobStore_FetchReference. inv_tac. Qed.
Lemma inv_manifest_FetchReference ctx s : clean_ctx r ctx -> keeps inv (manifestStore_FetchReference ctx r s).
Proof. intros Hc. unfold manifestStore_FetchReference. inv_tac. Qed.
Lemma inv_exists_by resolve d : (forall s, keeps inv (resolve s)) -> keeps inv (exists_by resolve d).
Proof.
  intros Hres w Hw. unfold exists_by. pose proof (Hres (Digest d) w Hw) as H.
  destruct (resolve (Digest d) w) as [[?|e|] w']; [done| |done]. by destruct (errors_Is e ErrNotFound).
Qed.

(** The requests with a body. *)
Lemma new_upload_spec ctx url d c q : new_upload ctx url d c = Ok q ->
  rq_Method q = PUT /\ rq_Context q = ctx /\ rq_Header q = ∅.
Proof.
  unfold new_upload, NewRequest. destruct (url_Parse url) as [u|]; [|done]. intros H. simpl in H.
  destruct c; [|by injection H as <-]. destruct (negb _); [done|]. by injection H as <-.
Qed.
Lemma buffer_body_spec d c q q' : buffer_body r d c q = Ok q' ->
  rq_Method q' = rq_Method q /\ rq_Context q' = rq_Context q /\ rq_Header q' = rq_Header q.
Proof.
  unfold buffer_body. destruct c as [b|rd]; [by intros [= <-]|]. destruct (authClient r); [|by intros [= <-]].
  destruct (cas.Push d rd cas.NewMemory) as [res st]. intros H. apply bind_Ok in H as (? & _ & H).
  apply bind_Ok in H as (? & _ & H). by injection H as <-.
Qed.

Lemma inv_push ctx d c s : clean_ctx r ctx -> keeps inv (push ctx r d c s).
Proof.
  intros Hc. unfold push. cbv zeta. apply inv_lift_bind. intros q Hq. apply inv_lift_bind. intros q' Hq'.
  apply new_upload_spec in Hq as (Hm & Hx & Hh). apply buffer_body_spec in Hq' as (Hm' & Hx' & Hh').
  assert (ready (AppendRepositoryScope ctx (at_ref s r) [ActionPull; ActionPush]) PUT) as Hready by auto with go.
  apply keeps_bind.
  - apply inv_do, ok_plain.
    + unfold hinted. rewrite Hm', Hx'. simpl. by rewrite Hm, Hx.
    + unfold unauthorized. rewrite Hh'. simpl. rewrite Hh. done.
  - intros resp. unfold checkOCISubjectHeader. inv_tac.
Qed.
#[local] Hint Resolve inv_manifest_FetchReference inv_push : go.

Lemma inv_referrersFromIndex ctx t : clean_ctx r ctx -> keeps inv (referrersFromIndex ctx r t).
Proof. intros Hc. unfold referrersFromIndex. inv_tac. Qed.
Lemma inv_prepare_index ctx t : clean_ctx r ctx -> keeps inv (prepare_index ctx r t).
Proof.
  intros Hc w Hw. unfold prepare_index. pose proof (inv_referrersFromIndex ctx t Hc w Hw) as H.
  destruct (referrersFromIndex ctx r t w) as [[[d l]|e|] w']; [done| |done]. by destruct (errors_Is e ErrNotFound).
Qed.
#[local] Hint Resolve inv_prepare_index : go.

Lemma inv_updateReferrersIndex ctx s c : clean_ctx r ctx -> keeps inv (updateReferrersIndex ctx r s c).
Proof. intros Hc. unfold updateReferrersIndex, update_index, push_index. inv_tac. Qed.
#[local] Hint Resolve inv_updateReferrersIndex : go.

Lemma inv_pushWithIndexing ctx d c s : clean_ctx r ctx -> keeps inv (pushWithIndexing ctx r d c s).
Proof. intros Hc. unfold pushWithIndexing, indexReferrersForPush. inv_tac. Qed.
Lemma inv_pingReferrers ctx : clean_ctx r ctx -> keeps inv (pingReferrers ctx r).
Proof. intros Hc. unfold pingReferrers. inv_tac. Qed.
#[local] Hint Resolve inv_pingReferrers : go.
Lemma inv_deleteWithIndexing ctx d : clean_ctx r ctx -> keeps inv (deleteWithIndexing ctx r d).
Proof. intros Hc. unfold deleteWithIndexing, indexReferrersForDelete. inv_tac. Qed.
Lemma inv_Tag ctx d s : clean_ctx r ctx -> keeps inv (Tag ctx r d s).
Proof. intros Hc. unfold Tag. inv_tac. Qed.

(** Listings end, when they end, in a good state. *)
Definition ends_inv (o : option (result unit * W)) : Prop := forall res w', o = Some (res, w') -> inv w'.

Lemma inv_pages fuel page url w : (forall u, keeps inv (page u)) -> inv w -> ends_inv (pages fuel page url w).
Proof.
  intros Hp. revert url w. induction fuel as [|fuel IH]; intros url w Hw res w'; simpl; [done|].
  pose proof (Hp url w Hw) as H. destruct (page url w) as [[next|e|] w1]; simpl in H.
  - by apply IH.
  - case_decide; by intros [= <- <-].
  - by intros [= <- <-].
Qed.

Lemma inv_list_all fuel page last url w :
  (forall l u, keeps inv (page l u)) -> inv w -> ends_inv (list_all fuel page last url w).
Proof.
  intros Hp Hw res w'. unfold list_all. destruct fuel as [|fuel]; [done|].
  pose proof (Hp last url w Hw) as H. destruct (page last url w) as [[next|e|] w1]; simpl in H.
  - by apply inv_pages.
  - case_decide; by intros [= <- <-].
  - by intros [= <- <-].
Qed.

Lemma inv_referrersByTagSchema ctx d t fn : clean_ctx r ctx -> (forall l, keeps inv (fn l)) ->
  keeps inv (referrersByTagSchema ctx r d t fn).
Proof.
  intros Hc Hfn w Hw. unfold referrersByTagSchema. destruct (buildReferrersTag d) as [tag| |]; [|done..].
  pose proof (inv_referrersFromIndex ctx tag Hc w Hw) as H.
  destruct (referrersFromIndex ctx r tag w) as [[[d' l]|e|] w']; [|by destruct (errors_Is e ErrNotFound)|done].
  case_decide; [done|]. by apply Hfn.
Qed.

Lemma inv_referrersByAPI fuel ctx d t fn w : clean_ctx r ctx -> (forall l, keeps inv (fn l)) -> inv w ->
  ends_inv (referrersByAPI fuel ctx r d t fn w).
Proof.
  intros Hc Hfn Hw. apply inv_pages; [|done]. intros u. unfold referrersPageByAPI. inv_tac; apply Hfn.
Qed.

Lemma inv_Referrers fuel ctx d t fn w : clean_ctx r ctx -> (forall l, keeps inv (fn l)) -> inv w ->
  ends_inv (Referrers fuel ctx r d t fn w).
Proof.
  intros Hc Hfn Hw res w'. pose proof (inv_referrersByAPI fuel ctx d t fn w Hc Hfn Hw) as Ha. unfold Referrers.
  pose proof (inv_referrersByTagSchema ctx d t fn Hc Hfn) as Ht.
  destruct (rw_state w).
  - destruct (referrersByAPI fuel ctx r d t fn w) as [[[x|e|] w1]|]; [..|done]; specialize (Ha _ _ eq_refl).
    + intros [= <- <-]. by apply inv_Set.
    + destruct (errors_Is e ErrUnsupported); [|by intros [= <- <-]]. intros [= E].
      pose proof (Ht _ (inv_Set false w1 Ha)) as H. by rewrite E in H.
    + by intros [= <- <-].
  - apply Ha.
  - intros [= E]. pose proof (Ht w Hw) as H. by rewrite E in H.
Qed.

Lemma inv_Tags fuel ctx last fn w : clean_ctx r ctx -> (forall l, keeps inv (fn l)) -> inv w ->
  ends_inv (Tags fuel ctx r last fn w).
Proof.
  intros Hc Hfn Hw. apply inv_list_all; [|done]. intros l u. unfold tags, list_page. inv_tac.
Qed.

(** The upload of a blob: the first request is like the others, the second one may
    carry the credential that the first was sent with. *)
Section upload.
Hypothesis ok_upload : forall req, hinted r req -> rq_Method req = PUT -> ok req.

Lemma inv_completePush ctx req resp d c : ready ctx PUT ->
  keeps inv (completePushAfterInitialPost ctx r req resp d c).
Proof.
  intros Hc. unfold completePushAfterInitialPost. cbv zeta. apply inv_lift_bind. intros location _.
  apply inv_lift_bind. intros put Hput. apply new_upload_spec in Hput as (Hm & Hx & Hh).
  apply keeps_bind; [|intros resp'; apply inv_lift]. apply inv_do, ok_upload.
  - unfold hinted. destruct (String.eqb _ EmptyString); simpl; by rewrite Hm, Hx.
  - by destruct (String.eqb _ EmptyString).
Qed.

Lemma inv_post ctx url (f : Request -> Response -> M W unit) :
  ready ctx POST -> (forall req resp, keeps inv (f req resp)) ->
  keeps inv (req ← lift (NewRequest ctx POST url None); resp ← do req; f req resp).
Proof.
  intros Hc Hf. apply inv_lift_bind. intros q Hq. unfold NewRequest in Hq.
  destruct (url_Parse url) as [u|]; [|done]. injection Hq as <-. apply keeps_bind; [|intros resp; apply Hf].
  by apply inv_do, ok_plain.
Qed.

Lemma inv_blob_Push ctx d c : clean_ctx r ctx -> keeps inv (blobStore_Push ctx r d c).
Proof.
  intros Hc. unfold blobStore_Push. cbv zeta. apply inv_post; [auto with go|]. intros req resp.
  case_decide; [|apply inv_lift]. apply inv_completePush. auto with go.
Qed.

(** A hint for another repository keeps those for this one. *)
Lemma Append_other ctx ref m : Registry ref = Registry (rp_Reference r) -> Repository ref <> EmptyString ->
  clean_ctx r ctx -> ready ctx m ->
  clean_ctx r (AppendRepositoryScope ctx ref [ActionPull]) /\ ready (AppendRepositoryScope ctx ref [ActionPull]) m.
Proof.
  intros Hreg Hne Hc Hm. destruct (AppendRepositoryScope_spec r ctx ref [ActionPull]) as (H1 & H2 & _);
    [done|done|unfold repository_actions; set_solver|done|]. split; [done|]. intros a Ha. by apply H2, Hm.
Qed.

Lemma inv_Mount ctx d from get : clean_ctx r ctx -> from <> EmptyString ->
  (forall g, get = Some g -> keeps inv g) -> keeps inv (blobStore_Mount ctx r d from get).
Proof.
  intros Hc Hf Hget. unfold blobStore_Mount. cbv zeta.
  set (ctx1 := AppendRepositoryScope ctx (rp_Reference r) _).
  assert (clean_ctx r ctx1) as Hc1 by (unfold ctx1; auto with go).
  assert (ready ctx1 POST) as Hr1 by (unfold ctx1; auto with go).
  destruct (Append_other ctx1 (rp_Reference (sibling r from)) POST) as [Hc2 Hr2]; [done..|].
  apply inv_post; [done|]. intros req resp. case_decide; [apply inv_lift|].
  case_decide; [|apply inv_lift]. apply keeps_bind; [|intros rc; by apply inv_completePush].
  apply keeps_on_err. destruct get as [g|]; [by apply Hget|].
  unfold blobStore_Fetch. cbv zeta. apply keeps_bind; [|intros; apply inv_lift]. apply inv_send; [|done].
  apply Append_other; [done..|]. intros a Ha. apply Hr2. simpl in *. set_solver.
Qed.
End upload.

Lemma run_call_inv fuel fn tagsFn ctx c w w' :
  clean_ctx r ctx -> names_source c ->
  (uploads_blob c = true -> forall req, hinted r req -> rq_Method req = PUT -> ok req) ->
  (forall l, keeps inv (fn l)) -> (forall l, keeps inv (tagsFn l)) ->
  inv w -> run_call fuel fn tagsFn ctx r c w = Some w' -> inv w'.
Proof.
  intros Hc Hs Hup Hfn Htags Hw. assert (forall A (m : M W A), keeps inv m -> Some (m w).2 = Some w' -> inv w') as Hk
    by (intros A m Hm [= <-]; by apply Hm).
  destruct c; simpl.
  - apply Hk. unfold Repository_Fetch. inv_tac.
  - apply Hk. unfold Repository_Exists, manifestStore_Exists, blobStore_Exists.
    destruct (isManifest _ _); apply inv_exists_by; intros x; auto with go.
  - apply Hk. unfold Repository_Delete, blobStore_Delete. destruct (isManifest _ _); [by apply inv_deleteWithIndexing|auto with go].
  - apply Hk. auto with go.
  - apply Hk. auto with go.
  - apply Hk. auto with go.
  - apply Hk. by apply inv_blob_FetchReference.
  - apply Hk. by apply inv_pushWithIndexing.
  - apply Hk. apply inv_lift_bind. intros ref _. by apply inv_pushWithIndexing.
  - apply Hk. by apply inv_Tag.
  - intros H. destruct (Referrers fuel ctx r d artifactType fn w) as [[res w1]|] eqn:E; [|done]. injection H as <-.
    by apply (inv_Referrers fuel ctx d artifactType fn w Hc Hfn Hw res).
  - intros H. destruct (Tags fuel ctx r last tagsFn w) as [[res w1]|] eqn:E; [|done]. injection H as <-.
    by apply (inv_Tags fuel ctx last tagsFn w Hc Htags Hw res).
  - apply Hk, inv_blob_Push; [by apply Hup|done].
  - apply Hk, inv_Mount; [by apply Hup|done..].
Qed.
End invariant.
End requests.

(** ** Every request *)

(** A client that records the requests it is given. *)
Definition recording {NU : NetURL} {N : Type} (CL : Client N) : Client (N * list Request) := {|
  Do req n := let '(x, n') := Do req n.1 in (x, (n', n.2 ++ [req])%list)
|}.

Section every.
Context {GD : GoDigest} {MJ : ManifestJSON} {RJ : RegistryJSON} {NU : NetURL} {MO : MapOrder}.
Context {N U : Type} (CL : Client N).
Notation W := (rworld (N * list Request) U).

(** C19: every request that an operation of a repository makes carries, for the host
    of the registry, scope hints that include the actions its method needs on the
    repository (pull to read, pull and push to write, delete to delete), whatever the
    server answers; none carries an [Authorization] of its own, except that the second
    request of a blob upload may.  The hints that the caller gave for the host, if any,
    are scopes of the form [type:name:actions] that [CleanScopes] recognizes, a mount
    names its source repository, the callbacks of the listings leave the network alone,
    and the operation returns: a listing does so within [fuel] pages, the other
    operations need no fuel. *)
Theorem repository_requests fuel fn tagsFn ctx r c (w w' : W) :
  Repository (rp_Reference r) <> EmptyString -> clean_ctx r ctx -> names_source c ->
  (forall l w1, rw_net (fn l w1).2 = rw_net w1) -> (forall l w1, rw_net (tagsFn l w1).2 = rw_net w1) ->
  run_call (CL := recording CL) fuel fn tagsFn ctx r c w = Some w' ->
  exists new, (rw_net w').2 = ((rw_net w).2 ++ new)%list /\
    Forall (fun req => hinted r req /\ (unauthorized req \/ uploads_blob c = true /\ rq_Method req = PUT)) new.
Proof.
  intros Hr Hc Hs Hfn Htags Hrun.
  set (ok req := hinted r req /\ (unauthorized req \/ uploads_blob c = true /\ rq_Method req = PUT)).
  set (P (n : N * list Request) := exists new, n.2 = ((rw_net w).2 ++ new)%list /\ Forall ok new).
  apply (run_call_inv (CL := recording CL) r Hr P ok) with (9 := Hrun); try done.
  - intros req Hh Hu. split; auto.
  - intros req Hok [n l] (new & Hl & Hall). simpl in Hl. subst l. simpl. destruct (Do req n) as [x n']. exists (new ++ [req])%list.
    simpl. rewrite app_assoc. split; [done|]. apply Forall_app. by split; [|constructor].
  - intros Hu req Hh Hm. split; auto.
  - intros l w1. unfold inv. by rewrite Hfn.
  - intros l w1. unfold inv. by rewrite Htags.
  - exists []. by rewrite app_nil_r.
Qed.
End every.

(** ** The registry of the referrers example *)
Module requests_example.
Import HexDigest registry_example.

Definition stored : rworld (regview * list Request) unit :=
  mkRW referrersStateUnknown (mkView {["sha256:6d" := (MediaTypeImageManifest, str_bytes "m")]} ∅, []) tt.
Definition ignore_page {A} : A -> M (rworld (regview * list Request) unit) unit := fun _ => mret tt.

(** Tagging reads the manifest and puts it. *)
Lemma repository_requests_witness :
  exists w' new, run_call (CL := recording server) 0 ignore_page ignore_page Background repo (CTag signature "v1") stored = Some w'
    /\ (rw_net w').2 = new /\ rq_Method <$> new = [GET; PUT]
    /\ Forall (fun req => hinted repo req /\ (unauthorized req \/ false = true /\ rq_Method req = PUT)) new.
Proof.
  destruct (run_call (CL := recording server) 0 ignore_page ignore_page Background repo (CTag signature "v1") stored)
    as [w'|] eqn:E; [|done].
  destruct (repository_requests server 0 ignore_page ignore_page Background repo (CTag signature "v1") stored w')
    as (new & H1 & H2); [done| |done|done|done|exact E|].
  - intros s Hs. by apply elem_of_nil in Hs.
  - exists w', new. split; [done|]. split; [exact H1|]. split; [|exact H2].
    assert (rq_Method <$> (rw_net w').2 = [GET; PUT]) as Hm.
    { assert ((fun w1 : rworld (regview * list Request) unit => rq_Method <$> (rw_net w1).2) <$>
        run_call (CL := recording server) 0 ignore_page ignore_page Background repo (CTag signature "v1") stored = Some [GET; PUT])
        as Ho by (vm_compute; reflexivity). rewrite E in Ho. by injection Ho as Ho. }
    by rewrite H1 in Hm.
Defined.
End requests_example.
