(* ===== verification/RemoteTarget.v ===== *)
(** A remote repository as the destination of a copy: the methods of [Repository]
    in [registry/remote/repository.go] that implement [oras.Target],
    [registry.ReferencePusher] and [registry.Mounter], and their promises to
    [copy.go] against a registry with the referrers API. *)

From Stdlib Require Import Ascii String ZArith Lia.
From S2P Require Import Prelude Errors Descriptor Reader Manifest Storage Proxy Sched Copy CopyCorrect ExtendedCopy.
From S2P Require Import GoStrings Reference Referrers Scope Http Challenge Remote RemoteCorrect RemoteReferrers RemoteRequests.
Import registry.

#[local] Open Scope string_scope.

(** ** The methods of [Repository] *)

Section methods.
Context {GD : GoDigest} {MJ : ManifestJSON} {RJ : RegistryJSON} {NU : NetURL} {MO : MapOrder}.
Context {N U : Type} {CL : Client N} (ctx : Context_) (r : Repo).
Notation W := (rworld N U).

Definition Repository_Resolve (reference : string) : M W OciDescriptor := manifestStore_Resolve ctx r reference.
Definition Repository_Tag (desc : OciDescriptor) (reference : string) : M W unit := Remote.Tag ctx r desc reference.
Definition Repository_PushReference (expected : OciDescriptor) (content : Content) (reference : string) : M W unit :=
  Remote.PushReference ctx r expected content reference.
Definition Repository_FetchReference (reference : string) : M W (OciDescriptor * Reader) :=
  manifestStore_FetchReference ctx r reference.
Definition Repository_Mount (desc : OciDescriptor) (fromRepo : string) (getContent : option (M W Reader)) : M W unit :=
  blobStore_Mount ctx r desc fromRepo getContent.

(** [Mount] up to the call of [getContent], and what follows it. *)
Definition begin_mount (desc : OciDescriptor) (fromRepo : string) (w : W)
    : (result unit * W) + (W * (result Reader -> M W unit)) :=
  let ctx := AppendRepositoryScope ctx (rp_Reference r) [ActionPull; ActionPush] in
  let ctx := AppendRepositoryScope ctx (rp_Reference (sibling r fromRepo)) [ActionPull] in
  match NewRequest ctx POST
          (buildRepositoryBlobMountURL (PlainHTTP r) (rp_Reference r) (Digest desc) fromRepo) None with
  | Ok req =>
      match do req w with
      | (Ok resp, w1) =>
          if decide (StatusCode resp = StatusCreated) then inl (verifyContentDigest resp (Digest desc), w1)
          else if decide (StatusCode resp = StatusAccepted) then
            inr (w1, fun content =>
              rc ← on_err (EWrap "cannot read source blob") (lift content);
              completePushAfterInitialPost ctx r req resp desc (CStream rc))
          else inl (Err (ParseErrorResponse resp), w1)
      | (Err e, w1) => inl (Err e, w1)
      | (Panic, w1) => inl (Panic, w1)
      end
  | Err e => inl (Err e, w)
  | Panic => inl (Panic, w)
  end.

Lemma Repository_Mount_split desc fromRepo get w :
  Repository_Mount desc fromRepo (Some get) w =
    match begin_mount desc fromRepo w with
    | inl res => res
    | inr (w1, k) => let '(content, w2) := get w1 in k content w2
    end.
Proof.
  unfold Repository_Mount, blobStore_Mount, begin_mount. cbv zeta.
  set (url := buildRepositoryBlobMountURL _ _ _ _). set (ctx' := AppendRepositoryScope _ _ _).
  unfold mbind at 1, M_bind at 1, lift at 1, reads at 1. destruct (NewRequest ctx' POST url None) as [req|e|]; [|done..].
  unfold mbind at 1, M_bind at 1. destruct (do req w) as [[resp|e|] w1]; [|done..].
  destruct (decide (StatusCode resp = StatusCreated)); [done|].
  destruct (decide (StatusCode resp = StatusAccepted)); [|done].
  unfold mbind, M_bind, on_err, lift, reads. by destruct (get w1) as [[rc|err|] w2].
Qed.

(** The interfaces [copy.go] uses.  Reads of a repository whose registry is not
    changed by them are reads of the state. *)
Definition remote_Storage : Storage W := {|
  st_Fetch d w := (Repository_Fetch ctx r d w).1;
  st_Exists d w := (Repository_Exists ctx r d w).1;
  st_Push d rc := Repository_Push ctx r d (CStream rc)
|}.

Definition remote_Target : Target W := {|
  tg_Tag := Repository_Tag;
  tg_Resolve reference w := (Repository_Resolve reference w).1;
  tg_PushReference := Some (fun d rc reference => Repository_PushReference d (CStream rc) reference);
  tg_Mount := Some begin_mount
|}.
End methods.

(** ** A registry with the referrers API *)

(** Errors that mean nothing to [copy.go]. *)
Definition ordinary (e : error) : Prop :=
  errors_Is e ErrAlreadyExists = false /\ errors_Is e skipSource = false.

(** The digest [d], of any algorithm, is a digest of [c]. *)
Definition digest_of `{GoDigest} (d : string) (c : bytes) : Prop :=
  exists v, digest_Verifier d = Some v /\ v c = true.

(** A manifest is filed under the digest it is put at or, when it is put at a tag,
    under its canonical digest, which the tag then names. *)
Definition filed_under `{GoDigest} (x : string) (c : bytes) : string :=
  if digest_Validate x then x else digest_FromBytes c.
Definition rv_file `{GoDigest} (x mt : string) (c : bytes) (v : regview) : regview :=
  mkView (<[filed_under x c := (mt, c)]> (rv_manifests v))
    (if digest_Validate x then rv_tags v else <[x := filed_under x c]> (rv_tags v)).

(** The endpoints of a conforming registry, for one repository.  [view n] are its
    manifests and tags, [blobs n] its blobs, [session] the locations of uploads it
    handed out, and [kind c] the media type it takes a manifest for. *)
Class RepositoryLaws {GD : GoDigest} {MJ : ManifestJSON} {NU : NetURL} {N : Type} {CL : Client N} (r : Repo)
    (view : N -> regview) (blobs : N -> gmap string bytes) (session : URL -> Prop) (kind : bytes -> string) := {
  do_err : forall req n e n', Do req n = (Err e, n') ->
    (forall b, rq_Body req = Some b -> clean b) -> ordinary e;
  do_read : forall m u h ctx n, m = GET \/ m = HEAD -> (Do (mkRequest m u h None None 0 ctx) n).2 = n;
  (* manifests that are there are found, others are not *)
  manifest_read : forall m x n u h ctx, m = GET \/ m = HEAD ->
    url_Parse (buildRepositoryManifestURL (PlainHTTP r) (at_ref x r)) = Some u ->
    match rv_get x (view n) with
    | Some (d, mt, c) =>
        exists resp, (Do (mkRequest m u h None None 0 ctx) n).1 = Ok resp
          /\ StatusCode resp = StatusOK
          /\ ParseMediaType (Header_Get "Content-Type" (rs_Header resp)) = Some mt
          /\ ContentLength resp = Zlen c
          /\ Header_Get headerDockerContentDigest (rs_Header resp) = d
          /\ (m = GET -> clean (Body resp) /\ content (Body resp) = c)
    | None => forall resp, (Do (mkRequest m u h None None 0 ctx) n).1 = Ok resp -> StatusCode resp <> StatusOK
    end;
  blob_head : forall d n u h ctx resp,
    url_Parse (buildRepositoryBlobURL (PlainHTTP r) (at_ref d r)) = Some u ->
    (Do (mkRequest HEAD u h None None 0 ctx) n).1 = Ok resp -> StatusCode resp = StatusOK -> is_Some (blobs n !! d);
  (* a manifest is stored, or nothing is; the client is told when it is stored and
     when it has a subject *)
  manifest_put : forall x n u h b g len mt ctx res n',
    url_Parse (buildRepositoryManifestURL (PlainHTTP r) (at_ref x r)) = Some u ->
    h !! "Content-Type" = Some mt -> Do (mkRequest PUT u h (Some b) g len ctx) n = (res, n') ->
    blobs n' = blobs n /\
    (view n' = view n /\ (forall resp, res = Ok resp -> StatusCode resp <> StatusCreated)
     \/ clean b /\ Zlen (content b) = len /\ mt = kind (content b)
        /\ (forall d, MediaType d = mt -> IsManifest d = true)
        /\ (digest_Validate x = true -> digest_of x (content b))
        /\ view n' = rv_file x mt (content b) (view n)
        /\ forall resp d s, res = Ok resp -> MediaType d = mt ->
             referrer_of d (content b) = Ok (Some s) -> Header_Get headerOCISubject (rs_Header resp) <> EmptyString);
  (* an upload, or a mount that is not done at once, is ended at the location *)
  blob_post : forall u n ctx res n',
    url_Parse (buildRepositoryBlobUploadURL (PlainHTTP r) (rp_Reference r)) = Some u ->
    Do (mkRequest POST u ∅ None None 0 ctx) n = (res, n') ->
    view n' = view n /\ blobs n' = blobs n /\
    forall resp loc u2, res = Ok resp -> StatusCode resp = StatusAccepted -> Location resp = Ok loc ->
      url_Parse (url_String (add_port u loc)) = Some u2 -> session u2;
  blob_mount : forall d from u n ctx res n',
    url_Parse (buildRepositoryBlobMountURL (PlainHTTP r) (rp_Reference r) d from) = Some u ->
    Do (mkRequest POST u ∅ None None 0 ctx) n = (res, n') ->
    view n' = view n /\
    (blobs n' = blobs n \/ exists c, digest_of d c /\ blobs n' = <[d := c]> (blobs n)) /\
    forall resp, res = Ok resp ->
      (StatusCode resp = StatusCreated -> is_Some (blobs n' !! d)) /\
      (StatusCode resp = StatusAccepted -> blobs n' = blobs n /\
        forall loc u2, Location resp = Ok loc -> url_Parse (url_String (add_port u loc)) = Some u2 -> session u2);
  blob_put : forall u d h b g len n ctx res n', session u ->
    Do (mkRequest PUT (url_SetQuery "digest" d u) h (Some b) g len ctx) n = (res, n') ->
    view n' = view n /\
    (blobs n' = blobs n /\ (forall resp, res = Ok resp -> StatusCode resp <> StatusCreated)
     \/ clean b /\ Zlen (content b) = len /\ digest_of d (content b) /\ blobs n' = <[d := content b]> (blobs n))
}.

Section target.
Context {GD : GoDigest} {GL : GoDigestLaws GD} {MJ : ManifestJSON} {RJ : RegistryJSON} {NU : NetURL} {MO : MapOrder}.
Context {N U : Type} {CL : Client N} (ctx : Context_) (r : Repo).
Context (view : N -> regview) (blobs : N -> gmap string bytes) (session : URL -> Prop) (kind : bytes -> string).
Context {RL : RepositoryLaws r view blobs session kind}.
Notation W := (rworld N U).

(** The digests of every algorithm do not collide, a digest that verifies some
    content is well formed, and well-formed digests have no slash and no at sign. *)
Hypothesis digest_one : forall d c c', digest_of d c -> digest_of d c' -> c = c'.
Hypothesis digest_valid : forall d c, digest_of d c -> digest_Validate d = true.
Hypothesis digest_plain : forall d, digest_Validate d = true -> has_char "/" d = false /\ has_char "@" d = false.
(** The errors of the JSON decoder mean nothing to [copy.go]. *)
Hypothesis decode_err : forall d c e, referrer_of d c = Err e -> ordinary e.
(** The client is an auth client, and manifests have the media types of the code. *)
Hypothesis auth : authClient r = true.
Hypothesis types : ManifestMediaTypes r = [].

#[local] Instance repo_Storage : Storage W := remote_Storage ctx r.
#[local] Instance repo_Target : Target W := remote_Target ctx r.

(** ** What the registry holds *)

Definition net_ok (n : N) : Prop :=
  (forall d mt c, rv_manifests (view n) !! d = Some (mt, c) -> digest_of d c /\ mt = kind c)
  /\ (forall d c, blobs n !! d = Some c -> digest_of d c).

(** The content of a node: a manifest has to be stored with the media type of the
    node. *)
Definition held (n : N) (k : Descriptor) : option bytes :=
  if IsManifest (ofKey k) then
    match rv_manifests (view n) !! kDigest k with
    | Some (mt, c) => if decide (mt = kMediaType k /\ Zlen c = kSize k) then Some c else None
    | None => None
    end
  else
    match blobs n !! kDigest k with
    | Some c => if decide (Zlen c = kSize k) then Some c else None
    | None => None
    end.

Definition remote_inv (w : W) : Prop := net_ok (rw_net w) /\ rw_state w <> referrersStateUnsupported.
Definition remote_view (w : W) (k : Descriptor) : option bytes := held (rw_net w) k.

(** A descriptor with the size and the media type of its content. *)
Definition truthful (k : Descriptor) : Prop :=
  exists c, digest_of (kDigest k) c /\ kSize k = Zlen c /\ (IsManifest (ofKey k) = true -> kMediaType k = kind c).

(** A reference under which the registry files the manifest [k] by the digest of
    [k]: the digest itself, or a tag when [k] has the canonical digest. *)
Definition files (k : Descriptor) (x : string) : Prop :=
  forall c, digest_of (kDigest k) c -> filed_under x c = kDigest k.
Definition names (k : Descriptor) (ref : string) : Prop :=
  forall p, Repository_ParseReference r ref = Ok p -> files k (Ref p).

Lemma files_digest d : files (FromOCI d) (Digest d).
Proof. intros c Hc. unfold filed_under. cbn [FromOCI kDigest] in *. by rewrite (digest_valid _ _ Hc). Qed.

Lemma canonical_digest_of c : digest_of (digest_FromBytes c) c.
Proof.
  destruct (digest_Verifier_total _ (digest_FromBytes_valid c)) as [v Hv]. exists v.
  split; [done|]. by apply digest_Verifier_FromBytes.
Qed.

Lemma held_same n n' k : view n' = view n -> blobs n' = blobs n -> held n' k = held n k.
Proof. unfold held. by intros -> ->. Qed.

Lemma net_ok_same n n' : net_ok n -> view n' = view n -> blobs n' = blobs n -> net_ok n'.
Proof. unfold net_ok. by intros ? -> ->. Qed.

Lemma ofKey_FromOCI d : IsManifest (ofKey (FromOCI d)) = IsManifest d.
Proof. apply IsManifest_key. apply FromOCI_ofKey. Qed.

(** What storing [d] may do. *)
Record grows (d : OciDescriptor) (w w' : W) : Prop := {
  gr_inv : remote_inv w';
  gr_mono : forall k c, remote_view w k = Some c -> remote_view w' k = Some c;
  gr_only : forall k, is_Some (remote_view w' k) -> is_Some (remote_view w k) \/ same_node d k
}.

Lemma grows_refl d w : remote_inv w -> grows d w w.
Proof. split; auto. Qed.
Lemma grows_trans d w1 w2 w3 : grows d w1 w2 -> grows d w2 w3 -> grows d w1 w3.
Proof.
  intros [I1 M1 O1] [I2 M2 O2]. split; [done|auto|]. intros k Hk. destruct (O2 k Hk); auto.
Qed.

Definition same_net (n n' : N) : Prop := view n' = view n /\ blobs n' = blobs n.

Lemma grows_same d (w w' : W) : remote_inv w -> same_net (rw_net w) (rw_net w') ->
  rw_state w' <> referrersStateUnsupported -> grows d w w'.
Proof.
  intros [Hn _] [Hv Hb] Hs. assert (forall k, remote_view w' k = remote_view w k) as E
    by (intros k; by apply held_same).
  split; [split; [by eapply net_ok_same|done]|intros k c; by rewrite E|intros k; rewrite E; auto].
Qed.

(** A new blob. *)
Lemma grows_blob d c (w w' : W) : remote_inv w -> view (rw_net w') = view (rw_net w) ->
  digest_of (Digest d) c -> blobs (rw_net w') = <[Digest d := c]> (blobs (rw_net w)) ->
  rw_state w' <> referrersStateUnsupported -> grows d w w'.
Proof.
  intros [[Hm Hb] _] Hv Hd Hb' Hs. split.
  - split; [split|done]; [by rewrite Hv|]. intros d' c'. rewrite Hb', lookup_insert. case_decide; [|apply Hb].
    by intros [= <-]; subst d'.
  - intros k c'. unfold remote_view, held. rewrite Hv, Hb'. destruct (IsManifest (ofKey k)); [done|].
    rewrite lookup_insert. case_decide as E; [|done]. rewrite <- E.
    destruct (blobs (rw_net w) !! Digest d) as [c0|] eqn:E0; [|done].
    by rewrite (digest_one _ _ _ (Hb _ _ E0) Hd).
  - intros k. unfold remote_view, held. rewrite Hv, Hb'. destruct (IsManifest (ofKey k)) eqn:Hk; [by left|].
    rewrite lookup_insert. case_decide as E; [|by left]. intros _. right. right. split; [done|].
    intros d' Hd'. rewrite <- Hk. subst k. symmetry. apply ofKey_FromOCI.
Qed.

Lemma held_blob d c (w : W) : IsManifest d = false -> blobs (rw_net w) !! Digest d = Some c -> Zlen c = Size d ->
  remote_view w (FromOCI d) = Some c.
Proof.
  intros Hm Hb Hs. unfold remote_view, held. rewrite ofKey_FromOCI, Hm. cbn [kDigest FromOCI kSize].
  rewrite Hb. by rewrite decide_True.
Qed.

(** A manifest, filed under its digest. *)
Lemma put_manifest d c x (w w' : W) : remote_inv w -> blobs (rw_net w') = blobs (rw_net w) ->
  view (rw_net w') = rv_file x (MediaType d) c (view (rw_net w)) -> files (FromOCI d) x ->
  digest_of (Digest d) c -> Size d = Zlen c -> MediaType d = kind c -> IsManifest d = true ->
  rw_state w' <> referrersStateUnsupported ->
  remote_inv w' /\ (forall k, k <> FromOCI d -> remote_view w' k = remote_view w k)
  /\ remote_view w' (FromOCI d) = Some c.
Proof.
  intros [[Hm Hb] _] Hb' Hv Hx Hd Hs Hk Hi Hst. pose proof (Hx c Hd) as Hf. cbn [FromOCI kDigest] in Hf.
  assert (Hv' : rv_manifests (view (rw_net w')) = <[Digest d := (MediaType d, c)]> (rv_manifests (view (rw_net w)))).
  { rewrite Hv. unfold rv_file. cbn [rv_manifests]. by rewrite Hf. }
  split; [|split].
  - split; [split|done]; [|by rewrite Hb']. intros d' mt' c'. rewrite Hv', lookup_insert.
    case_decide as E; [|apply Hm]. intros [= <- <-]. by rewrite <- E.
  - intros k Hne. unfold remote_view, held. rewrite Hb', Hv'. destruct (IsManifest (ofKey k)); [|done].
    rewrite lookup_insert. case_decide as E; [|done]. rewrite <- E.
    rewrite decide_False.
    + destruct (rv_manifests (view (rw_net w)) !! Digest d) as [[mt0 c0]|] eqn:E0; [|done].
      apply Hm in E0 as [E0 ->]. rewrite (digest_one _ _ _ E0 Hd). rewrite decide_False; [done|].
      intros [H1 H2]. apply Hne. destruct k as [a b z]. cbn in *. unfold FromOCI. by rewrite Hk, Hs, E, H1, H2.
    + intros [H1 H2]. apply Hne. destruct k as [a b z]. cbn in *. unfold FromOCI. by rewrite Hs, E, H1, H2.
  - unfold remote_view, held. rewrite ofKey_FromOCI, Hi, Hv'. cbn [FromOCI kDigest kMediaType kSize].
    rewrite lookup_insert_eq. by rewrite decide_True.
Qed.

(** ** Errors *)

Lemma ReadAll_ordinary rd d e : clean rd -> ReadAll rd d = Err e -> ordinary e.
Proof.
  intros Hc. rewrite ReadAll_clean_spec by done. unfold ReadAll_ref.
  destruct (digest_Verifier _) as [v|]; repeat case_decide; try destruct (v _); intros; simplify_eq/=; by split.
Qed.

Lemma verifyContentDigest_err resp d e : verifyContentDigest resp d = Err e -> ordinary e.
Proof.
  unfold verifyContentDigest. destruct (String.eqb _ _); [done|]. destruct (negb _); [by intros [= <-]|].
  destruct (negb _); [by intros [= <-]|done].
Qed.

Lemma Response_ordinary resp : ordinary (ParseErrorResponse resp).
Proof. done. Qed.

Lemma NewRequest_err cx m url b e : NewRequest cx m url b = Err e -> ordinary e.
Proof. unfold NewRequest. destruct (url_Parse url); [done|]. by intros [= <-]. Qed.

Lemma new_upload_err cx url d c e : new_upload cx url d c = Err e -> ordinary e.
Proof.
  unfold new_upload. intros [H|(q & _ & H)]%bind_Err; [by eapply NewRequest_err|].
  destruct c; [|done]. destruct (negb _); [by injection H as <-|done].
Qed.

Lemma Location_err resp e : Location resp = Err e -> ordinary e.
Proof.
  unfold Location. destruct (String.eqb _ _); [by intros [= <-]|]. destruct (url_Ref _ _); [done|by intros [= <-]].
Qed.

Lemma parse_ordinary s e : Repository_ParseReference r s = Err e -> ordinary e.
Proof.
  assert (forall x e', ValidateReferenceAsDigest x = Err e' -> ordinary e') as Hdig.
  { intros x e'. unfold ValidateReferenceAsDigest. destruct (Reference_Digest x); [done|by intros [= <-]..]. }
  assert (forall x e', ValidateReference x = Err e' -> ordinary e') as Href.
  { intros x e'. unfold ValidateReference, ValidateReferenceAsTag. destruct (String.eqb _ _); [done|].
    destruct (has_char _ _); [apply Hdig|]. destruct (negb _); [by intros [= <-]|done]. }
  unfold Repository_ParseReference. intros [H|(p & _ & H)]%bind_Err.
  - destruct (ParseReference s) as [p|e'|].
    + destruct (_ || _); [by injection H as <-|done].
    + destruct (cut "@" s) as [[? d]|]; apply bind_Err in H as [H|(? & _ & H)]; eauto; done.
    + destruct (cut "@" s) as [[? d]|]; apply bind_Err in H as [H|(? & _ & H)]; eauto; done.
  - destruct (String.eqb _ _); [by injection H as <-|done].
Qed.

(** ** Sending a manifest *)

Definition sound (d : OciDescriptor) (c : Content) : Prop :=
  match c with CBytes b => verified d b | CStream _ => True end.

Lemma verified_digest d c : verified d c -> digest_of (Digest d) c /\ Size d = Zlen c.
Proof. intros [Hs Hv]. done. Qed.

(** With an auth client the body is verified before it is sent. *)
Lemma manifest_body cx url d c q q' : sound d c -> new_upload cx url d c = Ok q ->
  buffer_body r d c (Header_Set "Content-Type" (MediaType d) q) = Ok q' ->
  exists u b g, url_Parse url = Some u /\ clean b /\ verified d (content b)
    /\ q' = mkRequest PUT u (<["Content-Type" := MediaType d]> ∅) (Some b) g (Size d) cx.
Proof.
  unfold new_upload, NewRequest. intros Hc H. destruct (url_Parse url) as [u|]; [|done]. simpl in H.
  destruct c as [b|rd].
  - destruct (negb _) eqn:Hl; [done|]. injection H as <-. intros [= <-]. simpl in Hc.
    destruct (bytes_NewReader_spec b) as [Hb Hcont]. eexists u, (bytes_NewReader b), _. split_and!; [done..|by rewrite Hcont|done].
  - injection H as <-. unfold buffer_body. rewrite auth, cas.cas_Push_cases.
    destruct (ReadAll rd d) as [v|e|] eqn:Hr; [|done..].
    replace (cas.view cas.NewMemory (FromOCI d)) with (None (A := bytes)) by (unfold cas.view; simpl; by rewrite lookup_empty).
    unfold cas.Fetch. cbn [cas.mem_content cas.NewMemory mbind outcome_bind]. rewrite lookup_insert_eq.
    cbn [mbind outcome_bind]. intros [= <-]. apply ReadAll_verified in Hr as [Hv _].
    destruct (bytes_NewReader_spec v) as [Hb Hcont]. eexists u, (bytes_NewReader v), _. split_and!; [done..|by rewrite Hcont|done].
Qed.

Lemma buffer_err d c q e : clean (content_reader c) -> buffer_body r d c q = Err e -> ordinary e.
Proof.
  intros Hc. unfold buffer_body. destruct c as [b|rd]; [done|]. rewrite auth, cas.cas_Push_cases.
  replace (cas.view cas.NewMemory (FromOCI d)) with (None (A := bytes)) by (unfold cas.view; simpl; by rewrite lookup_empty).
  destruct (ReadAll rd d) as [v|e'|] eqn:Hr; simpl; [|intros [= <-]; by eapply ReadAll_ordinary|done].
  unfold cas.Fetch. cbn [cas.mem_content]. by rewrite lookup_insert_eq.
Qed.

Lemma do_run req (w : W) : do req w = ((Do req (rw_net w)).1, set_net (Do req (rw_net w)).2 w).
Proof. unfold do, on_part. by destruct (Do req (rw_net w)). Qed.

(** What sending the manifest [d] under the reference [x] does, and what it means
    that it succeeded. *)
Record put_spec (d : OciDescriptor) (x : string) (c : Content) (w : W) (res : result unit) (w' : W) : Prop := {
  ps_inv : remote_inv w';
  ps_other : forall k, k <> FromOCI d -> remote_view w' k = remote_view w k;
  ps_mono : forall k c', remote_view w k = Some c' -> remote_view w' k = Some c';
  ps_blob : IsManifest d = false -> forall k, remote_view w' k = remote_view w k;
  ps_res : match res with
    | Ok _ => is_Some (remote_view w' (FromOCI d)) /\ rv_digest x (view (rw_net w')) = Some (Digest d)
        /\ is_Some (url_Parse (buildRepositoryManifestURL (PlainHTTP r) (at_ref x r))) /\ IsManifest d = true
        /\ forall v s, verified d v -> referrer_of d v = Ok (Some s) -> rw_state w' = referrersStateSupported
    | Err e => clean (content_reader c) -> ordinary e
    | Panic => True
    end
}.

Lemma put_spec_same d x c (w : W) res w' : remote_inv w -> same_net (rw_net w) (rw_net w') ->
  rw_state w' <> referrersStateUnsupported ->
  match res with Ok _ => False | Err e => clean (content_reader c) -> ordinary e | Panic => True end ->
  put_spec d x c w res w'.
Proof.
  intros Hi Hn Hs He. assert (forall k, remote_view w' k = remote_view w k) as E
    by (intros k; destruct Hn; by apply held_same).
  split; [by eapply (grows_same d w w')|auto|intros k c'; by rewrite E|auto|by destruct res].
Qed.

Lemma subject_header resp (w : W) : rw_state w <> referrersStateUnsupported ->
  exists st, checkOCISubjectHeader resp w = (Ok tt, set_state st w) /\ st <> referrersStateUnsupported
    /\ (Header_Get headerOCISubject (rs_Header resp) <> EmptyString -> st = referrersStateSupported).
Proof.
  intros Hs. unfold checkOCISubjectHeader. destruct (String.eqb_spec (Header_Get headerOCISubject (rs_Header resp)) EmptyString) as [E|E]; simpl.
  - exists (rw_state w). by destruct w.
  - exists referrersStateSupported. split; [|done]. unfold ignore_err, SetReferrersCapability.
    destruct w as [[] n u]; simpl in *; done.
Qed.

Lemma push_run cx d c x (w : W) res w' : remote_inv w -> sound d c -> files (FromOCI d) x ->
  push cx r d c x w = (res, w') -> put_spec d x c w res w'.
Proof.
  intros Hi Hc Hfiles. unfold push. cbv zeta. set (url := buildRepositoryManifestURL _ _).
  set (cx' := AppendRepositoryScope _ _ _). pose proof Hi as [Hn Hst]. unfold mbind, M_bind, lift, reads.
  destruct (new_upload cx' url d c) as [q|e|] eqn:Hq.
  2, 3: intros [= <- <-]; apply put_spec_same; try done. 2: intros _; by eapply new_upload_err.
  destruct (buffer_body r d c _) as [q'|e|] eqn:Hq'.
  2, 3: intros [= <- <-]; apply put_spec_same; try done. 2: intros ?; by eapply buffer_err.
  destruct (manifest_body cx' url d c q q' Hc Hq Hq') as (u & b & g & Hu & Hb & Hv & ->).
  destruct (verified_digest d _ Hv) as [Hd Hs].
  rewrite do_run. set (req := mkRequest _ _ _ _ _ _ _). destruct (Do req (rw_net w)) as [res1 n'] eqn:HD. cbn [fst snd].
  destruct (manifest_put x (rw_net w) u _ b g (Size d) (MediaType d) cx' res1 n' Hu (lookup_insert_eq _ _ _) HD)
    as [Hbl [[Hvw Hno]|(_ & _ & Hk & Hty & Hx & Hvw & Hsub)]].
  - assert (match res1 with Ok _ | Panic => True | Err e => ordinary e end) as He.
    { destruct res1 as [resp|e|]; [done| |done]. eapply do_err; [exact HD|]. by intros b' [= <-]. }
    destruct res1 as [resp|e|]; [rewrite decide_False by auto|..]; intros [= <- <-]; apply put_spec_same; try done.
  - assert (forall res' (w1 : W), rw_net w1 = n' -> rw_state w1 <> referrersStateUnsupported ->
      match res' with
      | Ok _ => forall v s, verified d v -> referrer_of d v = Ok (Some s) -> rw_state w1 = referrersStateSupported
      | Err e => ordinary e | Panic => True end -> put_spec d x c w res' w1) as Hspec.
    { intros res' w1 Hw' Hs' Hr. subst n'.
      destruct (put_manifest d (content b) x w w1 Hi Hbl Hvw Hfiles Hd Hs Hk (Hty d eq_refl) Hs') as (H1 & H2 & H3).
      split; [done|done| |by rewrite (Hty d eq_refl)|].
      - intros k c' Hc'. destruct (decide (k = FromOCI d)) as [->|Hne]; [|by rewrite H2].
        rewrite H3. f_equal. revert Hc'. unfold remote_view, held. rewrite ofKey_FromOCI, (Hty d eq_refl).
        destruct (rv_manifests _ !! _) as [[mt0 c0]|] eqn:E0; [|done]. case_decide; [|done]. intros [= <-].
        destruct Hn as [Hn _]. apply Hn in E0 as [E0 _]. by eapply digest_one.
      - destruct res' as [[]|e|]; [|done..]. split; [by eexists|]. split; [|split; [by eexists|split; [by apply Hty|done]]].
        rewrite Hvw. pose proof (Hfiles _ Hd) as Hf. cbn [FromOCI kDigest] in Hf.
        unfold rv_digest, rv_file. cbn [rv_tags]. rewrite Hf. unfold filed_under in Hf.
        destruct (digest_Validate x); [by rewrite Hf|]. by rewrite lookup_insert_eq. }
    destruct res1 as [resp|e|]; [|intros [= <- <-]; apply Hspec; [done|done|]..]; [| |done].
    2: eapply do_err; [exact HD|by intros b' [= <-]].
    case_decide as Hcr; [|intros [= <- <-]; apply Hspec; [done|done|apply Response_ordinary]].
    destruct (subject_header resp (set_net n' w) Hst) as (st & -> & Hst1 & Hst2).
    intros [= <- <-]. apply Hspec; [done|done|].
    destruct (verifyContentDigest resp (Digest d)) as [[]|e|] eqn:He; [|by eapply verifyContentDigest_err|done].
    intros v s Hv' Hrs. simpl. apply Hst2. destruct (verified_digest d v Hv') as [Hd' _].
    assert (v = content b) as -> by (by eapply digest_one). by eapply Hsub.
Qed.

Lemma put_spec_fails d x c (w : W) res w' e : put_spec d x c w res w' ->
  (clean (content_reader c) -> ordinary e) -> put_spec d x c w (Err e) w'.
Proof. intros [H1 H2 H3 H4 _] He. by split. Qed.

Lemma put_spec_bytes d x v rc (w : W) res w' : put_spec d x (CBytes v) w res w' -> put_spec d x (CStream rc) w res w'.
Proof.
  intros [H1 H2 H3 H4 H5]. split; [done..|]. destruct res as [|e|]; [done| |done]. intros _. apply H5.
  apply bytes_NewReader_spec.
Qed.

(** A registry that says when a manifest has a subject leaves no index to keep. *)
Lemma pushWithIndexing_run cx d rc x (w : W) res w' : remote_inv w -> files (FromOCI d) x ->
  pushWithIndexing cx r d (CStream rc) x w = (res, w') -> put_spec d x (CStream rc) w res w'.
Proof.
  intros Hi Hfiles. unfold pushWithIndexing. destruct (has_subject_type d); [|by apply push_run].
  unfold mbind at 1, M_bind at 1, loadReferrersState at 1, reads at 1. case_decide as Hs; [by apply push_run|].
  pose proof Hi as [_ Hst]. unfold mbind, M_bind, lift, reads.
  destruct (limitSize d (MaxMetadataBytes r)) as [[]|e|] eqn:Hl.
  2, 3: intros [= <- <-]; apply put_spec_same; try done.
  2: unfold limitSize in Hl; case_decide; [by injection Hl as <-|done].
  cbn [content_reader]. destruct (ReadAll rc d) as [v|e|] eqn:Hr.
  2, 3: intros [= <- <-]; apply put_spec_same; try done. 2: intros Hc; by eapply ReadAll_ordinary.
  apply ReadAll_verified in Hr as [Hv _].
  destruct (push cx r d (CBytes v) x w) as [res1 w1] eqn:Hp.
  apply push_run in Hp as Hsp; [|done..]. pose proof (put_spec_bytes d x v rc w res1 w1 Hsp) as Hsp'.
  destruct res1 as [[]|e|]; [|by intros [= <- <-]..].
  cbn. case_decide as Hs1; [by intros [= <- <-]|].
  unfold indexReferrersForPush, mbind, M_bind, lift, reads.
  destruct (referrer_of d v) as [[[subject desc]|]|e|] eqn:Hrf.
  - exfalso. apply Hs1. destruct (ps_res _ _ _ _ _ _ Hsp) as (_ & _ & _ & _ & H). by eapply H.
  - by intros [= <- <-].
  - intros [= <- <-]. eapply put_spec_fails; [done|]. intros _. by eapply decode_err.
  - intros [= <- <-]. destruct Hsp'. by split.
Qed.

(** ** Sending a blob *)

Lemma complete_run cx req resp d rc (w : W) res w' : remote_inv w -> IsManifest d = false ->
  (forall loc u2, Location resp = Ok loc -> url_Parse (url_String (add_port (rq_URL req) loc)) = Some u2 -> session u2) ->
  completePushAfterInitialPost cx r req resp d (CStream rc) w = (res, w') ->
  grows d w w' /\ match res with
    | Ok _ => is_Some (remote_view w' (FromOCI d))
    | Err e => clean rc -> ordinary e
    | Panic => True
    end.
Proof.
  intros Hi Hm Hloc. unfold completePushAfterInitialPost, mbind, M_bind, lift, reads. pose proof Hi as [_ Hst].
  destruct (Location resp) as [loc|e|] eqn:Hl.
  2, 3: intros [= <- <-]; split; [by apply grows_refl|]; try done. 2: intros _; by eapply Location_err.
  specialize (Hloc loc). unfold new_upload, NewRequest.
  destruct (url_Parse (url_String (add_port (rq_URL req) loc))) as [u2|] eqn:Hu; simpl.
  2: intros [= <- <-]; split; [by apply grows_refl|done].
  specialize (Hloc u2 eq_refl eq_refl). set (put := if String.eqb _ EmptyString then _ else _).
  assert (exists h, put = mkRequest PUT (url_SetQuery "digest" (Digest d) u2) h (Some rc) None (Size d) cx) as [h ->].
  { unfold put. destruct (String.eqb _ EmptyString); by eexists. }
  rewrite do_run. set (put' := mkRequest _ _ _ _ _ _ _). destruct (Do put' (rw_net w)) as [res1 n'] eqn:HD. cbn [fst snd].
  assert (match res1 with Ok _ | Panic => True | Err e => clean rc -> ordinary e end) as He.
  { destruct res1 as [r1|e|]; [done| |done]. intros Hc. eapply do_err; [exact HD|]. by intros b' [= <-]. }
  destruct (blob_put u2 (Digest d) h rc None (Size d) (rw_net w) cx res1 n' Hloc HD)
    as [Hv [[Hb Hno]|(Hc & Hsz & Hd & Hb)]].
  - assert (grows d w (set_net n' w)) as Hg by by apply grows_same.
    destruct res1 as [r1|e|]; [rewrite decide_False by auto|..]; intros [= <- <-]; (split; [done|]); try done.
  - assert (grows d w (set_net n' w)) as Hg by by eapply grows_blob.
    destruct res1 as [r1|e|]; [case_decide|..]; intros [= <- <-]; (split; [done|]); try done.
    eexists. apply held_blob; [done| |done]. simpl. rewrite Hb. apply lookup_insert_eq.
Qed.

Lemma blob_push_run cx d rc (w : W) res w' : remote_inv w -> IsManifest d = false ->
  blobStore_Push cx r d (CStream rc) w = (res, w') ->
  grows d w w' /\ match res with
    | Ok _ => is_Some (remote_view w' (FromOCI d))
    | Err e => clean rc -> ordinary e
    | Panic => True
    end.
Proof.
  intros Hi Hm. pose proof Hi as [_ Hst]. unfold blobStore_Push. cbv zeta. set (cx' := AppendRepositoryScope _ _ _).
  unfold mbind, M_bind, lift at 1, reads at 1, NewRequest. destruct (url_Parse _) as [u|] eqn:Hu.
  2: intros [= <- <-]; split; [by apply grows_refl|done].
  cbn. set (req := mkRequest _ _ _ _ _ _ _). rewrite do_run. destruct (Do req (rw_net w)) as [res1 n'] eqn:HD. cbn [fst snd].
  destruct (blob_post u (rw_net w) cx' res1 n' Hu HD) as (Hv & Hb & Hs).
  assert (grows d w (set_net n' w)) as Hg by by apply grows_same.
  assert (match res1 with Ok _ | Panic => True | Err e => ordinary e end) as He.
  { destruct res1 as [r1|e|]; [done| |done]. by eapply do_err; [exact HD|]. }
  destruct res1 as [resp|e|]; [case_decide as Ha|..].
  - intros Hc. apply complete_run in Hc as [Hg' Hr]; [|apply Hg|done|].
    + split; [by eapply grows_trans|done].
    + intros loc u2 Hl Hu2. by eapply Hs.
  - intros [= <- <-]. split; [done|]. intros _. apply Response_ordinary.
  - intros [= <- <-]. by split.
  - intros [= <- <-]. by split.
Qed.

Lemma put_spec_grows d x c (w : W) res w' : put_spec d x c w res w' -> grows d w w'.
Proof.
  intros [H1 H2 H3 _ _]. split; [done|done|]. intros k Hk. destruct (decide (k = FromOCI d)) as [->|Hne]; [by right; left|].
  left. by rewrite <- H2.
Qed.

Lemma isManifest_types d : isManifest (ManifestMediaTypes r) d = IsManifest d.
Proof. by rewrite types. Qed.

Lemma remote_Push_run d rc (w : W) res w' : remote_inv w -> st_Push d rc w = (res, w') ->
  grows d w w' /\ match res with
    | Ok _ => is_Some (remote_view w' (FromOCI d))
    | Err e => clean rc -> ordinary e
    | Panic => True
    end.
Proof.
  intros Hi. simpl. unfold Repository_Push. rewrite isManifest_types. destruct (IsManifest d) eqn:Hm.
  - intros Hp. apply pushWithIndexing_run in Hp; [|done|apply files_digest]. split; [by eapply put_spec_grows|].
    destruct Hp as [_ _ _ _ Hr]. destruct res; [apply Hr|apply Hr|done].
  - intros Hp. by eapply blob_push_run.
Qed.

(** ** Reading *)

Lemma at_ref_parsed s ref : Repository_ParseReference r s = Ok ref -> ref = at_ref (Ref ref) r.
Proof. intros H. apply parsed_of_repo in H as [H1 H2]. destruct ref. unfold at_ref. simpl in *. by rewrite H1, H2. Qed.

Lemma send_read cx m url prep h (w : W) : m = GET \/ m = HEAD ->
  (forall u, prep (mkRequest m u ∅ None None 0 cx) = mkRequest m u h None None 0 cx) ->
  send cx m url prep w =
    (match url_Parse url with
     | Some u => (Do (mkRequest m u h None None 0 cx) (rw_net w)).1
     | None => Err (ENew "parse url")
     end, w).
Proof.
  intros Hm Hp. unfold send, NewRequest, mbind, M_bind, reads. destruct (url_Parse url) as [u|]; [|done]. simpl.
  rewrite Hp, do_run, do_read by done. by rewrite rw_eta.
Qed.

Lemma Resolve_keeps cx ref (w : W) : (manifestStore_Resolve cx r ref w).2 = w.
Proof.
  unfold manifestStore_Resolve. unfold mbind, M_bind, lift, reads. destruct (Repository_ParseReference r ref) as [p|e|]; [|done..].
  cbv zeta. erewrite send_read; [|by right|intros u; unfold Header_Set; cbn; reflexivity]. by destruct (match _ with Some _ => _ | None => _ end).
Qed.

Lemma valid_nonempty d : digest_Validate d = true -> d <> EmptyString.
Proof. intros Hv ->. by apply digest_has_colon in Hv. Qed.

(** Resolving a reference finds the manifest that the registry has for it. *)
Lemma Resolve_found cx ref p d mt c (w : W) : Repository_ParseReference r ref = Ok p -> net_ok (rw_net w) ->
  is_Some (url_Parse (buildRepositoryManifestURL (PlainHTTP r) (at_ref (Ref p) r))) ->
  rv_get (Ref p) (view (rw_net w)) = Some (d, mt, c) ->
  exists desc, (manifestStore_Resolve cx r ref w).1 = Ok desc /\ FromOCI desc = mkKey mt d (Zlen c).
Proof.
  intros Hp [Hn _] [u Hu] Hg. pose proof (at_ref_parsed ref p Hp) as Hat.
  assert (digest_of d c /\ (digest_Validate (Ref p) = true -> Ref p = d)) as [Hd Hx].
  { unfold rv_get, rv_digest in Hg. destruct (digest_Validate (Ref p)); [|destruct (rv_tags _ !! _) as [d0|]; [|done]];
      cbn in Hg; destruct (rv_manifests _ !! _) as [[mt0 c0]|] eqn:E; try done; injection Hg as <- <- <-;
      by apply Hn in E as [? _]. }
  unfold manifestStore_Resolve, mbind, M_bind, lift, reads. rewrite Hp. cbv zeta.
  erewrite send_read; [|by right|intros u'; unfold Header_Set; cbn; reflexivity]. rewrite Hat, Hu.
  set (cx' := AppendRepositoryScope _ _ _).
  pose proof (manifest_read HEAD (Ref p) (rw_net w) u (<["Accept" := manifestAcceptHeader (ManifestMediaTypes r)]> ∅) cx'
    (or_intror eq_refl) Hu) as Hr. rewrite Hg in Hr. destruct Hr as (resp & HD & Hs & Hmt & Hl & Hh & _). rewrite HD.
  rewrite decide_True by done. unfold generateDescriptor. rewrite Hmt, Hl, decide_False by (unfold Zlen; lia).
  rewrite Hh. pose proof (digest_valid _ _ Hd) as Hv.
  rewrite Hv, andb_false_r. unfold contentDigest.
  destruct (String.eqb_spec d EmptyString) as [E|_]; [by apply valid_nonempty in Hv|].
  cbn [mbind outcome_bind]. unfold Reference_Digest. cbn [Ref at_ref].
  destruct (digest_Validate (Ref p)) eqn:Hvx.
  - rewrite (Hx eq_refl), String.eqb_refl, andb_false_r. by eexists.
  - by eexists.
Qed.

Lemma rv_get_digest d c mt dd v : (forall d' mt' c', rv_manifests v !! d' = Some (mt', c') -> digest_of d' c' /\ mt' = kind c') ->
  rv_get d v = Some (dd, mt, c) -> digest_of dd c /\ mt = kind c /\ rv_manifests v !! dd = Some (mt, c).
Proof.
  intros Hm. unfold rv_get. destruct (rv_digest d v) as [d0|]; [|done]. cbn.
  destruct (rv_manifests v !! d0) as [[mt0 c0]|] eqn:E; [|done]. intros [= <- <- <-]. by destruct (Hm _ _ _ E).
Qed.

Lemma digest_reference d : digest_Validate d = true -> Repository_ParseReference r d = Ok (at_ref d r).
Proof.
  intros Hv. destruct (digest_plain d Hv) as [H1 H2]. unfold Repository_ParseReference, ParseReference.
  assert (ValidateReference (at_ref d r) = Ok tt) as Hr.
  { apply ValidateReference_cases. right. left. simpl. split; [by apply valid_nonempty|done]. }
  rewrite (proj2 (cut_None "/" _) H1), (proj2 (cut_None "@" _) H2), Hr. simpl.
  destruct (String.eqb_spec d EmptyString) as [E|]; [by apply valid_nonempty in Hv|done].
Qed.

(** [Exists] is right about truthful descriptors. *)
Lemma Exists_held d (w : W) : remote_inv w -> st_Exists d w = Ok true -> truthful (FromOCI d) ->
  is_Some (remote_view w (FromOCI d)).
Proof.
  intros [[Hm Hb] _] He (c & Hd & Hs & Hk). cbn [FromOCI kDigest kSize kMediaType] in Hd, Hs, Hk.
  pose proof (digest_valid _ _ Hd) as Hval.
  simpl in He. unfold Repository_Exists in He. rewrite isManifest_types in He.
  unfold remote_view, held. rewrite ofKey_FromOCI in *. destruct (IsManifest d).
  - unfold manifestStore_Exists, exists_by in He.
    destruct (manifestStore_Resolve ctx r (Digest d) w) as [[desc|e|] w1] eqn:E; [|by destruct (errors_Is e ErrNotFound)|done].
    unfold manifestStore_Resolve, mbind, M_bind, lift, reads in E. rewrite digest_reference in E by done. cbv zeta in E.
    erewrite send_read in E; [|by right|intros u; unfold Header_Set; cbn; reflexivity].
    destruct (url_Parse _) as [u|] eqn:Hu; [|done]. set (cx := AppendRepositoryScope _ _ _) in E.
    pose proof (manifest_read HEAD (Digest d) (rw_net w) u
      (<["Accept" := manifestAcceptHeader (ManifestMediaTypes r)]> ∅) cx (or_intror eq_refl) Hu) as Hr.
    destruct (rv_get (Digest d) (view (rw_net w))) as [[[dd mt] c0]|] eqn:Hg.
    + pose proof Hg as Hg'. apply rv_get_digest in Hg as (Hdd & Hmt & Hl); [|done].
      assert (dd = Digest d) as ->.
      { revert Hg'. unfold rv_get, rv_digest. rewrite Hval. cbn.
        destruct (rv_manifests (view (rw_net w)) !! Digest d) as [[? ?]|]; [|done]. by intros [= <- _ _]. }
      assert (c0 = c) as -> by (by eapply digest_one).
      cbn [kDigest FromOCI kMediaType kSize]. rewrite Hl, decide_True; [by eexists|].
      split; [|done]. rewrite Hmt. symmetry. by apply Hk.
    + destruct (Do _ (rw_net w)) as [[resp|e|] n'] eqn:HD; cbn [fst] in *; [|done..].
      rewrite decide_False in E by by apply Hr. by case_decide.
  - unfold blobStore_Exists, exists_by in He.
    destruct (blobStore_Resolve ctx r (Digest d) w) as [[desc|e|] w1] eqn:E; [|by destruct (errors_Is e ErrNotFound)|done].
    unfold blobStore_Resolve, mbind, M_bind, lift, reads in E. rewrite digest_reference in E by done.
    destruct (Reference_Digest _) as [rd|e|]; [|done..]. cbv zeta in E.
    erewrite send_read in E; [|by right|intros u; unfold id; reflexivity].
    destruct (url_Parse _) as [u|] eqn:Hu; [|done].
    destruct (Do _ (rw_net w)) as [[resp|e|] n'] eqn:HD; cbn [fst] in *; [|done..].
    case_decide as Hst; [|by case_decide].
    destruct (blob_head (Digest d) (rw_net w) u _ _ resp Hu ltac:(by rewrite HD) Hst) as [c0 Hc0].
    apply Hb in Hc0 as Hc1. rewrite (digest_one _ _ _ Hc1 Hd) in Hc0. cbn [kDigest FromOCI kSize]. rewrite Hc0.
    rewrite decide_True by done. by eexists.
Qed.

Lemma remote_DestLaws : DestLaws W remote_inv remote_view truthful.
Proof.
  split.
  - intros d rc w Hi. destruct (st_Push d rc w) as [res w'] eqn:E. apply remote_Push_run in E as [Hg _]; [|done]. apply Hg.
  - intros d rc w k c Hi. destruct (st_Push d rc w) as [res w'] eqn:E. apply remote_Push_run in E as [Hg _]; [|done]. apply Hg.
  - intros d rc w k Hi. destruct (st_Push d rc w) as [res w'] eqn:E. apply remote_Push_run in E as [Hg _]; [|done]. apply Hg.
  - intros d rc w w' Hi E. by apply remote_Push_run in E as [_ Hr].
  - intros d rc w e w' Hi Hc E He. apply remote_Push_run in E as [_ Hr]; [|done]. destruct (Hr Hc). congruence.
  - intros d w Hi. by apply Exists_held.
Qed.

(** ** References *)

Lemma put_resolves d ref p c (w w' : W) : Repository_ParseReference r ref = Ok p ->
  put_spec d (Ref p) c w (Ok tt) w' -> exists d', tg_Resolve ref w' = Ok d' /\ FromOCI d' = FromOCI d.
Proof.
  intros Hp [[Hn _] _ _ _ ([c' Hst] & Hx & Hu & Hm & _)].
  unfold remote_view, held in Hst. rewrite ofKey_FromOCI, Hm in Hst. cbn [kDigest FromOCI kMediaType kSize] in Hst.
  destruct (rv_manifests (view (rw_net w')) !! Digest d) as [[mt c0]|] eqn:E; [|done].
  case_decide as Hk; [|done]. destruct Hk as [-> Hs]. injection Hst as ->.
  destruct (Resolve_found ctx ref p (Digest d) (MediaType d) c' w' Hp Hn Hu) as (desc & Hr & Hk).
  { unfold rv_get. rewrite Hx. cbn. by rewrite E. }
  exists desc. split; [exact Hr|]. rewrite Hk, Hs. done.
Qed.

Lemma Fetch_held cx d rc (w w1 : W) : remote_inv w -> manifestStore_Fetch cx r d w = (Ok rc, w1) ->
  w1 = w /\ (IsManifest d = true -> is_Some (remote_view w (FromOCI d))).
Proof.
  intros [[Hm _] _]. unfold manifestStore_Fetch, mbind, M_bind, lift, reads. cbv zeta.
  erewrite send_read; [|by left|intros u; unfold Header_Set; cbn; reflexivity].
  destruct (url_Parse _) as [u|] eqn:Hu; [|done]. set (cx' := AppendRepositoryScope _ _ _).
  pose proof (manifest_read GET (Digest d) (rw_net w) u (<["Accept" := MediaType d]> ∅) cx' (or_introl eq_refl) Hu) as Hr.
  destruct (rv_get (Digest d) (view (rw_net w))) as [[[dd mt] c]|] eqn:Hg.
  - destruct Hr as (resp & -> & Hs & Hmt & Hl & Hh & Hb). rewrite decide_True, Hmt, Hl by done.
    destruct (String.eqb_spec mt (MediaType d)) as [->|]; [|done]. cbn [negb].
    rewrite bool_decide_eq_false_2 by (unfold Zlen; lia). case_bool_decide as Hsz; [|done]. cbn [negb andb].
    apply rv_get_digest in Hg as (Hdd & Hk & Hl'); [|done].
    unfold verifyContentDigest. rewrite Hh.
    destruct (String.eqb_spec dd EmptyString) as [E|_]; [by apply digest_valid, valid_nonempty in Hdd|].
    destruct (negb (digest_Validate dd)); [done|]. destruct (String.eqb_spec dd (Digest d)) as [E|]; [|done]. cbn.
    intros [= _ <-]. split; [done|]. intros Hi. unfold remote_view, held. rewrite ofKey_FromOCI, Hi.
    cbn [kDigest FromOCI kMediaType kSize]. rewrite <- E, Hl', decide_True by done. by eexists.
  - destruct (Do _ (rw_net w)) as [[resp|e|] n'] eqn:HD; cbn [fst] in *; [|done..].
    rewrite decide_False by by apply Hr. by case_decide.
Qed.

Lemma Fetch_keeps cx d (w : W) : (manifestStore_Fetch cx r d w).2 = w.
Proof.
  unfold manifestStore_Fetch, mbind, M_bind, lift, reads. cbv zeta.
  erewrite send_read; [|by left|intros u; unfold Header_Set; cbn; reflexivity].
  by destruct (match _ with Some _ => _ | None => _ end).
Qed.

Lemma Tag_run d ref (w : W) res w' : remote_inv w -> names (FromOCI d) ref -> tg_Tag d ref w = (res, w') ->
  remote_inv w' /\ (forall k, remote_view w' k = remote_view w k)
  /\ (res = Ok tt -> exists d', tg_Resolve ref w' = Ok d' /\ FromOCI d' = FromOCI d).
Proof.
  intros Hi Hnames. cbn [tg_Tag repo_Target remote_Target]. unfold Repository_Tag, Remote.Tag, mbind, M_bind, lift, reads.
  destruct (Repository_ParseReference r ref) as [p|e|] eqn:Hp; [|by intros [= <- <-]..].
  cbv zeta. set (cx := AppendRepositoryScope _ _ _). pose proof (Fetch_keeps cx d w) as Hk.
  destruct (manifestStore_Fetch cx r d w) as [[rc|e|] w1] eqn:HF; simpl in Hk; subst w1; [|by intros [= <- <-]..].
  apply Fetch_held in HF as [_ Hst]; [|done]. intros HP. apply push_run in HP as Hps; [|done|done|by apply Hnames].
  pose proof Hps as [H1 H2 H3 H4 _]. split; [done|]. split; [|intros ->; by eapply put_resolves].
  intros k. destruct (IsManifest d) eqn:Hm; [|by apply H4].
  destruct (decide (k = FromOCI d)) as [->|Hne]; [|by apply H2].
  destruct (Hst eq_refl) as [c Hc]. rewrite Hc. by apply H3.
Qed.

Lemma PushReference_run d rc ref (w : W) res w' : remote_inv w -> names (FromOCI d) ref ->
  Repository_PushReference ctx r d (CStream rc) ref w = (res, w') ->
  grows d w w' /\ match res with
    | Ok _ => is_Some (remote_view w' (FromOCI d)) /\ exists d', tg_Resolve ref w' = Ok d' /\ FromOCI d' = FromOCI d
    | Err e => clean rc -> ordinary e
    | Panic => True
    end.
Proof.
  intros Hi Hnames. unfold Repository_PushReference, Remote.PushReference, mbind, M_bind, lift, reads.
  destruct (Repository_ParseReference r ref) as [p|e|] eqn:Hp.
  - intros HP. apply pushWithIndexing_run in HP as Hps; [|done|by apply Hnames]. split; [by eapply put_spec_grows|].
    pose proof Hps as [_ _ _ _ Hr]. destruct res as [[]|e|]; [|exact Hr|done]. split; [apply Hr|by eapply put_resolves].
  - intros [= <- <-]. split; [by apply grows_refl|]. intros _. by eapply parse_ordinary.
  - intros [= <- <-]. split; [by apply grows_refl|done].
Qed.

Lemma begin_mount_run d from (w : W) : remote_inv w -> IsManifest d = false ->
  match begin_mount ctx r d from w with
  | inl (res, w') => grows d w w' /\ match res with
      | Ok _ => truthful (FromOCI d) -> is_Some (remote_view w' (FromOCI d))
      | Err e => ordinary e
      | Panic => True
      end
  | inr (w1, k) => remote_inv w1 /\ (forall k', remote_view w1 k' = remote_view w k')
      /\ forall content w2 res w', remote_inv w2 -> k content w2 = (res, w') ->
         grows d w2 w' /\ match res with
           | Ok _ => is_Some (remote_view w' (FromOCI d))
           | Err e => match content with Ok rc => clean rc -> ordinary e | Err e' => e = EWrap "cannot read source blob" e' | Panic => False end
           | Panic => True
           end
  end.
Proof.
  intros Hi Hm. unfold begin_mount. cbv zeta. set (cx := AppendRepositoryScope _ _ _). pose proof Hi as [_ Hst].
  unfold NewRequest. destruct (url_Parse _) as [u|] eqn:Hu; [|by split; [apply grows_refl|]]. cbn.
  set (req := mkRequest _ _ _ _ _ _ _). rewrite do_run. destruct (Do req (rw_net w)) as [res n'] eqn:HD. cbn [fst snd].
  destruct (blob_mount (Digest d) from u (rw_net w) cx res n' Hu HD) as (Hv & Hb & Hr).
  assert (grows d w (set_net n' w)) as Hg.
  { destruct Hb as [Hb|(c & Hd & Hb)]; [by apply grows_same|by eapply grows_blob]. }
  destruct res as [resp|e|]; [|split; [done|by eapply do_err; [exact HD|]]|by split].
  destruct (Hr resp eq_refl) as [Hcr Hac]. case_decide as Hc.
  - split; [done|]. destruct (verifyContentDigest resp (Digest d)) as [[]|e|] eqn:He; [|by eapply verifyContentDigest_err|done].
    intros (c & Hd & Hs & _). destruct (Hcr Hc) as [c0 Hc0]. cbn [FromOCI kDigest kSize] in Hd, Hs.
    pose proof (gr_inv _ _ _ Hg) as [[_ Hb'] _]. apply Hb' in Hc0 as Hc1. rewrite (digest_one _ _ _ Hc1 Hd) in Hc0.
    eexists. by apply held_blob.
  - case_decide as Ha; [|by split; [|apply Response_ordinary]]. destruct (Hac Ha) as [Hb' Hloc].
    split; [apply Hg|]. split; [intros k'; by apply held_same|].
    intros content w2 res w' Hi2. unfold mbind, M_bind, on_err, lift, reads.
    destruct content as [rc|e|]; cbn.
    + intros Hcp. by eapply complete_run in Hcp.
    + intros [= <- <-]. split; [by apply grows_refl|done].
    + intros [= <- <-]. split; [by apply grows_refl|done].
Qed.

Lemma remote_TargetLaws : TargetLaws W remote_inv remote_view truthful names.
Proof.
  split; cbn [tg_PushReference tg_Mount repo_Target remote_Target].
  - intros d ref w Hnm Hi. destruct (tg_Tag d ref w) as [res w'] eqn:E. by apply Tag_run in E as (H1 & H2 & _).
  - intros d ref w w' Hnm Hi E. apply Tag_run in E as (_ & _ & H); auto.
  - intros pr d rc ref w [= <-] Hnm Hi. destruct (Repository_PushReference ctx r d (CStream rc) ref w) as [res w'] eqn:E.
    apply PushReference_run in E as [[H1 H2 H3] _]; done.
  - intros pr d rc ref w e w' [= <-] Hnm Hi Hc E. apply PushReference_run in E as [_ H]; [|done..]. by apply H.
  - intros pr d rc ref w res w' [= <-] Hnm Hi E Hr. apply PushReference_run in E as [_ H]; [|done..].
    destruct res as [|e|]; [done| |done]. destruct Hr as [Hc He]. destruct (H Hc). congruence.
  - intros mt d from w [= <-] Hm Hi. pose proof (begin_mount_run d from w Hi Hm) as H.
    destruct (begin_mount ctx r d from w) as [[res w']|[w1 k]].
    + destruct H as [[H1 H2 H3] H4]. split; [done|]. split; [done|]. split; [done|]. destruct res; [done|apply H4|done].
    + destruct H as (H1 & H2 & H3). split; [done|]. split; [done|]. intros content w2 Hi2.
      destruct (k content w2) as [res w'] eqn:E. destruct (H3 content w2 res w' Hi2 E) as [[G1 G2 G3] G4].
      split; [done|]. split; [done|]. split; [done|]. destruct res as [|e|]; [done| |done].
      intros He Hc. destruct content as [rc|e'|]; [|by exists e'; subst e|done]. destruct (G4 (Hc rc eq_refl)). congruence.
Qed.
End target.
