(* ===== verification/RemoteCopy.v ===== *)
(** Copying into a remote repository: [oras.Copy] with the destination of
    [RemoteTarget], and a registry to try it on. *)

From Stdlib Require Import Ascii String ZArith Lia.
From S2P Require Import Prelude Errors Descriptor Reader Manifest Storage Proxy Graph Resolver MemoryStore Sched.
From S2P Require Import Copy CopyCorrect CopyExample ExtendedCopy.
From S2P Require Import GoStrings Reference Referrers Scope Http Challenge Remote RemoteCorrect RemoteReferrers RemoteTarget.
Import registry.

#[local] Open Scope string_scope.

(** The registry has the content [c] of the node [k]: a manifest with its media
    type, or a blob. *)
Definition registry_has `{GoDigest} {N} (view : N -> regview) (blobs : N -> gmap string bytes) (n : N)
    (k : Descriptor) (c : bytes) : Prop :=
  digest_of (kDigest k) c /\ kSize k = Zlen c /\
  if IsManifest (ofKey k) then rv_manifests (view n) !! kDigest k = Some (kMediaType k, c)
  else blobs n !! kDigest k = Some c.

Section copy.
Context {GD : GoDigest} {GL : GoDigestLaws GD} {MJ : ManifestJSON} {RJ : RegistryJSON} {NU : NetURL} {MO : MapOrder}.
Context {N V : Type} {CL : Client N} (ctx : Context_) (r : Repo).
Context (view : N -> regview) (blobs : N -> gmap string bytes) (session : URL -> Prop) (kind : bytes -> string).
Context {RL : RepositoryLaws r view blobs session kind}.
Context {S U : Type} `{SS : Storage S} {SR : Source S}.
Context (inv_s : S -> Prop) (view_s : S -> Descriptor -> option bytes) `{SSL : !StorageLaws S inv_s view_s}.
Context (Hskip : forall d (s : S) e, st_Fetch d s = Err e -> errors_Is e skipSource = false).
Notation W := (rworld N V).

Hypothesis digest_one : forall d c c', digest_of d c -> digest_of d c' -> c = c'.
Hypothesis digest_valid : forall d c, digest_of d c -> digest_Validate d = true.
Hypothesis digest_plain : forall d, digest_Validate d = true -> has_char "/" d = false /\ has_char "@" d = false.
Hypothesis decode_err : forall d c e, referrer_of d c = Err e -> ordinary e.
Hypothesis auth : authClient r = true.
Hypothesis types : ManifestMediaTypes r = [].

#[local] Instance dst_Storage : Storage W := remote_Storage ctx r.
#[local] Instance dst_Target : Target W := remote_Target ctx r.
#[local] Instance dst_DestLaws : DestLaws W (remote_inv view blobs kind) (remote_view view blobs) (truthful kind).
Proof. by eapply remote_DestLaws. Qed.
#[local] Instance dst_TargetLaws : TargetLaws W (remote_inv view blobs kind) (remote_view view blobs) (truthful kind) (names r).
Proof. by eapply remote_TargetLaws. Qed.

Lemma one_content d c c' : verified d c -> verified d c' -> c = c'.
Proof. intros [_ Hc] [_ Hc']. by eapply digest_one. Qed.

Lemma held_registry_has n k c : net_ok view blobs kind n -> held view blobs n k = Some c <-> registry_has view blobs n k c.
Proof.
  intros [Hm Hb]. unfold held, registry_has. destruct (IsManifest (ofKey k)).
  - destruct (rv_manifests (view n) !! kDigest k) as [[mt c0]|] eqn:E; [|by split; [|intros (_ & _ & ?)]].
    apply Hm in E as [E _]. case_decide as Hk; split.
    + intros [= <-]. destruct Hk as [-> ->]. done.
    + intros (_ & _ & [= _ ->]). done.
    + done.
    + intros (_ & Hs & [= -> ->]). by destruct Hk.
  - destruct (blobs n !! kDigest k) as [c0|] eqn:E; [|by split; [|intros (_ & _ & ?)]].
    apply Hb in E as E'. case_decide as Hk; split.
    + by intros [= <-].
    + by intros (_ & _ & [= ->]).
    + done.
    + by intros (_ & Hs & [= ->]).
Qed.

(** C3: copying into a remote repository.  Against a registry with the referrers
    API, whose capability may be known or not, through an auth client and with the
    default manifest media types, a [Copy] that returns a descriptor has stored
    there every node reachable from it through nodes that the registry did not have
    - every reachable node when the registry had the successors of what it had -
    each manifest with its media type, each blob, under its digest and with exactly
    the content of the digest, whatever the algorithm; the reference resolves to the
    root, and nothing that the registry had is lost.  Blobs may have been mounted
    from other repositories, and the root is pushed by reference.  The descriptors of
    the graph tell the size and the media type of their content, since the client
    asks for existence by the digest alone; the root has the canonical digest, under
    which a registry files what is pushed to a tag, and the reference is a tag or the
    digest of the root; [FindSuccessors] is the default, the user's callbacks
    leave the destination, the proxy and the tracker alone, and [PreCopy] skips no
    node. *)
Theorem Copy_to_registry fuel (src : S) srcRef (w0 : W) dstRef (opts : @CopyOptions S W U) (u : U) root w'
    (Hsrc : inv_s src) (Hdst : remote_inv view blobs kind w0)
    (Huser : user_ok (remote_view view blobs) (co_graph opts)) (Hmap : forall h, MapRoot opts = Some h -> map_ok h)
    (Hnoskip : forall h d w w', PreCopy (co_graph opts) = Some h -> h d w <> (Err (ESentinel SkipNode), w'))
    (Hnomount : IsManifest root = true \/ MountFrom (co_graph opts) = None)
    (Htruth : forall k, rtc link (FromOCI root) k -> truthful kind k)
    (Hcanonical : forall c, digest_of (Digest root) c -> Digest root = digest_FromBytes c)
    (Href : forall p, Repository_ParseReference r (if decide (dstRef = EmptyString) then srcRef else dstRef) = Ok p ->
      digest_Validate (Ref p) = true -> Ref p = Digest root)
    (Hcopy : Copy fuel (Some src) srcRef (Some w0) dstRef opts u = Some (Ok root, Some w')) :
  (forall k, rtc (missing_link (remote_view view blobs) w0) (FromOCI root) k ->
     exists c, registry_has view blobs (rw_net (w_dst w')) k c)
  /\ ((forall a b c, registry_has view blobs (rw_net w0) a c -> link a b -> truthful kind b ->
         exists c', registry_has view blobs (rw_net w0) b c') ->
      forall k, rtc link (FromOCI root) k -> exists c, registry_has view blobs (rw_net (w_dst w')) k c)
  /\ (exists d, (Repository_Resolve ctx r (if decide (dstRef = EmptyString) then srcRef else dstRef) (w_dst w')).1 = Ok d
        /\ FromOCI d = FromOCI root)
  /\ (forall k c, registry_has view blobs (rw_net w0) k c -> registry_has view blobs (rw_net (w_dst w')) k c).
Proof.
  pose proof Hdst as [Hn0 _].
  assert (Hnames : names r (FromOCI root) (if decide (dstRef = EmptyString) then srcRef else dstRef)).
  { intros p Hp c Hc. unfold filed_under. cbn [FromOCI kDigest] in *.
    destruct (digest_Validate (Ref p)) eqn:Hv; [by apply Href|]. symmetry. by apply Hcanonical. }
  destruct (Copy_spec (remote_inv view blobs kind) (remote_view view blobs) (truthful kind) (names r) inv_s view_s Hskip one_content
    fuel src srcRef w0 dstRef opts u root w') as (Hmiss & Hst & Htag & Hkeep & Hinv); try done.
  destruct Hinv as [Hn' _].
  assert (Hhas : forall k, is_Some (remote_view view blobs (w_dst w') k) ->
    exists c, registry_has view blobs (rw_net (w_dst w')) k c).
  { intros k [c Hc]. exists c. by apply held_registry_has in Hc. }
  split_and!; [auto| |exact Htag|].
  - intros Hclosed k Hk. apply Hhas, Hst; [|done]. intros a b [c Ha] Hl _ Hb. apply held_registry_has in Ha; [|done].
    destruct (Hclosed a b c Ha Hl Hb) as [c' Hc']. exists c'. by apply held_registry_has.
  - intros k c Hk. apply held_registry_has; [done|]. apply Hkeep. by apply held_registry_has.
Qed.
End copy.

(** ** A registry, and the example graph copied into it *)
Module remote_example.
Import HexDigest example.

#[export] Instance text : NetURL := {|
  URL := string;
  url_Parse s := Some s;
  url_Ref _ s := Some s;
  url_String u := u;
  url_Scheme _ := "https";
  url_Hostname _ := "localhost";
  url_Port _ := "5000";
  url_SetHost _ u := u;
  url_SetQuery k v u := u +:+ "?" +:+ k +:+ "=" +:+ v;
  ParseMediaType s := Some s
|}.

#[export] Instance no_messages : RegistryJSON := {|
  Decode_Index _ := Err (ENew "json");
  Decode_Tags _ := Err (ENew "json");
  Decode_Repositories _ := Err (ENew "json");
  Decode_ErrorCodes _ := None
|}.

Definition repo : Repo := mkRepo (mkReference "localhost:5000" "app" EmptyString) false [] 0 0 0 false true.
Definition manifests_base : string := "https://localhost:5000/v2/app/manifests/".
Definition blobs_base : string := "https://localhost:5000/v2/app/blobs/".
Definition upload : string := "https://localhost:5000/upload".
Definition location : string -> Prop := fun u => u = upload.

(** Every manifest is an index. *)
Definition kind : bytes -> string := fun _ => MediaTypeImageIndex.

Notation net := (regview * gmap string bytes)%type.

Definition reply (status : Z) (h : list (string * string)) (body : bytes) (req : Request) : result Response :=
  Ok (mkResponse status (list_to_map h) [] (Zlen body) (bytes_NewReader body) req).

Definition digest_matches (d : string) (c : bytes) : bool :=
  match digest_Verifier d with Some v => v c | None => false end.

Lemma digest_matches_of d c : digest_matches d c = true -> digest_of d c.
Proof. unfold digest_matches. destruct (digest_Verifier d) as [v|] eqn:E; [|done]. intros Hc. by exists v. Qed.

Definition serve_manifest (x : string) (req : Request) (n : net) : result Response * net :=
  match rq_Method req, rq_Body req with
  | PUT, Some b =>
      let c := content b in
      if decide (clean b /\ Zlen c = rq_ContentLength req /\ rq_Header req !! "Content-Type" = Some MediaTypeImageIndex
                 /\ (digest_Validate x = true -> digest_matches x c = true))
      then (reply 201 [(headerDockerContentDigest, filed_under x c)] [] req, (rv_file x MediaTypeImageIndex c n.1, n.2))
      else (reply 400 [] [] req, n)
  | PUT, None | POST, _ | DELETE, _ => (reply 405 [] [] req, n)
  | _, _ =>
      match rv_get x n.1 with
      | Some (d, mt, c) => (reply 200 [("Content-Type", mt); (headerDockerContentDigest, d)] c req, n)
      | None => (reply 404 [] [] req, n)
      end
  end.

Definition serve_blob (req : Request) (n : net) : result Response * net :=
  match rq_Method req, rq_Body req with
  | PUT, Some b =>
      let c := content b in
      match strip (upload +:+ "?digest=") (rq_URL req) with
      | Some d =>
          if decide (clean b /\ Zlen c = rq_ContentLength req /\ digest_matches d c = true)
          then (reply 201 [] [] req, (n.1, <[d := c]> n.2)) else (reply 400 [] [] req, n)
      | None => (reply 404 [] [] req, n)
      end
  | POST, _ => (reply 202 [("Location", upload)] [] req, n)
  | PUT, None | DELETE, _ => (reply 405 [] [] req, n)
  | _, _ =>
      match strip blobs_base (rq_URL req) ≫= (n.2 !!.) with
      | Some c => (reply 200 [] c req, n)
      | None => (reply 404 [] [] req, n)
      end
  end.

Definition serve (req : Request) (n : net) : result Response * net :=
  match strip manifests_base (rq_URL req) with
  | Some x => serve_manifest x req n
  | None => serve_blob req n
  end.

#[export] Instance server : Client net := {| Do := serve |}.

Lemma serve_at_manifest x (req : Request) n : rq_URL req = manifests_base +:+ x -> serve req n = serve_manifest x req n.
Proof. intros Hu. unfold serve. by rewrite Hu, strip_app. Qed.

(** No manifest of the example has a subject. *)
Lemma no_subject d c s : referrer_of d c <> Ok (Some s).
Proof.
  unfold referrer_of. destruct (String.eqb _ _); [done|]. destruct (String.eqb _ _); [done|].
  destruct (String.eqb _ _); [|done]. simpl. by case_decide.
Qed.

#[export] Instance server_laws : RepositoryLaws repo fst snd location kind.
Proof.
  split; cbn [url_Parse text Do server].
  - intros req n e n' H _. unfold serve, serve_manifest, serve_blob, reply in H. by repeat case_match.
  - intros m u h ctx n Hm. unfold serve, serve_manifest, serve_blob. cbn [rq_URL rq_Method rq_Body].
    destruct Hm as [-> | ->]; by repeat case_match.
  - intros m x n u h ctx Hm [= <-]. rewrite (serve_at_manifest x) by done. unfold serve_manifest. cbn [rq_URL rq_Method rq_Body].
    destruct (rv_get x n.1) as [[[d mt] c]|].
    + destruct (bytes_NewReader_spec c) as [Hc Hcont].
      destruct Hm as [-> | ->]; eexists; (split; [reflexivity|]); split_and!; done.
    + destruct Hm as [-> | ->]; intros resp [= <-]; done.
  - intros d n u h ctx resp [= <-] H Hs. change (buildRepositoryBlobURL _ _) with (blobs_base +:+ d) in H.
    unfold serve, serve_blob in H. cbn [rq_URL rq_Method rq_Body] in H.
    change (strip manifests_base (blobs_base +:+ d)) with (None (A := string)) in H. cbv iota in H.
    rewrite strip_app in H. cbn [mbind option_bind] in H. destruct (n.2 !! d); [done|]. by injection H as <-.
  - intros x n u h b g len mt ctx res n' [= <-] Hmt. rewrite (serve_at_manifest x) by done. unfold serve_manifest.
    cbn [rq_URL rq_Method rq_Body rq_ContentLength rq_Header]. rewrite Hmt. case_decide as Hd.
    + destruct Hd as (H1 & H2 & [= ->] & H4). intros [= <- <-]. split; [done|]. right. split_and!; try done.
      2:{ intros Hv. by apply digest_matches_of, H4. }
      * intros d Hd. unfold IsManifest. by rewrite Hd.
      * intros resp d s _ _ Hr. by apply no_subject in Hr.
    + intros [= <- <-]. split; [done|]. left. split; [done|]. by intros resp [= <-].
  - intros u n ctx res n' [= <-] [= <- <-]. split; [done|]. split; [done|]. intros resp loc u2 [= <-] _ [= <-] [= <-]. done.
  - intros d from u n ctx res n' [= <-] [= <- <-]. split; [done|]. split; [by left|]. intros resp [= <-]. split; [done|].
    intros _. split; [done|]. by intros loc u2 [= <-] [= <-].
  - intros u d h b g len n ctx res n' -> H.
    unfold serve, serve_blob in H. cbn [rq_URL rq_Method rq_Body rq_ContentLength] in H.
    change (@url_SetQuery text "digest" d upload) with ((upload +:+ "?digest=") +:+ d) in H.
    change (strip manifests_base ((upload +:+ "?digest=") +:+ d)) with (None (A := string)) in H. cbv iota in H.
    rewrite strip_app in H. case_decide as Hd; injection H as <- <-; (split; [done|]).
    + right. destruct Hd as (? & ? & Hd). split_and!; try done. by apply digest_matches_of.
    + left. split; [done|]. by intros resp [= <-].
Qed.

Lemma hex_one d c c' : digest_of d c -> digest_of d c' -> c = c'.
Proof. intros (v & Hv & Hc) (v' & Hv' & Hc'). exact (verifier_one _ _ _ _ _ Hv Hc Hv' Hc'). Qed.

Lemma hex_valid d c : digest_of d c -> digest_Validate d = true.
Proof. intros (v & Hv & Hc). exact (verifier_valid _ _ _ Hv Hc). Qed.

Lemma hex_plain d : digest_Validate d = true -> has_char "/" d = false /\ has_char "@" d = false.
Proof.
  cbn [digest_Validate hex_digest]. unfold validate. destruct (parts d) as [[a e]|] eqn:E; [|done].
  apply parts_Some in E as [Ha ->]. intros He. rewrite !has_char_app.
  assert (has_char "/" e = false /\ has_char "@" e = false) as [-> ->]; [|by destruct Ha as [-> | ->]].
  unfold has_char. clear Ha. induction e as [|x e IH]; [done|]. simpl in He |- *.
  apply andb_true_iff in He as [Hx He]. destruct (IH He) as [-> ->]. by destruct x as [[] [] [] [] [] [] [] []].
Qed.

Lemma root_canonical c : digest_of (Digest root) c -> Digest root = digest_FromBytes c.
Proof.
  intros (v & Hv & Hc). destruct (verifier_hex _ v c Hv Hc) as (a & e & Hp & Hd). by injection Hp as <- <-.
Qed.

Lemma example_decode_err d c e : referrer_of d c = Err e -> ordinary e.
Proof.
  unfold referrer_of. destruct (String.eqb _ _); [by intros [= <-]|]. destruct (String.eqb _ _); [by intros [= <-]|].
  destruct (String.eqb _ _); [|done]. simpl. case_decide; [done|by intros [= <-]].
Qed.

(** What is below the index. *)
Lemma root_link b : link (FromOCI root) b -> b = FromOCI (blob "a") \/ b = FromOCI (blob "b").
Proof.
  intros (d & c & l & s & Hk & _ & Hv & Hs & Hin & <-).
  assert (c = str_bytes "index") as ->.
  { eapply (hex_collision_free root); [by eapply verified_key|]. split; [done|]. eexists. split; [reflexivity|]. vm_compute. reflexivity. }
  rewrite (successors_of_key d root) in Hs by done. injection Hs as <-. rewrite removeForeignLayers_spec in Hin.
  simpl in Hin. rewrite !elem_of_cons, elem_of_nil in Hin. destruct Hin as [->|[->|[]]]; auto.
Qed.

Lemma blob_link x b : ~ link (FromOCI (blob x)) b.
Proof.
  intros (d & c & l & s & Hk & Hm & _). rewrite (IsManifest_key d (blob x)) in Hm by done. discriminate Hm.
Qed.

Lemma example_truth k : rtc link (FromOCI root) k -> truthful kind k.
Proof.
  assert (forall x, rtc link (FromOCI (blob x)) k -> k = FromOCI (blob x)) as Hb.
  { intros x H. inversion H as [|? ? ? Hl]; [done|]. by apply blob_link in Hl. }
  intros H. inversion H as [|? y ? Hl Hr]; subst.
  - exists (str_bytes "index"). split_and!; [by apply digest_matches_of; vm_compute|done|done].
  - apply root_link in Hl as [->| ->]; apply Hb in Hr as ->; [exists (str_bytes "a")|exists (str_bytes "b")];
      (split_and!; [by apply digest_matches_of; vm_compute|done|done]).
Qed.

Notation D := (rworld net unit).
#[local] Instance ex_Storage : Storage D := remote_Storage Background repo.
#[local] Instance ex_Target : Target D := remote_Target Background repo.

Definition remote_opts : @CopyOptions memory.Store D unit := mkCopyOpts DefaultCopyGraphOptions None.
Definition empty_registry : D := mkRW referrersStateUnknown (mkView ∅ ∅, ∅) tt.

Lemma remote_copy_run : exists w', Copy 2 (Some source) "v1" (Some empty_registry) "v2" remote_opts tt = Some (Ok root, Some w').
Proof.
  assert (H : match Copy 2 (Some source) "v1" (Some empty_registry) "v2" remote_opts tt with
              | Some (Ok d, Some _) => bool_decide (d = root)
              | _ => false
              end = true) by (vm_compute; reflexivity).
  destruct (Copy _ _ _ _ _ _ _) as [[[d|e|] [w'|]]|]; try discriminate H.
  apply bool_decide_eq_true in H as ->. eauto.
Qed.

Lemma Copy_to_registry_witness : exists w' c,
  Copy 2 (Some source) "v1" (Some empty_registry) "v2" remote_opts tt = Some (Ok root, Some w')
  /\ registry_has fst snd (rw_net (w_dst w')) (FromOCI root) c.
Proof.
  destruct remote_copy_run as [w' Hrun]. exists w'.
  destruct (Copy_to_registry (GD := hex_digest) (NU := text) Background repo fst snd location kind memory.wf memory.view
    memory_Fetch_no_skip hex_one hex_valid hex_plain example_decode_err eq_refl eq_refl
    2 source "v1" empty_registry "v2" remote_opts tt root w') as (_ & H & _ & _).
  - exact source_wf.
  - split; [|discriminate]. split; [intros d mt c Hm|intros d c Hm]; discriminate Hm.
  - split; try (intros h Hh; discriminate Hh); try (intros h d w w1 Hh; discriminate Hh); try reflexivity; intros h d w e w1 Hh; discriminate Hh.
  - intros h Hh. discriminate Hh.
  - intros h d w w1 Hh. discriminate Hh.
  - left. reflexivity.
  - exact example_truth.
  - exact root_canonical.
  - intros p Hp. assert (Ref p = "v2") as -> by (vm_compute in Hp; by injection Hp as <-). discriminate.
  - exact Hrun.
  - destruct (H (fun a b c Ha => ltac:(destruct Ha as (_ & _ & Ha); destruct (IsManifest (ofKey a)); discriminate Ha))
      (FromOCI root)) as [c Hc]; [constructor|]. exists c. split; [exact Hrun|exact Hc].
Defined.
End remote_example.
