(* ===== verification/RemoteBlobs.v ===== *)
(** Blobs of a remote repository: the two requests of an upload against a registry
    that follows the distribution specification, and what is read afterwards. *)

From Stdlib Require Import Ascii String ZArith Lia.
From S2P Require Import Prelude Errors Descriptor Reader Manifest Storage.
From S2P Require Import GoStrings Reference Scope Http Challenge Remote RemoteCorrect RemoteReferrers.
Import registry.

#[local] Open Scope string_scope.

(** The blob endpoints of a conforming registry, for one repository: [blobs n] are the
    blobs by digest. *)
Class BlobLaws {GD : GoDigest} {NU : NetURL} {N : Type} {CL : Client N} (r : Repo)
    (blobs : N -> gmap string bytes) := {
  blob_url : forall d, digest_Validate d = true ->
    is_Some (url_Parse (buildRepositoryBlobURL (PlainHTTP r) (at_ref d r)));
  upload_url : is_Some (url_Parse (buildRepositoryBlobUploadURL (PlainHTTP r) (rp_Reference r)));
  (* the content, or its length, with the digest or without *)
  blob_read : forall m d n u ctx, m = GET \/ m = HEAD ->
    url_Parse (buildRepositoryBlobURL (PlainHTTP r) (at_ref d r)) = Some u ->
    exists resp, Do (mkRequest m u ∅ None None 0 ctx) n = (Ok resp, n) /\
      match blobs n !! d with
      | Some c =>
          StatusCode resp = StatusOK /\ ContentLength resp = Zlen c
          /\ (Header_Get headerDockerContentDigest (rs_Header resp) = EmptyString
              \/ Header_Get headerDockerContentDigest (rs_Header resp) = d)
          /\ (m = GET -> clean (Body resp) /\ content (Body resp) = c)
      | None => StatusCode resp = StatusNotFound
      end;
  (* an upload is started, and ended at the location that was named *)
  blob_upload : forall n u ctx,
    url_Parse (buildRepositoryBlobUploadURL (PlainHTTP r) (rp_Reference r)) = Some u ->
    exists resp location u2 n', Do (mkRequest POST u ∅ None None 0 ctx) n = (Ok resp, n')
      /\ StatusCode resp = StatusAccepted /\ Location resp = Ok location
      /\ url_Parse (url_String (add_port u location)) = Some u2 /\ blobs n' = blobs n
      /\ forall d h b g ctx2, clean b -> d = digest_FromBytes (content b) ->
           exists resp2 n2,
             Do (mkRequest PUT (url_SetQuery "digest" d u2) h (Some b) g (Zlen (content b)) ctx2) n' = (Ok resp2, n2)
             /\ StatusCode resp2 = StatusCreated /\ blobs n2 = <[d := content b]> (blobs n')
}.

Section blobs.
Context {GD : GoDigest} {GL : GoDigestLaws GD} {RJ : RegistryJSON} {NU : NetURL} {MO : MapOrder}.
Context {N U : Type} {CL : Client N} (r : Repo) (blobs : N -> gmap string bytes) {BL : BlobLaws r blobs}.
Notation W := (rworld N U).

Lemma send_run ctx m url u (w : W) x n' :
  url_Parse url = Some u -> Do (mkRequest m u ∅ None None 0 ctx) (rw_net w) = (x, n') ->
  send ctx m url id w = (x, set_net n' w).
Proof.
  intros Hu HD. unfold send, NewRequest, mbind, M_bind, reads. rewrite Hu. simpl. unfold do, on_part.
  change (id ?q) with q. rewrite HD. by destruct x.
Qed.

Lemma verifyContentDigest_Ok resp d : digest_Validate d = true ->
  Header_Get headerDockerContentDigest (rs_Header resp) = EmptyString
    \/ Header_Get headerDockerContentDigest (rs_Header resp) = d ->
  verifyContentDigest resp d = Ok tt.
Proof.
  intros Hv [H|H]; unfold verifyContentDigest; rewrite H; [done|]. rewrite Hv, String.eqb_refl. by destruct (String.eqb _ _).
Qed.

(** A blob that is there is read, and found. *)
Lemma blob_Fetch_run ctx desc b (w : W) :
  digest_Validate (Digest desc) = true -> blobs (rw_net w) !! Digest desc = Some b -> Size desc = Zlen b ->
  exists rc, blobStore_Fetch ctx r desc w = (Ok rc, w) /\ clean rc /\ content rc = b.
Proof.
  intros Hv Hb Hs. destruct (blob_url (Digest desc) Hv) as [u Hu].
  destruct (blob_read GET (Digest desc) (rw_net w) u (AppendRepositoryScope ctx (at_ref (Digest desc) r) [ActionPull])
    (or_introl eq_refl) Hu) as (resp & HD & Hresp). rewrite Hb in Hresp.
  destruct Hresp as (Hst & Hcl & Hh & Hbody). destruct (Hbody eq_refl) as [Hc Hcont].
  exists (Body resp). split; [|done]. unfold blobStore_Fetch. cbv zeta. unfold mbind at 1, M_bind at 1.
  rewrite (send_run _ _ _ _ _ _ _ Hu HD), rw_eta. unfold lift, reads. rewrite decide_True by done.
  rewrite Hcl, Hs, (bool_decide_eq_true_2 (Zlen b = Zlen b)), andb_false_r by done.
  by rewrite (verifyContentDigest_Ok resp (Digest desc) Hv Hh).
Qed.

Lemma blob_Resolve_run ctx desc b (w : W) :
  Repository_ParseReference r (Digest desc) = Ok (at_ref (Digest desc) r) ->
  digest_Validate (Digest desc) = true -> blobs (rw_net w) !! Digest desc = Some b ->
  exists found, blobStore_Resolve ctx r (Digest desc) w = (Ok found, w)
    /\ Digest found = Digest desc /\ Size found = Zlen b.
Proof.
  intros Hp Hv Hb. destruct (blob_url (Digest desc) Hv) as [u Hu].
  destruct (blob_read HEAD (Digest desc) (rw_net w) u (AppendRepositoryScope ctx (at_ref (Digest desc) r) [ActionPull])
    (or_intror eq_refl) Hu) as (resp & HD & Hresp). rewrite Hb in Hresp. destruct Hresp as (Hst & Hcl & Hh & _).
  unfold blobStore_Resolve. unfold mbind at 1, M_bind at 1, lift at 1, reads at 1. rewrite Hp.
  unfold mbind at 1, M_bind at 1, lift at 1, reads at 1, Reference_Digest. cbn [Ref at_ref]. rewrite Hv.
  unfold mbind at 1, M_bind at 1. cbv zeta. rewrite (send_run _ _ _ _ _ _ _ Hu HD), rw_eta.
  unfold lift, reads. rewrite decide_True by done. unfold generateBlobDescriptor.
  rewrite Hcl, decide_False by (unfold Zlen; lia). rewrite (verifyContentDigest_Ok resp (Digest desc) Hv Hh).
  eexists. split; [reflexivity|]. by split.
Qed.

(** The upload stores the content. *)
Lemma blob_Push_run ctx desc c (w : W) :
  clean (content_reader c) -> Digest desc = digest_FromBytes (content (content_reader c)) ->
  Size desc = Zlen (content (content_reader c)) ->
  exists n', blobStore_Push ctx r desc c w = (Ok tt, set_net n' w)
    /\ blobs n' = <[Digest desc := content (content_reader c)]> (blobs (rw_net w)).
Proof.
  intros Hc Hd Hs. destruct upload_url as [u Hu].
  set (ctx' := AppendRepositoryScope ctx (rp_Reference r) [ActionPull; ActionPush]).
  destruct (blob_upload (rw_net w) u ctx' Hu) as (resp & loc & u2 & n1 & HD & Hst & Hl & Hu2 & Hn1 & Hput).
  set (req := mkRequest POST u ∅ None None 0 ctx') in HD.
  assert (NewRequest ctx' POST (buildRepositoryBlobUploadURL (PlainHTTP r) (rp_Reference r)) None = Ok req) as Hreq
    by (unfold NewRequest; by rewrite Hu).
  assert (exists put, new_upload ctx' (url_String (add_port u loc)) desc c = Ok put /\ rq_Method put = PUT /\ rq_URL put = u2
    /\ rq_Body put = Some (content_reader c) /\ rq_ContentLength put = Zlen (content (content_reader c)))
    as (put & Hnew & Hm & Hpu & Hb & Hcl).
  { unfold new_upload, NewRequest. rewrite Hu2. destruct c as [b|rd]; cbn [content_reader] in *.
    - destruct (bytes_NewReader_spec b) as [_ Hcont]. rewrite Hcont in *.
      cbn [mbind outcome_bind rq_ContentLength]. rewrite Hs, bool_decide_eq_true_2 by done. by eexists.
    - rewrite <- Hs. by eexists. }
  unfold blobStore_Push. cbv zeta. fold ctx'. unfold mbind at 1, M_bind at 1, lift at 1, reads at 1.
  rewrite Hreq. unfold mbind at 1, M_bind at 1, do at 1, on_part at 1. rewrite HD, decide_True by done.
  unfold completePushAfterInitialPost, mbind, M_bind, lift, reads. rewrite Hl. change (rq_URL req) with u. rewrite Hnew.
  match goal with |- context [do ?q _] => set (put' := q) end.
  assert (exists h, put' = mkRequest PUT (url_SetQuery "digest" (Digest desc) u2) h (Some (content_reader c)) (rq_GetBody put)
    (Zlen (content (content_reader c))) (rq_Context put)) as [h ->].
  { unfold put'. destruct (String.eqb _ EmptyString); unfold Header_Set, SetQuery; simpl;
      rewrite Hm, Hpu, Hb, Hcl; by eexists. }
  destruct (Hput (Digest desc) h (content_reader c) (rq_GetBody put) (rq_Context put) Hc Hd) as (resp2 & n2 & HD2 & Hst2 & Hn2).
  unfold do, on_part. simpl. rewrite HD2. exists n2. rewrite Hst2, Hn2, Hn1. done.
Qed.

(** Against a conforming registry, pushing a blob succeeds and makes it readable:
    fetching its descriptor then gives a clean reader of exactly the bytes that were
    pushed, resolving its digest gives its size, and it exists; the other blobs and
    the referrers capability are untouched, whether the content is in memory or
    streamed. *)
Theorem remote_blob_roundtrip ctx desc c (w : W) :
  clean (content_reader c) -> Digest desc = digest_FromBytes (content (content_reader c)) ->
  Size desc = Zlen (content (content_reader c)) ->
  Repository_ParseReference r (Digest desc) = Ok (at_ref (Digest desc) r) ->
  exists w', blobStore_Push ctx r desc c w = (Ok tt, w') /\ rw_state w' = rw_state w
    /\ (forall d, d <> Digest desc -> blobs (rw_net w') !! d = blobs (rw_net w) !! d)
    /\ (exists rc, blobStore_Fetch ctx r desc w' = (Ok rc, w') /\ clean rc /\ content rc = content (content_reader c))
    /\ (exists found, blobStore_Resolve ctx r (Digest desc) w' = (Ok found, w')
          /\ Digest found = Digest desc /\ Size found = Size desc)
    /\ blobStore_Exists ctx r desc w' = (Ok true, w').
Proof.
  intros Hc Hd Hs Hp. destruct (blob_Push_run ctx desc c w Hc Hd Hs) as (n' & Hpush & Hn').
  assert (digest_Validate (Digest desc) = true) as Hv by (rewrite Hd; apply digest_FromBytes_valid).
  assert (blobs (rw_net (set_net n' w)) !! Digest desc = Some (content (content_reader c))) as Hb.
  { simpl. by rewrite Hn', lookup_insert_eq. }
  destruct (blob_Resolve_run ctx desc _ (set_net n' w) Hp Hv Hb) as (found & Hf & Hfd & Hfs).
  exists (set_net n' w). split; [done|]. split; [done|]. split; [|split; [|split]].
  - intros d Hne. simpl. by rewrite Hn', lookup_insert_ne.
  - by apply blob_Fetch_run.
  - exists found. by rewrite Hs.
  - unfold blobStore_Exists, exists_by. by rewrite Hf.
Qed.
End blobs.

(** ** A registry of blobs *)
Module blob_example.
Import HexDigest.

#[export] Instance order : MapOrder := canonical_order.

#[export] Instance text : NetURL := {|
  URL := string;
  url_Parse s := Some s;
  url_Ref _ s := Some s;
  url_String u := u;
  url_Scheme _ := "https";
  url_Hostname _ := "localhost";
  url_Port _ := "5000";
  url_SetHost _ u := u;
  url_SetQuery k v u := u +:+ "?" +:+ k +:+ "=" +:+ v;
  ParseMediaType s := Some s
|}.

#[export] Instance no_messages : RegistryJSON := {|
  Decode_Index _ := Err (ENew "json");
  Decode_Tags _ := Err (ENew "json");
  Decode_Repositories _ := Err (ENew "json");
  Decode_ErrorCodes _ := None
|}.

Definition repo : Repo := mkRepo (mkReference "localhost:5000" "app" EmptyString) false [] 0 0 0 false true.
Definition base : string := "https://localhost:5000/v2/app/blobs/".
Definition session : string := "https://localhost:5000/session".

Definition reply (status : Z) (h : list (string * string)) (body : bytes) (req : Request) : Response :=
  mkResponse status (list_to_map h) [] (Zlen body) (bytes_NewReader body) req.

Definition serve (req : Request) (n : gmap string bytes) : result Response * gmap string bytes :=
  match rq_Method req, rq_Body req with
  | POST, _ => (Ok (reply 202 [("Location", session)] [] req), n)
  | PUT, Some b =>
      match strip (session +:+ "?digest=") (rq_URL req) with
      | Some d => if decide (d = digest_FromBytes (content b))
                  then (Ok (reply 201 [] [] req), <[d := content b]> n) else (Ok (reply 400 [] [] req), n)
      | None => (Ok (reply 404 [] [] req), n)
      end
  | _, _ =>
      match strip base (rq_URL req) ≫= (n !!.) with
      | Some c => (Ok (reply 200 [] c req), n)
      | None => (Ok (reply 404 [] [] req), n)
      end
  end.

#[export] Instance server : Client (gmap string bytes) := {| Do := serve |}.

#[export] Instance server_blobs : BlobLaws repo (fun n => n).
Proof.
  split; cbn [url_Parse text].
  - by eexists.
  - by eexists.
  - intros m d n u ctx Hm [= <-]. destruct (bytes_NewReader_spec (default [] (n !! d))) as [Hc Hcont].
    assert (Do (mkRequest m (buildRepositoryBlobURL (PlainHTTP repo) (at_ref d repo)) ∅ None None 0 ctx) n =
      match n !! d with
      | Some c => (Ok (reply 200 [] c (mkRequest m (base +:+ d) ∅ None None 0 ctx)), n)
      | None => (Ok (reply 404 [] [] (mkRequest m (base +:+ d) ∅ None None 0 ctx)), n)
      end) as HD.
    { unfold Do, server, serve. cbn [rq_URL rq_Method rq_Body].
      change (buildRepositoryBlobURL (PlainHTTP repo) (at_ref d repo)) with (base +:+ d).
      destruct Hm as [-> | ->]; by rewrite strip_app. }
    destruct (n !! d) as [c|]; eexists; (split; [exact HD|]); [|done]. split_and!; auto.
  - intros n u ctx [= <-]. eexists _, session, _, n. split; [done|]. split; [done|]. split; [done|].
    split; [done|]. split; [done|]. intros d h b g ctx2 Hc ->. unfold Do, server, serve. cbn [rq_URL rq_Method rq_Body].
    change (url_SetQuery _ _ _) with ((session +:+ "?digest=") +:+ digest_FromBytes (content b)).
    rewrite strip_app, decide_True by done. by eexists _, _.
Qed.

Definition letter : OciDescriptor := NewDescriptorFromBytes "application/octet-stream" (str_bytes "a").

Lemma remote_blob_roundtrip_witness : exists w' rc,
  blobStore_Push Background repo letter (CStream (bytes_NewReader (str_bytes "a"))) (mkRW referrersStateUnknown ∅ tt) = (Ok tt, w') /\
  blobStore_Fetch Background repo letter w' = (Ok rc, w') /\ content rc = str_bytes "a".
Proof.
  destruct (remote_blob_roundtrip (GD := hex_digest) repo (fun n => n) Background letter
    (CStream (bytes_NewReader (str_bytes "a"))) (mkRW referrersStateUnknown ∅ tt))
    as (w' & H1 & _ & _ & (rc & H2 & _ & H3) & _); [apply bytes_NewReader_spec|vm_compute; reflexivity..|].
  exists w', rc. split; [exact H1|]. split; [exact H2|exact H3].
Defined.
End blob_example.
