(* ===== verification/Listing.v ===== *)
(** Listing through the registry interfaces: [Tags] of [registry/repository.go] and
    [Repositories] of [registry/registry.go] on a remote repository; the errors of
    [registry/remote/errcode/errors.go]. *)

From Stdlib Require Import Ascii String ZArith Lia.
From S2P Require Import Prelude Errors Descriptor Reader Manifest GoStrings Reference Scope Http Challenge Remote RemoteReferrers.
Import registry.

#[local] Open Scope string_scope.
#[local] Open Scope list_scope.

(** ** Lists of tags and repositories *)

Section listing.
Context {RJ : RegistryJSON} {NU : NetURL} {MO : MapOrder} {N : Type} {CL : Client N}.
Notation W := (rworld N (list string)).

(** The callback [res = append(res, tags...)]. *)
Definition append_page (page : list string) : M W unit :=
  fun w => (Ok tt, mkRW (rw_state w) (rw_net w) (rw_user w ++ page)).

Definition collected (r : option (result unit * W)) : option (result (list string) * W) :=
  match r with
  | None => None
  | Some (Ok _, w') => Some (Ok (rw_user w'), w')
  | Some (Err e, w') => Some (Err e, w')
  | Some (Panic, w') => Some (Panic, w')
  end.

(** [registry.Tags(ctx, repo)] and [registry.Repositories(ctx, reg)]. *)
Definition registry_Tags (fuel : nat) (ctx : Context_) (r : Repo) (w : W) : option (result (list string) * W) :=
  collected (Tags fuel ctx r EmptyString append_page (mkRW (rw_state w) (rw_net w) [])).
Definition registry_Repositories (fuel : nat) (ctx : Context_) (r : Repo) (pageSize : Z) (w : W) : option (result (list string) * W) :=
  collected (Repositories fuel ctx r pageSize EmptyString append_page (mkRW (rw_state w) (rw_net w) [])).

(** The pages a server gives, from a URL on. *)
Section chain.
Context (ctx : Context_) (pageSize limit : Z) (decode : Reader -> result (list string)).

Inductive chain : string -> string -> N -> list (list string) -> N -> Prop :=
| chain_last last url req n resp n' page :
    NewRequest ctx GET url None = Ok req -> Do (list_query pageSize last req) n = (Ok resp, n') ->
    StatusCode resp = StatusOK -> decode (limitReader (Body resp) limit) = Ok page ->
    parseLink resp = ErrS errNoLink -> chain last url n [page] n'
| chain_next last url req n resp n' page next pages n'' :
    NewRequest ctx GET url None = Ok req -> Do (list_query pageSize last req) n = (Ok resp, n') ->
    StatusCode resp = StatusOK -> decode (limitReader (Body resp) limit) = Ok page ->
    parseLink resp = Ok next -> chain EmptyString next n' pages n'' -> chain last url n (page :: pages) n''.

Lemma list_page_run last url req n resp n' page st (l : list string) :
  NewRequest ctx GET url None = Ok req -> Do (list_query pageSize last req) n = (Ok resp, n') ->
  StatusCode resp = StatusOK -> decode (limitReader (Body resp) limit) = Ok page ->
  list_page ctx pageSize limit decode last append_page url (mkRW st n l) = (parseLink resp, mkRW st n' (l ++ page)).
Proof.
  intros Hr Hd Hs Hp. unfold list_page, send, mbind, M_bind, reads. rewrite Hr. simpl. unfold do, on_part. simpl.
  rewrite Hd. simpl. rewrite decide_True by done. unfold lift, reads. rewrite Hp. done.
Qed.

Lemma pages_chain last url n pages n' : chain last url n pages n' -> forall fuel st (l : list string), length pages <= fuel ->
  last = EmptyString ->
  Remote.pages fuel (list_page ctx pageSize limit decode EmptyString append_page) url (mkRW st n l)
    = Some (Ok tt, mkRW st n' (l ++ concat pages)).
Proof.
  induction 1 as [last url req n resp n' page Hr Hd Hs Hp Hl|last url req n resp n' page next pages n'' Hr Hd Hs Hp Hl _ IH];
    intros [|fuel] st l Hf ->; try (simpl in Hf; lia); cbn [Remote.pages];
    rewrite (list_page_run _ _ _ _ _ _ _ _ _ Hr Hd Hs Hp), Hl.
  - rewrite decide_True by done. cbn [concat]. by rewrite app_nil_r.
  - rewrite IH by (simpl in Hf; lia || done). cbn [concat]. by rewrite app_assoc.
Qed.

Lemma list_all_chain url n pages n' fuel st : chain EmptyString url n pages n' -> length pages <= fuel ->
  list_all fuel (fun last => list_page ctx pageSize limit decode last append_page) EmptyString url (mkRW st n [])
    = Some (Ok tt, mkRW st n' (concat pages)).
Proof.
  intros Hc Hf. destruct fuel as [|fuel]; [destruct Hc; simpl in Hf; lia|]. unfold list_all.
  inversion Hc as [? ? req ? resp ? page Hr Hd Hs Hp Hl|? ? req ? resp n1 page next pgs ? Hr Hd Hs Hp Hl Hrest]; subst;
    rewrite (list_page_run _ _ _ _ _ _ _ _ _ Hr Hd Hs Hp), Hl.
  - rewrite decide_True by done. cbn [concat]. by rewrite app_nil_r.
  - by rewrite (pages_chain _ _ _ _ _ Hrest) by (simpl in Hf; lia || done).
Qed.
End chain.

(** [registry.Tags] and [registry.Repositories] return exactly the concatenation of
    the pages the server gives, in their order, however many there are. *)
Theorem registry_lists_complete ctx r pageSize fuel w pages n' :
  length pages <= fuel ->
  (chain (AppendRepositoryScope ctx (rp_Reference r) [ActionPull]) (TagListPageSize r) (MaxMetadataBytes r) Decode_Tags EmptyString
     (buildRepositoryTagListURL (PlainHTTP r) (rp_Reference r)) (rw_net w) pages n' ->
   registry_Tags fuel ctx r w = Some (Ok (concat pages), mkRW (rw_state w) n' (concat pages))) /\
  (chain (AppendScopesForHost ctx (Host (rp_Reference r)) [ScopeRegistryCatalog]) pageSize (MaxMetadataBytes r) Decode_Repositories EmptyString
     (buildRegistryCatalogURL (PlainHTTP r) (rp_Reference r)) (rw_net w) pages n' ->
   registry_Repositories fuel ctx r pageSize w = Some (Ok (concat pages), mkRW (rw_state w) n' (concat pages))).
Proof.
  intros Hf. split; intros Hc.
  - unfold registry_Tags, Tags, tags. by rewrite (list_all_chain _ _ _ _ _ _ _ _ _ _ Hc Hf).
  - unfold registry_Repositories, Repositories, repositories. by rewrite (list_all_chain _ _ _ _ _ _ _ _ _ _ Hc Hf).
Qed.
End listing.

(** ** errcode/errors.go *)

Module errcode.

(** The detail is kept as the text [fmt] prints for it. *)
Record Error := mkError { Code : string; Message : string; Detail : option string }.
Record ErrorResponse := mkErrorResponse { er_Method : string; er_URL : string; er_StatusCode : Z; Errors : list Error }.

(** [strings.Map] of the code; codes are ASCII. *)
Definition code_char (c : ascii) : ascii := if Ascii.eqb c "_" then " "%char else lower_char c.
Definition code_text (code : string) : string := of_chars (code_char <$> chars code).

Definition Error_Error (e : Error) : string :=
  if String.eqb (Message e) EmptyString then code_text (Code e)
  else match Detail e with
       | None => code_text (Code e) +:+ ": " +:+ Message e
       | Some d => code_text (Code e) +:+ ": " +:+ Message e +:+ ": " +:+ d
       end.

(** [strings.Join(msgs, "; ")]. *)
Fixpoint join_errors (l : list string) : string :=
  match l with
  | [] => EmptyString
  | [s] => s
  | s :: l' => s +:+ "; " +:+ join_errors l'
  end.

Definition Errors_Error (errs : list Error) : string :=
  match errs with
  | [] => "<nil>"
  | [e] => Error_Error e
  | _ => join_errors (Error_Error <$> errs)
  end.

Definition Errors_Unwrap (errs : list Error) : option Error :=
  match errs with [e] => Some e | _ => None end.

(** [StatusText] is [http.StatusText], [q] the quoting of [%q]. *)
Definition ErrorResponse_Error (StatusText : Z -> string) (q : string -> string) (err : ErrorResponse) : string :=
  let errmsg := match Errors err with [] => StatusText (er_StatusCode err) | errs => Errors_Error errs end in
  er_Method err +:+ " " +:+ q (er_URL err) +:+ ": response status code " +:+ Itoa (er_StatusCode err) +:+ ": " +:+ errmsg.

Definition ErrorResponse_Unwrap (err : ErrorResponse) : option (list Error) :=
  match Errors err with [] => None | errs => Some errs end.

(** The error value of the other files keeps the status and the codes. *)
Definition to_error (err : ErrorResponse) : error := EResponse (er_StatusCode err) (Code <$> Errors err).

(** [errors.As] finds the registry error through the two [Unwrap] methods exactly when
    the response has one. *)
Lemma IsErrorCode_Unwrap err code :
  IsErrorCode (to_error err) code =
    match ErrorResponse_Unwrap err ≫= Errors_Unwrap with Some e => String.eqb (Code e) code | None => false end.
Proof. unfold to_error, ErrorResponse_Unwrap. by destruct (Errors err) as [|e [|e' l]]. Qed.
End errcode.

(** ** A registry with two pages *)
Module listing_example.
Import registry_example.

#[export] Instance comma_lists : RegistryJSON := {|
  Decode_Index _ := Err (ENew "json");
  Decode_Tags r := Ok (Split "," (String.string_of_list_byte (content r)));
  Decode_Repositories r := Ok (Split "," (String.string_of_list_byte (content r)));
  Decode_ErrorCodes _ := None
|}.

Definition page (h : list (string * string)) (s : string) (req : Request) : Response :=
  reply 200 h (String.list_byte_of_string s) req.

#[export] Instance two_pages : Client unit := {|
  Do req n :=
    (Ok (if String.eqb (rq_URL req) "page2" then page [] "v3" req
         else page [("Link", "<page2>; rel=next")] "v1,v2" req), n)
|}.

Lemma registry_lists_complete_witness :
  registry_Tags 5 Background repo (mkRW referrersStateUnknown tt []) =
    Some (Ok ["v1"; "v2"; "v3"], mkRW referrersStateUnknown tt ["v1"; "v2"; "v3"]).
Proof.
  destruct (registry_lists_complete Background repo 0 5 (mkRW referrersStateUnknown tt []) [["v1"; "v2"]; ["v3"]] tt)
    as [H _]; [simpl; lia|]. refine (H _).
  eapply chain_next; [reflexivity|reflexivity|reflexivity|vm_compute; reflexivity|vm_compute; reflexivity|].
  eapply chain_last; [reflexivity|reflexivity|reflexivity|vm_compute; reflexivity|vm_compute; reflexivity].
Defined.
End listing_example.
