(* ===== verification/OciStorage.v ===== *)
(** The content-addressed storage of an OCI image layout on disk:
    [content/oci/storage.go], [content/oci/readonlystorage.go] and [CopyBuffer] of
    [internal/ioutil/io.go].  A file system is a map from paths below the root
    of the layout to the contents of files; errors of the operating system other
    than a missing file are not modelled, and directories are created as needed. *)

From Stdlib Require Import Ascii String ZArith Lia.
From S2P Require Import Prelude Errors Descriptor Reader GoStrings Reference.

#[local] Open Scope string_scope.

(** ** The file system *)

Record FS := mkFS { fs_files : gmap string bytes }.

Definition os_Stat (p : string) (f : FS) : bool := bool_decide (is_Some (fs_files f !! p)).
Definition os_Open (p : string) (f : FS) : result bytes :=
  match fs_files f !! p with Some c => Ok c | None => ErrS fsErrNotExist end.
Definition os_WriteFile (p : string) (c : bytes) (f : FS) : FS := mkFS (<[p := c]> (fs_files f)).
Definition os_Remove (p : string) (f : FS) : result unit * FS :=
  match fs_files f !! p with
  | Some _ => (Ok tt, mkFS (delete p (fs_files f)))
  | None => (ErrS fsErrNotExist, f)
  end.
Definition os_Rename (p q : string) (f : FS) : result unit * FS :=
  match fs_files f !! p with
  | Some c => (Ok tt, mkFS (<[q := c]> (delete p (fs_files f))))
  | None => (ErrS fsErrNotExist, f)
  end.

(** A name longer than every name in use: [os.CreateTemp] picks an unused one. *)
Definition longest (m : gmap string bytes) : nat :=
  map_fold (fun p _ n => Nat.max (String.length p) n) 0 m.
Definition temp_suffix (m : gmap string bytes) : string :=
  of_chars (repeat "x"%char (S (longest m))).

(** ** [internal/ioutil] *)
Section ioutil.
Context {GD : GoDigest}.

(** The loop of [io.CopyBuffer] from a verify reader. *)
Fixpoint copy_loop (fuel bufSize : nat) (written : bytes) (vr : VerifyReader)
    : bytes * option error * VerifyReader :=
  match fuel with
  | O => (written, Some (ENew "copy loop: out of fuel"), vr)
  | S fuel' =>
      let '(b, e, vr') := VerifyReader_Read bufSize vr in
      match e with
      | Some e => ((written ++ b)%list, if decide (e = ESentinel EOF) then None else Some e, vr')
      | None => copy_loop fuel' bufSize (written ++ b)%list vr'
      end
  end.

(** [CopyBuffer]: what was written to the destination, and the result. *)
Definition CopyBuffer (bufSize : nat) (src : Reader) (desc : OciDescriptor) : result unit * bytes :=
  match NewVerifyReader src desc with
  | None => (Panic, [])
  | Some vr =>
      let '(written, err, vr') := copy_loop (S (read_fuel src)) bufSize [] vr in
      match err with
      | Some e => (Err (EWrap "copy failed" e), written)
      | None => (of_err (Verify vr').1, written)
      end
  end.
End ioutil.

(** ** Lemmas on copying *)

Lemma VerifyReader_Read_limit n r w N v :
  0 < n ->
  VerifyReader_Read n (mkVR (mkLimited (mkTee r w) N) v false None) =
    if decide (N <= 0)%Z
    then ([], Some (ESentinel EOF), mkVR (mkLimited (mkTee r w) N) v false (Some (ESentinel EOF)))
    else
      let '(b, e, r') := Read (if decide (Z.of_nat n > N)%Z then Z.to_nat N else n) r in
      let N' := (N - Zlen b)%Z in
      let e' := match e with
                | Some e0 => Some (if decide (e0 = ESentinel EOF /\ (N' > 0)%Z)
                                   then ESentinel ErrUnexpectedEOF else e0)
                | None => None end in
      (b, e', mkVR (mkLimited (mkTee r' (w ++ b)%list) N') v false e').
Proof.
  intros Hn. unfold VerifyReader_Read, LimitedReader_Read, TeeReader_Read.
  cbn [vr_err vr_base vr_verifier vr_verified lr_N lr_R tee_r tee_w].
  case_decide as HN; cbn [lr_N].
  - rewrite decide_False; [done|]. intros [_ ?]. lia.
  - destruct (Read _ r) as [[b e] r']. by destruct e.
Qed.

(** Copying from a verify reader with [n] bytes allowed reads exactly [n] bytes
    or reports an error. *)
Lemma copy_loop_spec fuel bufSize written r w v n :
  0 < bufSize -> read_fuel r < fuel ->
  let '(wr, e, vr') := copy_loop fuel bufSize written
      (mkVR (mkLimited (mkTee r w) (Z.of_nat n)) v false None) in
  match e with
  | None => n <= length (content r) /\ wr = (written ++ take n (content r))%list /\
      exists r', vr' = mkVR (mkLimited (mkTee r' (w ++ take n (content r))%list) 0) v false (Some (ESentinel EOF))
        /\ content r' = drop n (content r) /\ (clean r <-> clean r')
  | Some _ => ~ clean r \/ length (content r) < n
  end.
Proof.
  intros HB. revert written r w n. induction fuel as [|fuel IH]; intros written r w n Hf; [lia|].
  cbn [copy_loop]. rewrite VerifyReader_Read_limit by done. case_decide as HN.
  - assert (n = 0) as -> by lia. rewrite decide_True by done. rewrite take_0, drop_0, !app_nil_r.
    split; [lia|]. split; [done|]. exists r. by rewrite Z.opp_involutive || done.
  - set (k := if decide (Z.of_nat bufSize > Z.of_nat n)%Z then Z.to_nat (Z.of_nat n) else bufSize).
    assert (0 < k <= n) as [Hk Hkn] by (unfold k; case_decide; lia).
    destruct (Read k r) as [[b e] r'] eqn:HR.
    apply Read_spec in HR as (Hc & Hb & Hend & Hcl & He); [|done].
    assert (Hz : (Z.of_nat n - Zlen b = Z.of_nat (n - length b))%Z) by (unfold Zlen; lia). rewrite Hz.
    destruct e as [e|]; cbn zeta iota beta.
    + destruct He as [Hch He]. assert (content r = b) as Hcb by (by rewrite Hc, Hch, app_nil_r).
      destruct (decide (e = ESentinel EOF /\ (Z.of_nat (n - length b) > 0)%Z)) as [Hd1|Hd1].
      { rewrite decide_False by done. right. destruct Hd1. rewrite Hcb. lia. }
      case_decide as Hd2.
      * subst e. assert (length b = n) as Hbn by (destruct (decide (length b = n)); [done|];
          exfalso; apply Hd1; split; [done|lia]).
        rewrite Hcb, take_ge, drop_ge by lia. split; [lia|]. split; [done|].
        exists r'. split; [by rewrite Hbn, Nat.sub_diag|]. split; [by rewrite Hch|]. tauto.
      * left. intros Hclean. by apply He in Hclean.
    + destruct He as [Hfuel Hcl'].
      specialize (IH (written ++ b)%list r' (w ++ b)%list (n - length b) ltac:(lia)).
      destruct (copy_loop _ _ _ _) as [[wr e] vr']. rewrite Hc. destruct e as [e|].
      * rewrite length_app. destruct IH as [IH|IH]; [left; tauto|right; lia].
      * destruct IH as (Hlen & -> & r'' & -> & Hr'' & Hcc). rewrite length_app.
        rewrite take_app_ge, drop_app_ge by lia. rewrite <- !app_assoc. split; [lia|]. split; [done|].
        exists r''. split; [done|]. split; [done|]. tauto.
Qed.

Lemma Verify_after_copy r v w N :
  (N <= 0)%Z ->
  (Verify (mkVR (mkLimited (mkTee r w) N) v false (Some (ESentinel EOF)))).1 = None <->
  content r = [] /\ clean r /\ v w = true.
Proof.
  intros HN. destruct (ensureEOF_spec r w) as [H1 H2].
  unfold Verify. cbn [vr_verified vr_base vr_err lr_R lr_N vr_verifier]. rewrite decide_True by done.
  destruct (decide (content r = [] /\ clean r)) as [[Hc Hcl]|Hn].
  - destruct (H1 Hc Hcl) as [r' ->]. simpl. destruct (v w); simpl; split; try tauto; try done.
    intros (_ & _ & ?). done.
  - destruct (ensureEOF (mkTee r w)) as [err t']. simpl in H2.
    assert (err = Some (ESentinel ErrTrailingData)) as ->.
    { apply H2. destruct (decide (content r = [])); [right; tauto|by left]. }
    simpl. split; [done|]. tauto.
Qed.

(** [CopyBuffer] accepts a stream exactly when it ends normally, its length is
    the size of the descriptor and its digest matches; a negative size is
    accepted for the empty stream. *)
Lemma CopyBuffer_spec {GD : GoDigest} bufSize r desc :
  0 < bufSize ->
  let '(res, written) := CopyBuffer bufSize r desc in
  (res = Ok tt <->
     clean r /\ (Zlen (content r) = Size desc \/ (Size desc < 0)%Z /\ content r = [])
     /\ exists v, digest_Verifier (Digest desc) = Some v /\ v (content r) = true)
  /\ (res = Ok tt -> written = content r)
  /\ (is_Some (digest_Verifier (Digest desc)) -> res <> Panic).
Proof.
  intros HB. unfold CopyBuffer, NewVerifyReader.
  destruct (digest_Verifier (Digest desc)) as [v|] eqn:Hv.
  2: { split; [split; [done|]; intros (_ & _ & v & ? & _); done|]. split; [done|]. by intros [? ?]. }
  destruct (decide (Size desc < 0)%Z) as [Hneg|Hpos].
  - cbn [copy_loop]. rewrite VerifyReader_Read_limit, decide_True by (done || lia). rewrite decide_True by done.
    pose proof (Verify_after_copy r v [] (Size desc) ltac:(lia)) as HV.
    destruct (Verify _).1 as [e|]; simpl.
    + split; [|by split]. split; [done|]. intros (Hc & Hl & v' & [= <-] & Hok). exfalso.
      assert (content r = []) as Hnil by (destruct Hl as [Hl|[_ Hl]]; [unfold Zlen in Hl; lia|done]).
      rewrite Hnil in Hok. by assert (Some e = None) by (apply HV; auto).
    + destruct HV as [HV _]. destruct (HV eq_refl) as (Hc & Hcl & Hok).
      split; [|split; [by rewrite Hc|done]]. split; [|done]. intros _. split; [done|]. split; [by right|].
      exists v. by rewrite Hc.
  - pose proof (copy_loop_spec (S (read_fuel r)) bufSize [] r [] v (Z.to_nat (Size desc)) HB ltac:(lia)) as HL.
    rewrite Z2Nat.id in HL by lia. destruct (copy_loop _ _ _ _) as [[wr e] vr'].
    destruct e as [e|]; simpl.
    + split; [|by split]. split; [done|]. intros (Hc & Hl & _). destruct HL as [HL|HL]; [done|].
      destruct Hl as [Hl|[Hl _]]; [unfold Zlen in Hl; lia|lia].
    + destruct HL as (Hlen & -> & r' & -> & Hr' & Hcc).
      pose proof (Verify_after_copy r' v ([] ++ take (Z.to_nat (Size desc)) (content r))%list 0 ltac:(lia)) as HV.
      destruct (Verify _).1 as [e|]; simpl.
      * split; [|by split]. split; [done|]. intros (Hc & Hl & v' & [= <-] & Hok). exfalso.
        assert (length (content r) <= Z.to_nat (Size desc)) as Hle
          by (destruct Hl as [Hl|[Hl _]]; [unfold Zlen in Hl; lia|lia]).
        assert (Some e = None); [|done]. apply HV. simpl. rewrite take_ge, Hr', drop_ge by done. tauto.
      * destruct HV as [HV _]. destruct (HV eq_refl) as (Hc & Hcl & Hok). simpl in Hok.
        assert (length (content r) = Z.to_nat (Size desc)) as Heq.
        { rewrite Hr' in Hc. apply (f_equal length) in Hc. rewrite length_drop in Hc. simpl in Hc. lia. }
        rewrite take_ge in * by lia. split; [|split; done]. split; [|done]. intros _. split; [tauto|].
        split; [left; unfold Zlen; lia|]. eauto.
Qed.

(** ** The storage *)
Module oci.

(** Paths of the layout. *)
Definition ImageBlobsDir : string := "blobs".
Definition ImageIndexFile : string := "index.json".
Definition ImageLayoutFile : string := "oci-layout".

Section Storage.
Context {GD : GoDigest} (bufSize : nat).

(** [blobPath]. *)
Definition blobPath (dgst : string) : result string :=
  if digest_Validate dgst
  then Ok (ImageBlobsDir +:+ "/" +:+ digest_Algorithm dgst +:+ "/" +:+ digest_Encoded dgst)
  else Err (EWrap "cannot calculate blob path from invalid digest" ErrInvalidDigest).

(** [fmt.Errorf("%s: %s: %w", d.Digest, d.MediaType, s)]. *)
Definition desc_err (d : OciDescriptor) (s : sentinel) : error := EWrap (Digest d +:+ ": " +:+ MediaType d) s.

(** The path of a descriptor, or [ErrInvalidDigest]. *)
Definition desc_path (d : OciDescriptor) : result string :=
  match blobPath (Digest d) with Ok p => Ok p | _ => Err (desc_err d ErrInvalidDigest) end.

Definition Fetch (target : OciDescriptor) (f : FS) : result Reader :=
  path ← desc_path target;
  match os_Open path f with
  | Ok c => Ok (bytes_NewReader c)
  | Err e => if errors_Is e fsErrNotExist then Err (desc_err target ErrNotFound) else Err e
  | Panic => Panic
  end.

Definition Exists (target : OciDescriptor) (f : FS) : result bool :=
  path ← desc_path target; Ok (os_Stat path f).

(** [ingest]: the content goes to a temporary file.  The deferred function removes
    the file named by the result [path], which the failing [return] has already set to
    the empty string. *)
Definition ingest (expected : OciDescriptor) (content : Reader) (f : FS) : result string * FS :=
  let path := "ingest/" +:+ digest_Encoded (Digest expected) +:+ "_" +:+ temp_suffix (fs_files f) in
  let '(res, written) := CopyBuffer bufSize content expected in
  let f1 := os_WriteFile path written f in
  match res with
  | Ok _ => (Ok path, f1)
  | Err e => (Err (EWrap "failed to ingest" e), (os_Remove EmptyString f1).2)
  | Panic => (Panic, f1)
  end.

Definition Push (expected : OciDescriptor) (content : Reader) (f : FS) : result unit * FS :=
  match desc_path expected with
  | Err e => (Err e, f)
  | Panic => (Panic, f)
  | Ok target =>
      if os_Stat target f then (Err (desc_err expected ErrAlreadyExists), f)
      else match ingest expected content f with
           | (Err e, f1) => (Err e, f1)
           | (Panic, f1) => (Panic, f1)
           | (Ok path, f1) =>
               match os_Rename path target f1 with
               | (Err e, f2) => (Err e, (os_Remove path f2).2)
               | r => r
               end
           end
  end.

Definition Delete (target : OciDescriptor) (f : FS) : result unit * FS :=
  match desc_path target with
  | Err e => (Err e, f)
  | Panic => (Panic, f)
  | Ok path =>
      match os_Remove path f with
      | (Err e, f') => (Err (if errors_Is e fsErrNotExist then desc_err target ErrNotFound else e), f')
      | r => r
      end
  end.

(** *** Lemmas *)

(** The content stored for a digest. *)
Definition blob_at (f : FS) (dgst : string) : option bytes :=
  match blobPath dgst with Ok p => fs_files f !! p | _ => None end.

(** Every blob matches the digest it is stored under. *)
Definition fs_wf (f : FS) : Prop :=
  forall dgst c, blob_at f dgst = Some c -> exists v, digest_Verifier dgst = Some v /\ v c = true.

Lemma longest_le (m : gmap string bytes) p c : m !! p = Some c -> String.length p <= longest m.
Proof.
  unfold longest. revert p c. apply (map_fold_weak_ind (fun n m => forall p c, m !! p = Some c -> String.length p <= n)).
  - intros p c. by rewrite lookup_empty.
  - intros q b m' n Hq IH p c. rewrite lookup_insert. case_decide as E; [subst; lia|].
    intros H%IH. lia.
Qed.

Lemma length_chars s : length (chars s) = String.length s.
Proof. induction s as [|a s IH]; simpl; [done|]. by rewrite <- IH. Qed.

Lemma temp_fresh (m : gmap string bytes) p : m !! (p +:+ temp_suffix m) = None.
Proof.
  apply eq_None_not_Some. intros [c Hc]. apply longest_le in Hc.
  rewrite <- length_chars, chars_app, length_app in Hc.
  unfold temp_suffix in Hc. rewrite chars_of_chars, repeat_length in Hc. lia.
Qed.

Lemma ingest_temp_fresh f p x y : fs_files f !! (p +:+ x +:+ y +:+ temp_suffix (fs_files f)) = None.
Proof.
  replace (p +:+ x +:+ y +:+ temp_suffix (fs_files f)) with ((p +:+ x +:+ y) +:+ temp_suffix (fs_files f));
    [apply temp_fresh|]. by rewrite !string_app_assoc.
Qed.

Context {GL : GoDigestLaws GD} (Hbuf : 0 < bufSize).

Lemma desc_path_Ok d p : desc_path d = Ok p <-> blobPath (Digest d) = Ok p.
Proof. unfold desc_path. by destruct (blobPath (Digest d)). Qed.

Lemma blobPath_valid dgst p : blobPath dgst = Ok p -> digest_Validate dgst = true.
Proof. unfold blobPath. by destruct (digest_Validate dgst). Qed.

(** The empty string names no file. *)
Definition no_empty_name (f : FS) : Prop := fs_files f !! EmptyString = None.

(** A temporary file that a failed push left. *)
Definition left_temp (d : OciDescriptor) (f f' : FS) : Prop :=
  exists t written, fs_files f !! ("ingest/" +:+ digest_Encoded (Digest d) +:+ "_" +:+ t) = None /\
    f' = mkFS (<["ingest/" +:+ digest_Encoded (Digest d) +:+ "_" +:+ t := written]> (fs_files f)).

(** The stream ends normally and matches the descriptor; a negative size is accepted
    for the empty stream. *)
Definition acceptable (d : OciDescriptor) (r : Reader) : Prop :=
  clean r /\ (Zlen (content r) = Size d \/ (Size d < 0)%Z /\ content r = [])
  /\ exists v, digest_Verifier (Digest d) = Some v /\ v (content r) = true.

(** A push changes the blob only; one that fails because of its content leaves its
    temporary file. *)
Lemma Push_spec d r f : no_empty_name f ->
  match Push d r f with
  | (Ok _, f') => exists p, blobPath (Digest d) = Ok p /\ fs_files f !! p = None
      /\ f' = mkFS (<[p := content r]> (fs_files f)) /\ acceptable d r
  | (Err e, f') =>
      (f' = f /\ ((forall p, blobPath (Digest d) <> Ok p) \/ is_Some (blob_at f (Digest d)))) \/
      (left_temp d f f' /\ blob_at f (Digest d) = None /\ ~ acceptable d r)
  | (Panic, _) => False
  end.
Proof.
  intros Hne. unfold Push. destruct (desc_path d) as [p| |] eqn:Hp.
  2: { left. split; [done|]. left. intros p Hb. apply desc_path_Ok in Hb. congruence. }
  2: { unfold desc_path in Hp. by destruct (blobPath (Digest d)). }
  apply desc_path_Ok in Hp. pose proof (blobPath_valid _ _ Hp) as Hv.
  unfold os_Stat. case_bool_decide as Hs.
  { left. split; [done|]. right. unfold blob_at. by rewrite Hp. }
  apply eq_None_not_Some in Hs.
  unfold ingest. pose proof (CopyBuffer_spec bufSize r d Hbuf) as HC.
  destruct (CopyBuffer bufSize r d) as [res written]. destruct HC as (Hok & Hw & Hpanic).
  set (t := "ingest/" +:+ _).
  assert (fs_files f !! t = None) as Ht by apply ingest_temp_fresh.
  destruct res as [[]|e|].
  - destruct (Hok) as [Hok' _]. rewrite (Hw eq_refl).
    unfold os_Rename, os_WriteFile. simpl. rewrite lookup_insert_eq, delete_insert_id by done.
    exists p. split_and!; auto. by apply Hok'.
  - right. unfold os_Remove, os_WriteFile. simpl. rewrite lookup_insert_ne, Hne by done. simpl.
    split; [exists (temp_suffix (fs_files f)), written; done|].
    split; [unfold blob_at; by rewrite Hp|]. intros Hacc. by apply Hok in Hacc.
  - apply Hpanic; [|done]. by apply digest_Verifier_total.
Qed.

(** The temporary files are not blobs. *)
Lemma left_temp_blob_at d f f' x : left_temp d f f' -> blob_at f' x = blob_at f x.
Proof.
  intros (t & written & _ & ->). unfold blob_at, blobPath. destruct (digest_Validate x); [|done]. simpl.
  by rewrite lookup_insert_ne.
Qed.

Lemma Delete_spec d f :
  match Delete d f with
  | (Ok _, f') => exists p, blobPath (Digest d) = Ok p /\ is_Some (fs_files f !! p)
      /\ f' = mkFS (base.delete p (fs_files f))
  | (Err e, f') => f' = f /\ blob_at f (Digest d) = None
  | (Panic, _) => False
  end.
Proof.
  unfold Delete, blob_at, desc_path. destruct (blobPath (Digest d)) as [p| |]; [|done..].
  unfold os_Remove. destruct (fs_files f !! p) as [c|] eqn:E; [|done]. exists p. rewrite E. eauto.
Qed.

(** Algorithm names contain no slash, so distinct digests have distinct paths. *)
Hypothesis alg_no_slash : forall dgst, digest_Validate dgst = true ->
  has_char "/" (digest_Algorithm dgst) = false.

Lemma blobPath_inj x y p : blobPath x = Ok p -> blobPath y = Ok p -> x = y.
Proof.
  unfold blobPath. destruct (digest_Validate x) eqn:Hx, (digest_Validate y) eqn:Hy; try done.
  intros [= <-] [= E].
  assert (cut "/" (digest_Algorithm x +:+ "/" +:+ digest_Encoded x)
          = Some (digest_Algorithm x, digest_Encoded x)) as Cx by (by apply cut_app, alg_no_slash).
  assert (cut "/" (digest_Algorithm y +:+ "/" +:+ digest_Encoded y)
          = Some (digest_Algorithm y, digest_Encoded y)) as Cy by (by apply cut_app, alg_no_slash).
  pose proof (f_equal (cut "/") (E : digest_Algorithm y +:+ "/" +:+ digest_Encoded y
    = digest_Algorithm x +:+ "/" +:+ digest_Encoded x)) as C. rewrite Cx, Cy in C. injection C as E1 E2.
  by rewrite (digest_split x Hx), (digest_split y Hy), E1, E2.
Qed.

Lemma blob_at_insert f x p c y :
  blobPath x = Ok p -> blob_at (mkFS (<[p := c]> (fs_files f))) y = if decide (y = x) then Some c else blob_at f y.
Proof.
  intros Hx. unfold blob_at. case_decide as E; subst; [rewrite Hx; simpl; by rewrite lookup_insert_eq|].
  destruct (blobPath y) as [q| |] eqn:Hy; [|done..]. simpl. rewrite lookup_insert_ne; [done|].
  intros ->. by apply E, (blobPath_inj y x q).
Qed.

Lemma blob_at_delete f x p y :
  blobPath x = Ok p -> blob_at (mkFS (base.delete p (fs_files f))) y = if decide (y = x) then None else blob_at f y.
Proof.
  intros Hx. unfold blob_at. case_decide as E; subst; [rewrite Hx; simpl; by rewrite lookup_delete_eq|].
  destruct (blobPath y) as [q| |] eqn:Hy; [|done..]. simpl. rewrite lookup_delete_ne; [done|].
  intros ->. by apply E, (blobPath_inj y x q).
Qed.

Lemma Push_wf d r f : no_empty_name f -> fs_wf f -> fs_wf (Push d r f).2.
Proof.
  intros Hne Hwf. pose proof (Push_spec d r f Hne) as H. destruct (Push d r f) as [[[]|e|] f']; simpl.
  - destruct H as (p & Hp & _ & -> & _ & _ & Hv). intros x c. rewrite (blob_at_insert _ _ _ _ _ Hp).
    case_decide; [intros [= <-]; by subst|apply Hwf].
  - destruct H as [[-> _]|(Hl & _)]; [done|]. intros x c. rewrite (left_temp_blob_at _ _ _ _ Hl). apply Hwf.
  - done.
Qed.

Lemma Delete_wf d f : fs_wf f -> fs_wf (Delete d f).2.
Proof.
  intros Hwf. pose proof (Delete_spec d f) as H. destruct (Delete d f) as [[[]|e|] f']; simpl.
  - destruct H as (p & Hp & _ & ->). intros x c. rewrite (blob_at_delete _ _ _ _ Hp).
    case_decide; [done|apply Hwf].
  - destruct H as [-> _]. done.
  - done.
Qed.

(** C23: the blobs of an OCI layout change atomically and are verified.
    A push either stores under the digest exactly the bytes of the stream, after
    checking them against size and digest, and touches no other file, or fails
    and changes no blob, but when the content was not acceptable it may leave one new
    temporary file under [ingest/] with what was written; a delete removes exactly the blob of the digest;
    afterwards every stored blob still matches its digest, a pushed blob is fetched
    back and no other blob changed.  (A negative size is accepted for empty content.) *)
Theorem oci_Storage_atomic d r f :
  no_empty_name f -> fs_wf f ->
  fs_wf (Push d r f).2 /\ fs_wf (Delete d f).2 /\
  match Push d r f with
  | (Ok _, f') =>
      blob_at f (Digest d) = None
      /\ Fetch d f' = Ok (bytes_NewReader (content r)) /\ clean r
      /\ (Zlen (content r) = Size d \/ (Size d < 0)%Z /\ content r = [])
      /\ (forall x, x <> Digest d -> blob_at f' x = blob_at f x)
      /\ (exists p, forall q, q <> p -> fs_files f' !! q = fs_files f !! q)
      /\ Push d r f' = (Err (desc_err d ErrAlreadyExists), f')
  | (Err e, f') =>
      (forall x, blob_at f' x = blob_at f x) /\
      (f' = f \/ left_temp d f f' /\ blob_at f (Digest d) = None /\ ~ acceptable d r)
  | (Panic, _) => False
  end /\
  match Delete d f with
  | (Ok _, f') => blob_at f' (Digest d) = None /\ (forall x, x <> Digest d -> blob_at f' x = blob_at f x)
  | (Err e, f') => f' = f /\ blob_at f (Digest d) = None
  | (Panic, _) => False
  end.
Proof.
  intros Hne Hwf. split; [by apply Push_wf|]. split; [by apply Delete_wf|]. split.
  - pose proof (Push_spec d r f Hne) as H. destruct (Push d r f) as [[[]|e|] f']; [| |done].
    2: { destruct H as [[-> _]|H]; [by split; [|left]|]. split; [|by right]. intros x. by apply (left_temp_blob_at d), H. }
    destruct H as (p & Hp & Hn & -> & Hc & Hl & _).
    split; [unfold blob_at; by rewrite Hp|]. split.
    { unfold Fetch. rewrite (proj2 (desc_path_Ok d p) Hp). simpl. unfold os_Open. simpl. by rewrite lookup_insert_eq. }
    split; [done|]. split; [done|]. split; [|split].
    + intros x Hx. rewrite (blob_at_insert _ _ _ _ _ Hp). by rewrite decide_False.
    + exists p. intros q Hq. simpl. by rewrite lookup_insert_ne.
    + unfold Push. rewrite (proj2 (desc_path_Ok d p) Hp). unfold os_Stat. simpl.
      rewrite bool_decide_eq_true_2; [done|]. rewrite lookup_insert_eq. eauto.
  - pose proof (Delete_spec d f) as H. destruct (Delete d f) as [[[]|e|] f']; [|done..].
    destruct H as (p & Hp & _ & ->). split.
    + rewrite (blob_at_delete _ _ _ _ Hp). by rewrite decide_True.
    + intros x Hx. rewrite (blob_at_delete _ _ _ _ Hp). by rewrite decide_False.
Qed.

(** A push of content that does not match its descriptor fails and leaves its
    temporary file in the ingest directory: the clean-up removes the file named by
    the result, and the failing return has already emptied that name. *)
Theorem oci_Push_leaves_temp d r f p :
  no_empty_name f -> blobPath (Digest d) = Ok p -> blob_at f (Digest d) = None -> ~ acceptable d r ->
  exists e f', Push d r f = (Err e, f') /\ left_temp d f f'.
Proof.
  intros Hne Hp Hn Hacc. pose proof (Push_spec d r f Hne) as H. destruct (Push d r f) as [[[]|e|] f']; [|..|done].
  - by destruct H as (? & _ & _ & _ & ?).
  - exists e, f'. split; [done|]. destruct H as [[_ [Hx|[c Hc]]]|(H & _)]; [by apply Hx in Hp|congruence|done].
Qed.
End Storage.
End oci.

(** A blob pushed to an empty layout in two reads. *)
Lemma hex_alg_no_slash dgst :
  @digest_Validate HexDigest.hex_digest dgst = true ->
  has_char "/" (@digest_Algorithm HexDigest.hex_digest dgst) = false.
Proof.
  intros _. cbn [digest_Algorithm HexDigest.hex_digest]. destruct (HexDigest.parts dgst) as [[a e]|] eqn:E; [|done].
  by apply HexDigest.parts_Some in E as [[-> | ->] _].
Qed.

Import HexDigest.

Lemma oci_Storage_atomic_witness :
  oci.fs_wf (oci.Push 4 (NewDescriptorFromBytes "text/plain" (str_bytes "hello")) example_reader (mkFS ∅)).2.
Proof.
  apply (oci.oci_Storage_atomic 4 ltac:(lia) hex_alg_no_slash
    (NewDescriptorFromBytes "text/plain" (str_bytes "hello")) example_reader (mkFS ∅)); [done|].
  intros dgst c. unfold oci.blob_at. destruct (oci.blobPath dgst); [|done..]. simpl. by rewrite lookup_empty.
Defined.

(** The digest of other bytes. *)
Lemma oci_Push_leaves_temp_witness : exists e f',
  oci.Push 4 (NewDescriptorFromBytes "text/plain" (str_bytes "world")) example_reader (mkFS ∅) = (Err e, f') /\
  oci.left_temp (NewDescriptorFromBytes "text/plain" (str_bytes "world")) (mkFS ∅) f'.
Proof.
  eapply (oci.oci_Push_leaves_temp 4 ltac:(lia)); [reflexivity|reflexivity|vm_compute; reflexivity|].
  intros (_ & _ & v & Hv & Hc). injection Hv as <-. vm_compute in Hc. congruence.
Defined.
