(* ===== verification/OciStore.v ===== *)
(** The OCI image layout store: [content/oci/oci.go], the loading of
    [content/oci/readonlyoci.go], and [registry.Referrers] of
    [registry/repository.go], which [Delete] uses.  The locks are left out: every
    operation is one step. *)

From Stdlib Require Import Ascii String ZArith Lia.
From S2P Require Import Prelude Errors Descriptor Reader Manifest GoStrings.
From S2P Require Import Graph Resolver OciStorage.

#[local] Open Scope string_scope.

(** Decoders of the two JSON files of a layout. *)
Class LayoutJSON := {
  Decode_IndexFile : bytes -> result Index;
  Decode_Layout : bytes -> result string;      (* imageLayoutVersion *)
  Marshal_Layout : string -> result bytes
}.

Definition ImageLayoutVersion : string := "1.0.0".

Definition annotation (k : string) (d : OciDescriptor) : option string := default ∅ (Annotations d) !! k.

(** [deleteAnnotationRefName]. *)
Definition deleteAnnotationRefName (desc : OciDescriptor) : OciDescriptor :=
  match Annotations desc with
  | Some a =>
      match a !! AnnotationRefName with
      | None => desc
      | Some _ =>
          if decide (size a = 1) then set_Annotations None desc
          else set_Annotations (Some (base.delete AnnotationRefName a)) desc
      end
  | None => desc
  end.

Section registry_Referrers.
Context {GD : GoDigest} {MJ : ManifestJSON}.

(** The subject, artifact type and annotations of a predecessor; [None] for a
    node that is not a manifest with these fields. *)
Definition referrer_info (fetch : Fetcher) (node : OciDescriptor)
    : result (option (option OciDescriptor * string * option (gmap string string))) :=
  let mt := MediaType node in
  if String.eqb mt MediaTypeImageManifest then
    fetched ← FetchAll fetch node; m ← Unmarshal_Manifest fetched;
    let t := if String.eqb (m_ArtifactType m) EmptyString then MediaType (m_Config m) else m_ArtifactType m in
    Ok (Some (m_Subject m, t, m_Annotations m))
  else if String.eqb mt MediaTypeImageIndex then
    fetched ← FetchAll fetch node; i ← Unmarshal_Index fetched;
    Ok (Some (i_Subject i, i_ArtifactType i, i_Annotations i))
  else if String.eqb mt spec_MediaTypeArtifactManifest then
    fetched ← FetchAll fetch node; a ← Unmarshal_Artifact fetched;
    Ok (Some (a_Subject a, a_ArtifactType a, a_Annotations a))
  else Ok None.

(** The loop of [registry.Referrers] over the predecessors of [desc]. *)
Fixpoint referrers_loop (fetch : Fetcher) (desc : OciDescriptor) (artifactType : string)
    (predecessors : list OciDescriptor) : result (list OciDescriptor) :=
  match predecessors with
  | [] => Ok []
  | node :: rest =>
      info ← referrer_info fetch node;
      results ← referrers_loop fetch desc artifactType rest;
      Ok match info with
         | Some (Some subject, t, a) =>
             if Equal subject desc && (String.eqb artifactType EmptyString || String.eqb artifactType t)
             then set_Annotations a (set_ArtifactType t node) :: results
             else results
         | _ => results
         end
  end.

(** [registry.Referrers] on a store without the referrers API. *)
Definition graph_Referrers (fetch : Fetcher) (predecessors : OciDescriptor -> list OciDescriptor)
    (desc : OciDescriptor) (artifactType : string) : result (list OciDescriptor) :=
  if negb (IsManifest desc) then Err (EWrap "the descriptor is not a manifest" ErrUnsupported)
  else referrers_loop fetch desc artifactType (predecessors desc).
End registry_Referrers.

Module ocistore.

Record Store := mkStore {
  AutoSaveIndex : bool;
  AutoGC : bool;
  fs : FS;
  index : Index;
  tagResolver : resolver.Memory;
  graph_ : graph.Memory
}.

Section Store.
Context {GD : GoDigest} {MJ : ManifestJSON} {MO : MapOrder} {LJ : LayoutJSON} (bufSize : nat).

Definition set_fs (f : FS) (s : Store) : Store :=
  mkStore (AutoSaveIndex s) (AutoGC s) f (index s) (tagResolver s) (graph_ s).
Definition set_index (i : Index) (s : Store) : Store :=
  mkStore (AutoSaveIndex s) (AutoGC s) (fs s) i (tagResolver s) (graph_ s).
Definition set_resolver (r : resolver.Memory) (s : Store) : Store :=
  mkStore (AutoSaveIndex s) (AutoGC s) (fs s) (index s) r (graph_ s).
Definition set_graph (g : graph.Memory) (s : Store) : Store :=
  mkStore (AutoSaveIndex s) (AutoGC s) (fs s) (index s) (tagResolver s) g.

Definition Fetch (target : OciDescriptor) (s : Store) : result Reader := oci.Fetch target (fs s).
Definition Exists (target : OciDescriptor) (s : Store) : result bool := oci.Exists target (fs s).
Definition Predecessors (node : OciDescriptor) (s : Store) : list OciDescriptor :=
  graph.Predecessors node (graph_ s).

(** ** The index file *)

(** The entries [saveIndex] writes: one per tag, then the untagged digests. *)
Definition tagged_entry (p : string * OciDescriptor) : OciDescriptor :=
  set_Annotations (Some (<[AnnotationRefName := p.1]> (default ∅ (Annotations p.2)))) p.2.

Definition is_tag (p : string * OciDescriptor) : bool := negb (String.eqb p.1 (Digest p.2)).

Definition index_manifests (refMap : gmap string OciDescriptor) : list OciDescriptor :=
  let tagged := List.filter is_tag (range_map refMap) in
  let digests : gset string := list_to_set ((fun p => Digest p.2) <$> tagged) in
  let untagged := List.filter
    (fun p => negb (is_tag p) && negb (bool_decide (Digest p.2 ∈ digests))) (range_map refMap) in
  ((tagged_entry <$> tagged) ++ ((fun p => deleteAnnotationRefName p.2) <$> untagged))%list.

Definition set_Manifests (l : list OciDescriptor) (i : Index) : Index :=
  mkIndex (i_SchemaVersion i) (i_MediaType i) (i_ArtifactType i) l (i_Subject i) (i_Annotations i).

Definition writeIndexFile : M Store unit := fun s =>
  match Marshal_Index (index s) with
  | Ok indexJSON => (Ok tt, set_fs (os_WriteFile oci.ImageIndexFile indexJSON (fs s)) s)
  | Err e => (Err (EWrap "failed to marshal index file" e), s)
  | Panic => (Panic, s)
  end.

Definition saveIndex : M Store unit := fun s =>
  writeIndexFile (set_index (set_Manifests (index_manifests (resolver.Map (tagResolver s))) (index s)) s).

Definition save_if_auto : M Store unit := fun s =>
  if AutoSaveIndex s then saveIndex s else (Ok tt, s).

(** ** Tagging *)

Definition tag (desc : OciDescriptor) (reference : string) : M Store unit := fun s =>
  let dgst := Digest desc in
  let r := if String.eqb reference dgst then tagResolver s
           else resolver.Tag desc dgst (tagResolver s) in
  save_if_auto (set_resolver (resolver.Tag desc reference r) s).

Definition validateReference (ref : string) : result unit :=
  if String.eqb ref EmptyString then ErrS ErrMissingReference else Ok tt.

Definition Tag (desc : OciDescriptor) (reference : string) : M Store unit :=
  _ ← reads (fun _ => validateReference reference);
  ok ← reads (Exists desc);
  if ok : bool then tag desc reference
  else fails (oci.desc_err desc ErrNotFound).

Definition Untag (reference : string) : M Store unit :=
  if String.eqb reference EmptyString then fails ErrMissingReference
  else
    desc ← on_err (EWrap "resolving reference") (reads (fun s => resolver.Resolve reference (tagResolver s)));
    if String.eqb reference (Digest desc)
    then fails (EWrap "reference is a digest and not a tag" ErrInvalidReference)
    else fun s => save_if_auto (set_resolver (resolver.Untag reference (tagResolver s)) s).

(** [resolveBlob]. *)
Definition resolveBlob (f : FS) (dgst : string) : result OciDescriptor :=
  match oci.blobPath dgst with
  | Err e => if errors_Is e ErrInvalidDigest then ErrS ErrNotFound else Err e
  | Panic => Panic
  | Ok path =>
      match fs_files f !! path with
      | None => ErrS ErrNotFound
      | Some c => Ok (mkOci DefaultMediaType dgst (Zlen c) [] None [] None EmptyString)
      end
  end.

Definition Resolve (reference : string) (s : Store) : result OciDescriptor :=
  if String.eqb reference EmptyString then ErrS ErrMissingReference
  else match resolver.Resolve reference (tagResolver s) with
       | Err e => if errors_Is e ErrNotFound then resolveBlob (fs s) reference else Err e
       | Panic => Panic
       | Ok desc => if String.eqb reference (Digest desc) then Ok (Plain desc) else Ok desc
       end.

(** [listTags]: sorted, after [last]. *)
Definition listTags (r : resolver.Memory) (last : string) : list string :=
  sort_strings
    (fst <$> List.filter (fun p => is_tag p && (String.eqb last EmptyString || negb (String.leb p.1 last)))
               (range_map (resolver.Map r))).

Definition Tags {A} (last : string) (fn : list string -> A) (s : Store) : A := fn (listTags (tagResolver s) last).

(** ** Pushing *)

Definition Push (expected : OciDescriptor) (reader : Reader) : M Store unit := fun s =>
  match oci.Push bufSize expected reader (fs s) with
  | (Err e, f) => (Err e, set_fs f s)
  | (Panic, f) => (Panic, set_fs f s)
  | (Ok _, f) =>
      match graph.Index (fun d => oci.Fetch d f) expected (graph_ s) with
      | (Err e, g) => (Err e, set_graph g (set_fs f s))
      | (Panic, g) => (Panic, set_graph g (set_fs f s))
      | (Ok _, g) =>
          if IsManifest expected then tag expected (Digest expected) (set_graph g (set_fs f s))
          else (Ok tt, set_graph g (set_fs f s))
      end
  end.

(** ** Opening a layout *)

Definition validateOCILayout (version : string) : result unit :=
  if String.eqb version ImageLayoutVersion then Ok tt else ErrS ErrUnsupportedVersion.

Definition ensureOCILayoutFile (f : FS) : result FS :=
  match fs_files f !! oci.ImageLayoutFile with
  | None =>
      b ← map_err (EWrap "failed to marshal OCI layout file") (Marshal_Layout ImageLayoutVersion);
      Ok (os_WriteFile oci.ImageLayoutFile b f)
  | Some b =>
      version ← map_err (EWrap "failed to decode OCI layout file") (Decode_Layout b);
      _ ← validateOCILayout version; Ok f
  end.

(** The loop of [loadIndex]; [fuel] bounds each [IndexAll]. *)
Definition load_tags (desc : OciDescriptor) (r : resolver.Memory) : resolver.Memory :=
  let r := resolver.Tag (deleteAnnotationRefName desc) (Digest desc) r in
  match annotation AnnotationRefName desc with
  | Some ref => if String.eqb ref EmptyString then r else resolver.Tag desc ref r
  | None => r
  end.

Fixpoint loadIndex (fuel : nat) (fetch : Fetcher) (manifests : list OciDescriptor)
    (r : resolver.Memory) (g : graph.Memory) : option (result (resolver.Memory * graph.Memory)) :=
  match manifests with
  | [] => Some (Ok (r, g))
  | desc :: rest =>
      match graph.IndexAll fetch fuel (Plain desc) g with
      | None => None
      | Some (Ok _, g') => loadIndex fuel fetch rest (load_tags desc r) g'
      | Some (Err e, _) => Some (Err e)
      | Some (Panic, _) => Some Panic
      end
  end.

Definition empty_index : Index := mkIndex 2 MediaTypeImageIndex EmptyString [] None None.

Definition loadIndexFile (fuel : nat) (s : Store) : option (result Store) :=
  match fs_files (fs s) !! oci.ImageIndexFile with
  | None =>
      Some match writeIndexFile (set_index empty_index s) with
           | (Ok _, s') => Ok s'
           | (Err e, _) => Err e
           | (Panic, _) => Panic
           end
  | Some b =>
      match map_err (EWrap "failed to decode index file") (Decode_IndexFile b) with
      | Ok i =>
          match loadIndex fuel (fun d => oci.Fetch d (fs s)) (i_Manifests i) (tagResolver s) (graph_ s) with
          | None => None
          | Some (Ok (r, g)) => Some (Ok (set_graph g (set_resolver r (set_index i s))))
          | Some (Err e) => Some (Err e)
          | Some Panic => Some Panic
          end
      | Err e => Some (Err e)
      | Panic => Some Panic
      end
  end.

Definition New (fuel : nat) (f : FS) : option (result Store) :=
  match map_err (EWrap "invalid OCI Image Layout") (ensureOCILayoutFile f) with
  | Ok f' =>
      (fun r => map_err (EWrap "invalid OCI Image Index") r) <$>
        loadIndexFile fuel (mkStore true true f' empty_index resolver.NewMemory graph.NewMemory)
  | Err e => Some (Err e)
  | Panic => Some Panic
  end.

(** ** Deleting *)

(** The loop of [delete] over the references: those of [target] are removed. *)
Definition untag_all (target : OciDescriptor) (r : resolver.Memory) : resolver.Memory * bool :=
  foldl (fun '(r, untagged) p =>
           if Equal p.2 target then (resolver.Untag p.1 r, true) else (r, untagged))
    (r, false) (range_map (resolver.Map r)).

Definition delete (target : OciDescriptor) : M Store (list OciDescriptor) := fun s =>
  let '(r, untagged) := untag_all target (tagResolver s) in
  let '(danglings, g) := graph.Remove target (graph_ s) in
  let s1 := set_graph g (set_resolver r s) in
  let '(res, s2) := if untagged && AutoSaveIndex s1 then saveIndex s1 else (Ok tt, s1) in
  match res with
  | Err e => (Err e, s2)
  | Panic => (Panic, s2)
  | Ok _ =>
      let '(res, f) := oci.Delete target (fs s2) in
      ((fun _ => danglings) <$> res, set_fs f s2)
  end.

(** [isTagged]: some reference other than the digest. *)
Definition isTagged (desc : OciDescriptor) (s : Store) : bool :=
  let tagSet := resolver.TagSet desc (tagResolver s) in
  if bool_decide (Digest desc ∈ tagSet) then bool_decide (1 < size tagSet)
  else bool_decide (0 < size tagSet).

(** The loop of [Delete]; [fuel] bounds the number of nodes deleted. *)
Fixpoint delete_loop (fuel : nat) (deleteQueue : list OciDescriptor) (s : Store) : option (result unit * Store) :=
  match deleteQueue with
  | [] => Some (Ok tt, s)
  | head :: queue =>
      match fuel with
      | O => None
      | S fuel' =>
          match (if AutoGC s && IsManifest head
                 then graph_Referrers (fun d => Fetch d s) (fun d => Predecessors d s) head EmptyString
                 else Ok []) with
          | Err e => Some (Err e, s)
          | Panic => Some (Panic, s)
          | Ok referrers =>
              match delete head s with
              | (Err e, s') => Some (Err e, s')
              | (Panic, s') => Some (Panic, s')
              | (Ok danglings, s') =>
                  let more := if AutoGC s' then List.filter (fun d => negb (isTagged d s')) danglings else [] in
                  delete_loop fuel' (queue ++ referrers ++ more)%list s'
              end
          end
      end
  end.

Definition Delete (fuel : nat) (target : OciDescriptor) (s : Store) : option (result unit * Store) :=
  delete_loop fuel [target] s.

(** ** Garbage collection *)

(** The first loop of [gcIndex]: the tagged manifests. *)
Fixpoint gc_tagged (fuel : nat) (fetch : Fetcher) (refs : list (string * OciDescriptor))
    (r : resolver.Memory) (g : graph.Memory) : option (result (resolver.Memory * graph.Memory)) :=
  match refs with
  | [] => Some (Ok (r, g))
  | (ref, desc) :: rest =>
      if String.eqb ref (Digest desc) then gc_tagged fuel fetch rest r g
      else
        let r := resolver.Tag desc ref (resolver.Tag (deleteAnnotationRefName desc) (Digest desc) r) in
        match graph.IndexAll fetch fuel (Plain desc) g with
        | None => None
        | Some (Ok _, g') => gc_tagged fuel fetch rest r g'
        | Some (Err e, _) => Some (Err e)
        | Some (Panic, _) => Some Panic
        end
  end.

(** The innermost loop of [gcIndex].  The subject found in one round is a new
    variable of the loop body, so every round asks for the subject of [desc]. *)
Fixpoint gc_subject (fuel : nat) (fetch : Fetcher) (desc : OciDescriptor) (g : graph.Memory)
    : option (result bool) :=
  match fuel with
  | O => None
  | S fuel' =>
      match Subject fetch desc with
      | Err e => Some (Err e)
      | Panic => Some Panic
      | Ok None => Some (Ok false)
      | Ok (Some subject) =>
          if graph.Exists subject g then Some (Ok true) else gc_subject fuel' fetch desc g
      end
  end.

(** The second loop of [gcIndex]: untagged manifests attached to the graph. *)
Fixpoint gc_referrers (fuel : nat) (fetch : Fetcher) (tagged : gset string)
    (refs : list (string * OciDescriptor)) (r : resolver.Memory) (g : graph.Memory)
    : option (result (resolver.Memory * graph.Memory)) :=
  match refs with
  | [] => Some (Ok (r, g))
  | (ref, desc) :: rest =>
      if negb (String.eqb ref (Digest desc)) || bool_decide (Digest desc ∈ tagged)
      then gc_referrers fuel fetch tagged rest r g
      else
        match gc_subject fuel fetch desc g with
        | None => None
        | Some (Err e) => Some (Err e)
        | Some Panic => Some Panic
        | Some (Ok false) => gc_referrers fuel fetch tagged rest r g
        | Some (Ok true) =>
            let r := resolver.Tag (deleteAnnotationRefName desc) (Digest desc) r in
            match graph.IndexAll fetch fuel (Plain desc) g with
            | None => None
            | Some (Ok _, g') => gc_referrers fuel fetch tagged rest r g'
            | Some (Err e, _) => Some (Err e)
            | Some (Panic, _) => Some Panic
            end
        end
  end.

Definition gcIndex (fuel : nat) (s : Store) : option (result Store) :=
  let refs := range_map (resolver.Map (tagResolver s)) in
  let fetch d := oci.Fetch d (fs s) in
  let tagged : gset string := list_to_set ((fun p => Digest p.2) <$> List.filter is_tag refs) in
  match gc_tagged fuel fetch refs resolver.NewMemory graph.NewMemory with
  | None => None
  | Some (Err e) => Some (Err e)
  | Some Panic => Some Panic
  | Some (Ok (r, g)) =>
      match gc_referrers fuel fetch tagged refs r g with
      | None => None
      | Some (Err e) => Some (Err e)
      | Some Panic => Some Panic
      | Some (Ok (r, g)) => Some (Ok (set_graph g (set_resolver r s)))
      end
  end.

Definition isKnownAlgorithm (alg : string) : bool := mem_string alg ["sha256"; "sha512"; "sha384"].

(** The digest of the blob at a path of the layout, as the directory walk of [GC]
    sees it; [None] for the entries it skips. *)
Definition path_digest (p : string) : option string :=
  match cut "/" p with
  | Some (dir, rest) =>
      if negb (String.eqb dir oci.ImageBlobsDir) then None
      else match cut "/" rest with
           | Some (alg, name) =>
               if has_char "/" name || negb (isKnownAlgorithm alg) then None
               else let d := alg +:+ ":" +:+ name in if digest_Validate d then Some d else None
           | None => None
           end
  | None => None
  end.

Definition garbage (reachable : gset string) (p : string) : bool :=
  match path_digest p with
  | Some d => negb (bool_decide (d ∈ reachable))
  | None => false
  end.

Definition gc_blobs (reachable : gset string) (f : FS) : FS :=
  foldl (fun f p => if garbage reachable p then (os_Remove p f).2 else f) f (elements (dom (fs_files f))).

Definition GC (fuel : nat) (s : Store) : option (result unit * Store) :=
  match gcIndex fuel s with
  | None => None
  | Some (Err e) => Some (Err (EWrap "unable to reload index" e), s)
  | Some Panic => Some (Panic, s)
  | Some (Ok s') => Some (Ok tt, set_fs (gc_blobs (graph.DigestSet (graph_ s')) (fs s')) s')
  end.
End Store.
End ocistore.

(** The read-only store of [readonlyoci.go], over any file system. *)
Module readonlyoci.

Record ReadOnlyStore := mkReadOnlyStore {
  fsys : FS;
  tagResolver : resolver.Memory;
  graph_ : graph.Memory
}.

Section ReadOnlyStore.
Context {GD : GoDigest} {MJ : ManifestJSON} {MO : MapOrder} {LJ : LayoutJSON}.

Definition validateOCILayoutFile (f : FS) : result unit :=
  b ← map_err (EWrap "failed to open OCI layout file") (os_Open oci.ImageLayoutFile f);
  version ← map_err (EWrap "failed to decode OCI layout file") (Decode_Layout b);
  ocistore.validateOCILayout version.

Definition loadIndexFile (fuel : nat) (s : ReadOnlyStore) : option (result ReadOnlyStore) :=
  match map_err (EWrap "failed to open index file") (os_Open oci.ImageIndexFile (fsys s)) with
  | Ok b =>
      match map_err (EWrap "failed to decode index file") (Decode_IndexFile b) with
      | Ok i =>
          match ocistore.loadIndex fuel (fun d => oci.Fetch d (fsys s)) (i_Manifests i) (tagResolver s) (graph_ s) with
          | None => None
          | Some (Ok (r, g)) => Some (Ok (mkReadOnlyStore (fsys s) r g))
          | Some (Err e) => Some (Err e)
          | Some Panic => Some Panic
          end
      | Err e => Some (Err e)
      | Panic => Some Panic
      end
  | Err e => Some (Err e)
  | Panic => Some Panic
  end.

Definition NewFromFS (fuel : nat) (f : FS) : option (result ReadOnlyStore) :=
  match map_err (EWrap "invalid OCI Image Layout") (validateOCILayoutFile f) with
  | Ok _ =>
      (fun r => map_err (EWrap "invalid OCI Image Index") r) <$>
        loadIndexFile fuel (mkReadOnlyStore f resolver.NewMemory graph.NewMemory)
  | Err e => Some (Err e)
  | Panic => Some Panic
  end.

Definition Fetch (target : OciDescriptor) (s : ReadOnlyStore) : result Reader := oci.Fetch target (fsys s).
Definition Exists (target : OciDescriptor) (s : ReadOnlyStore) : result bool := oci.Exists target (fsys s).

Definition Resolve (reference : string) (s : ReadOnlyStore) : result OciDescriptor :=
  if String.eqb reference EmptyString then ErrS ErrMissingReference
  else match resolver.Resolve reference (tagResolver s) with
       | Err e => if errors_Is e ErrNotFound then ocistore.resolveBlob (fsys s) reference else Err e
       | Panic => Panic
       | Ok desc => if String.eqb reference (Digest desc) then Ok (Plain desc) else Ok desc
       end.

Definition Predecessors (node : OciDescriptor) (s : ReadOnlyStore) : list OciDescriptor :=
  graph.Predecessors node (graph_ s).

Definition Tags {A} (last : string) (fn : list string -> A) (s : ReadOnlyStore) : A :=
  fn (ocistore.listTags (tagResolver s) last).
End ReadOnlyStore.
End readonlyoci.
