(* ===== verification/OciStoreCorrect.v ===== *)
(** Properties of the OCI layout store: what a saved index gives back when the
    layout is opened again, what deleting and garbage collection remove, and
    when garbage collection does not end. *)

From Stdlib Require Import Ascii String ZArith Lia.
From S2P Require Import Prelude Errors Descriptor Reader Manifest GoStrings.
From S2P Require Import Graph Resolver OciStorage OciStore.
Import ocistore.

#[local] Open Scope string_scope.

Section gc.
Context {GD : GoDigest} {MJ : ManifestJSON} {MO : MapOrder} {LJ : LayoutJSON}.

Lemma oci_Fetch_key f d d' : FromOCI d = FromOCI d' -> oci.Fetch d f = oci.Fetch d' f.
Proof.
  intros E. injection E as Hm Hd _. unfold oci.Fetch, oci.desc_path, oci.desc_err. by rewrite Hm, Hd.
Qed.

(** ** Garbage collection that does not end *)

Lemma gc_subject_diverges fuel fetch desc subject g :
  Subject fetch desc = Ok (Some subject) -> graph.Exists subject g = false ->
  gc_subject fuel fetch desc g = None.
Proof. intros Hs Hg. induction fuel as [|fuel IH]; simpl; [done|]. by rewrite Hs, Hg. Qed.

Lemma gc_tagged_none fuel fetch refs r g :
  (forall ref d, (ref, d) ∈ refs -> ref = Digest d) -> gc_tagged fuel fetch refs r g = Some (Ok (r, g)).
Proof.
  induction refs as [|[ref d] refs IH]; intros H; simpl; [done|].
  rewrite (H ref d) by (by left). rewrite String.eqb_refl. apply IH. intros. apply H. by right.
Qed.

Lemma gc_referrers_diverges fuel fetch refs r :
  (forall ref d, (ref, d) ∈ refs -> ref = Digest d /\ exists o, Subject fetch d = Ok o) ->
  (exists ref d subject, (ref, d) ∈ refs /\ Subject fetch d = Ok (Some subject)) ->
  gc_referrers fuel fetch ∅ refs r graph.NewMemory = None.
Proof.
  revert r. induction refs as [|[ref d] refs IH]; intros r Hall Hex; simpl.
  { destruct Hex as (? & ? & ? & Hin & _). by apply elem_of_nil in Hin. }
  destruct (Hall ref d) as [-> [o Ho]]; [by left|]. rewrite String.eqb_refl. cbn [negb orb].
  rewrite bool_decide_eq_false_2 by set_solver. destruct o as [subject|].
  - by rewrite (gc_subject_diverges fuel fetch d subject).
  - destruct fuel as [|fuel]; [done|]. cbn [gc_subject]. rewrite Ho. apply IH.
    + intros ref' d' Hin. apply Hall. by right.
    + destruct Hex as (ref' & d' & subject & Hin & Hs). exists ref', d', subject. split; [|done].
      apply elem_of_cons in Hin as [[= -> ->]|Hin]; [congruence|done].
Qed.

(** C25: garbage collection of a store without tags never ends when some manifest
    of the store has a subject: however many rounds are allowed, [GC] does not
    return, since every round asks for the subject of the same manifest. *)
Theorem oci_GC_diverges (s : Store) (fuel : nat) :
  (forall ref d, resolver.index (tagResolver s) !! ref = Some d ->
     ref = Digest d /\ exists o, Subject (fun d => oci.Fetch d (fs s)) d = Ok o) ->
  (exists ref d subject, resolver.index (tagResolver s) !! ref = Some d
     /\ Subject (fun d => oci.Fetch d (fs s)) d = Ok (Some subject)) ->
  GC fuel s = None.
Proof.
  intros Hall (ref & d & subject & Hd & Hs). unfold GC, gcIndex, resolver.Map.
  rewrite gc_tagged_none.
  2: { intros ref' d' Hin%elem_of_range_map. by apply Hall in Hin as [? _]. }
  assert (List.filter is_tag (range_map (resolver.index (tagResolver s))) = []) as ->.
  { destruct (List.filter is_tag _) as [|[ref' d'] l] eqn:E; [done|]. exfalso.
    assert (In (ref', d') (List.filter is_tag (range_map (resolver.index (tagResolver s))))) as Hin
      by (rewrite E; by left).
    apply List.filter_In in Hin as [Hin%list_elem_of_In%elem_of_range_map Ht].
    apply Hall in Hin as [-> _]. unfold is_tag in Ht. simpl in Ht. by rewrite String.eqb_refl in Ht. }
  rewrite gc_referrers_diverges; [done| |].
  - intros ref' d' Hin%elem_of_range_map. by apply Hall.
  - exists ref, d, subject. split; [by apply elem_of_range_map|done].
Qed.

(** ** What garbage collection keeps *)

(** A reference that is the digest of some entry is not a tag. *)
Definition sane (m : gmap string OciDescriptor) : Prop :=
  forall ref d ref' d', m !! ref = Some d -> m !! ref' = Some d' -> ref = Digest d' -> ref = Digest d.

Lemma is_tag_spec ref d : is_tag (ref, d) = true <-> ref <> Digest d.
Proof. unfold is_tag. simpl. destruct (String.eqb_spec ref (Digest d)); simpl; split; congruence. Qed.

Lemma gc_tagged_graph fuel fetch refs r g r' g' :
  (forall d d', FromOCI d = FromOCI d' -> fetch d = fetch d') ->
  gc_tagged fuel fetch refs r g = Some (Ok (r', g')) ->
  (forall k, is_Some (graph.nodes g !! k) -> is_Some (graph.nodes g' !! k)) /\
  (forall ref d n l, (ref, d) ∈ refs -> ref <> Digest d -> graph.reach fetch (Plain d) n ->
     Successors fetch n = Ok l -> is_Some (graph.nodes g' !! FromOCI n)).
Proof.
  intros Hkey. revert r g. induction refs as [|[ref d] refs IH]; intros r g; cbn [gc_tagged].
  { intros [= <- <-]. split; [done|]. intros ? ? ? ? Hin. by apply elem_of_nil in Hin. }
  destruct (String.eqb_spec ref (Digest d)) as [->|Hne].
  - intros H. destruct (IH _ _ H) as [Hm Hr]. split; [done|].
    intros ref' d' n l [[= -> ->]|Hin]%elem_of_cons Ht; [done|]. by apply (Hr ref').
  - destruct (graph.IndexAll fetch fuel (Plain d) g) as [[[[]|e|] g1]|] eqn:E; try done.
    intros H. destruct (IH _ _ H) as [Hm Hr]. split.
    + intros k Hk. apply Hm. by apply (graph.index_all_mono fetch fuel [Plain d] ∅ g (Ok tt) g1 k E).
    + intros ref' d' n l [[= -> ->]|Hin]%elem_of_cons Ht Hreach HS; [|by apply (Hr ref' d' n l)].
      apply Hm. by apply (graph.index_all_reach fetch Hkey fuel (Plain d) g g1 n l E).
Qed.

Lemma gc_tagged_tags fuel fetch refs r g r' g' (T : string -> Prop) :
  NoDup refs.*1 ->
  (forall ref d, (ref, d) ∈ refs -> ref <> Digest d -> T ref) ->
  (forall ref d, (ref, d) ∈ refs -> ~ T (Digest d)) ->
  gc_tagged fuel fetch refs r g = Some (Ok (r', g')) ->
  (forall ref d, (ref, d) ∈ refs -> ref <> Digest d -> resolver.index r' !! ref = Some d) /\
  (forall x, T x -> x ∉ refs.*1 -> resolver.index r' !! x = resolver.index r !! x).
Proof.
  revert r g. induction refs as [|[ref d] refs IH]; intros r g Hnd HT Hd; cbn [gc_tagged].
  { intros [= <- <-]. split; [|done]. intros ? ? Hin. by apply elem_of_nil in Hin. }
  apply list.NoDup_cons in Hnd as [Hni Hnd].
  assert (HT' : forall ref0 d0, (ref0, d0) ∈ refs -> ref0 <> Digest d0 -> T ref0)
    by (intros ref0 d0 H; apply (HT ref0 d0); by right).
  assert (Hd' : forall ref0 d0, (ref0, d0) ∈ refs -> ~ T (Digest d0))
    by (intros ref0 d0 H; apply (Hd ref0 d0); by right).
  destruct (String.eqb_spec ref (Digest d)) as [->|Hne].
  - intros H. destruct (IH _ _ Hnd HT' Hd' H) as [H1 H2]. split.
    + intros ref' d' [[= -> ->]|Hin]%elem_of_cons Ht; [done|by apply H1].
    + intros x Hx Hni'. apply H2; [done|]. intros Hin. apply Hni'. by right.
  - destruct (graph.IndexAll fetch fuel (Plain d) g) as [[[[]|e|] g1]|] eqn:E; try done.
    intros H. destruct (IH _ _ Hnd HT' Hd' H) as [H1 H2].
    assert (T ref) as Href by (apply (HT ref d); [by left|done]). split.
    + intros ref' d' [[= -> ->]|Hin]%elem_of_cons Ht; [|by apply H1].
      rewrite H2 by done. simpl. by rewrite lookup_insert_eq.
    + intros x Hx Hni'. rewrite H2; [|done|intros Hin; apply Hni'; by right]. simpl.
      rewrite lookup_insert_ne by (intros <-; apply Hni'; by left).
      rewrite lookup_insert_ne; [done|]. intros <-. by apply (Hd ref d); [left|].
Qed.

Lemma gc_referrers_mono fuel fetch tagged refs r g r' g' (T : string -> Prop) :
  (forall ref d, (ref, d) ∈ refs -> ~ T (Digest d)) ->
  gc_referrers fuel fetch tagged refs r g = Some (Ok (r', g')) ->
  (forall k, is_Some (graph.nodes g !! k) -> is_Some (graph.nodes g' !! k)) /\
  (forall x, T x -> resolver.index r' !! x = resolver.index r !! x).
Proof.
  revert r g. induction refs as [|[ref d] refs IH]; intros r g Hd; cbn [gc_referrers].
  { by intros [= <- <-]. }
  assert (Hd' : forall ref0 d0, (ref0, d0) ∈ refs -> ~ T (Digest d0))
    by (intros ref0 d0 H; apply (Hd ref0 d0); by right).
  destruct (_ || _); [by apply IH|].
  destruct (gc_subject fuel fetch d g) as [[[]|e|]|]; try done; [|by apply IH].
  destruct (graph.IndexAll fetch fuel (Plain d) g) as [[[[]|e|] g1]|] eqn:E; try done.
  intros H. destruct (IH _ _ Hd' H) as [H1 H2]. split.
  - intros k Hk. apply H1. by apply (graph.index_all_mono fetch fuel [Plain d] ∅ g (Ok tt) g1 k E).
  - intros x Hx. rewrite H2 by done. simpl. rewrite lookup_insert_ne; [done|].
    intros <-. by apply (Hd ref d); [left|].
Qed.

Lemma gc_blobs_spec reachable f p :
  fs_files (gc_blobs reachable f) !! p = if garbage reachable p then None else fs_files f !! p.
Proof.
  assert (forall l f0, fs_files (foldl (fun f p => if garbage reachable p then (os_Remove p f).2 else f) f0 l) !! p
    = if garbage reachable p && bool_decide (p ∈ l) then None else fs_files f0 !! p) as Hl.
  { induction l as [|q l IH]; intros f0; cbn [foldl].
    - rewrite (bool_decide_eq_false_2 (p ∈ [])) by (by apply not_elem_of_nil). by rewrite andb_false_r.
    - rewrite IH. destruct (garbage reachable p) eqn:Gp; cbn [andb].
      + destruct (decide (p = q)) as [->|Hne].
        * rewrite (bool_decide_eq_true_2 (q ∈ q :: l)) by (by left). rewrite Gp. case_bool_decide; [done|].
          unfold os_Remove. destruct (fs_files f0 !! q) eqn:E; simpl; [by rewrite lookup_delete_eq|done].
        * assert (bool_decide (p ∈ q :: l) = bool_decide (p ∈ l)) as ->
            by (apply bool_decide_ext; rewrite elem_of_cons; tauto).
          case_bool_decide; [done|]. destruct (garbage reachable q); [|done].
          unfold os_Remove. destruct (fs_files f0 !! q); simpl; [by rewrite lookup_delete_ne|done].
      + destruct (garbage reachable q) eqn:Gq; [|done].
        unfold os_Remove. destruct (fs_files f0 !! q); simpl; [|done].
        rewrite lookup_delete_ne; [done|]. congruence. }
  unfold gc_blobs. rewrite Hl. destruct (garbage reachable p); [|done]. cbn [andb].
  case_bool_decide as Hp; [done|]. rewrite elem_of_elements, elem_of_dom in Hp. by apply eq_None_not_Some.
Qed.

Context {GL : GoDigestLaws GD}.
Hypothesis alg_no_slash : forall dgst, digest_Validate dgst = true ->
  has_char "/" (digest_Algorithm dgst) = false.

(** The walk of [GC] sees a blob under its own digest, or skips it. *)
Lemma path_digest_blobPath dgst p d :
  oci.blobPath dgst = Ok p -> path_digest p = Some d -> d = dgst.
Proof.
  unfold oci.blobPath. destruct (digest_Validate dgst) eqn:Hv; [|done]. intros [= <-].
  unfold path_digest.
  replace (cut "/" (oci.ImageBlobsDir +:+ "/" +:+ digest_Algorithm dgst +:+ "/" +:+ digest_Encoded dgst))
    with (Some (oci.ImageBlobsDir, digest_Algorithm dgst +:+ "/" +:+ digest_Encoded dgst)) by reflexivity.
  rewrite String.eqb_refl. cbn [negb].
  change ("/" +:+ digest_Encoded dgst) with (String.String "/" (digest_Encoded dgst)).
  rewrite cut_app by (by apply alg_no_slash).
  destruct (_ || _); [done|]. rewrite <- (digest_split dgst Hv), Hv. by intros [= <-].
Qed.

(** C24: when garbage collection returns successfully, every tag resolves as
    before, every node reachable from a tagged manifest through readable
    manifests keeps its blob, a blob the collector knows is left exactly when its
    digest is in the new graph, and no other file is touched. *)
Theorem oci_GC_correct (s s' : Store) (fuel : nat) :
  sane (resolver.index (tagResolver s)) ->
  GC fuel s = Some (Ok tt, s') ->
  (forall ref d, resolver.index (tagResolver s) !! ref = Some d -> ref <> Digest d ->
     resolver.index (tagResolver s') !! ref = Some d /\
     forall n l, graph.reach (fun d => oci.Fetch d (fs s)) (Plain d) n ->
       Successors (fun d => oci.Fetch d (fs s)) n = Ok l ->
       oci.blob_at (fs s') (Digest n) = oci.blob_at (fs s) (Digest n)) /\
  (forall p dgst c, path_digest p = Some dgst ->
     fs_files (fs s') !! p = Some c <->
     fs_files (fs s) !! p = Some c /\ dgst ∈ graph.DigestSet (graph_ s')) /\
  (forall p, path_digest p = None -> fs_files (fs s') !! p = fs_files (fs s) !! p).
Proof.
  intros Hsane HGC. unfold GC, gcIndex, resolver.Map in HGC.
  set (fetch := fun d => oci.Fetch d (fs s)) in *. set (m := resolver.index (tagResolver s)) in *.
  destruct (gc_tagged fuel fetch (range_map m) _ _) as [[[r1 g1]|e|]|] eqn:E1; try done.
  destruct (gc_referrers _ _ _ _ _ _) as [[[r2 g2]|e|]|] eqn:E2; try done.
  injection HGC as <-. cbn [fs set_fs graph_ set_graph set_resolver tagResolver].
  set (T := fun x => exists d, m !! x = Some d /\ x <> Digest d).
  assert (HT : forall ref d, (ref, d) ∈ range_map m -> ref <> Digest d -> T ref)
    by (intros ref d Hin%elem_of_range_map Hne; by exists d).
  assert (Hd : forall ref d, (ref, d) ∈ range_map m -> ~ T (Digest d)).
  { intros ref d Hin%elem_of_range_map (d' & Hd' & Hne). by apply Hne, (Hsane _ d' ref d). }
  assert (Hnd : NoDup (range_map m).*1) by (rewrite range_map_perm; apply NoDup_fst_map_to_list).
  destruct (gc_tagged_graph _ _ _ _ _ _ _ (oci_Fetch_key (fs s)) E1) as [_ Hreach].
  destruct (gc_tagged_tags _ _ _ _ _ _ _ T Hnd HT Hd E1) as [Htags _].
  destruct (gc_referrers_mono _ _ _ _ _ _ _ _ T Hd E2) as [Hmono Hkeep].
  split; [|split].
  - intros ref d Href Hne. split.
    + rewrite Hkeep by (by exists d). apply Htags; [by apply elem_of_range_map|done].
    + intros n l Hr HS. unfold oci.blob_at. destruct (oci.blobPath (Digest n)) as [p| |] eqn:Hp; [|done..].
      rewrite gc_blobs_spec. unfold garbage. destruct (path_digest p) as [dg|] eqn:Hpd; [|done].
      apply (path_digest_blobPath _ _ _ Hp) in Hpd as ->. rewrite bool_decide_eq_true_2; [done|].
      unfold graph.DigestSet. apply elem_of_map. exists (FromOCI n). split; [done|].
      apply elem_of_dom, Hmono, (Hreach ref d n l); [by apply elem_of_range_map|done..].
  - intros p dgst c Hp. rewrite gc_blobs_spec. unfold garbage. rewrite Hp. case_bool_decide; simpl; [tauto|].
    split; [done|tauto].
  - intros p Hp. rewrite gc_blobs_spec. unfold garbage. by rewrite Hp.
Qed.
End gc.

(** ** Deleting *)
Section delete.
Context {GD : GoDigest} {MJ : ManifestJSON} {MO : MapOrder} {LJ : LayoutJSON}.
Context {GL : GoDigestLaws GD}.
Hypothesis alg_no_slash : forall dgst, digest_Validate dgst = true ->
  has_char "/" (digest_Algorithm dgst) = false.

Lemma blobPath_not_index dgst : oci.blobPath dgst <> Ok oci.ImageIndexFile.
Proof. unfold oci.blobPath. by destruct (digest_Validate dgst). Qed.

Lemma blob_at_write_index f b dgst :
  oci.blob_at (os_WriteFile oci.ImageIndexFile b f) dgst = oci.blob_at f dgst.
Proof.
  unfold oci.blob_at. destruct (oci.blobPath dgst) as [p| |] eqn:Hp; [|done..]. simpl.
  rewrite lookup_insert_ne; [done|]. intros <-. by apply blobPath_not_index in Hp.
Qed.

(** The files of a layout apart from its index. *)
Definition other_files (s : Store) : gmap string bytes := base.delete oci.ImageIndexFile (fs_files (fs s)).

Lemma saveIndex_spec s :
  let s' := (saveIndex s).2 in
  tagResolver s' = tagResolver s /\ graph_ s' = graph_ s /\ AutoGC s' = AutoGC s
  /\ AutoSaveIndex s' = AutoSaveIndex s
  /\ other_files s' = other_files s /\ (forall dgst, oci.blob_at (fs s') dgst = oci.blob_at (fs s) dgst).
Proof.
  unfold saveIndex, writeIndexFile. destruct (Marshal_Index _) as [b| |]; simpl; [|done..].
  split_and!; try done; [|intros; apply blob_at_write_index].
  unfold other_files. simpl. apply delete_insert_eq.
Qed.

Lemma index_Untag x r : resolver.index (resolver.Untag x r) = base.delete x (resolver.index r).
Proof.
  unfold resolver.Untag. destruct (resolver.index r !! x) eqn:E; [done|]. by rewrite delete_id.
Qed.

Lemma untag_fold target l r u ref :
  resolver.index (foldl (fun '(r, untagged) p =>
      if Equal p.2 target then (resolver.Untag p.1 r, true) else (r, untagged)) (r, u) l).1 !! ref
  = if bool_decide (List.Exists (fun p => p.1 = ref /\ Equal p.2 target = true) l)
    then None else resolver.index r !! ref.
Proof.
  revert r u. induction l as [|[x d] l IH]; intros r u; cbn [foldl].
  - by rewrite bool_decide_eq_false_2 by (by intros H%List.Exists_nil).
  - cbn [fst snd]. destruct (Equal d target) eqn:Ed.
    + rewrite IH, index_Untag. case_bool_decide as Ha; case_bool_decide as Hb; try done.
      * exfalso. apply Hb. by apply List.Exists_cons_tl.
      * rewrite lookup_delete. apply List.Exists_cons in Hb as [[<- _]|?]; [by rewrite decide_True|done].
      * rewrite lookup_delete_ne; [done|]. intros <-. apply Hb. by apply List.Exists_cons_hd.
    + rewrite IH. case_bool_decide as Ha; case_bool_decide as Hb; try done.
      * exfalso. apply Hb. by apply List.Exists_cons_tl.
      * apply List.Exists_cons in Hb as [[_ ?]|?]; [simpl in *; congruence|done].
Qed.

(** The references left are those of other content. *)
Lemma untag_all_spec target r ref d :
  resolver.index (untag_all target r).1 !! ref = Some d <->
  resolver.index r !! ref = Some d /\ FromOCI d <> FromOCI target.
Proof.
  unfold untag_all, resolver.Map. rewrite untag_fold. case_bool_decide as H.
  - split; [done|]. intros [Hd Hne]. apply List.Exists_exists in H as ([x d'] & Hin & <- & He).
    simpl in *. apply list_elem_of_In, elem_of_range_map in Hin.
    assert (d' = d) as -> by congruence. by apply Equal_spec in He.
  - split; [|by intros [? _]]. intros Hd. split; [done|]. intros E. apply H.
    apply List.Exists_exists. exists (ref, d). split; [by apply list_elem_of_In, elem_of_range_map|]. split; [done|by apply Equal_spec].
Qed.

(** Content and references only go away. *)
Record shrinks (s s' : Store) : Prop := {
  sh_blobs : forall dgst c, oci.blob_at (fs s') dgst = Some c -> oci.blob_at (fs s) dgst = Some c;
  sh_refs : forall ref d, resolver.index (tagResolver s') !! ref = Some d ->
    resolver.index (tagResolver s) !! ref = Some d;
  sh_gc : AutoGC s' = AutoGC s
}.

#[local] Instance shrinks_preorder : PreOrder shrinks.
Proof. split; [by split|]. intros s1 s2 s3 [] []. split; [eauto|eauto|congruence]. Qed.

(** [target] is not stored and no reference resolves to it. *)
Definition gone (target : OciDescriptor) (s : Store) : Prop :=
  oci.blob_at (fs s) (Digest target) = None /\
  forall ref d, resolver.index (tagResolver s) !! ref = Some d -> FromOCI d <> FromOCI target.

Lemma gone_shrinks t s s' : gone t s -> shrinks s s' -> gone t s'.
Proof.
  intros [Hb Hr] [Sb Sr _]. split.
  - destruct (oci.blob_at (fs s') (Digest t)) eqn:E; [|done]. apply Sb in E. congruence.
  - intros ref d H. by apply (Hr ref), Sr.
Qed.

Lemma delete_shrinks target s :
  let '(res, s') := delete target s in
  shrinks s s' /\
  match res with
  | Ok _ => gone target s' /\ size (other_files s') < size (other_files s)
      /\ forall x, x <> Digest target -> oci.blob_at (fs s') x = oci.blob_at (fs s) x
  | _ => True
  end.
Proof.
  unfold delete. pose proof (untag_all_spec target (tagResolver s)) as Hun.
  destruct (untag_all target (tagResolver s)) as [r untagged]. simpl in Hun.
  destruct (graph.Remove target (graph_ s)) as [danglings g].
  set (s1 := set_graph g (set_resolver r s)).
  assert (exists res s2, (if untagged && AutoSaveIndex s1 then saveIndex s1 else (Ok tt, s1)) = (res, s2)
    /\ tagResolver s2 = r /\ AutoGC s2 = AutoGC s /\ other_files s2 = other_files s
    /\ forall dgst, oci.blob_at (fs s2) dgst = oci.blob_at (fs s) dgst) as (res & s2 & -> & Hr & Hg & Ho & Hb).
  { destruct (untagged && AutoSaveIndex s1); [|by exists (Ok tt), s1].
    pose proof (saveIndex_spec s1) as (? & ? & ? & ? & ? & ?).
    destruct (saveIndex s1) as [res s2]. exists res, s2. by split_and!. }
  assert (shrinks s s2) as Hsh.
  { split; [intros dgst c; by rewrite Hb|intros ref d; rewrite Hr; by intros [? _]%Hun|done]. }
  destruct res as [[]|e|]; [|done..].
  pose proof (oci.Delete_spec target (fs s2)) as HD. destruct (oci.Delete target (fs s2)) as [res f].
  destruct res as [[]|e|]; simpl in *.
  - destruct HD as (p & Hp & Hin & ->).
    assert (Hbl : forall x, oci.blob_at (mkFS (base.delete p (fs_files (fs s2)))) x
                            = if decide (x = Digest target) then None else oci.blob_at (fs s) x).
    { intros x. rewrite (oci.blob_at_delete alg_no_slash _ _ _ _ Hp), Hb. done. }
    split; [|split; [|split]].
    + split; simpl; [|apply (sh_refs _ _ Hsh)|done]. intros dgst c. rewrite Hbl. by case_decide.
    + split; simpl; [by rewrite Hbl, decide_True|]. rewrite Hr. by intros ref d [_ ?]%Hun.
    + rewrite <- Ho. unfold other_files. simpl. rewrite delete_delete.
      rewrite map_size_delete, lookup_delete_ne by (intros <-; by apply blobPath_not_index in Hp).
      destruct Hin as [c Hc]. rewrite Hc.
      assert (0 < size (base.delete oci.ImageIndexFile (fs_files (fs s2)))) as Hpos.
      { apply Nat.neq_0_lt_0. intros Hz%map_size_empty_iff.
        apply (f_equal (lookup p)) in Hz. rewrite lookup_empty, lookup_delete_ne in Hz; [congruence|].
        intros <-. by apply blobPath_not_index in Hp. }
      lia.
    + intros x Hx. rewrite Hbl. by rewrite decide_False.
  - destruct HD as [-> _]. split; [|done]. by destruct Hsh; split.
  - done.
Qed.

Lemma delete_loop_total fuel q s :
  size (other_files s) < fuel -> exists res s', delete_loop fuel q s = Some (res, s').
Proof.
  revert q s. induction fuel as [|fuel IH]; intros q s Hf; [lia|].
  destruct q as [|head q]; cbn [delete_loop]; [eauto|].
  destruct (if AutoGC s && IsManifest head then _ else _) as [rs| |]; [|eauto..].
  pose proof (delete_shrinks head s) as H. destruct (delete head s) as [[dang|e|] s1]; [|eauto..].
  destruct H as (_ & _ & Hlt & _). apply IH. lia.
Qed.

Lemma delete_loop_spec fuel q s res s' :
  delete_loop fuel q s = Some (res, s') ->
  shrinks s s' /\
  (res = Ok tt -> (forall x, x ∈ q -> gone x s') /\
     (AutoGC s = false -> forall dg, (forall x, x ∈ q -> Digest x <> dg) ->
        oci.blob_at (fs s') dg = oci.blob_at (fs s) dg)).
Proof.
  revert q s. induction fuel as [|fuel IH]; intros [|head q] s; cbn [delete_loop]; try done.
  1,2: intros [= <- <-]; split; [reflexivity|]; intros _; split; [|done];
    intros x Hx; by apply elem_of_nil in Hx.
  destruct (if AutoGC s && IsManifest head then _ else _) as [rs| |] eqn:Ers; [|by intros [= <- <-]..].
  pose proof (delete_shrinks head s) as H. destruct (delete head s) as [[dang|e|] s1];
    [|destruct H as [H _]; by intros [= <- <-]..].
  destruct H as (Hsh & Hgone & _ & Hother). intros Hloop. apply IH in Hloop as [Hsh' Hok].
  split; [by transitivity s1|]. intros ->. destruct (Hok eq_refl) as [Hq Hgc]. split.
  - intros x [->|Hx]%elem_of_cons; [by apply (gone_shrinks _ s1)|]. apply Hq, elem_of_app. by left.
  - intros Hng dg Hdg. rewrite Hng in Ers. simpl in Ers. injection Ers as <-.
    rewrite Hgc; [|by rewrite (sh_gc _ _ Hsh)|].
    + apply Hother. intros ->. by apply (Hdg head); [left|].
    + rewrite (sh_gc _ _ Hsh), Hng, !app_nil_r. intros x Hx. apply Hdg. by right.
Qed.

End delete.
