(* ===== verification/OciReopen.v ===== *)
(** The index file of an OCI layout: what opening a layout again recovers from
    the index that [saveIndex] wrote. *)

From Stdlib Require Import Ascii String ZArith Lia.
From S2P Require Import Prelude Errors Descriptor Reader Manifest GoStrings.
From S2P Require Import Graph Resolver OciStorage OciStore OciStoreCorrect.
Import ocistore.

#[local] Open Scope string_scope.

Section reopen.
Context {GD : GoDigest} {MJ : ManifestJSON} {MO : MapOrder} {LJ : LayoutJSON}.

(** ** The references of an index *)

Lemma deleteAnnotationRefName_key d :
  FromOCI (deleteAnnotationRefName d) = FromOCI d.
Proof.
  unfold deleteAnnotationRefName. destruct (Annotations d) as [a|]; [|done].
  destruct (a !! AnnotationRefName); [|done]. by case_decide.
Qed.

Lemma deleteAnnotationRefName_none d : annotation AnnotationRefName (deleteAnnotationRefName d) = None.
Proof.
  unfold deleteAnnotationRefName, annotation. destruct (Annotations d) as [a|] eqn:E; [|by rewrite E].
  destruct (a !! AnnotationRefName) eqn:Ea; [|by rewrite E].
  case_decide; simpl; [done|]. apply lookup_delete_eq.
Qed.

Lemma tagged_entry_key p : FromOCI (tagged_entry p) = FromOCI p.2.
Proof. done. Qed.

Lemma tagged_entry_ref p : annotation AnnotationRefName (tagged_entry p) = Some p.1.
Proof. unfold annotation, tagged_entry. simpl. apply lookup_insert_eq. Qed.

Lemma key_Digest d d' : FromOCI d = FromOCI d' -> Digest d = Digest d'.
Proof. by intros [= _ ? _]. Qed.

(** Every entry is a tagged descriptor under its tag, or an untagged one. *)
Lemma elem_of_index_manifests (m : gmap string OciDescriptor) e :
  e ∈ index_manifests m ->
  exists ref d, m !! ref = Some d /\
    ((ref <> Digest d /\ e = tagged_entry (ref, d))
     \/ (ref = Digest d /\ e = deleteAnnotationRefName d)).
Proof.
  unfold index_manifests. rewrite elem_of_app, !list_elem_of_fmap.
  intros [([ref d] & -> & Hin)|([ref d] & -> & Hin)]; apply list_elem_of_In, List.filter_In in Hin as [Hin Ht];
    apply list_elem_of_In, elem_of_range_map in Hin; exists ref, d; (split; [done|]).
  - left. by apply is_tag_spec in Ht.
  - right. apply andb_prop in Ht as [Ht _]. split; [|done].
    unfold is_tag in Ht. simpl in Ht. by destruct (String.eqb_spec ref (Digest d)).
Qed.

Lemma index_manifests_tag (m : gmap string OciDescriptor) ref d :
  m !! ref = Some d -> ref <> Digest d -> tagged_entry (ref, d) ∈ index_manifests m.
Proof.
  intros Hm Hne. unfold index_manifests. apply elem_of_app. left. apply list_elem_of_fmap_2.
  apply list_elem_of_In, List.filter_In. split; [by apply list_elem_of_In, elem_of_range_map|].
  by apply is_tag_spec.
Qed.

(** Every digest of the map is the digest of an entry. *)
Lemma index_manifests_digest (m : gmap string OciDescriptor) ref d :
  m !! ref = Some d -> exists e, e ∈ index_manifests m /\ Digest e = Digest d.
Proof.
  intros Hm. destruct (String.eqb_spec ref (Digest d)) as [->|Hne].
  2: { exists (tagged_entry (ref, d)). split; [by apply index_manifests_tag|done]. }
  destruct (decide (List.Exists (fun p => is_tag p = true /\ Digest p.2 = Digest d) (range_map m))) as [H|H].
  - apply List.Exists_exists in H as ([ref' d'] & Hin & Ht & Hd).
    exists (tagged_entry (ref', d')). split; [|by simpl in *].
    apply index_manifests_tag; [by apply elem_of_range_map, list_elem_of_In|by apply is_tag_spec].
  - exists (deleteAnnotationRefName d). split; [|by apply key_Digest, deleteAnnotationRefName_key].
    unfold index_manifests. apply elem_of_app. right.
    apply (list_elem_of_fmap_2 (fun p : string * OciDescriptor => deleteAnnotationRefName p.2) _ (Digest d, d)).
    apply list_elem_of_In, List.filter_In. split; [by apply list_elem_of_In, elem_of_range_map|].
    unfold is_tag at 1. simpl. rewrite String.eqb_refl. simpl.
    rewrite bool_decide_eq_false_2; [done|]. rewrite elem_of_list_to_set, list_elem_of_fmap.
    intros ([ref' d'] & Hd & Hin). apply list_elem_of_In, List.filter_In in Hin as [Hin Ht].
    apply H, List.Exists_exists. exists (ref', d'). by split.
Qed.

(** ** Loading them *)

Definition load_all (l : list OciDescriptor) (r : resolver.Memory) : resolver.Memory :=
  foldl (fun r d => load_tags d r) r l.

(** [e] resolves as [d] under [x] after loading. *)
Definition loaded (e : OciDescriptor) (x : string) (d : OciDescriptor) : Prop :=
  (x = Digest e /\ d = deleteAnnotationRefName e)
  \/ (annotation AnnotationRefName e = Some x /\ x <> EmptyString /\ d = e).

Lemma load_tags_lookup e r x d :
  resolver.index (load_tags e r) !! x = Some d -> loaded e x d \/ resolver.index r !! x = Some d.
Proof.
  unfold load_tags, loaded. destruct (annotation AnnotationRefName e) as [ref|].
  - destruct (String.eqb_spec ref EmptyString) as [->|Hne]; simpl.
    + rewrite lookup_insert. case_decide; [intros [= <-]; auto|auto].
    + rewrite !lookup_insert. repeat case_decide; subst; try (intros [= <-]); auto.
  - simpl. rewrite lookup_insert. case_decide; [intros [= <-]; auto|auto].
Qed.

Lemma load_tags_present e r x :
  (exists d, loaded e x d) \/ is_Some (resolver.index r !! x) -> is_Some (resolver.index (load_tags e r) !! x).
Proof.
  intros H.
  assert (is_Some (resolver.index (resolver.Tag (deleteAnnotationRefName e) (Digest e) r) !! x)
          \/ (annotation AnnotationRefName e = Some x /\ x <> EmptyString)) as H'.
  { simpl. rewrite lookup_insert. destruct H as [(d & [[-> _]|(? & ? & _)])|Hr]; [|by right|].
    - left. by rewrite decide_True.
    - left. by case_decide. }
  unfold load_tags. destruct (annotation AnnotationRefName e) as [ref|]; [|by destruct H' as [?|[? _]]].
  destruct (String.eqb_spec ref EmptyString) as [->|Hne].
  - destruct H' as [?|[[= <-] ?]]; done.
  - unfold resolver.Tag at 1. cbn [resolver.index]. rewrite lookup_insert.
    case_decide; [by eexists|]. by destruct H' as [?|[[= <-] _]].
Qed.

Lemma load_all_lookup l r x d :
  resolver.index (load_all l r) !! x = Some d ->
  (exists e, e ∈ l /\ loaded e x d) \/ resolver.index r !! x = Some d.
Proof.
  revert r. induction l as [|e l IH]; intros r H; simpl in H; [by right|].
  apply IH in H as [(e' & ? & ?)|H]; [left; exists e'; split; [by right|done]|].
  apply load_tags_lookup in H as [H|H]; [|by right]. left. exists e. split; [by left|done].
Qed.

Lemma load_all_present l r x :
  (exists e d, e ∈ l /\ loaded e x d) \/ is_Some (resolver.index r !! x) ->
  is_Some (resolver.index (load_all l r) !! x).
Proof.
  revert r. induction l as [|e l IH]; intros r H; simpl.
  - destruct H as [(e & d & Hin & _)|H]; [by apply elem_of_nil in Hin|done].
  - apply IH. destruct H as [(e' & d & [->|Hin]%elem_of_cons & Hl)|H].
    + right. apply load_tags_present. left. by exists d.
    + left. by exists e', d.
    + right. apply load_tags_present. by right.
Qed.

(** A storage in which the nodes of a finite set [U], closed under successors,
    are readable or missing. *)
Definition readable (fetch : Fetcher) (U : gset Descriptor) (B : nat) : Prop :=
  forall d, FromOCI d ∈ U ->
    match Successors fetch d with
    | Ok l => length l <= B /\ forall s, s ∈ l -> FromOCI s ∈ U
    | Err e => errors_Is e ErrNotFound = true
    | Panic => False
    end.

Lemma IndexAll_readable fetch U B d g :
  (forall d d', FromOCI d = FromOCI d' -> fetch d = fetch d') ->
  readable fetch U B -> FromOCI d ∈ U ->
  exists g', graph.IndexAll fetch (1 + size U * B) d g = Some (Ok tt, g')
    /\ (forall k, is_Some (graph.nodes g !! k) -> is_Some (graph.nodes g' !! k))
    /\ forall n l, graph.reach fetch d n -> Successors fetch n = Ok l -> is_Some (graph.nodes g' !! FromOCI n).
Proof.
  intros Hkey HU Hd.
  destruct (graph.index_all_terminates fetch Hkey U B (1 + size U * B) [d] ∅ g) as [[res g'] Hres].
  - intros x l Hx HS. specialize (HU x Hx). by rewrite HS in HU.
  - by intros x ->%list_elem_of_singleton.
  - rewrite difference_empty_L. simpl. lia.
  - assert (res = Ok tt) as ->.
    { apply (graph.index_all_readable fetch U (1 + size U * B) [d] ∅ g res g'); [|by intros x ->%list_elem_of_singleton|done].
      intros x Hx. specialize (HU x Hx). destruct (Successors fetch x); [by destruct HU|done..]. }
    exists g'. split; [done|]. split.
    + intros k. by apply (graph.index_all_mono fetch _ _ _ _ _ _ k Hres).
    + intros n l Hr HS. by apply (graph.index_all_reach fetch Hkey _ d g g' n l Hres Hr HS).
Qed.

Lemma loadIndex_spec fetch U B l r g :
  (forall d d', FromOCI d = FromOCI d' -> fetch d = fetch d') ->
  readable fetch U B -> (forall e, e ∈ l -> FromOCI e ∈ U) ->
  exists g', loadIndex (1 + size U * B) fetch l r g = Some (Ok (load_all l r, g'))
    /\ (forall k, is_Some (graph.nodes g !! k) -> is_Some (graph.nodes g' !! k))
    /\ forall e n s, e ∈ l -> graph.reach fetch (Plain e) n -> Successors fetch n = Ok s ->
         is_Some (graph.nodes g' !! FromOCI n).
Proof.
  intros Hkey HU. revert r g. induction l as [|e l IH]; intros r g Hl; cbn [loadIndex].
  { exists g. split; [done|]. split; [done|]. intros e n s Hin. by apply elem_of_nil in Hin. }
  destruct (IndexAll_readable fetch U B (Plain e) g Hkey HU) as (g1 & -> & Hm1 & Hr1);
    [rewrite FromOCI_Plain; apply Hl; by left|].
  destruct (IH (load_tags e r) g1) as (g2 & -> & Hm2 & Hr2); [intros; apply Hl; by right|].
  exists g2. split; [done|]. split; [auto|]. intros e' n s [->|Hin]%elem_of_cons Hr HS; [|by apply (Hr2 e' n s)].
  apply Hm2. by apply (Hr1 n s).
Qed.

(** ** The round trip *)

Lemma fetch_write_index f b d :
  oci.Fetch d (os_WriteFile oci.ImageIndexFile b f) = oci.Fetch d f.
Proof.
  unfold oci.Fetch, oci.desc_path. destruct (oci.blobPath (Digest d)) as [p| |] eqn:E; [|done..].
  unfold os_Open. simpl. rewrite lookup_insert_ne; [done|]. intros <-. by apply blobPath_not_index in E.
Qed.

Lemma Successors_ext (f g : Fetcher) d : (forall x, f x = g x) -> Successors f d = Successors g d.
Proof. intros H. unfold Successors, FetchAll. by rewrite !H. Qed.

Lemma reach_ext (f g : Fetcher) d n : (forall x, f x = g x) -> graph.reach f d n -> graph.reach g d n.
Proof.
  intros H. induction 1 as [|x l y Hr IH HS Hy]; [constructor|].
  apply (graph.reach_step g d x l); [done| |done]. by rewrite <- (Successors_ext f g).
Qed.

Lemma reach_key fetch d d' n :
  (forall d d', FromOCI d = FromOCI d' -> fetch d = fetch d') ->
  FromOCI d = FromOCI d' -> graph.reach fetch d n ->
  exists n', FromOCI n' = FromOCI n /\ graph.reach fetch d' n'.
Proof.
  intros Hkey E. induction 1 as [|x l y Hr (n' & Hk & Hn') HS Hy].
  - exists d'. split; [done|constructor].
  - exists y. split; [done|]. apply (graph.reach_step fetch d' n' l); [done| |done].
    by rewrite (Successors_key fetch n' x).
Qed.

(** Opening a layout whose index is [i]. *)
Lemma New_index f i j b U B :
  fs_files f !! oci.ImageLayoutFile = Some b -> Decode_Layout b = Ok ImageLayoutVersion ->
  fs_files f !! oci.ImageIndexFile = Some j -> Decode_IndexFile j = Ok i ->
  readable (fun d => oci.Fetch d f) U B -> (forall e, e ∈ i_Manifests i -> FromOCI e ∈ U) ->
  exists s2, New (1 + size U * B) f = Some (Ok s2)
    /\ readonlyoci.NewFromFS (1 + size U * B) f
       = Some (Ok (readonlyoci.mkReadOnlyStore f (tagResolver s2) (graph_ s2)))
    /\ tagResolver s2 = load_all (i_Manifests i) resolver.NewMemory
    /\ forall e n l, e ∈ i_Manifests i -> graph.reach (fun d => oci.Fetch d f) (Plain e) n ->
         Successors (fun d => oci.Fetch d f) n = Ok l -> is_Some (graph.nodes (graph_ s2) !! FromOCI n).
Proof.
  intros Hb HL Hj Hi HU Hin.
  destruct (loadIndex_spec (fun d => oci.Fetch d f) U B (i_Manifests i) resolver.NewMemory graph.NewMemory)
    as (g & Hload & _ & Hg); [apply oci_Fetch_key|done|done|].
  set (fuel := 1 + size U * B) in *. clearbody fuel.
  unfold New, ensureOCILayoutFile. rewrite Hb. simpl. rewrite HL. simpl.
  unfold loadIndexFile. cbn [fs]. rewrite Hj, Hi. cbn [map_err tagResolver graph_]. rewrite Hload.
  simpl. eexists. split; [done|]. split; [|done].
  unfold readonlyoci.NewFromFS, readonlyoci.validateOCILayoutFile, os_Open. rewrite Hb. simpl. rewrite HL. simpl.
  unfold readonlyoci.loadIndexFile, os_Open. cbn [readonlyoci.fsys]. rewrite Hj. cbn [map_err]. rewrite Hi.
  cbn [map_err readonlyoci.tagResolver readonlyoci.graph_]. by rewrite Hload.
Qed.

(** Two references to one digest refer to the same content. *)
Definition one_content (m : gmap string OciDescriptor) : Prop :=
  forall ref d ref' d', m !! ref = Some d -> m !! ref' = Some d' -> Digest d = Digest d' -> FromOCI d = FromOCI d'.

Lemma index_entry_key (m : gmap string OciDescriptor) e :
  e ∈ index_manifests m -> exists ref d, m !! ref = Some d /\ FromOCI e = FromOCI d.
Proof.
  intros (ref & d & Hm & [[_ ->]|[_ ->]])%elem_of_index_manifests; exists ref, d; split; try done.
  apply deleteAnnotationRefName_key.
Qed.

(** The references after loading the saved entries of [m]. *)
Section loaded_refs.
Context (m : gmap string OciDescriptor) (Hsane : sane m) (Hone : one_content m) (Hempty : m !! EmptyString = None).
Notation refs := (resolver.index (load_all (index_manifests m) resolver.NewMemory)).

Lemma loaded_ref x d' : refs !! x = Some d' ->
  exists ref d, m !! ref = Some d /\ FromOCI d' = FromOCI d
    /\ (x = Digest d \/ (x = ref /\ ref <> Digest d /\ d' = tagged_entry (ref, d))).
Proof.
  intros H. apply load_all_lookup in H as [(e & He & Hl)|H]; [|discriminate H].
  apply elem_of_index_manifests in He as (ref & d & Hd & [[Hne ->]|[Heq ->]]); exists ref, d; (split; [done|]).
  - destruct Hl as [[-> ->]|(Ha & _ & ->)].
    + split; [by rewrite deleteAnnotationRefName_key|by left].
    + rewrite tagged_entry_ref in Ha. injection Ha as <-. split; [done|]. by right.
  - destruct Hl as [[-> ->]|(Ha & _)]; [|by rewrite deleteAnnotationRefName_none in Ha].
    split; [by rewrite !deleteAnnotationRefName_key|]. left. by apply key_Digest, deleteAnnotationRefName_key.
Qed.

Lemma loaded_tag ref d : m !! ref = Some d -> ref <> Digest d -> refs !! ref = Some (tagged_entry (ref, d)).
Proof.
  intros Hd Hne. destruct (load_all_present (index_manifests m) resolver.NewMemory ref) as [d' Hd'].
  { left. exists (tagged_entry (ref, d)), (tagged_entry (ref, d)).
    split; [by apply index_manifests_tag|]. right. rewrite tagged_entry_ref.
    split; [done|split; [|done]]. intros ->. congruence. }
  rewrite Hd'. apply loaded_ref in Hd' as (ref' & d0 & Hd0 & _ & [Hx|(-> & _ & ->)]); [|congruence].
  by destruct Hne; apply (Hsane ref d ref' d0).
Qed.

Lemma loaded_digest ref d : m !! ref = Some d ->
  exists d', refs !! Digest d = Some d' /\ FromOCI d' = FromOCI d.
Proof.
  intros Hd. destruct (index_manifests_digest m ref d Hd) as (e & He & Hed).
  destruct (load_all_present (index_manifests m) resolver.NewMemory (Digest d)) as [d' Hd'].
  { left. exists e, (deleteAnnotationRefName e). split; [done|]. left. by rewrite Hed. }
  exists d'. split; [done|]. apply loaded_ref in Hd' as (ref' & d0 & Hd0 & E & [Hx|(Hx & Hne & _)]).
  - rewrite E. symmetry. by apply (Hone ref _ ref').
  - destruct Hne. by apply (Hsane ref' d0 ref d).
Qed.
End loaded_refs.

End reopen.
