(* ===== verification/OciExample.v ===== *)
(** A concrete OCI layout: an image "a", a signature "m" whose subject it is, and
    a stray blob, on which the theorems about the layout store are applied. *)

From Stdlib Require Import Ascii String ZArith Lia.
From S2P Require Import Prelude Errors Descriptor Reader Manifest GoStrings.
From S2P Require Import Graph Resolver OciStorage OciStore OciStoreCorrect OciReopen.
Import ocistore.

#[local] Open Scope string_scope.

Module oci_example.
Import HexDigest.

Definition config : OciDescriptor := NewDescriptorFromBytes "application/config" (str_bytes "{}").
Definition stray : OciDescriptor := NewDescriptorFromBytes "text/plain" (str_bytes "stray").
Definition image : OciDescriptor := NewDescriptorFromBytes MediaTypeImageManifest (str_bytes "a").
Definition signature : OciDescriptor := NewDescriptorFromBytes MediaTypeImageManifest (str_bytes "m").

Definition saved : Index :=
  mkIndex 2 MediaTypeImageIndex EmptyString [tagged_entry ("v1", image); signature] None None.

#[export] Instance json : ManifestJSON := {|
  Unmarshal_Manifest b :=
    if decide (b = str_bytes "a") then Ok (mkManifest 2 MediaTypeImageManifest EmptyString config [] None None)
    else if decide (b = str_bytes "m")
    then Ok (mkManifest 2 MediaTypeImageManifest "signature" config [] (Some image) None)
    else Err (ENew "json");
  Unmarshal_Index _ := Err (ENew "json");
  Unmarshal_Artifact _ := Err (ENew "json");
  Unmarshal_Subject b :=
    if decide (b = str_bytes "a") then Ok None
    else if decide (b = str_bytes "m") then Ok (Some image) else Err (ENew "json");
  Marshal_Manifest _ := Err (ENew "json");
  Marshal_Index _ := Ok (str_bytes "idx");
  Marshal_Artifact _ := Err (ENew "json")
|}.

#[export] Instance layout : LayoutJSON := {|
  Decode_IndexFile _ := Ok saved;
  Decode_Layout b := if decide (b = str_bytes "1.0.0") then Ok "1.0.0" else Err (ENew "json");
  Marshal_Layout v := Ok (str_bytes v)
|}.

#[export] Instance order : MapOrder := canonical_order.

Definition push (d : OciDescriptor) (c : string) : M Store unit := Push 4 d (bytes_NewReader (str_bytes c)).

(** A new layout, opened on an empty directory. *)
Definition fresh : Store :=
  match New 0 (mkFS ∅) with
  | Some (Ok s) => s
  | _ => mkStore true true (mkFS ∅) empty_index resolver.NewMemory graph.NewMemory
  end.

Definition untagged_layout : Store :=
  (((_ ← push config "{}"; _ ← push image "a"; push signature "m") : M Store unit) fresh).2.

Definition tagged_layout : Store :=
  (((_ ← push stray "stray"; Tag image "v1") : M Store unit) untagged_layout).2.

Lemma untagged_refs ref d :
  resolver.index (tagResolver untagged_layout) !! ref = Some d ->
  (ref, d) ∈ [("sha256:61", image); ("sha256:6d", signature)].
Proof.
  intros H%elem_of_map_to_list.
  by replace (map_to_list (resolver.index (tagResolver untagged_layout)))
    with [("sha256:61", image); ("sha256:6d", signature)] in H by (vm_compute; reflexivity).
Qed.

Lemma tagged_refs ref d :
  resolver.index (tagResolver tagged_layout) !! ref = Some d ->
  (ref, d) ∈ [("sha256:61", image); ("sha256:6d", signature); ("v1", image)].
Proof.
  intros H%elem_of_map_to_list.
  by replace (map_to_list (resolver.index (tagResolver tagged_layout)))
    with [("sha256:61", image); ("sha256:6d", signature); ("v1", image)] in H by (vm_compute; reflexivity).
Qed.

(** Case on the references of an example layout. *)
Ltac case_refs :=
  repeat match goal with
  | H : resolver.index (tagResolver untagged_layout) !! _ = Some _ |- _ => apply untagged_refs in H
  | H : resolver.index (tagResolver tagged_layout) !! _ = Some _ |- _ => apply tagged_refs in H
  | H : _ ∈ _ :: _ |- _ => apply elem_of_cons in H as [[= -> ->]|H]
  | H : _ ∈ [] |- _ => by apply elem_of_nil in H
  end.

Lemma tagged_sane : sane (resolver.index (tagResolver tagged_layout)).
Proof. intros ref d ref' d' H H' E. case_refs; first [done|discriminate E]. Qed.

Definition fetch (d : OciDescriptor) : result Reader := oci.Fetch d (fs tagged_layout).

Lemma successors_image : Successors fetch image = Ok [config].
Proof. vm_compute. reflexivity. Qed.
Lemma successors_signature : Successors fetch signature = Ok [image; config].
Proof. vm_compute. reflexivity. Qed.
Lemma successors_config : Successors fetch config = Ok [].
Proof. vm_compute. reflexivity. Qed.

Definition known : gset Descriptor := {[FromOCI image; FromOCI signature; FromOCI config]}.

Lemma tagged_readable : readable fetch known 2.
Proof.
  intros d Hd. unfold known in Hd. rewrite !elem_of_union, !elem_of_singleton in Hd.
  assert (Hin : forall l : list OciDescriptor, (forall s, s ∈ l -> s ∈ [image; signature; config]) ->
    forall s, s ∈ l -> FromOCI s ∈ known).
  { intros l Hl s Hs%Hl. unfold known. rewrite !elem_of_cons, elem_of_nil in Hs.
    rewrite !elem_of_union, !elem_of_singleton. by destruct Hs as [->|[->|[->|[]]]]; auto. }
  destruct Hd as [[E|E]|E]; rewrite (Successors_key fetch d _ (oci_Fetch_key _) E).
  - rewrite successors_image. split; [simpl; lia|]. apply Hin. intros s. rewrite !elem_of_cons. tauto.
  - rewrite successors_signature. split; [simpl; lia|]. apply Hin. intros s. rewrite !elem_of_cons. tauto.
  - rewrite successors_config. split; [simpl; lia|]. apply Hin. intros s Hs. by apply elem_of_nil in Hs.
Qed.

Lemma tagged_one_content : one_content (resolver.index (tagResolver tagged_layout)).
Proof. intros ref d ref' d' H H' E. case_refs; first [done|discriminate E]. Qed.

Lemma tagged_no_empty : resolver.index (tagResolver tagged_layout) !! EmptyString = None.
Proof. vm_compute. reflexivity. Qed.

Lemma example_save s : saveIndex s = (Ok tt, (saveIndex s).2).
Proof. reflexivity. Qed.

Lemma tagged_saved : index (saveIndex tagged_layout).2 = saved.
Proof. vm_compute. reflexivity. Qed.

Lemma tagged_index j : Marshal_Index (index (saveIndex tagged_layout).2) = Ok j ->
  Decode_IndexFile j = Ok (index (saveIndex tagged_layout).2).
Proof. intros _. by rewrite tagged_saved. Qed.

Lemma tagged_layout_file : fs_files (fs tagged_layout) !! oci.ImageLayoutFile = Some (str_bytes "1.0.0").
Proof. vm_compute. reflexivity. Qed.

Lemma tagged_known ref d : resolver.index (tagResolver tagged_layout) !! ref = Some d -> FromOCI d ∈ known.
Proof. intros H. unfold known. rewrite !elem_of_union, !elem_of_singleton. case_refs; auto. Qed.

Lemma tagged_v1 : resolver.index (tagResolver tagged_layout) !! "v1" = Some image.
Proof. vm_compute. reflexivity. Qed.

Lemma v1_not_digest : "v1" <> Digest image.
Proof. discriminate. Qed.

Lemma reach_config : graph.reach fetch image config.
Proof.
  refine (graph.reach_step _ _ image _ config (graph.reach_refl _ _) successors_image _).
  apply list_elem_of_here.
Qed.

(** ** The theorems on the example *)

Lemma oci_GC_diverges_witness : GC 1000 untagged_layout = None.
Proof.
  apply (oci_GC_diverges untagged_layout 1000).
  - intros ref d H. case_refs; (split; [done|]); eexists; vm_compute; reflexivity.
  - exists "sha256:6d", signature, image. split; vm_compute; reflexivity.
Defined.

(** Garbage collection drops the stray blob and keeps the image and its
    configuration. *)
Lemma oci_GC_correct_witness :
  exists s', GC 9 tagged_layout = Some (Ok tt, s')
    /\ resolver.index (tagResolver s') !! "v1" = Some image
    /\ oci.blob_at (fs s') (Digest config) = oci.blob_at (fs tagged_layout) (Digest config).
Proof.
  assert (match GC 9 tagged_layout with Some (Ok _, _) => true | _ => false end = true) as Hok
    by (vm_compute; reflexivity).
  destruct (GC 9 tagged_layout) as [[[[]| |] s']|] eqn:E; [|discriminate Hok..].
  exists s'. split; [reflexivity|]. clear Hok.
  destruct (oci_GC_correct hex_alg_no_slash tagged_layout s' 9 tagged_sane E) as [H _].
  destruct (H "v1" image) as [Hv Hb]; [vm_compute; reflexivity|discriminate|]. split; [exact Hv|].
  refine (Hb config [] _ successors_config).
  refine (graph.reach_step _ _ (Plain image) _ config (graph.reach_refl _ _) successors_image _).
  apply list_elem_of_here.
Defined.


End oci_example.
