(* ===== verification/Platform.v ===== *)
(** Platform selection: [internal/platform/platform.go] and
    [CopyOptions.WithTargetPlatform] of [copy.go]. *)

From Stdlib Require Import ZArith Lia.
From S2P Require Import Prelude Errors Descriptor Reader Manifest Storage Proxy Sched Copy.

(** [json.NewDecoder(rc).Decode(&platform)]: the JSON value at the start of the
    stream; an empty stream gives [io.EOF]. *)
Class PlatformJSON := { Decode_Platform : Reader -> result Platform }.

Definition zeroPlatform : Platform := mkPlatform EmptyString EmptyString EmptyString [] EmptyString.

(** [isSubset], with the set built from the second slice. *)
Definition isSubset (a b : list string) : bool :=
  let set : gset string := list_to_set b in
  forallb (fun v => bool_decide (v ∈ set)) a.

(** [Match]; a nil pointer is [None]. *)
Definition Match (got want : option Platform) : bool :=
  match got, want with
  | None, None => true
  | None, _ | _, None => false
  | Some got, Some want =>
      if negb (String.eqb (Architecture got) (Architecture want)) || negb (String.eqb (OS got) (OS want))
      then false
      else if negb (String.eqb (OSVersion want) EmptyString)
              && negb (String.eqb (OSVersion got) (OSVersion want)) then false
      else if negb (String.eqb (Variant want) EmptyString)
              && negb (String.eqb (Variant got) (Variant want)) then false
      else if negb (bool_decide (length (OSFeatures want) = 0))
              && negb (isSubset (OSFeatures want) (OSFeatures got)) then false
      else true
  end.

Section Platform.
Context {GD : GoDigest} {MJ : ManifestJSON} {PJ : PlatformJSON}.

Definition getPlatformFromConfig (src : Fetcher) (desc : OciDescriptor) (targetConfigMediaType : string)
    : result Platform :=
  if negb (String.eqb (MediaType desc) targetConfigMediaType)
  then Err (EWrap ("fail to recognize platform from unknown config " +:+ MediaType desc) ErrUnsupported)
  else
    rc ← src desc;
    match Decode_Platform rc with
    | Err e => if decide (e = ESentinel EOF) then Ok zeroPlatform else Err e
    | r => r
    end.

(** The loop over the manifests of an index. *)
Fixpoint first_match (manifests : list OciDescriptor) (p : option Platform) : option OciDescriptor :=
  match manifests with
  | [] => None
  | m :: rest => if Match (oPlatform m) p then Some m else first_match rest p
  end.

Definition SelectManifest (src : Fetcher) (root : OciDescriptor) (p : option Platform)
    : result OciDescriptor :=
  if mem_string (MediaType root) [docker_MediaTypeManifestList; MediaTypeImageIndex] then
    manifests ← Manifests src root;
    match first_match manifests p with
    | Some m => Ok m
    | None => Err (EWrap (Digest root +:+ ": no matching manifest was found in the manifest list") ErrNotFound)
    end
  else if mem_string (MediaType root) [docker_MediaTypeManifest; MediaTypeImageManifest] then
    config ← Config src root;
    match config with
    | None => Panic    (* *config on a nil pointer *)
    | Some config =>
        let configMediaType :=
          if String.eqb (MediaType root) MediaTypeImageManifest then MediaTypeImageConfig
          else docker_MediaTypeConfig in
        cfgPlatform ← getPlatformFromConfig src config configMediaType;
        if Match (Some cfgPlatform) p then Ok root
        else Err (EWrap (Digest root +:+ ": platform in manifest does not match target platform") ErrNotFound)
    end
  else Err (EWrap (Digest root +:+ ": " +:+ MediaType root) ErrUnsupported).

(** [WithTargetPlatform].  The map function runs while the proxy does not cache,
    so what it fetches is what [FetchCached] gives. *)
Definition WithTargetPlatform {S D U} `{Storage S} (p : option Platform) (opts : @CopyOptions S D U)
    : @CopyOptions S D U :=
  match p with
  | None => opts
  | Some _ =>
      mkCopyOpts (co_graph opts) (Some (fun root =>
        root ← match MapRoot opts with Some mapRoot => mapRoot root | None => mret root end;
        reads (fun w => SelectManifest (fun d => FetchCached d (w_proxy w)) root p)))
  end.

(** ** What matching and selecting mean *)

(** An optional field of the wanted platform. *)
Definition field_ok (want got : string) : Prop := want = EmptyString \/ got = want.

Lemma isSubset_spec a b : isSubset a b = true <-> forall x, x ∈ a -> x ∈ b.
Proof.
  unfold isSubset. rewrite forallb_forall. setoid_rewrite <- list_elem_of_In.
  setoid_rewrite bool_decide_eq_true. by setoid_rewrite elem_of_list_to_set.
Qed.

Lemma Match_spec got want :
  Match (Some got) (Some want) = true <->
  Architecture got = Architecture want /\ OS got = OS want
  /\ field_ok (OSVersion want) (OSVersion got) /\ field_ok (Variant want) (Variant got)
  /\ forall x, x ∈ OSFeatures want -> x ∈ OSFeatures got.
Proof.
  unfold Match, field_ok. rewrite <- isSubset_spec.
  destruct (String.eqb_spec (Architecture got) (Architecture want)); simpl; [|naive_solver].
  destruct (String.eqb_spec (OS got) (OS want)); simpl; [|naive_solver].
  destruct (String.eqb_spec (OSVersion want) EmptyString) as [->|]; simpl;
    [|destruct (String.eqb_spec (OSVersion got) (OSVersion want)); simpl; [|naive_solver]].
  all: destruct (String.eqb_spec (Variant want) EmptyString) as [->|]; simpl;
    [|destruct (String.eqb_spec (Variant got) (Variant want)); simpl; [|naive_solver]].
  all: case_bool_decide as Hl; simpl; destruct (isSubset _ _) eqn:Hs; simpl; try naive_solver.
  all: exfalso; apply nil_length_inv in Hl; by rewrite Hl in Hs.
Qed.

Lemma first_match_spec l p :
  match first_match l p with
  | Some m => exists l1 l2, l = l1 ++ m :: l2 /\ Match (oPlatform m) p = true
                /\ forall x, x ∈ l1 -> Match (oPlatform x) p = false
  | None => forall x, x ∈ l -> Match (oPlatform x) p = false
  end.
Proof.
  induction l as [|x l IH]; simpl; [intros y Hy; by apply elem_of_nil in Hy|].
  destruct (Match (oPlatform x) p) eqn:Hx.
  - exists [], l. split; [done|]. split; [done|]. intros y Hy. by apply elem_of_nil in Hy.
  - destruct (first_match l p) as [m|].
    + destruct IH as (l1 & l2 & -> & Hm & Hl). exists (x :: l1), l2. split; [done|]. split; [done|].
      intros y [->|Hy]%elem_of_cons; auto.
    + intros y [->|Hy]%elem_of_cons; auto.
Qed.

(** Selecting by platform.  On an index that can be read the result is the
    first listed manifest whose platform has the wanted architecture and system
    and every optional field that is given, and [ErrNotFound] when there is none;
    on an image manifest the result is the manifest itself, and only if its
    configuration has such a platform; any other media type is [ErrUnsupported]. *)
Theorem SelectManifest_spec (src : Fetcher) (root : OciDescriptor) (want : Platform) (r : result OciDescriptor) :
  SelectManifest src root (Some want) = r ->
  (forall manifests,
     MediaType root = docker_MediaTypeManifestList \/ MediaType root = MediaTypeImageIndex ->
     Manifests src root = Ok manifests ->
     (exists m got l1 l2, r = Ok m /\ manifests = l1 ++ m :: l2 /\ oPlatform m = Some got
        /\ Architecture got = Architecture want /\ OS got = OS want
        /\ field_ok (OSVersion want) (OSVersion got) /\ field_ok (Variant want) (Variant got)
        /\ (forall x, x ∈ OSFeatures want -> x ∈ OSFeatures got)
        /\ forall x, x ∈ l1 -> Match (oPlatform x) (Some want) = false)
     \/ (exists e, r = Err e /\ errors_Is e ErrNotFound = true
          /\ forall x, x ∈ manifests -> Match (oPlatform x) (Some want) = false))
  /\ (forall d, MediaType root = docker_MediaTypeManifest \/ MediaType root = MediaTypeImageManifest ->
        r = Ok d ->
        d = root /\ exists config got, Config src root = Ok (Some config)
          /\ getPlatformFromConfig src config (MediaType config) = Ok got
          /\ MediaType config = (if String.eqb (MediaType root) MediaTypeImageManifest
                                 then MediaTypeImageConfig else docker_MediaTypeConfig)
          /\ Match (Some got) (Some want) = true)
  /\ (mem_string (MediaType root) [docker_MediaTypeManifestList; MediaTypeImageIndex;
        docker_MediaTypeManifest; MediaTypeImageManifest] = false ->
      exists e, r = Err e /\ errors_Is e ErrUnsupported = true).
Proof.
  intros <-. unfold SelectManifest. split; [|split].
  - intros l Hm Hl. assert (mem_string (MediaType root) [docker_MediaTypeManifestList; MediaTypeImageIndex] = true) as ->
      by (apply mem_string_spec; destruct Hm as [->| ->]; set_solver).
    rewrite Hl. simpl. pose proof (first_match_spec l (Some want)) as H.
    destruct (first_match l (Some want)) as [m|]; [|right; eauto].
    destruct H as (l1 & l2 & -> & HM & Hn). left. destruct (oPlatform m) as [got|] eqn:Hg; [|done].
    exists m, got, l1, l2. split; [done|]. split; [done|]. split; [done|].
    apply Match_spec in HM as (? & ? & ? & ? & ?). auto 10.
  - intros d Hm Hd.
    assert (mem_string (MediaType root) [docker_MediaTypeManifestList; MediaTypeImageIndex] = false) as Hf
      by (destruct Hm as [->| ->]; reflexivity).
    rewrite Hf in Hd.
    assert (mem_string (MediaType root) [docker_MediaTypeManifest; MediaTypeImageManifest] = true) as Ht
      by (apply mem_string_spec; destruct Hm as [->| ->]; set_solver).
    rewrite Ht in Hd. inv_ok. destruct a as [config|]; [|done]. inv_ok.
    destruct (Match (Some a) (Some want)) eqn:HM; [|done]. injection Hd as <-. split; [done|].
    exists config, a. split; [done|].
    set (mt := if String.eqb (MediaType root) MediaTypeImageManifest then _ else _) in *.
    assert (MediaType config = mt) as Hmt.
    { unfold getPlatformFromConfig in Ha0.
      destruct (String.eqb_spec (MediaType config) mt); [done|discriminate Ha0]. }
    split; [by rewrite Hmt|done].
  - intros Hn. unfold mem_string in *. apply bool_decide_eq_false in Hn.
    rewrite !bool_decide_eq_false_2 by (clear -Hn; set_solver). eauto.
Qed.
End Platform.

(** Selecting from an index with two platforms. *)
Module platform_example.
Import HexDigest.

Definition linux (arch : string) : Platform := mkPlatform arch "linux" EmptyString [] EmptyString.
Definition image (arch : string) : OciDescriptor :=
  mkOci MediaTypeImageManifest (digest_FromBytes (str_bytes arch)) 5 [] None [] (Some (linux arch)) EmptyString.
Definition index : OciDescriptor := NewDescriptorFromBytes MediaTypeImageIndex (str_bytes "index").

#[export] Instance json : ManifestJSON := {|
  Unmarshal_Manifest _ := Err (ENew "json");
  Unmarshal_Index _ := Ok (mkIndex 2 MediaTypeImageIndex EmptyString [image "amd64"; image "arm64"] None None);
  Unmarshal_Artifact _ := Err (ENew "json");
  Unmarshal_Subject _ := Ok None;
  Marshal_Manifest _ := Err (ENew "json");
  Marshal_Index _ := Err (ENew "json");
  Marshal_Artifact _ := Err (ENew "json")
|}.

#[export] Instance platform_json : PlatformJSON := {| Decode_Platform _ := Ok zeroPlatform |}.

Definition src : Fetcher := fun _ => Ok (bytes_NewReader (str_bytes "index")).

Lemma SelectManifest_spec_witness :
  SelectManifest src index (Some (linux "arm64")) = Ok (image "arm64")
  /\ exists m got l1 l2, image "arm64" = m /\ [image "amd64"; image "arm64"] = l1 ++ m :: l2
       /\ oPlatform m = Some got /\ Architecture got = "arm64"
       /\ forall x, x ∈ l1 -> Match (oPlatform x) (Some (linux "arm64")) = false.
Proof.
  assert (H : SelectManifest src index (Some (linux "arm64")) = Ok (image "arm64")) by (vm_compute; reflexivity).
  split; [exact H|].
  destruct (SelectManifest_spec src index (linux "arm64") _ H) as [Hi _].
  destruct (Hi [image "amd64"; image "arm64"]) as [(m & got & l1 & l2 & ? & ? & ? & ? & _ & _ & _ & _ & ?)|(e & He & _)].
  - right. reflexivity.
  - vm_compute. reflexivity.
  - exists m, got, l1, l2. split; [congruence|]. auto.
  - discriminate He.
Defined.
End platform_example.
