(* ===== verification/Content.v ===== *)
(** [content.go]: tagging, resolving and fetching by reference, and pushing bytes
    with references, on any target.  The optional interfaces of a target are
    those of [Copy.Target] and [Copy.Source]. *)

From Stdlib Require Import ZArith Lia.
From S2P Require Import Prelude Errors Descriptor Reader Manifest Storage Proxy Sched Copy CopyCorrect Platform.

(** [interfaces.ReferenceParser], which only validates here: the parsed reference
    becomes a scope hint in the context. *)
Class ReferenceParser := { rp_ParseReference : option (string -> result unit) }.

(** How the goroutines of a [LimitedGroup] act on the target, one after the other:
    the order, and for each whether it finds the context of the group cancelled.
    Any order is possible; the context is cancelled only after a failure. *)
Class GroupOrder := {
  group_order : list string -> list (string * bool);
  group_order_perm : forall l, (group_order l).*1 ≡ₚ l
}.

(** The group as its goroutines run: [err] is the first error, which [Wait]
    returns; a goroutine that finds the context cancelled returns its error
    without calling [f]. *)
Fixpoint group_run {T} (f : string -> M T unit) (ops : list (string * bool)) (err : option error) : M T unit :=
  fun t =>
    match ops with
    | [] => (of_err err, t)
    | (ref, cancelled) :: rest =>
        if cancelled && bool_decide (is_Some err) then group_run f rest err t
        else
          match f ref t with
          | (Ok _, t') => group_run f rest err t'
          | (Err e, t') => group_run f rest (Some (default e err)) t'
          | (Panic, t') => (Panic, t')
          end
    end.

Definition default_limit (limit dflt : Z) : Z := if decide (limit <= 0)%Z then dflt else limit.

Section Content.
Context {GD : GoDigest} {MJ : ManifestJSON} {PJ : PlatformJSON} {GO : GroupOrder} {RP : ReferenceParser}.
Context {T : Type} `{ST : Storage T} {TT : Target T} {SR : Source T}.

(** [LimitGroup], one [Go] per reference and [Wait]. *)
Definition group (f : string -> M T unit) (references : list string) : M T unit :=
  group_run f (group_order references) None.

(** The scope hint of a target that parses references. *)
Definition scope_hint (reference : string) : result unit :=
  match rp_ParseReference with Some parse => parse reference | None => Ok tt end.

(** [Tag]. *)
Definition Tag (src dst : string) : M T OciDescriptor :=
  match sc_FetchReference, tg_PushReference with
  | Some fetchReference, Some pushReference =>
      _ ← reads (fun _ => scope_hint src);
      '(desc, rc) ← reads (fetchReference src);
      _ ← pushReference desc rc dst;
      mret desc
  | _, _ =>
      desc ← reads (sc_Resolve src);
      _ ← tg_Tag desc dst;
      mret desc
  end.

(** ** Resolving and fetching *)

Record ResolveOptions := mkResolveOptions { TargetPlatform : option Platform; ro_MaxMetadataBytes : Z }.

Definition defaultResolveMaxMetadataBytes : Z := 4 * 1024 * 1024.
Definition defaultTagNMaxMetadataBytes : Z := 4 * 1024 * 1024.
Definition defaultMaxBytes : Z := 4 * 1024 * 1024.
Definition defaultTagConcurrency : Z := 5.

Definition size_limit_err : error := EWrap "content size exceeds limit" ErrSizeExceedsLimit.

(** [resolve]; [None] is a nil proxy.  The proxy stops caching before it is used,
    so selecting reads only; the result is the descriptor and the proxy. *)
Definition resolve (proxy : option (Proxy T)) (reference : string) (opts : ResolveOptions) (t : T)
    : result (OciDescriptor * option (Proxy T)) :=
  let limit := default_limit (ro_MaxMetadataBytes opts) defaultResolveMaxMetadataBytes in
  match sc_FetchReference with
  | Some fetchReference =>
      '(desc, rc) ← fetchReference reference t;
      if mem_string (MediaType desc) [docker_MediaTypeManifestList; MediaTypeImageIndex;
           docker_MediaTypeManifest; MediaTypeImageManifest] then
        if decide (Size desc > limit)%Z then Err size_limit_err
        else
          let p := default (NewProxyWithLimit t cas.NewMemory limit) proxy in
          let '(r, cache) := st_Push desc rc (p_Cache p) in
          _ ← r;
          let p := mkProxy (p_Base p) cache true in
          m ← SelectManifest (fun d => FetchCached d p) desc (TargetPlatform opts);
          Ok (m, Some p)
      else Err (EWrap (Digest desc +:+ ": " +:+ MediaType desc) ErrUnsupported)
  | None =>
      desc ← sc_Resolve reference t;
      m ← SelectManifest (fun d => st_Fetch d t) desc (TargetPlatform opts);
      Ok (m, proxy)
  end.

Definition Resolve (reference : string) (opts : ResolveOptions) (t : T) : result OciDescriptor :=
  match TargetPlatform opts with
  | None => sc_Resolve reference t
  | Some _ => fst <$> resolve None reference opts t
  end.

Definition Fetch (reference : string) (opts : ResolveOptions) (t : T) : result (OciDescriptor * Reader) :=
  match TargetPlatform opts with
  | None =>
      match sc_FetchReference with
      | Some fetchReference => fetchReference reference t
      | None =>
          desc ← sc_Resolve reference t;
          rc ← st_Fetch desc t;
          Ok (desc, rc)
      end
  | Some _ =>
      let limit := default_limit (ro_MaxMetadataBytes opts) defaultResolveMaxMetadataBytes in
      let proxy := NewProxyWithLimit t cas.NewMemory limit in
      '(desc, p) ← resolve (Some proxy) reference (mkResolveOptions (TargetPlatform opts) limit) t;
      rc ← FetchCached desc (default proxy p);
      Ok (desc, rc)
  end.

Record FetchBytesOptions := mkFetchBytesOptions { fb_Resolve : ResolveOptions; MaxBytes : Z }.

Definition FetchBytes (reference : string) (opts : FetchBytesOptions) (t : T) : result (OciDescriptor * bytes) :=
  let limit := default_limit (MaxBytes opts) defaultMaxBytes in
  '(desc, rc) ← Fetch reference (fb_Resolve opts) t;
  if decide (Size desc > limit)%Z then Err size_limit_err
  else b ← ReadAll rc desc; Ok (desc, b).

(** ** Pushing bytes *)

Definition PushBytes (mediaType : string) (contentBytes : bytes) : M T OciDescriptor :=
  let desc := NewDescriptorFromBytes mediaType contentBytes in
  _ ← st_Push desc (bytes_NewReader contentBytes);
  mret desc.

Definition tagBytesN (desc : OciDescriptor) (contentBytes : bytes) (references : list string) : M T unit :=
  match tg_PushReference with
  | Some pushReference =>
      group (fun ref => unless_exists (EWrap ("failed to tag " +:+ ref))
                          (pushReference desc (bytes_NewReader contentBytes) ref)) references
  | None =>
      _ ← unless_exists (EWrap "failed to push content") (st_Push desc (bytes_NewReader contentBytes));
      group (fun ref => on_err (EWrap ("failed to tag " +:+ ref)) (tg_Tag desc ref)) references
  end.

Definition TagBytesN (mediaType : string) (contentBytes : bytes) (references : list string) : M T OciDescriptor :=
  match references with
  | [] => PushBytes mediaType contentBytes
  | _ =>
      let desc := NewDescriptorFromBytes mediaType contentBytes in
      _ ← tagBytesN desc contentBytes references;
      mret desc
  end.

Definition TagBytes (mediaType : string) (contentBytes : bytes) (reference : string) : M T OciDescriptor :=
  TagBytesN mediaType contentBytes [reference].

(** [TagN]; the concurrency option bounds the goroutines only. *)
Definition TagN (srcReference : string) (dstReferences : list string) (maxMetadataBytes : Z) : M T OciDescriptor :=
  match dstReferences with
  | [] => fails (EWrap "dstReferences cannot be empty" ErrMissingReference)
  | [dst] => Tag srcReference dst
  | _ =>
      let limit := default_limit maxMetadataBytes defaultTagNMaxMetadataBytes in
      match sc_FetchReference, tg_PushReference with
      | Some _, Some _ =>
          _ ← reads (fun _ => scope_hint srcReference);
          '(desc, contentBytes) ← on_err
             (fun e => if errors_Is e ErrSizeExceedsLimit
                       then EWrap "content size exceeds MaxMetadataBytes" ErrSizeExceedsLimit else e)
             (reads (FetchBytes srcReference (mkFetchBytesOptions (mkResolveOptions None 0) limit)));
          _ ← tagBytesN desc contentBytes dstReferences;
          mret desc
      | _, _ =>
          desc ← reads (sc_Resolve srcReference);
          _ ← group (fun dst => on_err (EWrap ("failed to tag " +:+ srcReference +:+ " as " +:+ dst))
                                  (tg_Tag desc dst)) dstReferences;
          mret desc
      end
  end.
End Content.
