(* ===== verification/ContentCorrect.v ===== *)
(** Properties of the operations of [content.go]: what is fetched by reference is
    bounded and verified, and tagging with several references tags all of them,
    in whatever order the goroutines run. *)

From Stdlib Require Import ZArith Lia.
From S2P Require Import Prelude Errors Descriptor Reader Manifest Storage Proxy Sched Copy CopyCorrect Platform.
From S2P Require Import Content Graph MemoryStore CopyExample.

(** [ref] resolves to the content [k]. *)
Definition resolves {T} `{Target T} (ref : string) (k : Descriptor) (t : T) : Prop :=
  exists d, tg_Resolve ref t = Ok d /\ FromOCI d = k.

(** Tagging a content moves no reference away from that content. *)
Class TagLaws (T : Type) {GD : GoDigest} {ST : Storage T} {TT : Target T} (inv : T -> Prop) := {
  tag_stays : forall d ref ref' s s', inv s -> tg_Tag d ref s = (Ok tt, s') ->
    resolves ref' (FromOCI d) s -> resolves ref' (FromOCI d) s';
  pushref_stays : forall pr d r ref ref' s res s', tg_PushReference = Some pr -> inv s ->
    pr d r ref s = (res, s') ->
    ok_or_exists res ->
    resolves ref' (FromOCI d) s -> resolves ref' (FromOCI d) s'
}.

(** ** Groups of goroutines *)

Section group.
Context {T : Type} (f : string -> M T unit) (P : T -> Prop) (Q : string -> T -> Prop).
Hypothesis f_ok : forall ref t t', P t -> f ref t = (Ok tt, t') ->
  P t' /\ Q ref t' /\ forall ref', Q ref' t -> Q ref' t'.

Lemma group_run_err ops e t t' : group_run f ops (Some e) t <> (Ok tt, t').
Proof.
  revert e t. induction ops as [|[ref c] ops IH]; intros e t; simpl; [done|].
  destruct c; simpl; [apply IH|]. destruct (f ref t) as [[[]| |] t1]; [apply IH|apply IH|done].
Qed.

(** A group that succeeds ran every goroutine. *)
Lemma group_run_ok ops t t' :
  P t -> group_run f ops None t = (Ok tt, t') ->
  P t' /\ (forall ref, ref ∈ ops.*1 -> Q ref t') /\ (forall ref, Q ref t -> Q ref t').
Proof.
  revert t. induction ops as [|[ref c] ops IH]; intros t HP; simpl.
  - intros [= <-]. split; [done|]. split; [|done]. intros ref Hr. by apply elem_of_nil in Hr.
  - rewrite andb_false_r. destruct (f ref t) as [[[]|e|] t1] eqn:E; [| |done].
    + destruct (f_ok ref t t1 HP E) as (HP1 & HQ & Hk). intros H.
      destruct (IH t1 HP1 H) as (HP' & Hall & Hkeep). split; [done|]. split; [|auto].
      intros ref' [->|Hin]%elem_of_cons; auto.
    + intros H. by apply group_run_err in H.
Qed.
End group.

Section properties.
Context {GD : GoDigest} {MJ : ManifestJSON} {PJ : PlatformJSON} {GO : GroupOrder} {RP : ReferenceParser}.
Context {T : Type} `{ST : Storage T} {TT : Target T} {SR : Source T}.

(** ** Fetching *)

Lemma default_limit_idem n d : (0 < d)%Z -> default_limit (default_limit n d) d = default_limit n d.
Proof. unfold default_limit. intros H. repeat case_decide; lia. Qed.

Lemma resolve_proxy reference (opts : ResolveOptions) (t : T) p :
  let limit := default_limit (ro_MaxMetadataBytes opts) defaultResolveMaxMetadataBytes in
  p = NewProxyWithLimit t cas.NewMemory limit ->
  fst <$> resolve (Some p) reference (mkResolveOptions (TargetPlatform opts) limit) t
  = fst <$> resolve None reference opts t.
Proof.
  intros limit ->. unfold resolve. simpl. subst limit. rewrite default_limit_idem by done.
  destruct sc_FetchReference as [fr|]; simpl.
  - destruct (fr reference t) as [[desc rc]| |]; simpl; [|done..].
    destruct (mem_string _ _); [|done]. case_decide; [done|]. destruct (limited.Push _ _ _) as [[]]; simpl; [|done..].
    by destruct (SelectManifest _ _ _).
  - destruct (sc_Resolve reference t); simpl; [|done..]. by destruct (SelectManifest _ _ _).
Qed.

(** The bytes fetched by reference are at most [MaxBytes] (4 MiB when no
    positive limit is given), have the size and digest of the descriptor that is
    returned, and a descriptor above the limit is refused with
    [ErrSizeExceedsLimit]; with a target platform the descriptor is the one that
    [Resolve] gives. *)
Theorem FetchBytes_bounded (reference : string) (opts : FetchBytesOptions) (t : T) :
  let limit := if decide (MaxBytes opts <= 0)%Z then (4 * 1024 * 1024)%Z else MaxBytes opts in
  (forall desc b, FetchBytes reference opts t = Ok (desc, b) ->
     (Zlen b <= limit)%Z /\ verified desc b
     /\ (is_Some (TargetPlatform (fb_Resolve opts)) -> Resolve reference (fb_Resolve opts) t = Ok desc))
  /\ (forall desc rc, Fetch reference (fb_Resolve opts) t = Ok (desc, rc) -> (Size desc > limit)%Z ->
       exists e, FetchBytes reference opts t = Err e /\ errors_Is e ErrSizeExceedsLimit = true).
Proof.
  intros limit. unfold FetchBytes. change (default_limit _ _) with limit. split.
  - intros desc b H. apply bind_Ok in H as ([d rc] & HF & H). case_decide as Hs; [done|].
    apply bind_Ok in H as (b' & HR & [= <- <-]). apply ReadAll_verified in HR as [Hv _].
    pose proof Hv as [Hl _]. split; [lia|]. split; [done|]. intros [p Hp].
    unfold Fetch, Resolve in *. rewrite Hp in *. apply bind_Ok in HF as ([d' q] & HF & H).
    apply bind_Ok in H as (rc' & _ & [= <- <-]).
    rewrite <- (resolve_proxy reference (fb_Resolve opts) t _ eq_refl), Hp, HF. done.
  - intros desc rc HF Hs. rewrite HF. simpl. rewrite decide_True by done. eauto.
Qed.

(** ** Tagging *)

Context (inv : T -> Prop) (view : T -> Descriptor -> option bytes).
Context `{SL : !StorageLaws T inv view} {proper : Descriptor -> Prop} `{TL : !TargetLaws T inv view proper (fun _ _ => True)} `{TG : !TagLaws T inv}.

Notation kept := (grown inv view).

Lemma tag_ok t0 d ref t t' (g : error -> error) :
  kept t0 t -> on_err g (tg_Tag d ref) t = (Ok tt, t') ->
  kept t0 t' /\ resolves ref (FromOCI d) t'
  /\ forall ref', resolves ref' (FromOCI d) t -> resolves ref' (FromOCI d) t'.
Proof.
  intros [Hi Hm]. unfold on_err. destruct (tg_Tag d ref t) as [[[]| |] t1] eqn:E; [|done..].
  intros [= <-]. destruct (tag_keeps d ref t I Hi) as [Hi' Hv]. rewrite E in Hi', Hv. split; [|split].
  - split; [done|]. intros k c Hk. rewrite Hv. by apply Hm.
  - by apply (tag_resolve d ref t _ I).
  - intros ref'. by apply (tag_stays d ref ref' t).
Qed.

Lemma pushref_tags t0 pr d r ref t t' (m : M T unit) :
  tg_PushReference = Some pr -> kept t0 t ->
  (m = pr d r ref \/ clean r /\ exists msg, m = unless_exists msg (pr d r ref)) -> m t = (Ok tt, t') ->
  (kept t0 t' /\ is_Some (view t' (FromOCI d))) /\ resolves ref (FromOCI d) t'
  /\ forall ref', resolves ref' (FromOCI d) t -> resolves ref' (FromOCI d) t'.
Proof.
  intros Hpr [Hi Hm] Hcase Heq.
  assert (exists res, pr d r ref t = (res, t') /\
    match res with Ok _ => True | Err e => clean r /\ errors_Is e ErrAlreadyExists = true | Panic => False end)
    as (res & E & Hres).
  { destruct Hcase as [->|[Hc [msg ->]]]; [by exists (Ok tt)|]. apply unless_exists_Ok in Heq as (res & ? & Hr).
    exists res. split; [done|]. by destruct res. }
  destruct (pushref_keeps pr d r ref t Hpr I Hi) as (Hi' & Hv & _). rewrite E in Hi', Hv.
  destruct (pushref_ok pr d r ref t res t' Hpr I Hi E Hres) as [Hst Hrs]. split; [split; [split; [done|auto]|done]|].
  split; [done|]. intros ref'. apply (pushref_stays pr d r ref ref' t res); [done..|]. destruct res; [done|apply Hres|done].
Qed.

Lemma tagBytesN_ok desc b refs (t t' : T) :
  inv t -> refs <> [] -> tagBytesN desc b refs t = (Ok tt, t') ->
  kept t t' /\ is_Some (view t' (FromOCI desc)) /\ forall ref, ref ∈ refs -> resolves ref (FromOCI desc) t'.
Proof.
  intros Hi Hne. assert (forall r0, r0 ∈ refs <-> r0 ∈ (group_order refs).*1) as Hp
    by (intros; by rewrite group_order_perm).
  unfold tagBytesN. destruct tg_PushReference as [pr|] eqn:Hpr.
  - intros H. destruct refs as [|ref0 refs0] eqn:Er; [done|].
    set (Q := fun ref s => resolves ref (FromOCI desc) s /\ is_Some (view s (FromOCI desc))).
    assert (Hstep : forall ref s s', kept t s -> unless_exists (EWrap ("failed to tag " +:+ ref))
        (pr desc (bytes_NewReader b) ref) s = (Ok tt, s') ->
      kept t s' /\ Q ref s' /\ forall ref', Q ref' s -> Q ref' s').
    { intros ref s s' Hs Hf.
      destruct (pushref_tags t pr desc _ ref s s' _ Hpr Hs ltac:(right; split; [apply bytes_NewReader_spec|eauto]) Hf) as ([? ?] & ? & Hst).
      split; [done|]. split; [done|]. intros ref' [? _]. split; auto. }
    destruct (group_run_ok _ (kept t) Q Hstep _ _ _ ltac:(by split) H) as (Hk & Hall & _).
    split; [done|]. split; [apply (Hall ref0), Hp; by left|]. intros ref Hr. by apply Hall, Hp.
  - intros H. apply M_bind_Ok in H as ([] & t1 & Hpush & Hg). apply unless_exists_Ok in Hpush as (res & E & Hres).
    destruct (push_bytes_stored inv view desc b t t1 res Hi E Hres) as [Hk1 Hst1]. pose proof Hk1 as [Hi1 _].
    destruct (group_run_ok _ (kept t) (fun ref s => resolves ref (FromOCI desc) s)
      (fun ref s s' Hs Hf => tag_ok t desc ref s s' _ Hs Hf) _ _ _ Hk1 Hg) as (Hk & Hall & _).
    split; [done|]. split; [|intros ref Hr; by apply Hall, Hp].
    destruct (group_run_ok _ (kept t1) (fun ref s => resolves ref (FromOCI desc) s)
      (fun ref s s' Hs Hf => tag_ok t1 desc ref s s' _ Hs Hf) _ _ _ ltac:(by split) Hg) as ([_ Hm2] & _).
    destruct Hst1 as [c Hc1]. exists c. auto.
Qed.

Lemma Tag_ok src dst (t t' : T) desc :
  inv t -> Tag src dst t = (Ok desc, t') -> kept t t' /\ resolves dst (FromOCI desc) t'.
Proof.
  intros Hi. assert (kept t t) as Hk by (by split). unfold Tag.
  assert (Hplain : (desc ← reads (sc_Resolve src); _ ← tg_Tag desc dst; mret desc) t = (Ok desc, t') ->
    kept t t' /\ resolves dst (FromOCI desc) t').
  { unfold mbind, M_bind, reads. destruct (sc_Resolve src t) as [d| |]; [|done..].
    destruct (tg_Tag d dst t) as [[[]| |] t1] eqn:E; [|done..]. intros [= <- <-].
    destruct (tag_ok t d dst t t1 id Hk) as (? & ? & _); [unfold on_err; by rewrite E|done]. }
  destruct sc_FetchReference as [fr|]; [|done]. destruct tg_PushReference as [pr|] eqn:Hpr; [|done].
  clear Hplain. unfold mbind, M_bind, reads. destruct (scope_hint src); [|done..].
  destruct (fr src t) as [[d rc]| |]; [|done..]. destruct (pr d rc dst t) as [[[]| |] t1] eqn:E; [|done..].
  intros [= <- <-]. destruct (pushref_tags t pr d rc dst t t1 _ Hpr Hk ltac:(by left) E) as ([? _] & ? & _). done.
Qed.

(** In whatever order the goroutines of [TagN] and [TagBytesN] run, when they
    return a descriptor then every reference given resolves to that content and
    nothing stored before is lost; [TagBytesN] has stored the content. *)
Theorem TagN_tags_all (t t' : T) (desc : OciDescriptor) (src : string) (refs : list string) (limit : Z)
    (mediaType : string) (b : bytes) (Hinv : inv t) :
  (TagN src refs limit t = (Ok desc, t') ->
     kept t t' /\ refs <> [] /\ forall ref, ref ∈ refs -> resolves ref (FromOCI desc) t')
  /\ (TagBytesN mediaType b refs t = (Ok desc, t') ->
     kept t t' /\ desc = NewDescriptorFromBytes mediaType b /\ is_Some (view t' (FromOCI desc))
     /\ forall ref, ref ∈ refs -> resolves ref (FromOCI desc) t').
Proof.
  assert (kept t t) as Hk by (by split). split.
  - unfold TagN. destruct refs as [|dst1 [|dst2 refs]]; [done| |].
    { intros [Hk' Hr]%Tag_ok; [|done]. split; [done|]. split; [done|]. by intros ref ->%list_elem_of_singleton. }
    set (refs' := dst1 :: dst2 :: refs).
    assert (Hplain : (desc ← reads (sc_Resolve src); _ ← group (fun dst =>
        on_err (EWrap ("failed to tag " +:+ src +:+ " as " +:+ dst)) (tg_Tag desc dst)) refs'; mret desc) t = (Ok desc, t') ->
      kept t t' /\ refs' <> [] /\ forall ref, ref ∈ refs' -> resolves ref (FromOCI desc) t').
    { unfold mbind, M_bind, reads. destruct (sc_Resolve src t) as [d| |]; [|done..].
      destruct (group _ refs' t) as [[[]| |] t1] eqn:E; [|done..]. intros [= <- <-].
      destruct (group_run_ok _ (kept t) (fun ref s => resolves ref (FromOCI d) s)
        (fun ref s s' Hs Hf => tag_ok t d ref s s' _ Hs Hf) _ _ _ Hk E) as (Hk' & Hall & _).
      split; [done|]. split; [done|]. intros ref Hr. apply Hall. by rewrite group_order_perm. }
    destruct sc_FetchReference as [fr|]; [|done]. destruct tg_PushReference as [pr|]; [|done].
    clear Hplain. unfold mbind, M_bind, reads at 1, on_err at 1, reads at 1. destruct (scope_hint src); [|done..].
    destruct (FetchBytes _ _ _) as [[d c]| |]; simpl; [|done..].
    destruct (tagBytesN d c refs' t) as [[[]| |] t1] eqn:E; [|done..]. intros [= <- <-].
    apply tagBytesN_ok in E as (? & _ & ?); done.
  - unfold TagBytesN, PushBytes. set (d := NewDescriptorFromBytes mediaType b). destruct refs as [|ref0 refs].
    + unfold mbind, M_bind. pose proof (push_inv d (bytes_NewReader b) t Hinv) as Hi1.
      pose proof (fun k c => push_mono d (bytes_NewReader b) t k c Hinv) as Hm1.
      destruct (st_Push d (bytes_NewReader b) t) as [[[]| |] t1] eqn:E; [|done..]. intros [= <- <-].
      split; [by split|]. split; [done|]. destruct (push_ok d _ t t1 Hinv E) as (c & _ & _ & ->).
      split; [by eexists|]. intros ref Hr. by apply elem_of_nil in Hr.
    + unfold mbind, M_bind. destruct (tagBytesN d b (ref0 :: refs) t) as [[[]| |] t1] eqn:E; [|done..].
      intros [= <- <-]. apply tagBytesN_ok in E as (? & ? & ?); done.
Qed.
End properties.

(** ** The in-memory store *)

Section memory.
Context {GD : GoDigest} {MJ : ManifestJSON} {MO : MapOrder}.

#[global] Instance memory_TagLaws : TagLaws memory.Store memory.wf.
Proof.
  split; [|done]. intros d ref ref' s s' _. simpl. unfold memory.Tag.
  destruct (cas.Exists d (memory.storage s)) as [[]| |]; try done. intros [= <-].
  unfold resolves. simpl. unfold memory.Resolve, Resolver.resolver.Resolve. simpl. rewrite lookup_insert.
  case_decide as E; [|done]. intros _. eauto.
Qed.
End memory.

Module content_example.
Import HexDigest example.

(** The goroutines run in the opposite order. *)
Lemma reverse_perm (l : list string) : ((fun r => (r, true)) <$> rev l).*1 ≡ₚ l.
Proof.
  rewrite <- list_fmap_compose. simpl. rewrite list_fmap_id. symmetry. apply Permutation_rev.
Qed.

#[export] Instance reverse : GroupOrder := {|
  group_order l := (fun r => (r, true)) <$> rev l;
  group_order_perm := reverse_perm
|}.

#[export] Instance no_parser : ReferenceParser := {| rp_ParseReference := None |}.
#[export] Instance no_platform : PlatformJSON := {| Decode_Platform _ := Err (ENew "json") |}.

Lemma TagN_tags_all_witness :
  exists t', TagN "v1" ["v2"; "latest"; "v2"] 0 source = (Ok root, t')
    /\ resolves "latest" (FromOCI root) t' /\ resolves "v2" (FromOCI root) t'.
Proof.
  assert (Hr : match TagN "v1" ["v2"; "latest"; "v2"] 0 source with
               | (Ok d, _) => bool_decide (d = root) | _ => false end = true) by (vm_compute; reflexivity).
  destruct (TagN "v1" ["v2"; "latest"; "v2"] 0 source) as [[d|e|] t'] eqn:E; [|discriminate Hr..].
  apply bool_decide_eq_true in Hr as ->. exists t'. split; [reflexivity|].
  destruct (TagN_tags_all memory.wf memory.view source t' root "v1" ["v2"; "latest"; "v2"] 0 "text/plain" []
    source_wf) as [H _].
  destruct (H E) as (_ & _ & Hall).
  split; apply Hall; repeat constructor.
Defined.

Lemma FetchBytes_bounded_witness :
  exists b, FetchBytes "v1" (mkFetchBytesOptions (mkResolveOptions None 0) 5) source = Ok (root, b)
    /\ (Zlen b <= 5)%Z /\ verified root b.
Proof.
  exists (str_bytes "index").
  assert (H : FetchBytes "v1" (mkFetchBytesOptions (mkResolveOptions None 0) 5) source
              = Ok (root, str_bytes "index")) by (vm_compute; reflexivity).
  split; [exact H|].
  destruct (FetchBytes_bounded "v1" (mkFetchBytesOptions (mkResolveOptions None 0) 5) source) as [Hb _].
  destruct (Hb _ _ H) as (Hl & Hv & _). split; [exact Hl|exact Hv].
Defined.
End content_example.
