(* ===== verification/Pack.v ===== *)
(** Packing manifests: [pack.go].  The storage pushed to is any [Storage]; whether
    it can also be asked for content ([content.ReadOnlyStorage]) is a parameter,
    as are the clock and the RFC 3339 parser of package [time]. *)

From Stdlib Require Import Ascii String ZArith Lia.
From S2P Require Import Prelude Errors Descriptor Reader Manifest Storage GoStrings.

#[local] Open Scope string_scope.

Class Time := {
  time_ParseRFC3339 : string -> bool;      (* [time.Parse(time.RFC3339, _)] succeeds *)
  time_Now : string                        (* [time.Now().UTC().Format(time.RFC3339)] *)
}.

Definition MediaTypeUnknownConfig : string := "application/vnd.unknown.config.v1+json".
Definition MediaTypeUnknownArtifact : string := "application/vnd.unknown.artifact.v1".

(** [ocispec.DescriptorEmptyJSON]: the empty JSON object. *)
Definition DescriptorEmptyJSON : OciDescriptor :=
  mkOci MediaTypeEmptyJSON "sha256:44136fa355b3678a1146ad16f7e8649e94fb4fc21fe77e8310c060f61caaff8a" 2 [] None
    (str_bytes "{}") None EmptyString.

(** [mediaTypeRegexp]. *)
Definition alnum_char (c : ascii) : bool := in_range "A" "Z" c || in_range "a" "z" c || in_range "0" "9" c.
Definition media_char (c : ascii) : bool := alnum_char c || existsb (Ascii.eqb c) (chars "!#$&^_.+-").
Definition media_name : re := RSeq (RClass alnum_char) (RUpTo 126 (RClass media_char)).
Definition mediaTypeRegexp : re := RSeq media_name (RSeq (RLit "/") media_name).

Definition validateMediaType (mediaType : string) : result unit :=
  if MatchString mediaTypeRegexp mediaType then Ok tt else Err (EWrap mediaType ErrInvalidMediaType).

Record PackManifestOptions := mkPackManifestOptions {
  po_Subject : option OciDescriptor;
  po_Layers : list OciDescriptor;
  po_ManifestAnnotations : option (gmap string string);
  po_ConfigDescriptor : option OciDescriptor;
  po_ConfigAnnotations : option (gmap string string)
}.

Record PackOptions := mkPackOptions {
  pk_Subject : option OciDescriptor;
  pk_ManifestAnnotations : option (gmap string string);
  PackImageManifest : bool;
  pk_ConfigDescriptor : option OciDescriptor;
  pk_ConfigAnnotations : option (gmap string string)
}.

Definition PackManifestVersion1_0 : Z := 1.
Definition PackManifestVersion1_1 : Z := 2.

Section Pack.
Context {GD : GoDigest} {MJ : ManifestJSON} {TM : Time}.
Context {P : Type} `{SP : Storage P} (readable : bool).

Definition ensureAnnotationCreated (annotations : option (gmap string string)) (key : string)
    : result (gmap string string) :=
  match default ∅ annotations !! key with
  | Some createdTime =>
      if time_ParseRFC3339 createdTime then Ok (default ∅ annotations) 
      else Err (EWrap createdTime ErrInvalidDateTimeFormat)
  | None => Ok (<[key := time_Now]> (default ∅ annotations))
  end.

Definition push_unless_exists (msg : string) (desc : OciDescriptor) (data : bytes) : M P unit :=
  unless_exists (EWrap msg) (st_Push desc (bytes_NewReader data)).

Definition pushIfNotExist (desc : OciDescriptor) (data : bytes) : M P unit :=
  exists_ ← (if readable
             then on_err (EWrap "failed to check existence") (reads (st_Exists desc)) else mret false);
  if (exists_ : bool) then mret tt else push_unless_exists "failed to push" desc data.

Definition pushManifest (manifestJSON : result bytes) (mediaType artifactType : string)
    (annotations : gmap string string) : M P OciDescriptor :=
  manifestJSON ← on_err (EWrap "failed to marshal manifest") (reads (fun _ => manifestJSON));
  let manifestDesc := NewDescriptorFromBytes mediaType manifestJSON in
  let manifestDesc := set_Annotations (Some annotations) (set_ArtifactType artifactType manifestDesc) in
  _ ← push_unless_exists "failed to push manifest" manifestDesc manifestJSON;
  mret manifestDesc.

Definition pushCustomEmptyConfig (mediaType : string) (annotations : option (gmap string string))
    : M P OciDescriptor :=
  let configBytes := str_bytes "{}" in
  let configDesc := set_Annotations annotations (NewDescriptorFromBytes mediaType configBytes) in
  _ ← on_err (EWrap "failed to push config") (pushIfNotExist configDesc configBytes);
  mret configDesc.

(** ** Image manifests *)

Definition config_V1_0 (artifactType : string) (opts : PackManifestOptions) : M P OciDescriptor :=
  match po_ConfigDescriptor opts with
  | Some d =>
      _ ← on_err (EWrap "invalid config mediaType format") (reads (fun _ => validateMediaType (MediaType d)));
      mret d
  | None =>
      artifactType ← (if String.eqb artifactType EmptyString then mret MediaTypeUnknownConfig
                      else _ ← on_err (EWrap "invalid artifactType format")
                                 (reads (fun _ => validateMediaType artifactType));
                           mret artifactType);
      pushCustomEmptyConfig artifactType (po_ConfigAnnotations opts)
  end.

Definition packManifestV1_0 (artifactType : string) (opts : PackManifestOptions) : M P OciDescriptor :=
  match po_Subject opts with
  | Some _ => fails (EWrap "subject is not supported for manifest version 1" ErrUnsupported)
  | None =>
      configDesc ← config_V1_0 artifactType opts;
      annotations ← reads (fun _ => ensureAnnotationCreated (po_ManifestAnnotations opts) AnnotationCreated);
      let manifest := mkManifest 2 MediaTypeImageManifest EmptyString configDesc (po_Layers opts) None (Some annotations) in
      pushManifest (Marshal_Manifest manifest) (m_MediaType manifest) (MediaType (m_Config manifest)) annotations
  end.

(** The configuration of a version 1.1 manifest, and whether the empty blob was
    pushed for it. *)
Definition config_V1_1 (opts : PackManifestOptions) : M P (OciDescriptor * bool) :=
  match po_ConfigDescriptor opts with
  | Some d =>
      _ ← on_err (EWrap "invalid config mediaType format") (reads (fun _ => validateMediaType (MediaType d)));
      mret (d, false)
  | None =>
      let configDesc := set_Annotations (po_ConfigAnnotations opts) DescriptorEmptyJSON in
      _ ← on_err (EWrap "failed to push config") (pushIfNotExist configDesc (Data DescriptorEmptyJSON));
      mret (configDesc, true)
  end.

Definition layers_V1_1 (opts : PackManifestOptions) (emptyBlobExists : bool) : M P (list OciDescriptor) :=
  match po_Layers opts with
  | [] =>
      _ ← (if emptyBlobExists then mret tt
           else on_err (EWrap "failed to push layer")
                  (pushIfNotExist DescriptorEmptyJSON (Data DescriptorEmptyJSON)));
      mret [DescriptorEmptyJSON]
  | layers => mret layers
  end.

Definition packManifestV1_1 (artifactType : string) (opts : PackManifestOptions) : M P OciDescriptor :=
  if String.eqb artifactType EmptyString
     && match po_ConfigDescriptor opts with
        | None => true
        | Some d => String.eqb (MediaType d) MediaTypeEmptyJSON
        end
  then fails ErrMissingArtifactType
  else
    _ ← (if String.eqb artifactType EmptyString then mret tt
         else on_err (EWrap "invalid artifactType format") (reads (fun _ => validateMediaType artifactType)));
    '(configDesc, emptyBlobExists) ← config_V1_1 opts;
    annotations ← reads (fun _ => ensureAnnotationCreated (po_ManifestAnnotations opts) AnnotationCreated);
    layers ← layers_V1_1 opts emptyBlobExists;
    let manifest := mkManifest 2 MediaTypeImageManifest artifactType configDesc layers (po_Subject opts) (Some annotations) in
    pushManifest (Marshal_Manifest manifest) (m_MediaType manifest) (m_ArtifactType manifest) annotations.

Definition PackManifest (packManifestVersion : Z) (artifactType : string) (opts : PackManifestOptions)
    : M P OciDescriptor :=
  if decide (packManifestVersion = PackManifestVersion1_0) then packManifestV1_0 artifactType opts
  else if decide (packManifestVersion = PackManifestVersion1_1) then packManifestV1_1 artifactType opts
  else fails (EWrap "PackManifestVersion" ErrUnsupported).

(** ** The deprecated [Pack] *)

Definition packArtifact (artifactType : string) (blobs : list OciDescriptor) (opts : PackOptions) : M P OciDescriptor :=
  let artifactType := if String.eqb artifactType EmptyString then MediaTypeUnknownArtifact else artifactType in
  annotations ← reads (fun _ => ensureAnnotationCreated (pk_ManifestAnnotations opts) spec_AnnotationArtifactCreated);
  let manifest := mkArtifact spec_MediaTypeArtifactManifest artifactType blobs (pk_Subject opts) (Some annotations) in
  pushManifest (Marshal_Artifact manifest) (a_MediaType manifest) (a_ArtifactType manifest) annotations.

Definition packManifestV1_1_RC2 (configMediaType : string) (layers : list OciDescriptor) (opts : PackOptions)
    : M P OciDescriptor :=
  let configMediaType := if String.eqb configMediaType EmptyString then MediaTypeUnknownConfig else configMediaType in
  configDesc ← match pk_ConfigDescriptor opts with
               | Some d => mret d
               | None => pushCustomEmptyConfig configMediaType (pk_ConfigAnnotations opts)
               end;
  annotations ← reads (fun _ => ensureAnnotationCreated (pk_ManifestAnnotations opts) AnnotationCreated);
  let manifest := mkManifest 2 MediaTypeImageManifest EmptyString configDesc layers (pk_Subject opts) (Some annotations) in
  pushManifest (Marshal_Manifest manifest) (m_MediaType manifest) (MediaType (m_Config manifest)) annotations.

Definition Pack (artifactType : string) (blobs : list OciDescriptor) (opts : PackOptions) : M P OciDescriptor :=
  if PackImageManifest opts then packManifestV1_1_RC2 artifactType blobs opts
  else packArtifact artifactType blobs opts.

(** ** Correctness *)

Section correct.
Context (inv : P -> Prop) (view : P -> Descriptor -> option bytes) `{SL : !StorageLaws P inv view}.
(** Stored content matches its descriptor, and no two contents match one. *)
Hypothesis stored_verified : forall s d c, inv s -> view s (FromOCI d) = Some c -> verified d c.
Hypothesis collision_free : forall d c c', verified d c -> verified d c' -> c = c'.
Context {GL : GoDigestLaws GD}.
Notation kept := (grown inv view).

Lemma push_unless_exists_ok msg d b p p' :
  inv p -> push_unless_exists msg d b p = (Ok tt, p') -> kept p p' /\ is_Some (view p' (FromOCI d)).
Proof.
  intros Hi (r & E & Hr)%unless_exists_Ok. by apply (push_bytes_stored inv view d b p p' r).
Qed.

Lemma pushIfNotExist_ok d b p p' :
  inv p -> pushIfNotExist d b p = (Ok tt, p') -> kept p p' /\ is_Some (view p' (FromOCI d)).
Proof.
  intros Hi (ex & p1 & Hex & H)%M_bind_Ok. destruct readable.
  - apply on_err_Ok in Hex. injection Hex as Hex <-. destruct ex; [|by apply (push_unless_exists_ok "failed to push" d b)].
    injection H as <-. split; [by apply grown_refl|]. apply (exists_view d p true Hi) in Hex.
    by symmetry in Hex; apply bool_decide_eq_true in Hex.
  - injection Hex as <- <-. by apply (push_unless_exists_ok "failed to push" d b).
Qed.

Lemma ensureAnnotationCreated_ok a key a' :
  ensureAnnotationCreated a key = Ok a' ->
  (forall k, k <> key -> a' !! k = default ∅ a !! k)
  /\ exists c, a' !! key = Some c /\ (time_ParseRFC3339 c = true \/ default ∅ a !! key = None /\ c = time_Now).
Proof.
  unfold ensureAnnotationCreated. destruct (default ∅ a !! key) as [c|] eqn:E.
  - destruct (time_ParseRFC3339 c) eqn:Ht; [|done]. intros [= <-]. split; [done|]. eauto.
  - intros [= <-]. split; [intros k Hk; by rewrite lookup_insert_ne|].
    exists time_Now. rewrite lookup_insert_eq. auto.
Qed.

(** The descriptor [desc] returned for the encoding [b] of a manifest. *)
Record pushed (j : result bytes) (mediaType artifactType : string) (a : gmap string string)
    (desc : OciDescriptor) (b : bytes) (p' : P) : Prop := {
  pu_json : j = Ok b;
  pu_desc : desc = set_Annotations (Some a) (set_ArtifactType artifactType (NewDescriptorFromBytes mediaType b));
  pu_stored : view p' (FromOCI desc) = Some b
}.

Lemma pushManifest_ok j mt at_ a p p' desc :
  inv p -> pushManifest j mt at_ a p = (Ok desc, p') ->
  kept p p' /\ exists b, pushed j mt at_ a desc b p'.
Proof.
  intros Hi (b & p1 & Hj & H)%M_bind_Ok. apply on_err_Ok in Hj. injection Hj as Hj <-.
  apply M_bind_Ok in H as ([] & p2 & Hpush & [= <- <-]).
  apply push_unless_exists_ok in Hpush as [Hk Hst]; [|done]. split; [done|]. exists b. split; [done|done|].
  destruct Hst as [c Hc]. rewrite Hc. f_equal. pose proof Hk as [Hi2 _].
  apply (collision_free (set_Annotations (Some a) (set_ArtifactType at_ (NewDescriptorFromBytes mt b)))).
  - by apply (stored_verified p2).
  - split; [done|]. destruct (digest_Verifier_total (digest_FromBytes b)) as [v Hv]; [apply digest_FromBytes_valid|].
    exists v. split; [done|]. by apply digest_Verifier_FromBytes.
Qed.

Lemma pushCustomEmptyConfig_ok mt a p p' d :
  inv p -> pushCustomEmptyConfig mt a p = (Ok d, p') ->
  kept p p' /\ is_Some (view p' (FromOCI d))
  /\ d = set_Annotations a (NewDescriptorFromBytes mt (str_bytes "{}")).
Proof.
  intros Hi ([] & p1 & Hp & [= <- <-])%M_bind_Ok. apply on_err_Ok in Hp.
  apply pushIfNotExist_ok in Hp as [Hk Hs]; done.
Qed.

(** What is stored and returned for a packed image manifest [m]. *)
Record packed (annotations : option (gmap string string)) (desc : OciDescriptor) (m : Manifest) (p' : P) : Prop := {
  pa_type : MediaType desc = MediaTypeImageManifest;
  pa_stored : exists b, Marshal_Manifest m = Ok b /\ view p' (FromOCI desc) = Some b
    /\ (Unmarshal_Manifest b = Ok m -> (Zlen b <= maxAlloc)%Z ->
         successors_of desc b = Ok (opt_list (m_Subject m) ++ [m_Config m] ++ m_Layers m)%list);
  pa_annotations : exists a c, m_Annotations m = Some a /\ Annotations desc = Some a
    /\ (forall k, k <> AnnotationCreated -> a !! k = default ∅ annotations !! k)
    /\ a !! AnnotationCreated = Some c
    /\ (time_ParseRFC3339 c = true \/ default ∅ annotations !! AnnotationCreated = None /\ c = time_Now)
}.

Lemma packed_ok m at_ ann a p p' desc :
  inv p -> ensureAnnotationCreated ann AnnotationCreated = Ok a -> m_Annotations m = Some a ->
  pushManifest (Marshal_Manifest m) MediaTypeImageManifest at_ a p = (Ok desc, p') ->
  kept p p' /\ packed ann desc m p' /\ ArtifactType desc = at_.
Proof.
  intros Hi Ha Hm Hpush. apply pushManifest_ok in Hpush as (Hk & b & [Hj -> Hst]); [|done].
  split; [done|]. split; [|done]. apply ensureAnnotationCreated_ok in Ha as (Hother & c & Hc & Hcr). split.
  - done.
  - exists b. split; [done|]. split; [done|]. intros Hu Hlen.
    set (d := set_Annotations _ _). unfold successors_of, Successors. cbn [MediaType d set_Annotations set_ArtifactType].
    assert (FetchAll (fun _ => Ok (bytes_NewReader b)) d = Ok b) as HF.
    { unfold FetchAll. simpl. destruct (bytes_NewReader_spec b) as [Hcl Hco]. apply ReadAll_Ok_spec.
      split; [simpl; unfold Zlen in *; lia|]. split; [done|]. split; [done|]. split; [done|].
      destruct (digest_Verifier_total (digest_FromBytes b)) as [v Hv]; [apply digest_FromBytes_valid|].
      exists v. split; [done|]. by apply digest_Verifier_FromBytes. }
    rewrite HF. cbn [String.eqb]. simpl. rewrite Hu. simpl. by rewrite <- app_assoc.
  - exists a, c. auto 10.
Qed.

Lemma config_V1_0_ok at_ opts p p1 d :
  inv p -> config_V1_0 at_ opts p = (Ok d, p1) ->
  kept p p1 /\ match po_ConfigDescriptor opts with
               | Some d' => d = d' /\ MatchString mediaTypeRegexp (MediaType d) = true
               | None => is_Some (view p1 (FromOCI d))
               end.
Proof.
  intros Hi. unfold config_V1_0. destruct (po_ConfigDescriptor opts) as [d'|].
  - intros ([] & p2 & Hv & [= <- <-])%M_bind_Ok. apply on_err_Ok in Hv. injection Hv as Hv <-.
    unfold validateMediaType in Hv. destruct (MatchString _ _) eqn:E; [|done]. auto with go.
  - intros (t & p2 & Ht & H)%M_bind_Ok.
    assert (p2 = p) as ->.
    { destruct (String.eqb at_ EmptyString); [by injection Ht as _ <-|].
      apply M_bind_Ok in Ht as ([] & p3 & Hv & [= _ <-]). apply on_err_Ok in Hv. by injection Hv as _ <-. }
    by apply pushCustomEmptyConfig_ok in H as (? & ? & _).
Qed.

Lemma config_V1_1_ok opts p p1 d ex :
  inv p -> config_V1_1 opts p = (Ok (d, ex), p1) ->
  kept p p1 /\ match po_ConfigDescriptor opts with
               | Some d' => d = d' /\ ex = false /\ MatchString mediaTypeRegexp (MediaType d) = true
               | None => ex = true /\ FromOCI d = FromOCI DescriptorEmptyJSON /\ is_Some (view p1 (FromOCI d))
               end.
Proof.
  intros Hi. unfold config_V1_1. destruct (po_ConfigDescriptor opts) as [d'|].
  - intros ([] & p2 & Hv & [= <- <- <-])%M_bind_Ok. apply on_err_Ok in Hv. injection Hv as Hv <-.
    unfold validateMediaType in Hv. destruct (MatchString _ _) eqn:E; [|done]. auto with go.
  - intros ([] & p2 & Hp & [= <- <- <-])%M_bind_Ok. apply on_err_Ok in Hp.
    apply pushIfNotExist_ok in Hp as [? ?]; auto.
Qed.

Lemma layers_V1_1_ok opts ex p p1 ls :
  inv p -> (ex = true -> is_Some (view p (FromOCI DescriptorEmptyJSON))) ->
  layers_V1_1 opts ex p = (Ok ls, p1) ->
  kept p p1 /\ match po_Layers opts with
               | [] => ls = [DescriptorEmptyJSON] /\ is_Some (view p1 (FromOCI DescriptorEmptyJSON))
               | layers => ls = layers
               end.
Proof.
  intros Hi Hex. unfold layers_V1_1. destruct (po_Layers opts) as [|l0 l]; [|by intros [= <- <-]; auto with go].
  intros ([] & p2 & Hp & [= <- <-])%M_bind_Ok. destruct ex; [by injection Hp as <-; auto with go|].
  apply on_err_Ok in Hp. apply pushIfNotExist_ok in Hp as [? ?]; auto.
Qed.

End correct.
End Pack.
