(* ===== verification/PackExample.v ===== *)
(** Packing a version 1.0 manifest into the in-memory store. *)

From Stdlib Require Import ZArith Lia.
From S2P Require Import Prelude Errors Descriptor Reader Manifest Storage Graph MemoryStore CopyExample Pack.

Module pack_example.
Import HexDigest.

Definition layer : OciDescriptor := NewDescriptorFromBytes "text/plain" (str_bytes "layer").
Definition config : OciDescriptor := NewDescriptorFromBytes "application/vnd.test" (str_bytes "{}").
Definition created : gmap string string := {[AnnotationCreated := "2024-01-01T00:00:00Z"]}.
Definition manifest : Manifest :=
  mkManifest 2 MediaTypeImageManifest EmptyString config [layer] None (Some created).

#[export] Instance clock : Time := {|
  time_ParseRFC3339 s := String.eqb s "2024-01-01T00:00:00Z";
  time_Now := "2024-01-01T00:00:00Z"
|}.

#[export] Instance json : ManifestJSON := {|
  Unmarshal_Manifest b := if decide (b = str_bytes "packed") then Ok manifest else Err (ENew "json");
  Unmarshal_Index _ := Err (ENew "json");
  Unmarshal_Artifact _ := Err (ENew "json");
  Unmarshal_Subject _ := Ok None;
  Marshal_Manifest _ := Ok (str_bytes "packed");
  Marshal_Index _ := Err (ENew "json");
  Marshal_Artifact _ := Err (ENew "json")
|}.

#[export] Instance order : MapOrder := canonical_order.

Lemma memory_verified (s : memory.Store) d c :
  memory.wf s -> memory.view s (FromOCI d) = Some c -> verified d c.
Proof. intros Hwf Hv. exact (memory.wf_storage _ Hwf _ _ Hv). Qed.

Definition options : PackManifestOptions := mkPackManifestOptions None [layer] None None None.

End pack_example.
