(* ===== verification/Merge.v ===== *)
(** Merging concurrent calls: [internal/syncutil/merge.go], which the remote
    repository uses to combine concurrent updates of one referrers index.  The
    goroutines that call [Do] are a step relation: every step is one channel
    operation, one critical section or the return of a callback.  Item [i] is the
    item of the goroutine [i]. *)

From Stdlib Require Import ZArith Lia.
From S2P Require Import Prelude Errors.

Module merge.

Record mergeStatus := mkStatus { main : bool; err : option error }.

(** A channel of capacity one. *)
Record Chan := mkChan { buf : list mergeStatus; closed : bool }.

(** Where a goroutine is in [Do]; the callbacks return [option error]. *)
Inductive pc :=
| Start                                           (* before [assign] *)
| Waiting (c : nat)                               (* [status := <-m.assign(item)] *)
| Prepare                                         (* running [prepare] *)
| Commit (r : option error)                       (* before [commit] *)
| Resolve (its : list nat)                        (* running [resolve] *)
| Complete (its : list nat) (r : option error)    (* before [complete] *)
| Notify (e : error) (remaining : nat) (status : option nat)   (* the loop of [complete] *)
| Move (r : option error)                         (* the critical section of [complete] *)
| End (r : option error)
| Panicked.

(** [Merge]; a channel is its index in [chans], a nil channel is [None].  [log]
    records the batches that were completed, with their result. *)
Record state := mkState {
  committed : bool;
  items : list nat;
  status : option nat;
  pending : list nat;
  pendingStatus : option nat;
  chans : list Chan;
  pcs : list pc;
  log : list (list nat * option error)
}.

Definition set_pc (i : nat) (p : pc) (s : state) : state :=
  mkState (committed s) (items s) (status s) (pending s) (pendingStatus s) (chans s) (<[i := p]> (pcs s)) (log s).
Definition set_chan (c : nat) (ch : Chan) (s : state) : state :=
  mkState (committed s) (items s) (status s) (pending s) (pendingStatus s) (<[c := ch]> (chans s)) (pcs s) (log s).

Definition token : mergeStatus := mkStatus true None.

(** [assign]: the channel to wait on. *)
Definition assign (i : nat) (s : state) : nat * state :=
  if committed s then
    let '(c, chans') := match pendingStatus s with
                        | Some c => (c, chans s)
                        | None => (length (chans s), chans s ++ [mkChan [] false])
                        end in
    (c, mkState true (items s) (status s) (pending s ++ [i]) (Some c) chans' (pcs s) (log s))
  else
    let '(c, chans') := match status s with
                        | Some c => (c, chans s)
                        | None => (length (chans s), chans s ++ [mkChan [token] false])
                        end in
    (c, mkState false (items s ++ [i]) (Some c) (pending s) (pendingStatus s) chans' (pcs s) (log s)).

(** [commit]. *)
Definition commit (s : state) : list nat * state :=
  (items s, mkState true (items s) (status s) (pending s) (pendingStatus s) (chans s) (pcs s) (log s)).

(** The critical section of [complete], up to the send to the new channel. *)
Definition move (s : state) : state :=
  mkState false (pending s) (pendingStatus s) [] None (chans s) (pcs s) (log s).

Definition add_log (its : list nat) (r : option error) (s : state) : state :=
  mkState (committed s) (items s) (status s) (pending s) (pendingStatus s) (chans s) (pcs s) (log s ++ [(its, r)]).

(** The effect of a receive: the message and the channel after it; [None] when
    the receive blocks. *)
Definition recv (ch : Chan) : option (mergeStatus * Chan) :=
  match buf ch with
  | m :: rest => Some (m, mkChan rest (closed ch))
  | [] => if closed ch then Some (mkStatus false None, ch) else None
  end.

(** The effect of a send: [None] blocks, [Some None] panics. *)
Definition send (m : mergeStatus) (ch : Chan) : option (option Chan) :=
  if closed ch then Some None
  else match buf ch with [] => Some (Some (mkChan [m] false)) | _ => None end.

(** One step of the goroutine [i]. *)
Inductive step (s : state) : state -> Prop :=
| step_assign i : pcs s !! i = Some Start ->
    step s (let '(c, s') := assign i s in set_pc i (Waiting c) s')
| step_recv i c ch m ch' : pcs s !! i = Some (Waiting c) -> chans s !! c = Some ch -> recv ch = Some (m, ch') ->
    step s (set_pc i (if main m then Prepare else End (err m)) (set_chan c ch' s))
| step_prepare i r : pcs s !! i = Some Prepare -> step s (set_pc i (Commit r) s)
| step_commit i r : pcs s !! i = Some (Commit r) ->
    step s (let '(its, s') := commit s in
            set_pc i (match r with None => Resolve its | Some _ => Complete its r end) s')
| step_resolve i its r : pcs s !! i = Some (Resolve its) -> step s (set_pc i (Complete its r) s)
| step_complete_err i its e : pcs s !! i = Some (Complete its (Some e)) ->
    step s (set_pc i (Notify e (length (items s) - 1) (status s)) (add_log its (Some e) s))
| step_complete_ok i its : pcs s !! i = Some (Complete its None) ->
    step s (match status s with
            | None => set_pc i Panicked s
            | Some c =>
                match chans s !! c with
                | Some ch =>
                    if closed ch then set_pc i Panicked s
                    else set_pc i (Move None) (set_chan c (mkChan (buf ch) true) (add_log its None s))
                | None => set_pc i Panicked s
                end
            end)
| step_notify i e k c ch o : pcs s !! i = Some (Notify e (S k) (Some c)) -> chans s !! c = Some ch ->
    send (mkStatus false (Some e)) ch = Some o ->
    step s (match o with
            | Some ch' => set_pc i (Notify e k (Some c)) (set_chan c ch' s)
            | None => set_pc i Panicked s
            end)
| step_notified i e st : pcs s !! i = Some (Notify e 0 st) -> step s (set_pc i (Move (Some e)) s)
| step_move i r : pcs s !! i = Some (Move r) -> pendingStatus s = None -> step s (set_pc i (End r) (move s))
| step_move_token i r c ch o : pcs s !! i = Some (Move r) -> pendingStatus s = Some c ->
    chans s !! c = Some ch -> send token ch = Some o ->
    step s (match o with
            | Some ch' => set_pc i (End r) (set_chan c ch' (move s))
            | None => set_pc i Panicked (move s)
            end).

(** [n] goroutines call [Do] on a new [Merge]. *)
Definition init (n : nat) : state := mkState false [] None [] None [] (replicate n Start) [].

Inductive reachable (n : nat) : state -> Prop :=
| reach_init : reachable n (init n)
| reach_step s s' : reachable n s -> step s s' -> reachable n s'.
End merge.
