(* ===== verification/MergeCorrect.v ===== *)
(** [Merge] in every interleaving: one goroutine at a time works, every item is
    handled in exactly one batch, every caller gets the result of its batch, and
    no caller is left waiting. *)

From Stdlib Require Import ZArith Lia.
From S2P Require Import Prelude Errors Merge.
Import merge.

(** ** Counting and changing goroutines *)

Definition is_wait (c : nat) (p : pc) : bool :=
  match p with Waiting c' => bool_decide (c' = c) | _ => false end.

(** The goroutines waiting on a channel, and their number. *)
Definition waits (s : state) (i c : nat) : Prop := pcs s !! i = Some (Waiting c).
Definition W (s : state) (c : nat) : nat := length (List.filter (is_wait c) (pcs s)).

(** The goroutine that was chosen to work. *)
Definition is_main (p : pc) : bool :=
  match p with
  | Prepare | Commit _ | Resolve _ | Complete _ _ | Notify _ _ _ | Move _ => true
  | _ => false
  end.
Definition only_main (s : state) (m : nat) : Prop :=
  forall j q, pcs s !! j = Some q -> is_main q = true -> j = m.
Definition no_main (s : state) : Prop := forall j q, pcs s !! j = Some q -> is_main q = false.

Lemma is_wait_Waiting c : is_wait c (Waiting c) = true.
Proof. simpl. by rewrite bool_decide_eq_true_2. Qed.

Lemma is_wait_ne c d : c <> d -> is_wait d (Waiting c) = false.
Proof. intros. simpl. by rewrite bool_decide_eq_false_2. Qed.

Lemma waits_W s i c : waits s i c -> 0 < W s c.
Proof.
  intros Hi. unfold W. pose proof (is_wait_Waiting c) as Hw.
  assert (In (Waiting c) (List.filter (is_wait c) (pcs s))) as Hin.
  { apply List.filter_In. split; [|done]. apply list_elem_of_In. by apply list_elem_of_lookup_2 in Hi. }
  destruct (List.filter _ _); [done|simpl; lia].
Qed.

Lemma W_waits s c : 0 < W s c -> exists i, waits s i c.
Proof.
  unfold W, waits. destruct (List.filter (is_wait c) (pcs s)) as [|p l] eqn:E; simpl; [lia|]. intros _.
  assert (In p (List.filter (is_wait c) (pcs s))) as [Hin Hw]%List.filter_In by (rewrite E; by left).
  apply list_elem_of_In, list_elem_of_lookup in Hin as [i Hi]. exists i. rewrite Hi. f_equal.
  destruct p; simpl in Hw; try done. apply bool_decide_eq_true in Hw. congruence.
Qed.

(** One goroutine moves from [p] to [p']. *)
Section update.
Context (s s' : state) (i : nat) (p p' : pc).
Hypothesis Hp : pcs s !! i = Some p.
Hypothesis Hs' : pcs s' = <[i := p']> (pcs s).

Lemma pcs_upd j q : pcs s' !! j = Some q <-> (j = i /\ q = p') \/ (j <> i /\ pcs s !! j = Some q).
Proof.
  rewrite Hs'. destruct (decide (j = i)) as [->|Hne].
  - rewrite list_lookup_insert_eq by (by apply lookup_lt_Some in Hp). split; [intros [= <-]; by left|].
    intros [[_ ->]|[? _]]; done.
  - rewrite list_lookup_insert_ne by done. split; [by right|]. intros [[? _]|[_ ?]]; done.
Qed.

Lemma W_upd d : W s' d + Nat.b2n (is_wait d p) = W s d + Nat.b2n (is_wait d p').
Proof. unfold W. rewrite Hs'. by apply length_filter_insert. Qed.

(** Channels that the step does not wait on. *)
Lemma W_same d : is_wait d p = false -> is_wait d p' = false -> W s' d = W s d.
Proof. intros H H'. pose proof (W_upd d) as Hw. rewrite H, H' in Hw. simpl in Hw. lia. Qed.

Lemma waits_same d j : is_wait d p' = false -> waits s' j d -> waits s j d.
Proof.
  unfold waits. intros H' [[-> E]|[_ H]]%pcs_upd; [|done]. rewrite <- E in H'. by rewrite is_wait_Waiting in H'.
Qed.

Lemma only_main_upd m : only_main s m -> is_main p' = false \/ i = m -> only_main s' m.
Proof.
  intros Hm Hor j q [[-> ->]|[_ Hq]]%pcs_upd Hq'; [|by apply (Hm j q)]. destruct Hor; congruence.
Qed.

Lemma no_main_upd : only_main s i \/ no_main s -> is_main p' = false -> no_main s'.
Proof.
  intros Hor H' j q [[-> ->]|[Hne Hq]]%pcs_upd; [done|]. destruct Hor as [Hm|Hn]; [|by apply (Hn j)].
  destruct (is_main q) eqn:E; [|done]. by apply (Hm j q Hq) in E.
Qed.

Lemma only_main_new : no_main s -> only_main s' i.
Proof. intros Hn j q [[-> _]|[_ Hq]]%pcs_upd Hm; [done|]. apply Hn in Hq. congruence. Qed.

Lemma started_upd (l : list nat) :
  p' <> Start -> (forall j, j ∈ l -> pcs s !! j <> Some Start) -> forall j, j ∈ l -> pcs s' !! j <> Some Start.
Proof. intros Hne H j Hj [[-> E]|[_ E]]%pcs_upd; [congruence|]. by apply (H j). Qed.

Lemma no_panic_upd :
  p' <> Panicked -> (forall j, pcs s !! j <> Some Panicked) -> forall j, pcs s' !! j <> Some Panicked.
Proof. intros Hne H j [[-> E]|[_ E]]%pcs_upd; [congruence|]. by apply (H j). Qed.
End update.

(** ** The invariant *)

(** A channel whose batch is complete: it is closed, or it holds or will hold an
    error for each of its waiters; [k] are still to be sent. *)
Record settled (s : state) (d : nat) (its : list nat) (r : option error) (k : nat) : Prop := {
  st_log : (its, r) ∈ log s;
  st_in : forall i, waits s i d -> i ∈ its;
  st_chan : exists ch, chans s !! d = Some ch /\
    match r with
    | None => closed ch = true /\ buf ch = []
    | Some e => closed ch = false /\ (forall m, m ∈ buf ch -> m = mkStatus false (Some e))
                /\ W s d = k + length (buf ch)
    end
}.

(** Items waiting for the next batch. *)
Definition has_pending (s : state) : Prop :=
  match pendingStatus s with
  | None => pending s = []
  | Some d => status s <> Some d /\ chans s !! d = Some (mkChan [] false) /\ W s d = length (pending s)
              /\ pending s <> [] /\ forall i, waits s i d -> i ∈ pending s
  end.

(** The program counter of the chosen goroutine before completion. *)
Definition working (s : state) (p : pc) : Prop :=
  match p with
  | Prepare | Commit _ => committed s = false
  | Resolve its | Complete its _ => committed s = true /\ its = items s
  | _ => False
  end.

(** The current batch, with the items that are not in the log yet. *)
Inductive phase (s : state) : list nat -> Prop :=
| ph_idle :
    status s = None -> committed s = false -> items s = [] -> no_main s -> phase s []
| ph_token c :
    status s = Some c -> committed s = false -> no_main s -> chans s !! c = Some (mkChan [token] false) ->
    W s c = length (items s) -> items s <> [] -> (forall i, waits s i c -> i ∈ items s) -> phase s (items s)
| ph_main c m p :
    status s = Some c -> pcs s !! m = Some p -> only_main s m -> working s p ->
    chans s !! c = Some (mkChan [] false) -> S (W s c) = length (items s) ->
    (forall i, waits s i c -> i ∈ items s) -> m ∈ items s -> phase s (items s)
| ph_notify c m e k its :
    status s = Some c -> pcs s !! m = Some (Notify e k (Some c)) -> only_main s m -> committed s = true ->
    settled s c its (Some e) k -> m ∈ its -> phase s []
| ph_move c m r its :
    status s = Some c -> pcs s !! m = Some (Move r) -> only_main s m -> committed s = true ->
    settled s c its r 0 -> m ∈ its -> phase s [].

Record inv (s : state) : Prop := {
  v_phase : exists unl, phase s unl /\ NoDup (concat (log s).*1 ++ unl ++ pending s)
    /\ forall i, i ∈ concat (log s).*1 ++ unl ++ pending s -> pcs s !! i <> Some Start;
  v_pending : has_pending s;
  v_uncommitted : committed s = false -> pendingStatus s = None;
  v_old : forall d, d < length (chans s) -> status s <> Some d -> pendingStatus s <> Some d ->
    exists its r, settled s d its r 0;
  v_wait : forall i c, waits s i c -> c < length (chans s);
  v_status : forall c, status s = Some c \/ pendingStatus s = Some c -> c < length (chans s);
  v_end : forall i r, pcs s !! i = Some (End r) -> exists its, (its, r) ∈ log s /\ i ∈ its;
  v_safe : forall i, pcs s !! i <> Some Panicked
}.

Lemma init_inv n : inv (init n).
Proof.
  assert (Hpc : forall i p, pcs (init n) !! i = Some p -> p = Start)
    by (intros i p [-> _]%lookup_replicate; done).
  split; simpl.
  - exists []. split.
    + apply ph_idle; try done. intros j q Hq. by rewrite (Hpc j q Hq).
    + simpl. split; [by apply list.NoDup_nil|]. intros i Hi. by apply elem_of_nil in Hi.
  - done.
  - done.
  - intros d Hd. simpl in Hd. lia.
  - intros i c Hw. by apply Hpc in Hw.
  - intros c [?|?]; done.
  - intros i r Hr. by apply Hpc in Hr.
  - intros i Hr. by apply Hpc in Hr.
Qed.

(** A step that does not touch a settled channel. *)
Lemma settled_frame s s' d its r k :
  settled s d its r k -> chans s' !! d = chans s !! d ->
  (forall i, waits s' i d -> waits s i d) -> W s' d = W s d ->
  (forall x, x ∈ log s -> x ∈ log s') -> settled s' d its r k.
Proof.
  intros [Hl Hi (ch & Hch & H)] Hc Hw HW Hlog. split; [auto|auto|]. exists ch. split; [congruence|].
  destruct r as [e|]; [|done]. destruct H as (? & ? & ?). split; [done|]. split; [done|]. lia.
Qed.

(** A step of the chosen goroutine changes nothing but the current channel. *)
Lemma main_step_inv s s' i p p' :
  inv s -> pcs s !! i = Some p -> pcs s' = <[i := p']> (pcs s) ->
  (forall d, is_wait d p = false) -> (forall d, is_wait d p' = false) ->
  (forall d, status s <> Some d -> chans s' !! d = chans s !! d) -> length (chans s') = length (chans s) ->
  status s' = status s -> pending s' = pending s -> pendingStatus s' = pendingStatus s ->
  (committed s' = false -> committed s = false) -> (forall x, x ∈ log s -> x ∈ log s') ->
  p' <> Panicked -> (forall r, p' <> End r) ->
  (exists unl, phase s' unl /\ NoDup (concat (log s').*1 ++ unl ++ pending s')
    /\ forall j, j ∈ concat (log s').*1 ++ unl ++ pending s' -> pcs s' !! j <> Some Start) ->
  inv s'.
Proof.
  intros Hinv Hp Hp' Hw Hw' Hch Hlen Hst Hpe Hps Hcom Hlog Hnp Hne Hph.
  pose proof (pcs_upd s s' i p p' Hp Hp') as Hupd. split.
  - done.
  - pose proof (v_pending s Hinv) as H. unfold has_pending in *. rewrite Hps, Hpe, Hst.
    destruct (pendingStatus s) as [d|]; [|done]. destruct H as (H1 & H2 & H3 & H4 & H5). split; [done|].
    rewrite Hch by done. split; [done|]. rewrite (W_same s s' i p p' Hp Hp') by done. split; [done|]. split; [done|].
    intros j Hj. apply H5. by apply (waits_same s s' i p p' Hp Hp').
  - rewrite Hps. intros H. by apply (v_uncommitted s Hinv), Hcom.
  - rewrite Hlen, Hst, Hps. intros d Hd H1 H2. destruct (v_old s Hinv d Hd H1 H2) as (its & r & Hs).
    exists its, r. apply (settled_frame s); [done|by apply Hch| |by apply (W_same s s' i p p')|done].
    intros j. by apply (waits_same s s' i p p').
  - rewrite Hlen. intros j c Hj. apply (v_wait s Hinv j). by apply (waits_same s s' i p p' Hp Hp' c j).
  - rewrite Hlen, Hst, Hps. apply (v_status s Hinv).
  - intros j r [[_ E]|[_ Hj]]%Hupd; [by destruct (Hne r)|].
    destruct (v_end s Hinv j r Hj) as (its & ? & ?). exists its. auto.
  - apply (no_panic_upd s s' i p p' Hp Hp' Hnp (v_safe s Hinv)).
Qed.

(** The chosen goroutine and the phase agree. *)
Lemma phase_main s unl i p :
  phase s unl -> pcs s !! i = Some p -> is_main p = true ->
  (exists c, status s = Some c /\ only_main s i /\ unl = items s /\ working s p
     /\ chans s !! c = Some (mkChan [] false) /\ S (W s c) = length (items s)
     /\ (forall j, waits s j c -> j ∈ items s) /\ i ∈ items s)
  \/ (exists c e k its, p = Notify e k (Some c) /\ status s = Some c /\ only_main s i /\ unl = []
     /\ committed s = true /\ settled s c its (Some e) k /\ i ∈ its)
  \/ (exists c r its, p = Move r /\ status s = Some c /\ only_main s i /\ unl = []
     /\ committed s = true /\ settled s c its r 0 /\ i ∈ its).
Proof.
  intros Hph Hp Hm.
  destruct Hph as [H1 H2 H3 Hn|c H1 H2 Hn H4 H5 H6 H7|c m q H1 Hq Ho Hwk H4 H5 H6 H7
    |c m e k its H1 Hq Ho H3 H4 H5|c m r its H1 Hq Ho H3 H4 H5].
  - apply Hn in Hp. congruence.
  - apply Hn in Hp. congruence.
  - assert (i = m) as -> by (by apply (Ho i p)). left. exists c. assert (q = p) as -> by congruence. auto 10.
  - assert (i = m) as -> by (by apply (Ho i p)). right. left. exists c, e, k, its.
    split; [congruence|]. auto 10.
  - assert (i = m) as -> by (by apply (Ho i p)). right. right. exists c, r, its.
    split; [congruence|]. auto 10.
Qed.

(** Steps before completion. *)
Lemma working_step_inv s s' i p p' :
  inv s -> pcs s !! i = Some p -> pcs s' = <[i := p']> (pcs s) -> is_main p = true -> working s p ->
  is_main p' = true -> working s' p' ->
  chans s' = chans s -> status s' = status s -> items s' = items s -> pending s' = pending s ->
  pendingStatus s' = pendingStatus s -> log s' = log s -> (committed s' = false -> committed s = false) -> inv s'.
Proof.
  intros Hinv Hp Hp' Hm Hwk Hm' Hwk' Hch Hst Hit Hpe Hps Hlog Hcom.
  destruct (v_phase s Hinv) as (unl & Hph & Hnd & Hns).
  assert (Hw : forall q d, is_main q = true -> is_wait d q = false) by (by intros []).
  apply (main_step_inv s s' i p p' Hinv Hp Hp'); try done; try congruence; try (intros d; by apply Hw).
  - by intros ->.
  - intros r ->. done.
  - destruct (phase_main s unl i p Hph Hp Hm) as [(c & Hc & Ho & -> & _ & Hcc & HW & Hi & Him)|[(c & e & k & its & -> & _)|(c & r & its & -> & _)]];
      [|done|done].
    exists (items s'). rewrite Hlog, Hit, Hpe. split.
    + rewrite <- Hit. apply (ph_main s' c i p'); rewrite ?Hst, ?Hch, ?Hit; try done.
      * apply (pcs_upd s s' i p p' Hp Hp'). by left.
      * apply (only_main_upd s s' i p p' Hp Hp'); auto.
      * by rewrite (W_same s s' i p p' Hp Hp') by (by apply Hw).
      * intros j Hj. apply Hi. by apply (waits_same s s' i p p' Hp Hp'); [apply Hw|].
    + split; [done|]. apply (started_upd s s' i p p' Hp Hp'); [|done]. by intros ->.
Qed.

Lemma prepare_inv s i r : inv s -> pcs s !! i = Some Prepare -> inv (set_pc i (Commit r) s).
Proof.
  intros Hinv Hp. destruct (v_phase s Hinv) as (unl & Hph & _).
  destruct (phase_main s unl i _ Hph Hp eq_refl) as [(c & _ & _ & _ & Hwk & _)|[(?&?&?&?&?&_)|(?&?&?&?&_)]]; [|done..].
  by apply (working_step_inv s _ i Prepare (Commit r)).
Qed.

Lemma commit_inv s i r : inv s -> pcs s !! i = Some (Commit r) ->
  inv (set_pc i (match r with None => Resolve (items s) | Some _ => Complete (items s) r end) (commit s).2).
Proof.
  intros Hinv Hp. destruct (v_phase s Hinv) as (unl & Hph & _).
  destruct (phase_main s unl i _ Hph Hp eq_refl) as [(c & _ & _ & _ & Hwk & _)|[(?&?&?&?&?&_)|(?&?&?&?&_)]]; [|done..].
  by apply (working_step_inv s _ i (Commit r) (match r with None => Resolve (items s) | Some _ => Complete (items s) r end));
    try done; destruct r.
Qed.

Lemma resolve_inv s i its r : inv s -> pcs s !! i = Some (Resolve its) -> inv (set_pc i (Complete its r) s).
Proof.
  intros Hinv Hp. destruct (v_phase s Hinv) as (unl & Hph & _).
  destruct (phase_main s unl i _ Hph Hp eq_refl) as [(c & _ & _ & _ & Hwk & _)|[(?&?&?&?&?&_)|(?&?&?&?&_)]]; [|done..].
  by apply (working_step_inv s _ i (Resolve its) (Complete its r)).
Qed.

(** The log after a batch: the items move into it. *)
Lemma concat_log_snoc (l : list (list nat * option error)) its r :
  concat (l ++ [(its, r)]).*1 = concat l.*1 ++ its.
Proof. rewrite fmap_app, concat_app. simpl. by rewrite app_nil_r. Qed.

Lemma complete_err_inv s i its e : inv s -> pcs s !! i = Some (Complete its (Some e)) ->
  inv (set_pc i (Notify e (length (items s) - 1) (status s)) (add_log its (Some e) s)).
Proof.
  intros Hinv Hp. destruct (v_phase s Hinv) as (unl & Hph & Hnd & Hns).
  destruct (phase_main s unl i _ Hph Hp eq_refl) as [(c & Hc & Ho & -> & [Hcom ->] & Hcc & HW & Hi & Him)|[(?&?&?&?&?&_)|(?&?&?&?&_)]]; [|done..].
  set (s' := set_pc _ _ _).
  assert (Hp' : pcs s' = <[i := Notify e (length (items s) - 1) (status s)]> (pcs s)) by done.
  apply (main_step_inv s s' i _ _ Hinv Hp Hp'); try done.
  - intros x Hx. simpl. apply elem_of_app. by left.
  - exists []. simpl. rewrite concat_log_snoc. split; [|split].
    + apply (ph_notify s' c i e (length (items s) - 1) (items s)); try done.
      * rewrite (pcs_upd s s' i _ _ Hp Hp'). left. by rewrite Hc.
      * apply (only_main_upd s s' i _ _ Hp Hp'); auto.
      * split; [simpl; apply elem_of_app; right; by left| |].
        -- intros j Hj. apply Hi. by apply (waits_same s s' i _ _ Hp Hp').
        -- exists (mkChan [] false). split; [done|]. simpl. split; [done|]. split; [intros m Hm; by apply elem_of_nil in Hm|].
           rewrite (W_same s s' i _ _ Hp Hp') by done. lia.
    + by rewrite <- app_assoc.
    + rewrite <- app_assoc. by apply (started_upd s s' i _ _ Hp Hp').
Qed.

Lemma complete_ok_inv s i its c : inv s -> pcs s !! i = Some (Complete its None) ->
  status s = Some c -> chans s !! c = Some (mkChan [] false) ->
  inv (set_pc i (Move None) (set_chan c (mkChan [] true) (add_log its None s))).
Proof.
  intros Hinv Hp Hc Hcc. destruct (v_phase s Hinv) as (unl & Hph & Hnd & Hns).
  destruct (phase_main s unl i _ Hph Hp eq_refl) as [(c' & Hc' & Ho & -> & [Hcom ->] & _ & HW & Hi & Him)|[(?&?&?&?&?&_)|(?&?&?&?&_)]]; [|done..].
  assert (c' = c) as -> by congruence. set (s' := set_pc _ _ _).
  assert (Hp' : pcs s' = <[i := Move None]> (pcs s)) by done.
  apply (main_step_inv s s' i _ _ Hinv Hp Hp'); try done.
  - intros d Hd. simpl. apply list_lookup_insert_ne. congruence.
  - simpl. apply length_insert.
  - intros x Hx. simpl. apply elem_of_app. by left.
  - exists []. simpl. rewrite concat_log_snoc. split; [|split].
    + apply (ph_move s' c i None (items s)); try done.
      * apply (pcs_upd s s' i _ _ Hp Hp'). by left.
      * apply (only_main_upd s s' i _ _ Hp Hp'); auto.
      * split; [simpl; apply elem_of_app; right; by left| |].
        -- intros j Hj. apply Hi. by apply (waits_same s s' i _ _ Hp Hp').
        -- exists (mkChan [] true). simpl. split; [|done]. apply list_lookup_insert_eq. by apply lookup_lt_Some in Hcc.
    + by rewrite <- app_assoc.
    + rewrite <- app_assoc. by apply (started_upd s s' i _ _ Hp Hp').
Qed.

Lemma notify_inv s i e k c ch : inv s -> pcs s !! i = Some (Notify e (S k) (Some c)) -> chans s !! c = Some ch ->
  buf ch = [] -> closed ch = false ->
  inv (set_pc i (Notify e k (Some c)) (set_chan c (mkChan [mkStatus false (Some e)] false) s)).
Proof.
  intros Hinv Hp Hcc Hb Hcl. destruct (v_phase s Hinv) as (unl & Hph & Hnd & Hns).
  destruct (phase_main s unl i _ Hph Hp eq_refl) as [(?&?&?&?&?&_)|[(c' & e' & k' & its & [= <- <- <-] & Hst & Ho & -> & Hcom & Hs & Hi)|(?&?&?&?&_)]]; [done| |done].
  set (s' := set_pc _ _ _). assert (Hp' : pcs s' = <[i := Notify e k (Some c)]> (pcs s)) by done.
  apply (main_step_inv s s' i _ _ Hinv Hp Hp'); try done.
  - intros d Hd. simpl. apply list_lookup_insert_ne. congruence.
  - simpl. apply length_insert.
  - exists []. simpl. split; [|split; [done|]]; [|by apply (started_upd s s' i _ _ Hp Hp')].
    apply (ph_notify s' c i e k its); try done.
    * apply (pcs_upd s s' i _ _ Hp Hp'). by left.
    * apply (only_main_upd s s' i _ _ Hp Hp'); auto.
    * destruct Hs as [Hl Hin (ch' & Hch' & _ & _ & HW)]. assert (ch' = ch) as -> by congruence.
      split; [done| |].
      -- intros j Hj. apply Hin. by apply (waits_same s s' i _ _ Hp Hp').
      -- eexists. simpl. split; [apply list_lookup_insert_eq; by apply lookup_lt_Some in Hcc|]. simpl.
         split; [done|]. split; [by intros m ->%list_elem_of_singleton|].
         rewrite (W_same s s' i _ _ Hp Hp') by done. rewrite Hb in HW. simpl in HW. lia.
Qed.

Lemma notified_inv s i e st : inv s -> pcs s !! i = Some (Notify e 0 st) -> inv (set_pc i (Move (Some e)) s).
Proof.
  intros Hinv Hp. destruct (v_phase s Hinv) as (unl & Hph & Hnd & Hns).
  destruct (phase_main s unl i _ Hph Hp eq_refl) as [(?&?&?&?&?&_)|[(c & e' & k' & its & [= <- <- ->] & Hst & Ho & -> & Hcom & Hs & Hi)|(?&?&?&?&_)]]; [done| |done].
  set (s' := set_pc _ _ _). assert (Hp' : pcs s' = <[i := Move (Some e)]> (pcs s)) by done.
  apply (main_step_inv s s' i _ _ Hinv Hp Hp'); try done.
  exists []. simpl. split; [|split; [done|]]; [|by apply (started_upd s s' i _ _ Hp Hp')].
  apply (ph_move s' c i (Some e) its); try done.
  - apply (pcs_upd s s' i _ _ Hp Hp'). by left.
  - apply (only_main_upd s s' i _ _ Hp Hp'); auto.
  - apply (settled_frame s); [done|done| |by apply (W_same s s' i _ _ Hp Hp')|done].
    intros j. by apply (waits_same s s' i _ _ Hp Hp').
Qed.

(** *** Completing *)

Lemma move_inv_none s i r : inv s -> pcs s !! i = Some (Move r) -> pendingStatus s = None ->
  inv (set_pc i (End r) (move s)).
Proof.
  intros Hinv Hp Hpd. destruct (v_phase s Hinv) as (unl & Hph & Hnd & Hns).
  destruct (phase_main s unl i _ Hph Hp eq_refl) as [(?&?&?&?&?&_)|[(?&?&?&?&?&_)|(c & r' & its & [= <-] & Hst & Ho & -> & Hcom & Hs & Hi)]]; [done|done|].
  set (s' := set_pc _ _ _). assert (Hp' : pcs s' = <[i := End r]> (pcs s)) by done.
  pose proof (v_pending s Hinv) as Hpe. unfold has_pending in Hpe. rewrite Hpd in Hpe.
  assert (Hfr : forall d its r, settled s d its r 0 -> settled s' d its r 0).
  { intros d its' r' H. apply (settled_frame s); [done|done| |by apply (W_same s s' i _ _ Hp Hp')|done].
    intros j. by apply (waits_same s s' i _ _ Hp Hp'). }
  split; try done.
  - exists []. simpl. rewrite Hpe in *. split; [|split; [done|]].
    + apply ph_idle; try done. apply (no_main_upd s s' i _ _ Hp Hp'); auto.
    + by apply (started_upd s s' i _ _ Hp Hp').
  - intros d Hd _ _. simpl in Hd. destruct (decide (status s = Some d)) as [E|E].
    + assert (d = c) as -> by congruence. eauto.
    + destruct (v_old s Hinv d Hd E) as (its' & r' & H); [congruence|eauto].
  - intros j d Hj. apply (v_wait s Hinv j). by apply (waits_same s s' i _ _ Hp Hp' d j).
  - simpl. rewrite Hpd. intros d [?|?]; done.
  - intros j r' [[-> [= ->]]|[_ Hj]]%(pcs_upd s s' i _ _ Hp Hp'); [exists its; by destruct Hs|].
    by apply (v_end s Hinv).
  - apply (no_panic_upd s s' i _ _ Hp Hp'); [done|apply (v_safe s Hinv)].
Qed.

Lemma move_inv_some s i r d : inv s -> pcs s !! i = Some (Move r) -> pendingStatus s = Some d ->
  inv (set_pc i (End r) (set_chan d (mkChan [token] false) (move s))).
Proof.
  intros Hinv Hp Hpd. destruct (v_phase s Hinv) as (unl & Hph & Hnd & Hns).
  destruct (phase_main s unl i _ Hph Hp eq_refl) as [(?&?&?&?&?&_)|[(?&?&?&?&?&_)|(c & r' & its & [= <-] & Hst & Ho & -> & Hcom & Hs & Hi)]]; [done|done|].
  set (s' := set_pc _ _ _). assert (Hp' : pcs s' = <[i := End r]> (pcs s)) by done.
  pose proof (v_pending s Hinv) as Hpe. unfold has_pending in Hpe. rewrite Hpd in Hpe.
  destruct Hpe as (Hne & Hcd & HWd & Hpne & Hpin). pose proof (lookup_lt_Some _ _ _ Hcd) as Hlt.
  assert (Hfr : forall d' its r, d' <> d -> settled s d' its r 0 -> settled s' d' its r 0).
  { intros d' its' r' Hd' H. apply (settled_frame s); [done| | |by apply (W_same s s' i _ _ Hp Hp')|done].
    - simpl. by apply list_lookup_insert_ne.
    - intros j. by apply (waits_same s s' i _ _ Hp Hp'). }
  split; try done.
  - exists (pending s). cbn [log pending s' set_pc set_chan move]. rewrite app_nil_r. split; [|split; [done|]].
    + apply (ph_token s' d); try done.
      * apply (no_main_upd s s' i _ _ Hp Hp'); auto.
      * simpl. by apply list_lookup_insert_eq.
      * simpl. by rewrite (W_same s s' i _ _ Hp Hp').
      * intros j Hj. apply Hpin. by apply (waits_same s s' i _ _ Hp Hp').
    + by apply (started_upd s s' i _ _ Hp Hp').
  - simpl. rewrite length_insert. intros d' Hd' Hs' _. rewrite Hpd in Hs'.
    assert (d' <> d) as Hdd by congruence. destruct (decide (status s = Some d')) as [E|E].
    + assert (d' = c) as -> by congruence. eauto.
    + destruct (v_old s Hinv d' Hd' E) as (its' & r' & H); [congruence|eauto].
  - simpl. rewrite length_insert. intros j d' Hj. apply (v_wait s Hinv j). by apply (waits_same s s' i _ _ Hp Hp' d' j).
  - simpl. rewrite length_insert, Hpd. intros d' [[= <-]|?]; done.
  - intros j r' [[-> [= ->]]|[_ Hj]]%(pcs_upd s s' i _ _ Hp Hp'); [exists its; by destruct Hs|].
    by apply (v_end s Hinv).
  - apply (no_panic_upd s s' i _ _ Hp Hp'); [done|apply (v_safe s Hinv)].
Qed.

(** *** Receiving *)

(** A waiter on a settled channel gets the result of its batch. *)
Lemma settled_recv s i c its r k ch m ch' :
  settled s c its r k -> waits s i c -> chans s !! c = Some ch -> recv ch = Some (m, ch') ->
  main m = false /\ err m = r /\ settled (set_pc i (End r) (set_chan c ch' s)) c its r k.
Proof.
  intros [Hl Hin (ch0 & Hc0 & H)] Hw Hch Hr. assert (ch0 = ch) as -> by congruence. unfold recv in Hr.
  set (s' := set_pc _ _ _). assert (Hp' : pcs s' = <[i := End r]> (pcs s)) by done.
  pose proof (lookup_lt_Some _ _ _ Hch) as Hlt.
  assert (Hset : forall P, main m = false /\ err m = r /\ P ch' -> main m = false /\ err m = r /\
    ((forall x, P x -> match r with None => closed x = true /\ buf x = [] | Some e => closed x = false
        /\ (forall m, m ∈ buf x -> m = mkStatus false (Some e)) /\ W s' c = k + length (buf x) end) ->
     settled s' c its r k)).
  { intros P (? & ? & HP). split; [done|]. split; [done|]. intros HPx. split; [done| |].
    - intros j Hj. apply Hin. by apply (waits_same s s' i _ _ Hw Hp' c j).
    - exists ch'. split; [by apply list_lookup_insert_eq|by apply HPx]. }
  destruct r as [e|].
  - destruct H as (Hcl & Hall & HW). destruct (buf ch) as [|m0 rest] eqn:Hb; [by rewrite Hcl in Hr|].
    injection Hr as -> <-. assert (m = mkStatus false (Some e)) as -> by (apply Hall; by left).
    destruct (Hset (fun x => x = mkChan rest (closed ch))) as (? & ? & Hs); [done|]. split; [done|]. split; [done|].
    apply Hs. intros x ->. split; [done|]. split; [intros m Hm; apply Hall; by right|].
    pose proof (W_upd s s' i _ _ Hw Hp' c) as Hu. rewrite is_wait_Waiting in Hu. simpl in *. lia.
  - destruct H as [Hcl Hb]. rewrite Hb, Hcl in Hr. injection Hr as <- <-.
    destruct (Hset (fun x => x = ch)) as (? & ? & Hs); [done|]. split; [done|]. split; [done|].
    apply Hs. by intros x ->.
Qed.

(** What a receive of the final result leaves alone. *)
Section recv.
Context (s : state) (i c : nat) (r : option error) (ch' : Chan).
Hypothesis Hw : waits s i c.
Notation s' := (set_pc i (End r) (set_chan c ch' s)).

Lemma recv_W d : d <> c -> W s' d = W s d.
Proof. intros Hd. apply (W_same s s' i _ _ Hw eq_refl); [by apply is_wait_ne|done]. Qed.

Lemma recv_waits d j : waits s' j d -> waits s j d.
Proof. by apply (waits_same s s' i _ _ Hw eq_refl). Qed.

Lemma recv_chans d : d <> c -> chans s' !! d = chans s !! d.
Proof. intros Hd. simpl. by apply list_lookup_insert_ne. Qed.

Lemma recv_settled d its r0 k : d <> c -> settled s d its r0 k -> settled s' d its r0 k.
Proof.
  intros Hd H. apply (settled_frame s); [done|by apply recv_chans| |by apply recv_W|done].
  intros j. apply recv_waits.
Qed.

Lemma recv_main j q : is_main q = true -> pcs s !! j = Some q -> pcs s' !! j = Some q.
Proof.
  intros Hq Hj. apply (pcs_upd s s' i _ _ Hw eq_refl). right. split; [|done]. intros ->.
  assert (q = Waiting c) as -> by (unfold waits in Hw; congruence). done.
Qed.

Lemma recv_inv its k unl :
  inv s -> settled s c its r k -> settled s' c its r k -> pendingStatus s <> Some c -> (status s <> Some c -> k = 0) ->
  phase s unl -> (phase s unl -> phase s' unl) ->
  NoDup (concat (log s).*1 ++ unl ++ pending s) ->
  (forall j, j ∈ concat (log s).*1 ++ unl ++ pending s -> pcs s !! j <> Some Start) -> inv s'.
Proof.
  intros Hinv Hs Hs' Hnp Hk Hph Hph' Hnd Hns. split.
  - exists unl. split; [auto|]. split; [done|]. by apply (started_upd s s' i _ _ Hw eq_refl).
  - pose proof (v_pending s Hinv) as H. unfold has_pending in *. cbn [pendingStatus pending status set_pc set_chan].
    destruct (pendingStatus s) as [d|]; [|done]. assert (d <> c) as Hd by congruence.
    destruct H as (H1 & H2 & H3 & H4 & H5). split; [done|]. rewrite recv_chans by done. split; [done|].
    rewrite recv_W by done. split; [done|]. split; [done|]. intros j Hj. by apply H5, recv_waits.
  - apply (v_uncommitted s Hinv).
  - simpl. rewrite length_insert. intros d Hd H1 H2. destruct (decide (d = c)) as [->|Hne].
    + exists its, r. by rewrite <- (Hk H1).
    + destruct (v_old s Hinv d Hd H1 H2) as (its0 & r0 & H). exists its0, r0. by apply recv_settled.
  - simpl. rewrite length_insert. intros j d Hj. apply (v_wait s Hinv j). by apply recv_waits.
  - simpl. rewrite length_insert. apply (v_status s Hinv).
  - intros j r0 [[-> [= ->]]|[_ Hj]]%(pcs_upd s s' i _ _ Hw eq_refl).
    + exists its. split; [by destruct Hs|]. by apply Hs.
    + by apply (v_end s Hinv).
  - apply (no_panic_upd s s' i _ _ Hw eq_refl); [done|apply (v_safe s Hinv)].
Qed.

Lemma recv_only_main m : only_main s m -> only_main s' m.
Proof. intros H. apply (only_main_upd s s' i _ _ Hw eq_refl); auto. Qed.

Lemma recv_no_main : no_main s -> no_main s'.
Proof. intros H. apply (no_main_upd s s' i _ _ Hw eq_refl); auto. Qed.

(** The phase when another batch's waiter is served. *)
Lemma recv_phase unl : status s <> Some c -> phase s unl -> phase s' unl.
Proof.
  intros Hc Hph.
  destruct Hph as [H1 H2 H3 Hn|c0 H1 H2 Hn H4 H5 H6 H7|c0 m0 q H1 Hq Ho Hwk H4 H5 H6 H7
    |c0 m0 e k0 its0 H1 Hq Ho H3 H4 H5|c0 m0 r0 its0 H1 Hq Ho H3 H4 H5].
  - apply ph_idle; try done. by apply recv_no_main.
  - assert (c0 <> c) by congruence.
    apply (ph_token s' c0); try done; [by apply recv_no_main|by rewrite recv_chans|by rewrite recv_W|].
    intros j Hj. by apply H7, recv_waits.
  - assert (c0 <> c) by congruence.
    apply (ph_main s' c0 m0 q); try done; [apply recv_main; [by destruct q|done]|by apply recv_only_main
      |by rewrite recv_chans|by rewrite recv_W|]. intros j Hj. by apply H6, recv_waits.
  - apply (ph_notify s' c0 m0 e k0 its0); try done; [by apply recv_main|by apply recv_only_main|].
    apply recv_settled; [congruence|done].
  - apply (ph_move s' c0 m0 r0 its0); try done; [by apply recv_main|by apply recv_only_main|].
    apply recv_settled; [congruence|done].
Qed.
End recv.

Lemma recv_token_inv s i c : inv s -> waits s i c -> status s = Some c -> no_main s -> committed s = false ->
  chans s !! c = Some (mkChan [token] false) -> W s c = length (items s) ->
  (forall j, waits s j c -> j ∈ items s) ->
  (exists unl, unl = items s /\ NoDup (concat (log s).*1 ++ unl ++ pending s)
    /\ forall j, j ∈ concat (log s).*1 ++ unl ++ pending s -> pcs s !! j <> Some Start) ->
  inv (set_pc i Prepare (set_chan c (mkChan [] false) s)).
Proof.
  intros Hinv Hw Hst Hn Hcom Hch HW Hin (unl & -> & Hnd & Hns).
  set (s' := set_pc _ _ _). assert (Hp' : pcs s' = <[i := Prepare]> (pcs s)) by done.
  pose proof (lookup_lt_Some _ _ _ Hch) as Hlt.
  assert (HW' : forall d, d <> c -> W s' d = W s d)
    by (intros d Hd; apply (W_same s s' i _ _ Hw Hp'); [by apply is_wait_ne|done]).
  assert (Hws : forall d j, waits s' j d -> waits s j d) by (intros d j; by apply (waits_same s s' i _ _ Hw Hp')).
  pose proof (v_uncommitted s Hinv Hcom) as Hnp.
  split; try done.
  - exists (items s). split; [|split; [done|by apply (started_upd s s' i _ _ Hw Hp')]].
    apply (ph_main s' c i Prepare); try done.
    + apply (pcs_upd s s' i _ _ Hw Hp'). by left.
    + by apply (only_main_new s s' i _ _ Hw Hp').
    + simpl. by apply list_lookup_insert_eq.
    + pose proof (W_upd s s' i _ _ Hw Hp' c) as Hu. rewrite is_wait_Waiting in Hu.
      change (is_wait c Prepare) with false in Hu. cbn [Nat.b2n] in Hu.
      change (items s') with (items s). lia.
    + intros j Hj. by apply Hin, (Hws c).
    + by apply Hin.
  - pose proof (v_pending s Hinv) as H. unfold has_pending in *. simpl. by rewrite Hnp in *.
  - simpl. rewrite length_insert. intros d Hd H1 H2. assert (d <> c) as Hne by congruence.
    destruct (v_old s Hinv d Hd H1 H2) as (its & r & H). exists its, r.
    apply (settled_frame s); [done| |apply Hws|by apply HW'|done]. simpl. by apply list_lookup_insert_ne.
  - simpl. rewrite length_insert. intros j d Hj. apply (v_wait s Hinv j). by apply (Hws d).
  - simpl. rewrite length_insert. apply (v_status s Hinv).
  - intros j r [[-> ?]|[_ Hj]]%(pcs_upd s s' i _ _ Hw Hp'); [done|]. by apply (v_end s Hinv).
  - apply (no_panic_upd s s' i _ _ Hw Hp'); [done|apply (v_safe s Hinv)].
Qed.

Lemma recv_step_inv s i c ch m ch' : inv s -> waits s i c -> chans s !! c = Some ch -> recv ch = Some (m, ch') ->
  inv (set_pc i (if main m then Prepare else End (err m)) (set_chan c ch' s)).
Proof.
  intros Hinv Hw Hch Hr. destruct (v_phase s Hinv) as (unl & Hph & Hnd & Hns).
  assert (pendingStatus s <> Some c) as Hnp.
  { intros E. pose proof (v_pending s Hinv) as H. unfold has_pending in H. rewrite E in H.
    destruct H as (_ & H & _). rewrite Hch in H. by injection H as ->. }
  destruct (decide (status s = Some c)) as [Hst|Hst].
  - destruct Hph as [H1 H2 H3 Hn|c0 H1 H2 Hn H4 H5 H6 H7|c0 m0 q H1 Hq Ho Hwk H4 H5 H6 H7
      |c0 m0 e k0 its0 H1 Hq Ho H3 H4 H5|c0 m0 r0 its0 H1 Hq Ho H3 H4 H5];
      [congruence|assert (c0 = c) as -> by congruence..].
    + rewrite H4 in Hch. injection Hch as <-. injection Hr as <- <-. apply recv_token_inv; eauto.
    + rewrite H4 in Hch. by injection Hch as <-.
    + destruct (settled_recv s i c its0 (Some e) k0 ch m ch' H4 Hw Hch Hr) as (-> & -> & Hs').
      apply (recv_inv s i c (Some e) ch' Hw its0 k0 []); try done;
        [by apply (ph_notify s c m0 e k0 its0)|intros _].
      apply (ph_notify _ c m0 e k0 its0); try done; [by apply recv_main|by apply recv_only_main].
    + destruct (settled_recv s i c its0 r0 0 ch m ch' H4 Hw Hch Hr) as (-> & -> & Hs').
      apply (recv_inv s i c r0 ch' Hw its0 0 []); try done;
        [by apply (ph_move s c m0 r0 its0)|intros _].
      apply (ph_move _ c m0 r0 its0); try done; [by apply recv_main|by apply recv_only_main].
  - destruct (v_old s Hinv c) as (its & r & Hs); [by apply lookup_lt_Some in Hch|done|done|].
    destruct (settled_recv s i c its r 0 ch m ch' Hs Hw Hch Hr) as (-> & -> & Hs').
    apply (recv_inv s i c r ch' Hw its 0 unl); try done. by apply recv_phase.
Qed.

(** *** Assigning *)

(** A goroutine starts waiting on [c]. *)
Section assign.
Context (s s' : state) (i c : nat).
Hypothesis Hinv : inv s.
Hypothesis Hp : pcs s !! i = Some Start.
Hypothesis Hp' : pcs s' = <[i := Waiting c]> (pcs s).
Hypothesis Hlog : log s' = log s.
Hypothesis Hlen : length (chans s) <= length (chans s').
Hypothesis Hch : forall d, d < length (chans s) -> chans s' !! d = chans s !! d.

Lemma assign_W d : W s' d = W s d + (if decide (d = c) then 1 else 0).
Proof.
  clear Hinv Hlog Hlen Hch. pose proof (W_upd s s' i _ _ Hp Hp' d) as Hu. simpl in Hu. destruct (decide (d = c)) as [->|Hne].
  - rewrite bool_decide_eq_true_2 in Hu by done. simpl in Hu. lia.
  - rewrite bool_decide_eq_false_2 in Hu by congruence. simpl in Hu. lia.
Qed.

Lemma assign_waits d j : waits s' j d -> (j = i /\ d = c) \/ waits s j d.
Proof. intros [[-> [= ->]]|[_ H]]%(pcs_upd s s' i _ _ Hp Hp'); auto. Qed.

Lemma assign_settled d its r k : d <> c -> settled s d its r k -> settled s' d its r k.
Proof.
  intros Hd Hs. apply (settled_frame s); [done| | | |by rewrite Hlog].
  - apply Hch. destruct Hs as [_ _ (ch & H & _)]. by apply lookup_lt_Some in H.
  - by intros j [[_ ?]|?]%assign_waits.
  - rewrite assign_W, decide_False by done. lia.
Qed.

Lemma assign_main j q : is_main q = true -> pcs s !! j = Some q -> pcs s' !! j = Some q.
Proof.
  intros Hq Hj. apply (pcs_upd s s' i _ _ Hp Hp'). right. split; [|done]. intros ->.
  assert (q = Start) as -> by congruence. done.
Qed.

Lemma assign_only_main m : only_main s m -> only_main s' m.
Proof. intros H. apply (only_main_upd s s' i _ _ Hp Hp'); auto. Qed.

Lemma assign_no_main : no_main s -> no_main s'.
Proof. intros H. apply (no_main_upd s s' i _ _ Hp Hp'); auto. Qed.

(** The item joins the items that are not in the log yet. *)
Lemma assign_items l unl pend unl' pend' :
  l = concat (log s).*1 ++ unl ++ pend -> NoDup l -> (forall j, j ∈ l -> pcs s !! j <> Some Start) ->
  unl' ++ pend' ≡ₚ i :: unl ++ pend ->
  NoDup (concat (log s').*1 ++ unl' ++ pend')
  /\ forall j, j ∈ concat (log s').*1 ++ unl' ++ pend' -> pcs s' !! j <> Some Start.
Proof.
  intros -> Hnd Hns Hperm. rewrite Hlog.
  assert (i ∉ concat (log s).*1 ++ unl ++ pend) as Hi by (intros H; by apply (Hns i)).
  assert (concat (log s).*1 ++ unl' ++ pend' ≡ₚ i :: concat (log s).*1 ++ unl ++ pend) as Hall
    by (rewrite Hperm; symmetry; apply Permutation_middle).
  rewrite Hall. split; [by apply list.NoDup_cons|].
  intros j Hj [[-> ?]|[Hne E]]%(pcs_upd s s' i _ _ Hp Hp'); [done|]. rewrite Hall in Hj.
  apply elem_of_cons in Hj as [->|Hj]; [done|]. by apply (Hns j).
Qed.

Lemma assign_inv_from :
  c < length (chans s') ->
  (forall d, status s' = Some d \/ pendingStatus s' = Some d -> d < length (chans s')) ->
  (forall d, length (chans s) <= d -> d < length (chans s') -> d = c) ->
  status s' = Some c \/ pendingStatus s' = Some c ->
  (forall d, status s = Some d -> status s' = Some d) ->
  (forall d, pendingStatus s = Some d -> pendingStatus s' = Some d) ->
  (committed s' = false -> pendingStatus s' = None) ->
  has_pending s' ->
  (exists unl, phase s' unl /\ NoDup (concat (log s').*1 ++ unl ++ pending s')
    /\ forall j, j ∈ concat (log s').*1 ++ unl ++ pending s' -> pcs s' !! j <> Some Start) ->
  inv s'.
Proof.
  intros Hc Hst Hnew Hcur Hs1 Hs2 Hcom Hpend Hph. split; try done.
  - intros d Hd H1 H2. assert (d <> c) as Hne by (intros ->; by destruct Hcur).
    destruct (decide (d < length (chans s))) as [Hlt|Hge].
    + destruct (v_old s Hinv d Hlt) as (its & r & H); [intros E; by apply H1, Hs1|intros E; by apply H2, Hs2|].
      exists its, r. by apply assign_settled.
    + destruct Hne. apply Hnew; [lia|done].
  - intros j d [[_ ->]|H]%assign_waits; [done|]. apply (v_wait s Hinv) in H. lia.
  - intros j r [[_ ?]|[_ Hj]]%(pcs_upd s s' i _ _ Hp Hp'); [done|]. rewrite Hlog. by apply (v_end s Hinv).
  - apply (no_panic_upd s s' i _ _ Hp Hp'); [done|apply (v_safe s Hinv)].
Qed.
End assign.

Lemma no_waiters s c : inv s -> length (chans s) <= c -> W s c = 0.
Proof.
  intros Hinv Hc. destruct (decide (W s c = 0)) as [|Hne]; [done|].
  destruct (W_waits s c) as [i Hi]; [lia|]. apply (v_wait s Hinv) in Hi. lia.
Qed.

(** The channel that a new pending item waits on. *)
Lemma pending_target s : inv s -> exists c chans',
  match pendingStatus s with
  | Some c => (c, chans s) | None => (length (chans s), chans s ++ [mkChan [] false])
  end = (c, chans')
  /\ (forall d, d < length (chans s) -> chans' !! d = chans s !! d) /\ length (chans s) <= length chans'
  /\ (forall d, length (chans s) <= d -> d < length chans' -> d = c)
  /\ c < length chans' /\ status s <> Some c /\ chans' !! c = Some (mkChan [] false)
  /\ W s c = length (pending s) /\ (forall j, waits s j c -> j ∈ pending s)
  /\ (forall d, pendingStatus s = Some d -> d = c).
Proof.
  intros Hinv. pose proof (v_status s Hinv) as Hvs. pose proof (v_pending s Hinv) as Hpend. unfold has_pending in Hpend.
  destruct (pendingStatus s) as [d|] eqn:Hps.
  - destruct Hpend as (? & ? & ? & ? & ?). exists d, (chans s). split; [done|]. split; [done|]. split; [done|].
    split; [intros; lia|]. split; [apply Hvs; auto|]. split_and!; try done. congruence.
  - exists (length (chans s)), (chans s ++ [mkChan [] false]). split; [done|].
    split; [intros d Hd; by apply lookup_app_l|]. rewrite length_app. simpl. split; [lia|]. split; [intros; lia|].
    split; [lia|]. split; [intros E; specialize (Hvs _ (or_introl E)); lia|].
    split; [rewrite lookup_app_r, Nat.sub_diag by lia; done|].
    rewrite (no_waiters s _ Hinv) by lia. split; [by rewrite Hpend|]. split; [|done].
    intros j Hj%(v_wait s Hinv). lia.
Qed.

Lemma assign_pending_inv s i c chans' : inv s -> pcs s !! i = Some Start -> committed s = true ->
  (forall d, d < length (chans s) -> chans' !! d = chans s !! d) -> length (chans s) <= length chans' ->
  (forall d, length (chans s) <= d -> d < length chans' -> d = c) ->
  c < length chans' -> status s <> Some c -> chans' !! c = Some (mkChan [] false) ->
  W s c = length (pending s) -> (forall j, waits s j c -> j ∈ pending s) ->
  (forall d, pendingStatus s = Some d -> d = c) ->
  inv (set_pc i (Waiting c)
    (mkState true (items s) (status s) (pending s ++ [i]) (Some c) chans' (pcs s) (log s))).
Proof.
  intros Hinv Hp Hcom Hch Hlen Hnew Hc Hne Hcc HW Hin Heq.
  destruct (v_phase s Hinv) as (unl & Hph & Hnd & Hns). pose proof (v_status s Hinv) as Hvs.
  set (s' := set_pc _ _ _). assert (Hp' : pcs s' = <[i := Waiting c]> (pcs s)) by done.
  assert (HWc : forall d, d <> c -> W s' d = W s d)
    by (intros d Hd; rewrite (assign_W s s' i c Hp Hp'), decide_False by done; lia).
  assert (Hwo : forall d j, d <> c -> waits s' j d -> waits s j d)
    by (intros d j Hd [[_ ?]|?]%(assign_waits s s' i c Hp Hp'); done).
  assert (Hso : forall d its r k, d <> c -> settled s d its r k -> settled s' d its r k)
    by (intros; by apply (assign_settled s s' i c)).
  apply (assign_inv_from s s' i c); try done; auto.
  + simpl. intros d [H|[= <-]]; [|done]. specialize (Hvs d (or_introl H)). lia.
  + simpl. intros d Hd. f_equal. symmetry. auto.
  + unfold has_pending. simpl. split; [done|]. split; [done|].
    rewrite (assign_W s s' i c Hp Hp'), decide_True, HW, length_app by done. split; [done|]. split; [by destruct (pending s)|].
    intros j [[-> _]|Hj]%(assign_waits s s' i c Hp Hp'); apply elem_of_app; [right; by left|left; auto].
  + exists unl. split.
    * destruct Hph as [H1 H2 H3 Hn|c0 H1 H2 Hn H4 H5 H6 H7|c0 m0 q H1 Hq Ho Hwk H4 H5 H6 H7
        |c0 m0 e k0 its0 H1 Hq Ho H3 H4 H5|c0 m0 r0 its0 H1 Hq Ho H3 H4 H5]; [congruence|congruence|..].
      -- assert (c0 <> c) by congruence. pose proof (Hvs c0 (or_introl H1)).
         apply (ph_main s' c0 m0 q); try done; [apply (assign_main s s' i c Hp Hp'); [by destruct q|done]
           |by apply (assign_only_main s s' i c Hp Hp')|destruct q; simpl in *; try done; congruence
           |simpl; by rewrite Hch|by rewrite HWc|]. intros j Hj. apply H6. by apply (Hwo c0).
      -- apply (ph_notify s' c0 m0 e k0 its0); try done; [by apply (assign_main s s' i c Hp Hp')
           |by apply (assign_only_main s s' i c Hp Hp')|]. apply Hso; [congruence|done].
      -- apply (ph_move s' c0 m0 r0 its0); try done; [by apply (assign_main s s' i c Hp Hp')
           |by apply (assign_only_main s s' i c Hp Hp')|]. apply Hso; [congruence|done].
    * apply (assign_items s s' i c Hp Hp' eq_refl _ unl (pending s) unl (pending s ++ [i]) eq_refl Hnd Hns).
      rewrite app_assoc. by rewrite <- Permutation_cons_append.
Qed.

Lemma assign_join_inv s i c : inv s -> pcs s !! i = Some Start -> committed s = false -> status s = Some c ->
  inv (set_pc i (Waiting c)
    (mkState false (items s ++ [i]) (Some c) (pending s) (pendingStatus s) (chans s) (pcs s) (log s))).
Proof.
  intros Hinv Hp Hcom Hst. destruct (v_phase s Hinv) as (unl & Hph & Hnd & Hns). pose proof (v_status s Hinv) as Hvs.
  pose proof (v_uncommitted s Hinv Hcom) as Hnp.
  pose proof (v_pending s Hinv) as Hpend. unfold has_pending in Hpend. rewrite Hnp in Hpend. rewrite Hst in Hvs.
  set (s' := set_pc _ _ _). assert (Hp' : pcs s' = <[i := Waiting c]> (pcs s)) by done.
  pose proof (Hvs c (or_introl eq_refl)) as Hlt.
  apply (assign_inv_from s s' i c); try done; auto.
  * intros d Hd Hd'. simpl in *. lia.
  * simpl. intros d Hd. congruence.
  * unfold has_pending. simpl. by rewrite Hnp.
  * assert (HWc : W s' c = S (W s c)) by (rewrite (assign_W s s' i c Hp Hp'), decide_True by done; lia).
    exists (items s'). split.
    -- destruct Hph as [H1 H2 H3 Hn|c0 H1 H2 Hn H4 H5 H6 H7|c0 m0 q H1 Hq Ho Hwk H4 H5 H6 H7
         |c0 m0 e k0 its0 H1 Hq Ho H3 H4 H5|c0 m0 r0 its0 H1 Hq Ho H3 H4 H5];
         [congruence|assert (c0 = c) as -> by congruence..|congruence|congruence].
       ++ apply (ph_token s' c); try done; [by apply (assign_no_main s s' i c Hp Hp')
            |rewrite HWc, H5; simpl; rewrite length_app; simpl; lia|simpl; by destruct (items s)|].
          intros j [[-> _]|Hj]%(assign_waits s s' i c Hp Hp'); simpl; apply elem_of_app; [right; by left|left; auto].
       ++ apply (ph_main s' c m0 q); try done; [apply (assign_main s s' i c Hp Hp'); [by destruct q|done]
            |by apply (assign_only_main s s' i c Hp Hp')|destruct q; simpl in *; try done; destruct Hwk; congruence
            |rewrite HWc, H5; simpl; rewrite length_app; simpl; lia| |simpl; apply elem_of_app; by left].
          intros j [[-> _]|Hj]%(assign_waits s s' i c Hp Hp'); simpl; apply elem_of_app; [right; by left|left; auto].
    -- assert (unl = items s) as -> by (destruct Hph; congruence).
       apply (assign_items s s' i c Hp Hp' eq_refl _ (items s) (pending s) (items s ++ [i]) (pending s) eq_refl Hnd Hns).
       by rewrite <- Permutation_cons_append.
Qed.

Lemma assign_first_inv s i : inv s -> pcs s !! i = Some Start -> committed s = false -> status s = None ->
  inv (set_pc i (Waiting (length (chans s)))
    (mkState false (items s ++ [i]) (Some (length (chans s))) (pending s) (pendingStatus s)
      (chans s ++ [mkChan [token] false]) (pcs s) (log s))).
Proof.
  intros Hinv Hp Hcom Hst. destruct (v_phase s Hinv) as (unl & Hph & Hnd & Hns). pose proof (v_status s Hinv) as Hvs.
  pose proof (v_uncommitted s Hinv Hcom) as Hnp.
  pose proof (v_pending s Hinv) as Hpend. unfold has_pending in Hpend. rewrite Hnp in Hpend. rewrite Hst in Hvs.
  set (s' := set_pc _ _ _). set (c := length (chans s)) in *. assert (Hp' : pcs s' = <[i := Waiting c]> (pcs s)) by done.
  assert (unl = [] /\ items s = [] /\ no_main s) as (-> & Hit & Hn) by (destruct Hph; [done|congruence..]).
  assert (HWc : W s' c = 1).
  { rewrite (assign_W s s' i c Hp Hp'), decide_True by done. rewrite (no_waiters s c Hinv); [done|]. unfold c. lia. }
  apply (assign_inv_from s s' i c); try done; auto.
  * simpl. rewrite length_app. lia.
  * intros d Hd. simpl. by apply lookup_app_l.
  * simpl. rewrite length_app. simpl. lia.
  * simpl. rewrite length_app, Hnp. simpl. intros d [[= <-]|?]; [lia|done].
  * simpl. rewrite length_app. simpl. intros. unfold c in *. lia.
  * intros d Hd. congruence.
  * unfold has_pending. simpl. by rewrite Hnp.
  * exists (items s'). split.
    -- apply (ph_token s' c); try done; [by apply (assign_no_main s s' i c Hp Hp')
         |simpl; unfold c; by rewrite lookup_app_r, Nat.sub_diag by lia|by rewrite HWc; simpl; rewrite Hit
         |simpl; by rewrite Hit|].
       intros j [[-> _]|Hj]%(assign_waits s s' i c Hp Hp'); simpl; [apply elem_of_app; right; by left|].
       apply (v_wait s Hinv) in Hj. unfold c in Hj. lia.
    -- apply (assign_items s s' i c Hp Hp' eq_refl _ [] (pending s) (items s ++ [i]) (pending s) eq_refl Hnd Hns).
       by rewrite Hit.
Qed.

Lemma assign_inv s i : inv s -> pcs s !! i = Some Start ->
  inv (let '(c, s') := assign i s in set_pc i (Waiting c) s').
Proof.
  intros Hinv Hp. unfold assign. destruct (committed s) eqn:Hcom.
  - destruct (pending_target s Hinv) as (c & chans' & -> & ? & ? & ? & ? & ? & ? & ? & ? & ?).
    by apply assign_pending_inv.
  - destruct (status s) as [c|] eqn:Hst; [|by apply assign_first_inv]. by apply assign_join_inv.
Qed.

(** ** Every step *)

(** The channel of the current batch is open until the batch completes. *)
Lemma complete_chan s i its r : inv s -> pcs s !! i = Some (Complete its r) ->
  exists c, status s = Some c /\ chans s !! c = Some (mkChan [] false).
Proof.
  intros Hinv Hp. destruct (v_phase s Hinv) as (unl & Hph & _).
  destruct (phase_main s unl i _ Hph Hp eq_refl) as [(c & Hc & _ & _ & _ & Hcc & _)|[(?&?&?&?&?&_)|(?&?&?&?&_)]]; [eauto|done..].
Qed.

Lemma notify_chan s i e k st : inv s -> pcs s !! i = Some (Notify e k st) ->
  exists c ch, st = Some c /\ chans s !! c = Some ch /\ closed ch = false /\ W s c = k + length (buf ch).
Proof.
  intros Hinv Hp. destruct (v_phase s Hinv) as (unl & Hph & _).
  destruct (phase_main s unl i _ Hph Hp eq_refl) as [(?&?&?&?&?&_)|[(c & e' & k' & its & [= <- <- ->] & _ & _ & _ & _ & Hs & _)|(?&?&?&?&_)]]; [done| |done].
  destruct Hs as [_ _ (ch & Hch & ? & _ & ?)]. eauto 10.
Qed.

Lemma pending_chan s d : inv s -> pendingStatus s = Some d -> chans s !! d = Some (mkChan [] false).
Proof. intros Hinv E. pose proof (v_pending s Hinv) as H. unfold has_pending in H. rewrite E in H. tauto. Qed.

Lemma step_inv s s' : inv s -> step s s' -> inv s'.
Proof.
  intros Hinv Hstep. destruct Hstep as [i Hp|i c ch m ch' Hp Hch Hr|i r Hp|i r Hp|i its r Hp|i its e Hp|i its Hp
    |i e k c ch o Hp Hch Hsend|i e st Hp|i r Hp Hps|i r c ch o Hp Hps Hch Hsend].
  - by apply assign_inv.
  - by apply (recv_step_inv s i c ch m ch').
  - by apply prepare_inv.
  - by apply commit_inv.
  - by apply resolve_inv.
  - by apply complete_err_inv.
  - destruct (complete_chan s i its None Hinv Hp) as (c & Hc & Hcc). rewrite Hc, Hcc. simpl.
    by apply complete_ok_inv.
  - destruct (notify_chan s i e (S k) (Some c) Hinv Hp) as (c' & ch' & [= <-] & Hch' & Hcl & _).
    assert (ch' = ch) as -> by congruence. unfold send in Hsend. rewrite Hcl in Hsend.
    destruct (buf ch) eqn:Hb; [|done]. injection Hsend as <-. by apply (notify_inv s i e k c ch).
  - by apply (notified_inv s i e st).
  - by apply move_inv_none.
  - rewrite (pending_chan s c Hinv Hps) in Hch. injection Hch as <-. injection Hsend as <-. by apply move_inv_some.
Qed.

Lemma reachable_inv n s : reachable n s -> inv s.
Proof. induction 1 as [|s s' _ IH Hs]; [apply init_inv|by apply (step_inv s)]. Qed.

(** ** Progress *)

Definition ended (p : pc) : bool := match p with End _ => true | _ => false end.

(** A waiter on a channel with something to receive can go on. *)
Lemma recv_enabled s i c ch : waits s i c -> chans s !! c = Some ch -> buf ch <> [] \/ closed ch = true ->
  exists s', step s s'.
Proof.
  intros Hw Hch Hor. destruct (recv ch) as [[m ch']|] eqn:E; [eexists; by apply (step_recv s i c ch m ch')|].
  unfold recv in E. destruct (buf ch); [|done]. destruct Hor as [?|Hc]; [done|]. by rewrite Hc in E.
Qed.

Lemma settled_enabled s i c its r : waits s i c -> settled s c its r 0 -> exists s', step s s'.
Proof.
  intros Hw [_ _ (ch & Hch & H)]. apply (recv_enabled s i c ch Hw Hch). pose proof (waits_W s i c Hw) as HW.
  destruct r as [e|]; [|by destruct H; right]. destruct H as (_ & _ & E). left. intros Hb. rewrite Hb in E. simpl in E. lia.
Qed.

Lemma main_enabled s i p : inv s -> pcs s !! i = Some p -> is_main p = true -> exists s', step s s'.
Proof.
  intros Hinv Hp Hm. destruct p as [|c| |r|its|its r|e k st|r|r|]; try discriminate Hm.
  - eexists. by apply (step_prepare s i None).
  - eexists. by apply (step_commit s i r).
  - eexists. by apply (step_resolve s i its None).
  - destruct r as [e|]; eexists; [by apply (step_complete_err s i its e)|by apply (step_complete_ok s i its)].
  - destruct k as [|k]; [eexists; by apply (step_notified s i e st)|].
    destruct (notify_chan s i e (S k) st Hinv Hp) as (c & ch & -> & Hch & Hcl & HW).
    destruct (send (mkStatus false (Some e)) ch) as [o|] eqn:E; [eexists; by apply (step_notify s i e k c ch o)|].
    destruct (W_waits s c) as [j Hj]; [lia|]. apply (recv_enabled s j c ch Hj Hch). left.
    unfold send in E. rewrite Hcl in E. by destruct (buf ch).
  - destruct (pendingStatus s) as [d|] eqn:Hd; [|eexists; by apply (step_move s i r)].
    eexists. by apply (step_move_token s i r d _ _ Hp Hd (pending_chan s d Hinv Hd) eq_refl).
Qed.

Lemma merge_progress s : inv s -> (exists i p, pcs s !! i = Some p /\ ended p = false) -> exists s', step s s'.
Proof.
  intros Hinv (i & p & Hp & Hend).
  destruct (is_main p) eqn:Hm; [by apply (main_enabled s i p)|].
  destruct p as [|c| | | | | | |r|]; try done.
  { eexists. by apply (step_assign s i). }
  2: { by apply (v_safe s Hinv) in Hp. }
  (* a waiter *)
  destruct (v_phase s Hinv) as (unl & Hph & _).
  assert (Hmain : forall j q, pcs s !! j = Some q -> is_main q = true -> exists s', step s s')
    by (intros j q; apply main_enabled; done).
  destruct Hph as [H1 H2 H3 Hn|c0 H1 H2 Hn H4 H5 H6 H7|c0 m0 q H1 Hq Ho Hwk H4 H5 H6 H7
    |c0 m0 e k0 its0 H1 Hq Ho H3 H4 H5|c0 m0 r0 its0 H1 Hq Ho H3 H4 H5];
    [| |apply (Hmain m0 q Hq); by destruct q|by apply (Hmain m0 _ Hq)|by apply (Hmain m0 _ Hq)].
  - destruct (v_old s Hinv c) as (its & r & Hs); [by apply (v_wait s Hinv i)|congruence| |].
    + by rewrite (v_uncommitted s Hinv H2).
    + by apply (settled_enabled s i c its r).
  - destruct (decide (c = c0)) as [->|Hne]; [apply (recv_enabled s i c0 _ Hp H4); by left|].
    destruct (v_old s Hinv c) as (its & r & Hs); [by apply (v_wait s Hinv i)|congruence| |].
    + by rewrite (v_uncommitted s Hinv H2).
    + by apply (settled_enabled s i c its r).
Qed.

Lemma phase_one_main s unl i j p q :
  phase s unl -> pcs s !! i = Some p -> is_main p = true -> pcs s !! j = Some q -> is_main q = true -> i = j.
Proof.
  intros Hph Hp Hpm Hq Hqm.
  destruct (phase_main s unl i p Hph Hp Hpm) as [(?&_&Ho&_)|[(?&?&?&?&_&_&Ho&_)|(?&?&?&_&_&Ho&_)]];
    symmetry; by apply (Ho j q).
Qed.

(** C34: for any number of goroutines that call [Do] and in every interleaving: at
    most one of them runs [prepare], [resolve] or [complete]; no channel operation
    panics; no item is in two batches or twice in one; a call that returned got
    the result of a batch that had its item, so a nil error means that [resolve]
    succeeded on a list with the item; and as long as some call has not returned,
    some goroutine can go on. *)
Theorem Merge_correct (n : nat) (s : state) (Hr : reachable n s) :
  (forall i j p q, pcs s !! i = Some p -> is_main p = true -> pcs s !! j = Some q -> is_main q = true -> i = j)
  /\ (forall i, pcs s !! i <> Some Panicked)
  /\ NoDup (concat (log s).*1)
  /\ (forall i r, pcs s !! i = Some (End r) -> exists its, (its, r) ∈ log s /\ i ∈ its)
  /\ ((exists i p, pcs s !! i = Some p /\ ended p = false) -> exists s', step s s').
Proof.
  pose proof (reachable_inv n s Hr) as Hinv. destruct (v_phase s Hinv) as (unl & Hph & Hnd & _).
  split; [intros i j p q; by apply (phase_one_main s unl)|]. split; [apply (v_safe s Hinv)|].
  split; [by apply list.NoDup_app in Hnd as [? _]|]. split; [apply (v_end s Hinv)|by apply merge_progress].
Qed.

(** Two goroutines: the first is chosen, the second joins its batch. *)
Definition two : state :=
  mkState false [0; 1] (Some 0) [] None [mkChan [] false] [Prepare; Waiting 0] [].

Definition one_waiting : state := mkState false [0] (Some 0) [] None [mkChan [token] false] [Waiting 0; Start] [].
Definition two_waiting : state := mkState false [0; 1] (Some 0) [] None [mkChan [token] false] [Waiting 0; Waiting 0] [].

Lemma two_reachable : reachable 2 two.
Proof.
  apply (reach_step 2 two_waiting).
  2: { exact (step_recv two_waiting 0 0 (mkChan [token] false) token (mkChan [] false) eq_refl eq_refl eq_refl). }
  apply (reach_step 2 one_waiting); [|exact (step_assign one_waiting 1 eq_refl)].
  apply (reach_step 2 (init 2)); [apply reach_init|exact (step_assign (init 2) 0 eq_refl)].
Qed.

Lemma Merge_correct_witness : NoDup (concat (log two).*1) /\ exists s', step two s'.
Proof.
  destruct (Merge_correct 2 two two_reachable) as (_ & _ & Hnd & _ & Hp). split; [exact Hnd|].
  apply Hp. exists 1, (Waiting 0). split; reflexivity.
Defined.
