(* ===== verification/ReferrersMerge.v ===== *)
(** Concurrent updates of one referrers index: [updateReferrersIndex] of
    [registry/remote/repository.go] called by any number of goroutines that share a
    [Merge], against a registry that follows the distribution specification.  The
    callbacks of the merge are [prepare_index] and [update_index] of the goroutine
    that was chosen; everything else of the registry may change at any time. *)

From Stdlib Require Import Ascii String ZArith Lia.
From S2P Require Import Prelude Errors Descriptor Reader Manifest Storage.
From S2P Require Import GoStrings Reference Referrers Scope Http Challenge Remote RemoteCorrect RemoteReferrers Merge MergeCorrect.
Import registry.

(** ** The keys of an index *)

Definition key_set (l : list OciDescriptor) : gset Descriptor := list_to_set (keys (List.filter nonempty l)).

(** What a change does to the keys. *)
Definition apply_key (ks : gset Descriptor) (c : referrerChange) : gset Descriptor :=
  match operation c with
  | referrerOperationAdd => ks ∪ {[FromOCI (referrer c)]}
  | referrerOperationRemove => ks ∖ {[FromOCI (referrer c)]}
  end.

Definition valid_change (c : referrerChange) : Prop := nonempty (referrer c) = true.
Notation all_nonempty l := (Forall (fun r => nonempty r = true) l).

Lemma elem_of_key_set l k : all_nonempty l -> k ∈ key_set l <-> k ∈ keys l.
Proof. intros Hl. unfold key_set. rewrite filter_nonempty_id by done. apply elem_of_list_to_set. Qed.

Lemma all_nonempty_filter (f : OciDescriptor -> bool) l : all_nonempty l -> all_nonempty (List.filter f l).
Proof. intros Hl. apply Forall_forall. intros x [Hx _]%List.filter_In. rewrite Forall_forall in Hl. by apply Hl. Qed.

Lemma apply_change_keys l c : valid_change c -> all_nonempty l ->
  all_nonempty (apply_change l c) /\ key_set (apply_change l c) = apply_key (key_set l) c.
Proof.
  intros Hc Hl. assert (all_nonempty (apply_change l c)) as Hn.
  { unfold apply_change. destruct (operation c); [|by apply all_nonempty_filter].
    by apply (foldl_add_key_nonempty [referrer c]); [|constructor]. }
  split; [done|]. apply set_eq. intros k. rewrite elem_of_key_set by done. unfold apply_change, apply_key.
  destruct (operation c).
  - rewrite keys_add_key, elem_of_union, elem_of_key_set, elem_of_singleton by done. done.
  - rewrite keys_filter_key, list_elem_of_In, List.filter_In, bool_decide_eq_true, <- list_elem_of_In.
    by rewrite elem_of_difference, elem_of_key_set, elem_of_singleton by done.
Qed.

Lemma apply_changes_keys cs l : Forall valid_change cs -> all_nonempty l ->
  all_nonempty (foldl apply_change l cs) /\ key_set (foldl apply_change l cs) = foldl apply_key (key_set l) cs.
Proof.
  intros Hcs. revert l. induction Hcs as [|c cs Hc _ IH]; intros l Hl; simpl; [done|].
  destruct (apply_change_keys l c Hc Hl) as [Hn Hk]. rewrite <- Hk. by apply IH.
Qed.

Lemma dedup_keys l : all_nonempty (dedup l) /\ key_set (dedup l) = key_set l.
Proof.
  assert (all_nonempty (dedup l)) as Hn by (apply foldl_add_key_nonempty; [constructor|apply filter_nonempty_Forall]).
  split; [done|]. apply set_eq. intros k. rewrite elem_of_key_set by done. unfold dedup.
  rewrite keys_foldl_add_key. unfold key_set. rewrite elem_of_list_to_set, elem_of_nil. tauto.
Qed.

Lemma updated_keys l cs : Forall valid_change cs ->
  all_nonempty (updated l cs) /\ key_set (updated l cs) = foldl apply_key (key_set l) cs.
Proof. intros Hcs. destruct (dedup_keys l) as [Hn <-]. by apply apply_changes_keys. Qed.

Lemma no_update_keys l cs : Forall valid_change cs -> no_update l cs -> key_set l = foldl apply_key (key_set l) cs.
Proof.
  intros Hcs [Hl Hp]. destruct (updated_keys l cs Hcs) as [Hn <-]. apply set_eq. intros k.
  rewrite !elem_of_key_set by done. by rewrite Hp.
Qed.

(** A list that has to be written is another list. *)
Lemma updated_other l cs : Forall valid_change cs -> ~ no_update l cs -> updated l cs <> l.
Proof.
  intros Hcs Hnu E. apply Hnu. destruct (updated_keys l cs Hcs) as [Hn _]. split; [by rewrite <- E|]. by rewrite E.
Qed.

(** ** The batches of a merge *)

(** Whether a goroutine is in a callback, has the index it prepared, or has resolved
    a batch that is not in the log yet. *)
Definition in_callback (p : merge.pc) : bool := match p with merge.Prepare | merge.Resolve _ => true | _ => false end.
Definition prepared (p : merge.pc) : bool := match p with merge.Commit None | merge.Resolve _ => true | _ => false end.
Definition flight (p : merge.pc) : option (list nat) := match p with merge.Complete its None => Some its | _ => None end.

Definition succeeded (b : list nat * option error) : option (list nat) := match b.2 with None => Some b.1 | Some _ => None end.

(** The items of the batches that were resolved without an error, in order. *)
Definition resolved (m : merge.state) : list nat :=
  concat (omap succeeded (merge.log m) ++ omap flight (merge.pcs m)).

Lemma omap_insert_None {A B} (f : A -> option B) (l : list A) i x y :
  l !! i = Some x -> f x = None -> f y = None -> omap f (<[i := y]> l) = omap f l.
Proof.
  intros Hi Hx Hy. assert (i < length l) as Hlt by (by apply lookup_lt_Some in Hi).
  rewrite <- (take_drop_middle l i x Hi) at 2. rewrite insert_take_drop by done.
  rewrite !omap_app. f_equal. cbn [omap list_omap]. by rewrite Hx, Hy.
Qed.

Lemma omap_none {A B} (f : A -> option B) (l : list A) : (forall y, y ∈ l -> f y = None) -> omap f l = [].
Proof.
  intros H. destruct (omap f l) as [|b bs] eqn:E; [done|].
  assert (b ∈ omap f l) as (y & Hy & Hf)%list_elem_of_omap by (rewrite E; by left). rewrite H in Hf; done.
Qed.

Lemma omap_only {A B} (f : A -> option B) (l : list A) i x :
  l !! i = Some x -> (forall j y, l !! j = Some y -> j <> i -> f y = None) -> omap f l = option_list (f x).
Proof.
  intros Hi Ho. pose proof (lookup_lt_Some _ _ _ Hi) as Hlt. rewrite <- (take_drop_middle l i x Hi), omap_app.
  rewrite (omap_none f (take i l)), app_nil_l.
  - cbn [omap list_omap]. rewrite (omap_none f (drop (S i) l)); [by destruct (f x)|].
    intros y (j & Hj)%list_elem_of_lookup. rewrite lookup_drop in Hj. apply (Ho _ y Hj). lia.
  - intros y (j & Hj)%list_elem_of_lookup. apply lookup_take_Some in Hj as [Hj ?]. apply (Ho j y Hj). lia.
Qed.

Lemma flight_main p its : flight p = Some its -> is_main p = true.
Proof. by destruct p as [| | | | |? []| | | |]. Qed.

(** A step that is not the return of a callback. *)
Definition internal (m m' : merge.state) : Prop := merge.step m m' /\
  forall i p, merge.pcs m !! i = Some p -> in_callback p = true -> merge.pcs m' !! i = Some p.

Record moved (m m' : merge.state) (i : nat) (p p' : merge.pc) : Prop := {
  mv_old : merge.pcs m !! i = Some p;
  mv_new : merge.pcs m' = <[i := p']> (merge.pcs m);
  mv_prepared : prepared p' = true -> prepared p = true;
  mv_flight : flight p' = None;
  mv_log : omap succeeded (merge.log m') = omap succeeded (merge.log m) ++ option_list (flight p)
}.

Lemma internal_moved m m' : MergeCorrect.inv m -> internal m m' -> exists i p p', moved m m' i p p'.
Proof.
  intros Hinv [Hstep Hcb].
  assert (forall i p p', merge.pcs m !! i = Some p -> merge.pcs m' = <[i := p']> (merge.pcs m) -> in_callback p = true -> p = p') as Hno.
  { intros i p p' Hi Hp Hc. specialize (Hcb i p Hi Hc). rewrite Hp, list_lookup_insert_eq in Hcb; [congruence|].
    by apply lookup_lt_Some in Hi. }
  destruct Hstep as [i Hi|i c ch x ch' Hi Hc Hr|i x Hi|i x Hi|i its x Hi|i its e Hi|i its Hi|i e k c ch o Hi Hc Hs
    |i e st Hi|i x Hi Hp|i x c ch o Hi Hp Hc Hs].
  - destruct (merge.assign i m) as [c m1] eqn:Ea. exists i, merge.Start, (merge.Waiting c).
    assert (merge.pcs m1 = merge.pcs m /\ merge.log m1 = merge.log m) as [H1 H2].
    { unfold merge.assign in Ea. destruct (merge.committed m);
        [destruct (merge.pendingStatus m)|destruct (merge.status m)]; by injection Ea as _ <-. }
    split; simpl; rewrite ?H1, ?H2, ?app_nil_r; done.
  - eexists i, _, _. split; [exact Hi|done|..]; simpl; rewrite ?app_nil_r; destruct (merge.main x); done.
  - exfalso. by specialize (Hno i _ (merge.Commit x) Hi eq_refl eq_refl).
  - simpl. destruct x as [e|]; eexists i, _, _; (split; [exact Hi|done|..]); simpl; rewrite ?app_nil_r; done.
  - exfalso. by specialize (Hno i _ (merge.Complete its x) Hi eq_refl eq_refl).
  - eexists i, _, _. split; [exact Hi|done|..]; simpl; try done. by rewrite omap_app, !app_nil_r.
  - destruct (complete_chan m i its None Hinv Hi) as (c & Hst & Hch). rewrite Hst, Hch. simpl.
    eexists i, _, _. split; [exact Hi|done|..]; simpl; try done. by rewrite omap_app.
  - destruct o; eexists i, _, _; (split; [exact Hi|done|..]); simpl; rewrite ?app_nil_r; done.
  - eexists i, _, _. split; [exact Hi|done|..]; simpl; rewrite ?app_nil_r; done.
  - eexists i, _, _. split; [exact Hi|done|..]; simpl; rewrite ?app_nil_r; done.
  - destruct o; eexists i, _, _; (split; [exact Hi|done|..]); simpl; rewrite ?app_nil_r; done.
Qed.

Lemma one_main n m i j p q : merge.reachable n m -> merge.pcs m !! i = Some p -> is_main p = true ->
  merge.pcs m !! j = Some q -> is_main q = true -> i = j.
Proof.
  intros Hr. destruct (v_phase m (reachable_inv n m Hr)) as (unl & Hph & _). by apply (phase_one_main m unl).
Qed.

(** Steps between callbacks resolve nothing. *)
Lemma internal_resolved n m m' : merge.reachable n m -> internal m m' -> resolved m' = resolved m.
Proof.
  intros Hr Hint. destruct (internal_moved m m' (reachable_inv n m Hr) Hint) as (i & p & p' & [Hi Hn _ Hf Hl]).
  unfold resolved. rewrite Hl, Hn, <- app_assoc. do 2 f_equal.
  assert (i < length (merge.pcs m)) as Hlt by (by apply lookup_lt_Some in Hi).
  destruct (flight p) as [its|] eqn:Ef; simpl; [|by apply (omap_insert_None _ _ i p)].
  assert (forall j q, merge.pcs m !! j = Some q -> j <> i -> flight q = None) as Ho.
  { intros j q Hj Hne. destruct (flight q) as [its'|] eqn:Eq; [|done]. exfalso. apply Hne.
    apply (one_main n m j i q p Hr Hj); [by eapply flight_main|done|by eapply flight_main]. }
  rewrite (omap_only flight (merge.pcs m) i p Hi Ho), Ef.
  rewrite (omap_only flight (<[i := p']> (merge.pcs m)) i p'), Hf; [done|by apply list_lookup_insert_eq|].
  intros j y Hj Hne. rewrite list_lookup_insert_ne in Hj by done. by apply (Ho j).
Qed.

(** The return of a callback changes one goroutine. *)
Lemma callback_resolved n m i p p' : merge.reachable n m -> merge.pcs m !! i = Some p -> in_callback p = true ->
  resolved (merge.set_pc i p' m) = resolved m ++ concat (option_list (flight p')).
Proof.
  intros Hr Hi Hc. unfold resolved. simpl. rewrite <- concat_app, <- app_assoc. do 2 f_equal.
  assert (is_main p = true) as Hm by by destruct p.
  assert (forall j q, merge.pcs m !! j = Some q -> j <> i -> flight q = None) as Ho.
  { intros j q Hj Hne. destruct (flight q) as [its'|] eqn:Eq; [|done]. exfalso. apply Hne.
    apply (one_main n m j i q p Hr Hj); [by eapply flight_main|done|done]. }
  rewrite (omap_only flight (merge.pcs m) i p Hi Ho). assert (flight p = None) as -> by by destruct p.
  apply (omap_only flight _ i p'); [apply list_lookup_insert_eq; by apply lookup_lt_Some in Hi|].
  intros j y Hj Hne. rewrite list_lookup_insert_ne in Hj by done. by apply (Ho j).
Qed.

Lemma succeeded_sublist (bs : list (list nat * option error)) : concat (omap succeeded bs) `sublist_of` concat bs.*1.
Proof.
  induction bs as [|[its [e|]] bs IH]; [done|..]; cbn [omap list_omap succeeded snd fst fmap list_fmap concat].
  - by apply sublist_inserts_l.
  - by apply sublist_app.
Qed.

Lemma resolved_NoDup n m : merge.reachable n m -> NoDup (resolved m).
Proof.
  intros Hr. pose proof (reachable_inv n m Hr) as Hinv. destruct (v_phase m Hinv) as (unl & Hph & Hnd & _).
  unfold resolved. rewrite concat_app. destruct (omap flight (merge.pcs m)) as [|its rest] eqn:Ef.
  - rewrite app_nil_r. eapply sublist_NoDup; [exact (proj1 (proj1 (list.NoDup_app _ _) Hnd))|]. apply succeeded_sublist.
  - assert (its ∈ omap flight (merge.pcs m)) as (p & (i & Hi)%list_elem_of_lookup & Hp)%list_elem_of_omap
      by (rewrite Ef; by left).
    assert (omap flight (merge.pcs m) = [its]) as E.
    { rewrite (omap_only flight _ i p Hi), Hp; [done|]. intros j q Hj Hne.
      destruct (flight q) as [its'|] eqn:Eq; [|done]. exfalso. apply Hne.
      apply (one_main n m j i q p Hr Hj); [by eapply flight_main|done|by eapply flight_main]. }
    rewrite Ef in E. injection E as ->. simpl. rewrite app_nil_r.
    assert (unl = its) as ->.
    { destruct p as [| | | | |its' [e|]| | | |]; try discriminate Hp. injection Hp as ->.
      destruct (phase_main m unl i _ Hph Hi eq_refl) as [(c & _ & _ & -> & [_ ->] & _)|[(?&?&?&?&?&_)|(?&?&?&?&_)]]; done. }
    eapply sublist_NoDup; [exact Hnd|]. apply sublist_app; [apply succeeded_sublist|by apply sublist_inserts_r].
Qed.

(** ** One update *)
Section updates.
Context {GD : GoDigest} {GL : GoDigestLaws GD} {MJ : ManifestJSON}.
Context {RJ : RegistryJSON} {NU : NetURL} {MO : MapOrder} {N U : Type} {CL : Client N}.
Context (r : Repo) (view : N -> regview) {RL : RegistryLaws r view}.
Notation W := (rworld N U).
Notation limit := (metadata_bytes (MaxMetadataBytes r)).

Hypothesis digest_inj : forall b b', digest_FromBytes b = digest_FromBytes b' -> b = b'.
Hypothesis limit_alloc : (limit <= maxAlloc)%Z.
(** Decoding undoes encoding. *)
Hypothesis index_roundtrip : forall i j, Marshal_Index i = Ok j -> Unmarshal_Index j = Ok i.

Context (tag : string) (Htag : plain_tag r tag).

(** The index under the tag lists [l]; it may be larger than the metadata limit. *)
Definition index_at (v : regview) (l : list OciDescriptor) : Prop :=
  match rv_tags v !! tag with
  | None => l = []
  | Some d => exists c idx, d = digest_FromBytes c /\ rv_manifests v !! d = Some (MediaTypeImageIndex, c)
      /\ Unmarshal_Index c = Ok idx /\ i_Manifests idx = l
  end.

(** [oldIndexDesc]: the index that the tag points to. *)
Definition old_of (v : regview) (old : option OciDescriptor) : Prop :=
  match rv_tags v !! tag with
  | Some d => exists desc, old = Some desc /\ Digest desc = d
  | None => old = None
  end.

Lemma index_at_unique v l l' : index_at v l -> index_at v l' -> l = l'.
Proof.
  unfold index_at. destruct (rv_tags v !! tag); [|by intros -> ->].
  intros (c & idx & -> & Hm & Hu & <-) (c' & idx' & Hd & Hm' & Hu' & <-). congruence.
Qed.

(** Changes elsewhere in the registry. *)
Definition elsewhere (v v' : regview) : Prop :=
  rv_tags v' !! tag = rv_tags v !! tag /\
  forall d, rv_tags v !! tag = Some d -> rv_manifests v' !! d = rv_manifests v !! d.

Lemma elsewhere_index v v' l : elsewhere v v' -> index_at v l -> index_at v' l.
Proof.
  intros [Ht Hm]. unfold index_at. rewrite Ht. destruct (rv_tags v !! tag) as [d|]; [|done].
  by rewrite (Hm d eq_refl).
Qed.
Lemma elsewhere_old v v' old : elsewhere v v' -> old_of v old -> old_of v' old.
Proof. intros [Ht _]. unfold old_of. by rewrite Ht. Qed.

Lemma prepare_index_at ctx l (w : W) : index_at (view (rw_net w)) l ->
  exists x, prepare_index ctx r tag w = (x, w) /\
    match x with Ok (old, l') => l' = l /\ old_of (view (rw_net w)) old | Err _ => True | Panic => False end.
Proof.
  intros Hl. unfold prepare_index. destruct (rv_tags (view (rw_net w)) !! tag) as [d|] eqn:Et.
  - pose proof Hl as Hl'. unfold index_at in Hl. rewrite Et in Hl. destruct Hl as (c & idx & Hd & Hm & Hu & Hmf).
    destruct (decide (Zlen c <= limit)%Z) as [Hlim|Hlim].
    + assert (referrers_at r (view (rw_net w)) tag l) as Hat.
      { unfold referrers_at. rewrite Et. exists c, idx. done. }
      pose proof (referrersFromIndex_spec r view limit_alloc ctx tag l w Htag Hat) as H. rewrite Et in H.
      destruct H as (desc & -> & Hdd). eexists. split; [done|]. simpl. split; [done|].
      unfold old_of. rewrite Et. by exists desc.
    + pose proof (FetchReference_tag r view ctx tag w Htag) as Hf. rewrite Et in Hf.
      destruct (Hf c MediaTypeImageIndex Hd Hm) as (rc & Hfetch & _ & _).
      unfold referrersFromIndex. unfold mbind at 1, M_bind at 1. rewrite Hfetch.
      unfold mbind at 1, M_bind at 1, lift at 1, reads at 1, limitSize. rewrite decide_True by (simpl; lia).
      eexists. split; [reflexivity|done].
  - assert (referrers_at r (view (rw_net w)) tag l) as Hat by (unfold referrers_at, index_at in *; by rewrite Et in *).
    pose proof (referrersFromIndex_spec r view limit_alloc ctx tag l w Htag Hat) as H. rewrite Et in H.
    destruct H as [-> ->]. eexists. split; [done|]. simpl. split; [done|]. unfold old_of. by rewrite Et.
Qed.

(** The new index is in place and the old one still stored. *)
Definition replaced (v v1 : regview) (new : list OciDescriptor) : Prop :=
  index_at v1 new /\
  forall d, rv_tags v !! tag = Some d -> rv_tags v1 !! tag <> Some d /\ is_Some (rv_manifests v1 !! d).

Lemma push_index_at ctx new l (w : W) : index_at (view (rw_net w)) l -> new <> l ->
  match push_index ctx r tag new w with
  | (Ok _, w1) => exists n1, w1 = set_net n1 w /\
      (new = [] /\ SkipReferrersGC r = false /\ w1 = w \/ replaced (view (rw_net w)) (view n1) new)
  | (_, w1) => w1 = w
  end.
Proof.
  intros Hl Hne. unfold push_index. destruct (bool_decide (0 < length new) || SkipReferrersGC r) eqn:Eb.
  - unfold generateIndex. cbv zeta. destruct (Marshal_Index _) as [j|e|] eqn:Ej; [|done..].
    destruct Htag as (_ & Hd & Hv).
    destruct (push_spec r view ctx tag MediaTypeImageIndex j w Hv)
      with (expected := NewDescriptorFromBytes MediaTypeImageIndex j) as (n1 & Hpush & Hv1); [congruence|done..|].
    match goal with |- match ?m w with _ => _ end => assert (m w = (Ok tt, set_net n1 w)) as -> end.
    { transitivity (on_err (EWrap "failed to push referrers index")
        (push ctx r (NewDescriptorFromBytes MediaTypeImageIndex j) (CBytes j) tag) w); [done|].
      unfold on_err. by rewrite Hpush. }
    exists n1. split; [done|]. right. rewrite Hv1.
    destruct (rv_put_index tag j (view (rw_net w)) Hd) as [Ht Hm]. split.
    + unfold index_at. rewrite Ht. eexists j, _. split; [done|]. split; [done|]. split; [by apply index_roundtrip|done].
    + intros d Hdt. unfold index_at in Hl. rewrite Hdt in Hl. destruct Hl as (c & idx & -> & Hm' & Hu & Hmf).
      assert (digest_FromBytes j <> digest_FromBytes c) as Hjc.
      { intros E%digest_inj. subst j. apply index_roundtrip in Ej. rewrite Ej in Hu. injection Hu as <-. by rewrite <- Hmf in Hne. }
      rewrite Ht. split; [congruence|]. unfold rv_put. simpl. rewrite lookup_insert_ne by done. eauto.
  - apply orb_false_iff in Eb as [Eb Hs]. apply bool_decide_eq_false in Eb.
    exists (rw_net w). rewrite rw_eta. split; [done|]. left. split; [|done]. destruct new; [done|simpl in Eb; lia].
Qed.

Lemma update_index_at ctx subject old l cs (w : W) :
  index_at (view (rw_net w)) l -> old_of (view (rw_net w)) old -> Forall valid_change cs ->
  match update_index ctx r subject tag old l cs w with
  | (Ok _, w') => exists l', index_at (view (rw_net w')) l' /\ key_set l' = foldl apply_key (key_set l) cs
  | (_, w') => w' = w
  end.
Proof.
  intros Hl Hold Hcs. unfold update_index. destruct (updated_keys l cs Hcs) as [Hn Hk].
  destruct (applyReferrerChanges_spec' l cs) as [[Hnu ->]|[Hnu ->]].
  - rewrite decide_True by done. simpl. exists l. split; [done|]. by apply no_update_keys.
  - rewrite (filter_nonempty_id _ Hn). set (new := updated l cs) in *.
    pose proof (push_index_at ctx new l w Hl (updated_other l cs Hcs Hnu)) as Hp.
    unfold mbind at 1, M_bind at 1. destruct (push_index ctx r tag new w) as [[[]|e|] w1]; [|done..].
    destruct Hp as (n1 & -> & Hp). unfold old_of in Hold.
    destruct (rv_tags (view (rw_net w)) !! tag) as [d|] eqn:Et.
    + destruct Hold as (desc & -> & Hdd). destruct (SkipReferrersGC r) eqn:Hs.
      { exists new. split; [|done]. destruct Hp as [(_ & ? & _)|[Hp _]]; [done|exact Hp]. }
      assert (is_Some (rv_manifests (view n1) !! d)) as Hd1.
      { destruct Hp as [(_ & _ & Hw)|[_ Hp]]; [|by apply Hp]. unfold index_at in Hl. rewrite Et in Hl.
        destruct Hl as (c & idx & -> & Hm & _). apply (f_equal rw_net) in Hw. simpl in Hw. subst n1. eauto. }
      assert (ValidateReference (at_ref d r) = Ok tt) as Hv.
      { unfold index_at in Hl. rewrite Et in Hl. destruct Hl as (c & idx & -> & _). apply FromBytes_reference. }
      destruct (delete_spec r view ctx d (set_net n1 w) desc Hdd Hv Hd1) as (n2 & Hdel & Hv2).
      unfold on_err. rewrite Hdel. simpl. exists new. split; [|done]. simpl in Hv2. rewrite Hv2. unfold index_at, rv_delete.
      cbn [rv_tags rv_manifests]. destruct Hp as [(-> & _ & Hw)|[Hp Hp']].
      * apply (f_equal rw_net) in Hw. simpl in Hw. subst n1.
        destruct (filter _ _ !! tag) as [d'|] eqn:Ef; [|done].
        apply map_lookup_filter_Some in Ef as [Ef Hne]. simpl in Hne. congruence.
      * destruct (Hp' d Et) as [Hd' _]. unfold index_at in Hp. destruct (rv_tags (view n1) !! tag) as [d'|] eqn:Et1.
        -- rewrite (map_lookup_filter_Some_2 _ _ tag d'); [|done|simpl; congruence].
           destruct Hp as (c & idx & E & Hm & H). exists c, idx. split; [done|]. split; [|done].
           rewrite lookup_delete_ne; [done|]. congruence.
        -- by rewrite map_lookup_filter_None_2 by (by left).
    + subst old. exists new. split; [|done]. destruct Hp as [(-> & _ & Hw)|[Hp _]]; [|exact Hp].
      rewrite Hw. unfold index_at. by rewrite Et.
Qed.

(** ** Any number of updates *)

(** The goroutine [i] calls [updateReferrersIndex] with its context, its subject and
    its change. *)
Context (n : nat) (ctx : nat -> Context_) (subject : nat -> OciDescriptor) (change : nat -> referrerChange).

(** The merge, the registry, and the variables [oldIndexDesc] and [oldReferrers] of the
    goroutines. *)
Record cstate := mkC {
  c_merge : merge.state;
  c_world : W;
  c_old : gmap nat (option OciDescriptor * list OciDescriptor)
}.

Definition old_values (s : cstate) (i : nat) : option OciDescriptor * list OciDescriptor :=
  default (None, []) (c_old s !! i).

(** A step of the merge, a callback that returns, or a change elsewhere. *)
Inductive cstep (s : cstate) : cstate -> Prop :=
| c_internal m' : internal (c_merge s) m' -> cstep s (mkC m' (c_world s) (c_old s))
| c_prepare i v w' :
    merge.pcs (c_merge s) !! i = Some merge.Prepare -> prepare_index (ctx i) r tag (c_world s) = (Ok v, w') ->
    cstep s (mkC (merge.set_pc i (merge.Commit None) (c_merge s)) w' (<[i := v]> (c_old s)))
| c_prepare_err i e w' :
    merge.pcs (c_merge s) !! i = Some merge.Prepare -> prepare_index (ctx i) r tag (c_world s) = (Err e, w') ->
    cstep s (mkC (merge.set_pc i (merge.Commit (Some e)) (c_merge s)) w' (c_old s))
| c_resolve i its w' :
    merge.pcs (c_merge s) !! i = Some (merge.Resolve its) ->
    update_index (ctx i) r (subject i) tag (old_values s i).1 (old_values s i).2 (change <$> its) (c_world s) = (Ok tt, w') ->
    cstep s (mkC (merge.set_pc i (merge.Complete its None) (c_merge s)) w' (c_old s))
| c_resolve_err i its e w' :
    merge.pcs (c_merge s) !! i = Some (merge.Resolve its) ->
    update_index (ctx i) r (subject i) tag (old_values s i).1 (old_values s i).2 (change <$> its) (c_world s) = (Err e, w') ->
    cstep s (mkC (merge.set_pc i (merge.Complete its (Some e)) (c_merge s)) w' (c_old s))
| c_elsewhere w' :
    elsewhere (view (rw_net (c_world s))) (view (rw_net w')) -> cstep s (mkC (c_merge s) w' (c_old s)).

Inductive creachable (w0 : W) : cstate -> Prop :=
| creach_init : creachable w0 (mkC (merge.init n) w0 ∅)
| creach_step s s' : creachable w0 s -> cstep s s' -> creachable w0 s'.

(** The index has the changes of the resolved batches, and a goroutine that prepared
    knows it. *)
Record cinv (l0 : list OciDescriptor) (s : cstate) : Prop := {
  ci_merge : merge.reachable n (c_merge s);
  ci_index : exists l, index_at (view (rw_net (c_world s))) l /\
    key_set l = foldl apply_key (key_set l0) (change <$> resolved (c_merge s)) /\
    forall i p, merge.pcs (c_merge s) !! i = Some p -> prepared p = true ->
      exists old, c_old s !! i = Some (old, l) /\ old_of (view (rw_net (c_world s))) old
}.

Lemma callback_prepared m i p p' j q : merge.reachable n m -> merge.pcs m !! i = Some p -> in_callback p = true ->
  merge.pcs (merge.set_pc i p' m) !! j = Some q -> prepared q = true -> j = i /\ q = p'.
Proof.
  intros Hr Hi Hc Hj Hq. simpl in Hj. destruct (decide (j = i)) as [->|Hne].
  - rewrite list_lookup_insert_eq in Hj by (by apply lookup_lt_Some in Hi). by injection Hj as <-.
  - rewrite list_lookup_insert_ne in Hj by done. exfalso. apply Hne.
    apply (one_main n m j i q p Hr Hj); [by destruct q as [| | |[]| | | | | |]|done|by destruct p].
Qed.

Hypothesis change_valid : forall i, valid_change (change i).

Lemma changes_valid its : Forall valid_change (change <$> its).
Proof. apply Forall_fmap, Forall_true. intros i. apply change_valid. Qed.

Lemma cinv_init (w0 : W) l0 : index_at (view (rw_net w0)) l0 -> cinv l0 (mkC (merge.init n) w0 ∅).
Proof.
  intros Hl. split; [apply merge.reach_init|]. exists l0. split; [done|].
  assert (forall j q, merge.pcs (merge.init n) !! j = Some q -> q = merge.Start) as Hst.
  { intros j q Hj. by apply lookup_replicate in Hj as [-> _]. }
  split.
  - unfold resolved. simpl. rewrite omap_none; [done|]. intros p (j & Hj)%list_elem_of_lookup. by rewrite (Hst j p Hj).
  - intros i p Hi Hp. by rewrite (Hst i p Hi) in Hp.
Qed.

Lemma cinv_internal l0 s m' : cinv l0 s -> internal (c_merge s) m' -> cinv l0 (mkC m' (c_world s) (c_old s)).
Proof.
  intros [Hr (l & Hl & Hk & Hprep)] Hint. split; [by eapply merge.reach_step; [|apply Hint]|].
  exists l. split; [done|]. simpl. rewrite (internal_resolved n (c_merge s) m' Hr Hint). split; [done|].
  destruct (internal_moved (c_merge s) m' (reachable_inv n _ Hr) Hint) as (i & p & p' & [Hi Hn Hpp _ _]).
  intros j q Hj Hq. rewrite Hn in Hj. destruct (decide (j = i)) as [->|Hne].
  - rewrite list_lookup_insert_eq in Hj by (by apply lookup_lt_Some in Hi). injection Hj as <-. by apply (Hprep i p), Hpp.
  - rewrite list_lookup_insert_ne in Hj by done. by apply (Hprep j q).
Qed.

(** [prepare] leaves the registry as it is. *)
Lemma cinv_prepare l0 s i x w' p' : cinv l0 s -> merge.pcs (c_merge s) !! i = Some merge.Prepare ->
  prepare_index (ctx i) r tag (c_world s) = (x, w') ->
  match x with Ok _ => p' = merge.Commit None | Err e => p' = merge.Commit (Some e) | Panic => False end ->
  cinv l0 (mkC (merge.set_pc i p' (c_merge s)) w' (match x with Ok v => <[i := v]> (c_old s) | _ => c_old s end)).
Proof.
  intros [Hr (l & Hl & Hk & Hprep)] Hi Hx Hp'.
  destruct (prepare_index_at (ctx i) l (c_world s) Hl) as (x' & Hx' & Hspec). rewrite Hx in Hx'. injection Hx' as <- ->.
  split; simpl.
  - eapply merge.reach_step; [exact Hr|]. destruct x as [v|e|]; [| |done]; subst p'; by apply merge.step_prepare.
  - exists l. split; [done|]. rewrite (callback_resolved n _ i _ p' Hr Hi eq_refl).
    assert (flight p' = None) as -> by (destruct x; [by subst p'|by subst p'|done]). rewrite app_nil_r. split; [done|].
    intros j q Hj Hq. destruct (callback_prepared _ i _ p' j q Hr Hi eq_refl Hj Hq) as [-> ->].
    destruct x as [[old l']|e|]; [|by subst p'|done]. destruct Hspec as [-> Hold]. exists old.
    by rewrite lookup_insert_eq.
Qed.

(** [update] changes the keys by the changes of the batch, or nothing. *)
Lemma cinv_resolve l0 s i its x w' p' : cinv l0 s -> merge.pcs (c_merge s) !! i = Some (merge.Resolve its) ->
  update_index (ctx i) r (subject i) tag (old_values s i).1 (old_values s i).2 (change <$> its) (c_world s) = (x, w') ->
  match x with Ok _ => p' = merge.Complete its None | Err e => p' = merge.Complete its (Some e) | Panic => False end ->
  cinv l0 (mkC (merge.set_pc i p' (c_merge s)) w' (c_old s)).
Proof.
  intros [Hr (l & Hl & Hk & Hprep)] Hi Hx Hp'. destruct (Hprep i _ Hi eq_refl) as (old & Ho & Hold).
  unfold old_values in Hx. rewrite Ho in Hx. simpl in Hx.
  pose proof (update_index_at (ctx i) (subject i) old l (change <$> its) (c_world s) Hl Hold (changes_valid its)) as Hspec.
  rewrite Hx in Hspec. split; simpl.
  - eapply merge.reach_step; [exact Hr|]. destruct x as [v|e|]; [| |done]; subst p'; by apply merge.step_resolve.
  - rewrite (callback_resolved n _ i _ p' Hr Hi eq_refl).
    assert (forall j q, merge.pcs (merge.set_pc i p' (c_merge s)) !! j = Some q -> prepared q = true -> False) as Hnp.
    { intros j q Hj Hq. destruct (callback_prepared _ i _ p' j q Hr Hi eq_refl Hj Hq) as [_ ->].
      destruct x; [by subst p'|by subst p'|done]. }
    destruct x as [[]|e|]; [| |done]; subst p'; simpl.
    + destruct Hspec as (l' & Hl' & Hk'). exists l'. split; [done|]. split.
      * by rewrite app_nil_r, fmap_app, foldl_app, <- Hk.
      * intros j q Hj Hq. by destruct (Hnp j q Hj Hq).
    + subst w'. exists l. rewrite app_nil_r. split; [done|]. split; [done|]. intros j q Hj Hq. by destruct (Hnp j q Hj Hq).
Qed.

Lemma cinv_elsewhere l0 s w' : cinv l0 s -> elsewhere (view (rw_net (c_world s))) (view (rw_net w')) ->
  cinv l0 (mkC (c_merge s) w' (c_old s)).
Proof.
  intros [Hr (l & Hl & Hk & Hprep)] He. split; [done|]. exists l. split; [by apply (elsewhere_index (view (rw_net (c_world s))))|].
  split; [done|]. intros i p Hi Hp. destruct (Hprep i p Hi Hp) as (old & Ho & Hold). exists old. split; [done|].
  by apply (elsewhere_old (view (rw_net (c_world s)))).
Qed.

Lemma creachable_cinv (w0 : W) l0 s : index_at (view (rw_net w0)) l0 -> creachable w0 s -> cinv l0 s.
Proof.
  intros Hl. induction 1 as [|s s' _ IH Hstep]; [by apply cinv_init|].
  destruct Hstep as [m' Hint|i v w' Hi Hx|i e w' Hi Hx|i its w' Hi Hx|i its e w' Hi Hx|w' He].
  - by apply cinv_internal.
  - by apply (cinv_prepare l0 s i (Ok v) w').
  - by apply (cinv_prepare l0 s i (Err e) w').
  - by apply (cinv_resolve l0 s i its (Ok tt) w').
  - by apply (cinv_resolve l0 s i its (Err e) w').
  - by apply cinv_elsewhere.
Qed.

(** C21: however the goroutines that update one referrers index through a shared
    [Merge] are interleaved, with each other and with changes elsewhere in the
    registry, no update is lost: the index under the tag always lists exactly the keys
    obtained from those at the start by the changes of the batches resolved so far, one
    after another; each change is in at most one batch, and a caller that got a nil
    error has its change among them. *)
Theorem referrers_updates_serialize (w0 : W) l0 s :
  index_at (view (rw_net w0)) l0 -> creachable w0 s ->
  exists l, index_at (view (rw_net (c_world s))) l /\
    key_set l = foldl apply_key (key_set l0) (change <$> resolved (c_merge s)) /\
    NoDup (resolved (c_merge s)) /\
    forall i, merge.pcs (c_merge s) !! i = Some (merge.End None) -> i ∈ resolved (c_merge s).
Proof.
  intros Hl Hs. destruct (creachable_cinv w0 l0 s Hl Hs) as [Hr (l & Hl' & Hk & _)].
  pose proof (reachable_inv n _ Hr) as Hinv.
  exists l. split; [done|]. split; [done|]. split; [by apply (resolved_NoDup n)|].
  intros i Hi. destruct (v_end _ Hinv i None Hi) as (its & Hlog & Hin). unfold resolved. rewrite concat_app, elem_of_app. left.
  apply list_elem_of_In, List.in_concat. exists its. rewrite <- !list_elem_of_In. split; [|done].
  apply list_elem_of_omap. by exists (its, None).
Qed.
End updates.

(** ** Two goroutines at the registry of the example *)
Module merge_example.
Import HexDigest registry_example.

Definition other : OciDescriptor := NewDescriptorFromBytes MediaTypeImageManifest (str_bytes "n").
Definition index_of (l : list OciDescriptor) : Index := mkIndex 2 MediaTypeImageIndex EmptyString l None None.

(** The indexes of the example and their encodings. *)
Definition table : list (list OciDescriptor * bytes) :=
  [([], str_bytes "0"); ([listed], str_bytes "1"); ([other], str_bytes "2");
   ([listed; other], str_bytes "3"); ([other; listed], str_bytes "4")].

Definition encode (i : Index) : result bytes :=
  match List.find (fun p => bool_decide (index_of p.1 = i)) table with Some p => Ok p.2 | None => Err (ENew "json") end.
Definition decode (b : bytes) : result Index :=
  match List.find (fun p => bool_decide (p.2 = b)) table with Some p => Ok (index_of p.1) | None => Err (ENew "json") end.

#[export] Instance lists_json : ManifestJSON := {|
  Unmarshal_Manifest _ := Err (ENew "json");
  Unmarshal_Index := decode;
  Unmarshal_Artifact _ := Err (ENew "json");
  Unmarshal_Subject _ := Err (ENew "json");
  Marshal_Manifest _ := Err (ENew "json");
  Marshal_Index := encode;
  Marshal_Artifact _ := Err (ENew "json")
|}.

Lemma table_roundtrip i j : encode i = Ok j -> decode j = Ok i.
Proof.
  unfold encode. destruct (List.find _ table) as [p|] eqn:E; [|done]. intros [= <-].
  apply List.find_some in E as [Hin Hi]. apply bool_decide_eq_true in Hi as <-.
  repeat (destruct Hin as [<-|Hin]; [vm_compute; reflexivity|]). destruct Hin.
Qed.

Definition changes (i : nat) : referrerChange :=
  mkChange (match i with O => listed | _ => other end) referrerOperationAdd.

Definition empty : rworld regview unit := mkRW referrersStateUnsupported (mkView ∅ ∅) tt.

Notation reach := (creachable repo (fun v => v) "sha256-61" 2 (fun _ => Background) (fun _ => subject) changes empty).

(** A step of the merge that is not the return of a callback. *)
Ltac internal_by c :=
  apply c_internal; split; [eapply c; reflexivity|];
  intros [|[|?]] ? Hp Hc; try discriminate Hp; injection Hp as <-; first [discriminate Hc|reflexivity].
Ltac next H tac := let H' := fresh in
  eassert (reach _) as H' by (eapply creach_step; [exact H|tac]); clear H; rename H' into H; cbn in H.

(** Both join one batch, the first of them writes the index. *)
Lemma both_return : exists s, reach s /\ merge.pcs (c_merge s) = [merge.End None; merge.End None] /\
  resolved (c_merge s) = [0; 1].
Proof.
  assert (reach (mkC (merge.init 2) empty ∅)) as H by apply creach_init. cbn in H.
  next H ltac:(internal_by (merge.step_assign (merge.init 2) 0)).
  next H ltac:(internal_by (merge.step_assign one_waiting 1)).
  next H ltac:(internal_by (merge.step_recv two_waiting 0)).
  next H ltac:(eapply (c_prepare _ _ _ _ _ _ _ 0); [reflexivity|vm_compute; reflexivity]).
  next H ltac:(internal_by (fun m => merge.step_commit m 0)).
  next H ltac:(eapply (c_resolve _ _ _ _ _ _ _ 0); [reflexivity|vm_compute; reflexivity]).
  next H ltac:(internal_by (fun m => merge.step_complete_ok m 0)).
  next H ltac:(internal_by (fun m => merge.step_recv m 1)).
  next H ltac:(internal_by (fun m => merge.step_move m 0)).
  eexists. split; [exact H|]. split; reflexivity.
Qed.

Lemma referrers_updates_serialize_witness : exists (s : cstate (N := regview) (U := unit)) l,
  merge.pcs (c_merge s) = [merge.End None; merge.End None] /\
  index_at "sha256-61" (rw_net (c_world s)) l /\ key_set l = {[FromOCI listed; FromOCI other]}.
Proof.
  destruct both_return as (s & Hs & Hp & Hres).
  destruct (referrers_updates_serialize (GD := hex_digest) repo (fun v => v) from_bytes_inj ltac:(vm_compute; done)
    table_roundtrip "sha256-61" (pr_plain _ _ _ _ _ _ _ _ _ _ example_ready) 2 (fun _ => Background) (fun _ => subject) changes
    ltac:(intros [|i]; vm_compute; reflexivity) empty [] s) as (l & Hl & Hk & Hnd & Hin); [reflexivity|exact Hs|].
  exists s, l. split; [exact Hp|]. split; [exact Hl|]. rewrite Hk, Hres.
  exact (f_equal (fun ks => ks ∪ {[FromOCI other]}) (union_empty_l_L {[FromOCI listed]})).
Defined.
End merge_example.
