(* ===== verification/Once.v ===== *)
(** Synchronization helpers: [internal/syncutil/once.go] and [pool.go].  The goroutines
    that call [Do] are a step relation: a step is one channel operation, one access
    under the lock or the return of the callback. *)

From Stdlib Require Import ZArith Lia.
From S2P Require Import Prelude Errors.

(** ** [Once] *)

(** Elements that pass a test are counted. *)
Lemma filter_one {A} (f : A -> bool) (l : list A) i x :
  l !! i = Some x -> f x = true -> 1 <= length (List.filter f l).
Proof.
  revert i. induction l as [|y l IH]; intros [|i] Hi Hx; simplify_eq/=; [rewrite Hx; simpl; lia|].
  specialize (IH i Hi Hx). destruct (f y); simpl; lia.
Qed.

Lemma filter_two {A} (f : A -> bool) (l : list A) i j x y :
  i <> j -> l !! i = Some x -> l !! j = Some y -> f x = true -> f y = true -> 2 <= length (List.filter f l).
Proof.
  revert i j. induction l as [|z l IH]; intros [|i] [|j] Hne Hi Hj Hx Hy; simplify_eq/=.
  - rewrite Hx. simpl. apply le_n_S. by eapply filter_one.
  - rewrite Hy. simpl. apply le_n_S. by eapply filter_one.
  - assert (2 <= length (List.filter f l)) by (apply (IH i j); [congruence|done..]). destruct (f z); simpl; lia.
Qed.

Module once.

Section Once.
Context {V : Type}.

(** What the callback can do: return, or panic. *)
Inductive outcome_of_f := FReturn (v : option V) (e : option error) | FPanic.

(** Where a goroutine is in [Do]. *)
Inductive pc :=
| Selecting                                              (* at the [select] *)
| Running                                                (* in [f] *)
| Closing (v : option V) (e : option error)              (* result stored, before [close] *)
| Returned (first : bool) (v : option V) (e : option error)
| Panicking.

(** The channel [status] of capacity one holds [true] or nothing; [result] and [err]. *)
Record Once := mkOnce { token : bool; closed : bool; result_ : option V; err_ : option error; pcs : list pc }.

Definition NewOnce (n : nat) : Once := mkOnce true false None None (replicate n Selecting).

Definition set_pc (i : nat) (p : pc) (o : Once) : Once :=
  mkOnce (token o) (closed o) (result_ o) (err_ o) (<[i := p]> (pcs o)).

(** What happens next in a goroutine: a receive from [status], the end of its context,
    the end of [f], the closing of the channel. *)
Inductive choice := CReceive | CDone (e : error) | CReturn (r : outcome_of_f) | CClose.

(** [err == context.Canceled || err == context.DeadlineExceeded]. *)
Definition is_cancel (e : option error) : bool :=
  bool_decide (e = Some (ESentinel Canceled) \/ e = Some (ESentinel DeadlineExceeded)).

(** One step of [Do] in the goroutine [i]. *)
Definition step (i : nat) (c : choice) (o : Once) : option Once :=
  match pcs o !! i, c with
  | Some Selecting, CReceive =>
      if token o then Some (set_pc i Running (mkOnce false (closed o) (result_ o) (err_ o) (pcs o)))
      else if closed o then Some (set_pc i (Returned false (result_ o) (err_ o)) o)
      else None
  | Some Selecting, CDone e => Some (set_pc i (Returned false None (Some e)) o)
  | Some Running, CReturn (FReturn v e) =>
      if is_cancel e
      then Some (set_pc i (Returned false None e) (mkOnce true (closed o) (result_ o) (err_ o) (pcs o)))
      else Some (set_pc i (Closing v e) (mkOnce (token o) (closed o) v e (pcs o)))
  | Some Running, CReturn FPanic =>
      Some (set_pc i Panicking (mkOnce true (closed o) (result_ o) (err_ o) (pcs o)))
  | Some (Closing v e), CClose =>
      Some (set_pc i (Returned true v e) (mkOnce (token o) true (result_ o) (err_ o) (pcs o)))
  | _, _ => None
  end.

Inductive steps : Once -> Once -> Prop :=
| steps_refl o : steps o o
| steps_step o i c o1 o2 : steps o o1 -> step i c o1 = Some o2 -> steps o o2.

(** The goroutines that hold the token: in [f], or before [close]. *)
Definition holds (p : pc) : bool := match p with Running | Closing _ _ => true | _ => false end.
Definition is_first (p : pc) : bool := match p with Returned true _ _ => true | _ => false end.

(** The token is in the channel, held by one goroutine, or gone with the channel
    closed by the one goroutine that returned first, whose result is stored. *)
Record wf (o : Once) : Prop := {
  wf_token : Nat.b2n (token o) + length (List.filter holds (pcs o)) + Nat.b2n (closed o) = 1;
  wf_first : length (List.filter is_first (pcs o)) = Nat.b2n (closed o);
  wf_closing : forall i v e, pcs o !! i = Some (Closing v e) -> v = result_ o /\ e = err_ o /\ is_cancel e = false;
  wf_result : forall i v e, pcs o !! i = Some (Returned true v e) -> v = result_ o /\ e = err_ o /\ is_cancel e = false;
  wf_other : forall i v e, pcs o !! i = Some (Returned false v e) ->
    v = None /\ is_Some e \/ closed o = true /\ v = result_ o /\ e = err_ o
}.

Lemma once_NewOnce_wf n : wf (NewOnce n).
Proof.
  split; simpl.
  - assert (List.filter holds (replicate n Selecting) = []) as -> by (by induction n). done.
  - by induction n.
  - by intros i v e [? _]%lookup_replicate.
  - by intros i v e [? _]%lookup_replicate.
  - by intros i v e [? _]%lookup_replicate.
Qed.

Lemma once_step_wf i c o o' : wf o -> step i c o = Some o' -> wf o'.
Proof.
  intros [Htok Hfst Hcl Hres Hoth] H. unfold step in H.
  destruct (pcs o !! i) as [p|] eqn:Hi; [|done].
  assert (forall p', length (List.filter holds (<[i := p']> (pcs o))) + Nat.b2n (holds p)
    = length (List.filter holds (pcs o)) + Nat.b2n (holds p')) as Lh by (intros; by apply length_filter_insert).
  assert (forall p', length (List.filter is_first (<[i := p']> (pcs o))) + Nat.b2n (is_first p)
    = length (List.filter is_first (pcs o)) + Nat.b2n (is_first p')) as Lf by (intros; by apply length_filter_insert).
  assert (forall p' j q, <[i := p']> (pcs o) !! j = Some q -> j = i /\ q = p' \/ j <> i /\ pcs o !! j = Some q) as Hlk.
  { intros p' j q Hj. destruct (decide (j = i)) as [->|Hne].
    - rewrite list_lookup_insert_eq in Hj by (by eapply lookup_lt_Some). left. by injection Hj.
    - rewrite list_lookup_insert_ne in Hj by done. by right. }
  (* a goroutine with the token is alone, and the channel is open *)
  assert (holds p = true -> token o = false /\ closed o = false /\
    (forall j q, j <> i -> pcs o !! j = Some q -> holds q = false)
    /\ (forall j q, pcs o !! j = Some q -> is_first q = false)) as Halone.
  { intros Hh. pose proof (filter_one holds (pcs o) i p Hi Hh).
    destruct (token o), (closed o); simpl in Htok; try lia. split; [done|]. split; [done|]. split.
    - intros j q Hne Hj. destruct (holds q) eqn:Hq; [|done].
      pose proof (filter_two holds (pcs o) i j p q (not_eq_sym Hne) Hi Hj Hh Hq). lia.
    - intros j q Hj. destruct (is_first q) eqn:Hq; [|done].
      pose proof (filter_one is_first (pcs o) j q Hj Hq). simpl in Hfst. lia. }
  destruct p as [| |v0 e0|f0 v0 e0|], c as [|e1|[v1 e1|]|]; try done.
  - destruct (token o) eqn:Ht; [|destruct (closed o) eqn:Hc; [|done]]; injection H as <-; split; simpl in *;
      rewrite ?Ht, ?Hc in *; simpl in *.
    1: specialize (Lh Running); simpl in Lh; lia.
    1: specialize (Lf Running); simpl in Lf; lia.
    4: specialize (Lh (Returned false (result_ o) (err_ o))); simpl in Lh; lia.
    4: specialize (Lf (Returned false (result_ o) (err_ o))); simpl in Lf; lia.
    all: intros j v e [[-> Heq]|[_ Hj]]%Hlk; try done; eauto; simplify_eq; eauto.
  - injection H as <-. split; simpl.
    1: specialize (Lh (Returned false None (Some e1))); simpl in Lh; lia.
    1: specialize (Lf (Returned false None (Some e1))); simpl in Lf; lia.
    all: intros j v e [[-> Heq]|[_ Hj]]%Hlk; try done; eauto; simplify_eq; left; eauto.
  - destruct (Halone eq_refl) as (Ht & Hc & Hal & Hnf).
    destruct (is_cancel e1) eqn:Hcan; injection H as <-; split; simpl; rewrite ?Ht, ?Hc in *; simpl in *.
    1: specialize (Lh (Returned false None e1)); simpl in Lh; lia.
    1: specialize (Lf (Returned false None e1)); simpl in Lf; lia.
    4: specialize (Lh (Closing v1 e1)); simpl in Lh; lia.
    4: specialize (Lf (Closing v1 e1)); simpl in Lf; lia.
    + intros j v e [[-> Heq]|[Hne Hj]]%Hlk; [done|]. by apply Hal in Hj.
    + intros j v e [[-> Heq]|[_ Hj]]%Hlk; [done|]. by apply Hnf in Hj.
    + intros j v e [[-> Heq]|[_ Hj]]%Hlk; [|by destruct (Hoth j v e Hj) as [?|[? _]]; [left|done]].
      simplify_eq. left. split; [done|]. unfold is_cancel in Hcan. apply bool_decide_eq_true in Hcan as [->| ->]; eauto.
    + intros j v e [[-> Heq]|[Hne Hj]]%Hlk; [by simplify_eq|]. by apply Hal in Hj.
    + intros j v e [[-> Heq]|[_ Hj]]%Hlk; [done|]. by apply Hnf in Hj.
    + intros j v e [[-> Heq]|[_ Hj]]%Hlk; [done|]. by destruct (Hoth j v e Hj) as [?|[? _]]; [left|done].
  - destruct (Halone eq_refl) as (Ht & Hc & Hal & Hnf). injection H as <-. split; simpl; rewrite ?Ht, ?Hc in *; simpl in *.
    1: specialize (Lh Panicking); simpl in Lh; lia.
    1: specialize (Lf Panicking); simpl in Lf; lia.
    all: intros j v e [[-> Heq]|[_ Hj]]%Hlk; try done; eauto.
  - destruct (Halone eq_refl) as (Ht & Hc & Hal & Hnf). injection H as <-.
    destruct (Hcl i v0 e0 Hi) as (-> & -> & Hcan). split; simpl; rewrite ?Ht, ?Hc in *; simpl in *.
    1: specialize (Lh (Returned true (result_ o) (err_ o))); simpl in Lh; lia.
    1: specialize (Lf (Returned true (result_ o) (err_ o))); simpl in Lf; lia.
    + intros j v e [[-> Heq]|[_ Hj]]%Hlk; [done|]. eauto.
    + intros j v e [[-> Heq]|[_ Hj]]%Hlk; [by simplify_eq|]. eauto.
    + intros j v e [[-> Heq]|[_ Hj]]%Hlk; [done|]. destruct (Hoth j v e Hj) as [?|[? _]]; [by left|done].
Qed.

Lemma once_steps_wf n o : steps (NewOnce n) o -> wf o.
Proof.
  remember (NewOnce n) as o0 eqn:E. induction 1 as [o|o i c o1 o2 _ IH Hs]; subst.
  - apply once_NewOnce_wf.
  - eapply once_step_wf; [by apply IH|done].
Qed.

End Once.

End once.

(** ** [OnceOrRetry] *)

Module once_or_retry.

(** Where a goroutine is in [Do]; [f] returns an error, nil or panics. *)
Inductive pc :=
| Fast                               (* before the first load of [done] *)
| Locking                            (* before [Lock] *)
| Checking                           (* before the second load *)
| Running                            (* in [f] *)
| Storing                            (* before [done.Store(true)] *)
| Unlocking (r : result unit)        (* before the deferred [Unlock] *)
| Returned (r : result unit).

(** [succeeded] counts the calls of [f] that returned nil. *)
Record OnceOrRetry := mkOR { done_ : bool; locked : bool; pcs : list pc; succeeded : nat }.

Definition New (n : nat) : OnceOrRetry := mkOR false false (replicate n Fast) 0.

Definition set_pc (i : nat) (p : pc) (o : OnceOrRetry) : OnceOrRetry :=
  mkOR (done_ o) (locked o) (<[i := p]> (pcs o)) (succeeded o).

(** One step of [Do] in the goroutine [i]; [r] is what [f] returns when it does. *)
Definition step (i : nat) (r : result unit) (o : OnceOrRetry) : option OnceOrRetry :=
  match pcs o !! i with
  | Some Fast => Some (set_pc i (if done_ o then Returned (Ok tt) else Locking) o)
  | Some Locking =>
      if locked o then None else Some (set_pc i Checking (mkOR (done_ o) true (pcs o) (succeeded o)))
  | Some Checking => Some (set_pc i (if done_ o then Unlocking (Ok tt) else Running) o)
  | Some Running =>
      match r with
      | Ok _ => Some (set_pc i Storing (mkOR (done_ o) (locked o) (pcs o) (S (succeeded o))))
      | r => Some (set_pc i (Unlocking r) o)
      end
  | Some Storing => Some (set_pc i (Unlocking (Ok tt)) (mkOR true (locked o) (pcs o) (succeeded o)))
  | Some (Unlocking r) => Some (set_pc i (Returned r) (mkOR (done_ o) false (pcs o) (succeeded o)))
  | Some (Returned _) | None => None
  end.

Inductive steps : OnceOrRetry -> OnceOrRetry -> Prop :=
| steps_refl o : steps o o
| steps_step o i r o1 o2 : steps o o1 -> step i r o1 = Some o2 -> steps o o2.

Definition holds (p : pc) : bool :=
  match p with Checking | Running | Storing | Unlocking _ => true | _ => false end.
Definition storing (p : pc) : bool := match p with Storing => true | _ => false end.

Record wf (o : OnceOrRetry) : Prop := {
  wf_lock : length (List.filter holds (pcs o)) = Nat.b2n (locked o);
  wf_done : succeeded o = length (List.filter storing (pcs o)) + Nat.b2n (done_ o);
  wf_running : forall i, pcs o !! i = Some Running -> done_ o = false;
  wf_storing : forall i, pcs o !! i = Some Storing -> done_ o = false;
  wf_ok : forall i r, pcs o !! i = Some (Unlocking r) \/ pcs o !! i = Some (Returned r) -> r = Ok tt -> done_ o = true
}.

Lemma retry_New_wf n : wf (New n).
Proof.
  split; simpl; [by induction n..| | |].
  - by intros i [? _]%lookup_replicate.
  - by intros i [? _]%lookup_replicate.
  - intros i r [[? _]%lookup_replicate|[? _]%lookup_replicate]; done.
Qed.

Lemma retry_step_wf i r o o' : wf o -> step i r o = Some o' -> wf o'.
Proof.
  intros [Hl Hd Hr Hs Hok] H. unfold step in H. destruct (pcs o !! i) as [p|] eqn:Hi; [|done].
  assert (forall p', length (List.filter holds (<[i := p']> (pcs o))) + Nat.b2n (holds p)
    = length (List.filter holds (pcs o)) + Nat.b2n (holds p')) as Lh by (intros; by apply length_filter_insert).
  assert (forall p', length (List.filter storing (<[i := p']> (pcs o))) + Nat.b2n (storing p)
    = length (List.filter storing (pcs o)) + Nat.b2n (storing p')) as Lf by (intros; by apply length_filter_insert).
  assert (forall p' j q, <[i := p']> (pcs o) !! j = Some q -> j = i /\ q = p' \/ j <> i /\ pcs o !! j = Some q) as Hlk.
  { intros p' j q Hj. destruct (decide (j = i)) as [->|Hne].
    - rewrite list_lookup_insert_eq in Hj by (by eapply lookup_lt_Some). left. by injection Hj.
    - rewrite list_lookup_insert_ne in Hj by done. by right. }
  assert (holds p = true -> locked o = true /\ forall j q, j <> i -> pcs o !! j = Some q -> holds q = false) as Halone.
  { intros Hh. pose proof (filter_one holds (pcs o) i p Hi Hh) as H1.
    destruct (locked o); simpl in Hl; [|lia]. split; [done|]. intros j q Hne Hj. destruct (holds q) eqn:Hq; [|done].
    pose proof (filter_two holds (pcs o) i j p q (not_eq_sym Hne) Hi Hj Hh Hq). lia. }
  destruct p; try done.
  - injection H as <-. destruct (done_ o) eqn:Hdo; split; simpl; rewrite ?Hdo in *;
      try (specialize (Lh (Returned (Ok tt))); simpl in Lh; lia);
      try (specialize (Lf (Returned (Ok tt))); simpl in Lf; lia);
      try (specialize (Lh Locking); simpl in Lh; lia); try (specialize (Lf Locking); simpl in Lf; lia);
      intros j; try intros r' [Hj|Hj]; try intros Hj; apply Hlk in Hj as [[-> ?]|[_ Hj]]; try done; eauto.
  - destruct (locked o) eqn:Hlo; [done|]. injection H as <-. split; simpl in *.
    1: specialize (Lh Checking); simpl in Lh; lia.
    1: specialize (Lf Checking); simpl in Lf; lia.
    all: intros j; try intros r' [Hj|Hj]; try intros Hj; apply Hlk in Hj as [[-> ?]|[_ Hj]]; try done; eauto.
  - injection H as <-. destruct (done_ o) eqn:Hdo; split; simpl; rewrite ?Hdo in *;
      try (specialize (Lh (Unlocking (Ok tt))); simpl in Lh; lia);
      try (specialize (Lf (Unlocking (Ok tt))); simpl in Lf; lia);
      try (specialize (Lh Running); simpl in Lh; lia); try (specialize (Lf Running); simpl in Lf; lia);
      intros j; try intros r' [Hj|Hj]; try intros Hj; apply Hlk in Hj as [[-> ?]|[_ Hj]]; try done; eauto.
  - destruct (Halone eq_refl) as [Hlo Hal]. pose proof (Hr i Hi) as Hdo. destruct r as [[]|e|]; injection H as <-;
      split; simpl; rewrite ?Hdo, ?Hlo in *; simpl in *;
      try (specialize (Lh Storing); simpl in Lh; lia); try (specialize (Lf Storing); simpl in Lf; lia);
      try (specialize (Lh (Unlocking (Err e))); simpl in Lh; lia); try (specialize (Lf (Unlocking (Err e))); simpl in Lf; lia);
      try (specialize (Lh (Unlocking Panic)); simpl in Lh; lia); try (specialize (Lf (Unlocking Panic)); simpl in Lf; lia);
      intros j; try intros r' [Hj|Hj]; try intros Hj; apply Hlk in Hj as [[-> Hq]|[_ Hj]]; try done; eauto; by simplify_eq.
  - destruct (Halone eq_refl) as [Hlo Hal]. pose proof (Hs i Hi) as Hdo. injection H as <-.
    split; simpl; rewrite ?Hdo, ?Hlo in *; simpl in *.
    1: specialize (Lh (Unlocking (Ok tt))); simpl in Lh; lia.
    1: specialize (Lf (Unlocking (Ok tt))); simpl in Lf; lia.
    1, 2: intros j [[-> ?]|[Hne Hj]]%Hlk; [done|]; by apply (Hal j) in Hj.
    done.
  - destruct (Halone eq_refl) as [Hlo Hal]. injection H as <-. split; simpl; rewrite ?Hlo in *; simpl in *.
    1: specialize (Lh (Returned r0)); simpl in Lh; lia.
    1: specialize (Lf (Returned r0)); simpl in Lf; lia.
    all: intros j; try intros r' [Hj|Hj]; try intros Hj; apply Hlk in Hj as [[-> ?]|[_ Hj]]; try done; eauto; simplify_eq; eauto.
Qed.

Lemma retry_steps_wf n o : steps (New n) o -> wf o.
Proof.
  remember (New n) as o0 eqn:E. induction 1 as [o|o i c o1 o2 _ IH Hs]; subst; [apply retry_New_wf|].
  eapply retry_step_wf; [by apply IH|done].
Qed.

End once_or_retry.

(** ** [Pool] *)

Module pool.

Section Pool.
Context {K V : Type} `{Countable K}.

(** A [poolItem]; a pointer to an item is its index in [heap]. *)
Record poolItem := mkItem { value : V; refCount : Z }.
Record Pool := mkPool { items : gmap K nat; heap : list poolItem }.

Definition NewPool : Pool := mkPool ∅ [].

(** [Get] with the value [new] for a new item: the item, to which the returned
    function refers. *)
Definition Get (new : V) (key : K) (p : Pool) : nat * Pool :=
  let '(item, p1) :=
    match items p !! key with
    | Some item => (item, p)
    | None => (length (heap p), mkPool (<[key := length (heap p)]> (items p)) (heap p ++ [mkItem new 0]))
    end in
  (item, mkPool (items p1) (alter (fun it => mkItem (value it) (refCount it + 1)) item (heap p1))).

(** The function that [Get] returned for [key] and [item]. *)
Definition release (key : K) (item : nat) (p : Pool) : Pool :=
  let heap' := alter (fun it => mkItem (value it) (refCount it - 1)) item (heap p) in
  match heap' !! item with
  | Some it => mkPool (if decide (refCount it <= 0)%Z then delete key (items p) else items p) heap'
  | None => mkPool (items p) heap'
  end.

(** Users of the pool: [held] lists the items in use with their keys; each is released
    once. *)
Inductive uses : Pool -> list (K * nat) -> Prop :=
| uses_new : uses NewPool []
| uses_get p held new key : uses p held -> uses (Get new key p).2 ((key, (Get new key p).1) :: held)
| uses_release p held1 key item held2 :
    uses p (held1 ++ (key, item) :: held2) -> uses (release key item p) (held1 ++ held2).

(** How often an item is held. *)
Definition held_count (item : nat) (held : list (K * nat)) : Z :=
  Zlen (List.filter (fun x => bool_decide (x.2 = item)) held).

Record wf (p : Pool) (held : list (K * nat)) : Prop := {
  wf_held : forall key item, (key, item) ∈ held -> items p !! key = Some item;
  wf_items : forall key item, items p !! key = Some item ->
    (exists v, heap p !! item = Some (mkItem v (held_count item held))) /\ (0 < held_count item held)%Z;
  wf_inj : forall key key' item, items p !! key = Some item -> items p !! key' = Some item -> key = key'
}.

Lemma held_count_app item l1 l2 : held_count item (l1 ++ l2) = (held_count item l1 + held_count item l2)%Z.
Proof. unfold held_count, Zlen. rewrite List.filter_app, length_app. lia. Qed.

Lemma held_count_cons item x l :
  held_count item (x :: l) = ((if decide (x.2 = item) then 1 else 0) + held_count item l)%Z.
Proof. unfold held_count, Zlen. cbn [List.filter]. case_bool_decide; case_decide; try done; simpl; lia. Qed.

Lemma held_count_pos item held : (0 < held_count item held)%Z -> exists key, (key, item) ∈ held.
Proof.
  induction held as [|[k i] held IH]; [done|]. rewrite held_count_cons. simpl. case_decide as Hi.
  - subst. intros _. exists k. by left.
  - intros (key & Hk)%IH. exists key. by right.
Qed.

Lemma held_count_None item held : (forall key, (key, item) ∉ held) -> held_count item held = 0%Z.
Proof.
  intros Hn. destruct (decide (0 < held_count item held)%Z) as [(k & Hk)%held_count_pos|Hle]; [by apply Hn in Hk|].
  unfold held_count, Zlen in *. lia.
Qed.

Lemma pool_get_wf new key p held : wf p held -> wf (Get new key p).2 ((key, (Get new key p).1) :: held).
Proof.
  intros [Hh Hi Hj]. unfold Get. destruct (items p !! key) as [item|] eqn:Hk; simpl.
  - split; simpl; [| |done].
    + intros k i [[= -> ->]|Hin]%elem_of_cons; [done|auto].
    + intros k i Hki. destruct (Hi k i Hki) as [(v & Hv) Hpos]. rewrite held_count_cons. simpl. case_decide as Hii.
      * subst i. split; [|lia]. exists v. rewrite list_lookup_alter, decide_True, Hv by done. simpl. do 2 f_equal. lia.
      * split; [|lia]. exists v. rewrite list_lookup_alter_ne by done. by rewrite Hv, Z.add_0_l.
  - assert (forall k i, items p !! k = Some i -> i < length (heap p)) as Hlt.
    { intros k i Hki. destruct (Hi k i Hki) as [(v & Hv) _]. by eapply lookup_lt_Some. }
    split; simpl.
    + intros k i [[= -> ->]|Hin]%elem_of_cons; [by rewrite lookup_insert_eq|].
      rewrite lookup_insert_ne; [auto|]. intros ->. apply Hh in Hin. congruence.
    + intros k i Hki. rewrite held_count_cons. simpl. destruct (decide (k = key)) as [->|Hne].
      * rewrite lookup_insert_eq in Hki. injection Hki as <-. rewrite decide_True by done.
        rewrite (held_count_None (length (heap p)) held).
        2: { intros k' Hin%Hh%Hlt. lia. }
        split; [|lia]. exists new. rewrite list_lookup_alter, decide_True, list_lookup_middle by done. done.
      * rewrite lookup_insert_ne in Hki by done. pose proof (Hlt k i Hki). destruct (Hi k i Hki) as [(v & Hv) Hpos].
        rewrite decide_False by lia. split; [|lia]. exists v. rewrite list_lookup_alter_ne by lia.
        rewrite lookup_app_l by done. by rewrite Hv, Z.add_0_l.
    + intros k k' i Hki Hki'. rewrite lookup_insert in Hki. rewrite lookup_insert in Hki'.
      case_decide; case_decide; simplify_eq; try done; eauto;
        match goal with E : items p !! _ = Some (length _) |- _ => apply Hlt in E; lia end.
Qed.

Lemma pool_release_wf key item p held1 held2 :
  wf p (held1 ++ (key, item) :: held2) -> wf (release key item p) (held1 ++ held2).
Proof.
  intros [Hh Hi Hj]. assert (items p !! key = Some item) as Hk by (apply Hh, elem_of_app; right; by left).
  destruct (Hi key item Hk) as [(v & Hv) Hpos].
  assert (held_count item (held1 ++ (key, item) :: held2) = held_count item (held1 ++ held2) + 1)%Z as Hc.
  { rewrite !held_count_app, held_count_cons. simpl. rewrite decide_True by done. lia. }
  rewrite Hc in Hv, Hpos.
  assert (forall k i, (k, i) ∈ held1 ++ held2 -> (k, i) ∈ held1 ++ (key, item) :: held2) as Hsub.
  { intros k i. rewrite !elem_of_app, elem_of_cons. tauto. }
  unfold release. rewrite list_lookup_alter, decide_True, Hv by done. cbn [fmap option_fmap option_map refCount value].
  assert (forall k i, items p !! k = Some i -> i <> item ->
    exists v, alter (fun it => mkItem (value it) (refCount it - 1)) item (heap p) !! i
      = Some (mkItem v (held_count i (held1 ++ held2))) /\ (0 < held_count i (held1 ++ held2))%Z) as Hother.
  { intros k i Hki Hne. destruct (Hi k i Hki) as [(v' & Hv') Hp']. exists v'.
    rewrite list_lookup_alter_ne by done. rewrite held_count_app, held_count_cons in Hv', Hp'. simpl in *.
    rewrite decide_False in Hv', Hp' by done. rewrite held_count_app. split; [rewrite Hv'; do 2 f_equal; lia|lia]. }
  assert (forall k i, items p !! k = Some i -> k <> key -> i <> item) as Hdiff.
  { intros k i Hki Hne ->. by apply Hne, (Hj k key item). }
  case_decide as Hz; split; simpl.
  - intros k i Hin. rewrite lookup_delete_ne; [auto|]. intros <-.
    assert (i = item) as -> by (apply Hsub, Hh in Hin; congruence).
    assert (held_count item (held1 ++ held2) <> 0)%Z; [|lia].
    apply list_elem_of_split in Hin as (l1 & l2 & ->). rewrite held_count_app, held_count_cons. simpl.
    rewrite decide_True by done. unfold held_count, Zlen. lia.
  - intros k i [Hne Hki]%lookup_delete_Some. destruct (Hother k i Hki) as (v' & ? & ?); [by eapply Hdiff|]. eauto.
  - intros k k' i [_ ?]%lookup_delete_Some [_ ?]%lookup_delete_Some. eauto.
  - intros k i Hin. auto.
  - intros k i Hki. destruct (decide (i = item)) as [->|Hne].
    + split; [|lia]. exists v. rewrite list_lookup_alter, decide_True, Hv by done. simpl. do 2 f_equal. lia.
    + destruct (Hother k i Hki Hne) as (v' & ? & ?). eauto.
  - eauto.
Qed.

Lemma pool_uses_wf p held : uses p held -> wf p held.
Proof.
  induction 1 as [|p held new key _ IH|p held1 key item held2 _ IH].
  - split; simpl; [by intros k i ?%elem_of_nil|intros; simplify_map_eq..].
  - by apply pool_get_wf.
  - by apply pool_release_wf.
Qed.

End Pool.
End pool.

(** ** What the helpers promise *)

(** C35: [Once] runs one action.  With any number of goroutines in any interleaving of
    channel operations, cancellations, failures and panics: at most one goroutine is in
    the callback; at most one returns true, and when one has, every goroutine that
    returned without its own cancellation returns the same stored result, and no
    callback can start any more; and while a goroutine is waiting at the channel, some
    goroutine can go on without any context ending. *)
Theorem Once_correct {V : Type} n (o : once.Once (V := V)) :
  once.steps (once.NewOnce n) o ->
  (forall i j p q, once.pcs o !! i = Some p -> once.pcs o !! j = Some q ->
     once.holds p = true -> once.holds q = true -> i = j)
  /\ (forall i j v e w f, once.pcs o !! i = Some (once.Returned true v e) ->
       (once.pcs o !! j = Some (once.Returned true w f) -> i = j)
       /\ (once.pcs o !! j = Some (once.Returned false w f) -> w = v /\ f = e \/ w = None /\ is_Some f)
       /\ (forall o', once.step j once.CReceive o = Some o' -> once.pcs o' !! j = Some (once.Returned false v e)))
  /\ (forall i, once.pcs o !! i = Some once.Selecting ->
       exists j c o', once.step j c o = Some o' /\ forall e, c <> once.CDone e).
Proof.
  intros Hs. destruct (once.once_steps_wf n o Hs) as [Htok Hfst Hcl Hres Hoth]. split; [|split].
  - intros i j p q Hi Hj Hp Hq. destruct (decide (i = j)) as [|Hne]; [done|].
    pose proof (filter_two _ _ _ _ _ _ Hne Hi Hj Hp Hq). lia.
  - intros i j v e w f Hi. pose proof (filter_one once.is_first _ _ _ Hi eq_refl) as H1.
    destruct (once.closed o) eqn:Hc; simpl in *; [|lia]. destruct (once.token o) eqn:Ht; simpl in *; [lia|].
    destruct (Hres _ _ _ Hi) as (-> & -> & _). split; [|split].
    + intros Hj. destruct (decide (i = j)) as [|Hne]; [done|].
      pose proof (filter_two once.is_first _ _ _ _ _ Hne Hi Hj eq_refl eq_refl). lia.
    + intros Hj. destruct (Hoth _ _ _ Hj) as [[-> ?]|(_ & -> & ->)]; auto.
    + intros o' Hst. unfold once.step in Hst. destruct (once.pcs o !! j) as [[]|] eqn:Hj; try done.
      rewrite Ht, Hc in Hst. injection Hst as <-. simpl.
      rewrite list_lookup_insert_eq by (by eapply lookup_lt_Some). done.
  - intros i Hi. destruct (once.token o) eqn:Ht; [|destruct (once.closed o) eqn:Hc].
    + exists i, once.CReceive. unfold once.step. rewrite Hi, Ht. eexists. by split.
    + exists i, once.CReceive. unfold once.step. rewrite Hi, Ht, Hc. eexists. by split.
    + simpl in Htok. destruct (List.filter once.holds (once.pcs o)) as [|p l] eqn:E; [simpl in Htok; lia|].
      assert (In p (List.filter once.holds (once.pcs o))) as Hin by (rewrite E; by left).
      apply filter_In in Hin as [Hin Hp]. apply list_elem_of_In, list_elem_of_lookup in Hin as (j & Hj).
      destruct p as [| |v e| |]; try done.
      * exists j, (once.CReturn once.FPanic). unfold once.step. rewrite Hj. eexists. by split.
      * exists j, once.CClose. unfold once.step. rewrite Hj. eexists. by split.
Qed.

(** The first goroutine fetches, the second gets its result. *)
Lemma Once_correct_witness :
  let o0 : once.Once (V := nat) := once.NewOnce 2 in
  exists o1 o2 o3, once.step 0 once.CReceive o0 = Some o1
  /\ once.step 0 (once.CReturn (once.FReturn (Some 7) None)) o1 = Some o2
  /\ once.step 0 once.CClose o2 = Some o3
  /\ forall o', once.step 1 once.CReceive o3 = Some o' -> once.pcs o' !! 1 = Some (once.Returned false (Some 7) None).
Proof.
  intros o0. set (o1 := once.mkOnce (V := nat) false false None None [once.Running; once.Selecting]).
  set (o2 := once.mkOnce (V := nat) false false (Some 7) None [once.Closing (Some 7) None; once.Selecting]).
  set (o3 := once.mkOnce (V := nat) false true (Some 7) None [once.Returned true (Some 7) None; once.Selecting]).
  assert (once.step 0 once.CReceive o0 = Some o1) as H1 by reflexivity.
  assert (once.step 0 (once.CReturn (once.FReturn (Some 7) None)) o1 = Some o2) as H2 by reflexivity.
  assert (once.step 0 once.CClose o2 = Some o3) as H3 by reflexivity.
  exists o1, o2, o3. split; [exact H1|]. split; [exact H2|]. split; [exact H3|].
  destruct (Once_correct 2 o3) as (_ & H & _); [|by apply (H 0 1 (Some 7) None None None)].
  eapply once.steps_step; [|exact H3]. eapply once.steps_step; [|exact H2].
  eapply once.steps_step; [|exact H1]. constructor.
Defined.

(** [OnceOrRetry] has exactly one success: in any interleaving at most one goroutine is
    in the callback, it succeeds at most once, and a call returns nil only after it has. *)
Lemma OnceOrRetry_one_success n o :
  once_or_retry.steps (once_or_retry.New n) o ->
  once_or_retry.succeeded o <= 1
  /\ (forall i j, once_or_retry.pcs o !! i = Some once_or_retry.Running ->
       once_or_retry.pcs o !! j = Some once_or_retry.Running -> i = j /\ once_or_retry.succeeded o = 0)
  /\ (forall i, once_or_retry.pcs o !! i = Some (once_or_retry.Returned (Ok tt)) -> once_or_retry.succeeded o = 1).
Proof.
  intros Hs. destruct (once_or_retry.retry_steps_wf n o Hs) as [Hl Hd Hr Hst Hok].
  assert (length (List.filter once_or_retry.storing (once_or_retry.pcs o)) <= 1
    /\ (once_or_retry.done_ o = true -> length (List.filter once_or_retry.storing (once_or_retry.pcs o)) = 0)) as [H1 H2].
  { assert (length (List.filter once_or_retry.storing (once_or_retry.pcs o))
      <= length (List.filter once_or_retry.holds (once_or_retry.pcs o))) as Hle.
    { clear. induction (once_or_retry.pcs o) as [|[] l IH]; simpl; lia. }
    split; [destruct (once_or_retry.locked o); simpl in Hl; lia|]. intros Hdo.
    destruct (List.filter once_or_retry.storing (once_or_retry.pcs o)) as [|p l] eqn:E; [done|].
    assert (In p (List.filter once_or_retry.storing (once_or_retry.pcs o))) as Hin by (rewrite E; by left).
    apply filter_In in Hin as [Hin Hp]. apply list_elem_of_In, list_elem_of_lookup in Hin as (j & Hj).
    destruct p; try done. apply Hst in Hj. congruence. }
  split; [|split].
  - destruct (once_or_retry.done_ o); simpl in *; [rewrite H2 in Hd by done|]; lia.
  - intros i j Hi Hj. split.
    + destruct (decide (i = j)) as [|Hne]; [done|].
      pose proof (filter_two once_or_retry.holds _ _ _ _ _ Hne Hi Hj eq_refl eq_refl).
      destruct (once_or_retry.locked o); simpl in Hl; lia.
    + pose proof (Hr i Hi) as Hdo. rewrite Hdo in Hd. simpl in Hd.
      destruct (List.filter once_or_retry.storing (once_or_retry.pcs o)) as [|p l] eqn:E; [simpl in Hd; lia|].
      assert (In p (List.filter once_or_retry.storing (once_or_retry.pcs o))) as Hin by (rewrite E; by left).
      apply filter_In in Hin as [Hin Hp]. apply list_elem_of_In, list_elem_of_lookup in Hin as (k & Hk).
      destruct p; try done. destruct (decide (i = k)) as [->|Hne]; [congruence|].
      pose proof (filter_two once_or_retry.holds _ _ _ _ _ Hne Hi Hk eq_refl eq_refl).
      destruct (once_or_retry.locked o); simpl in Hl; lia.
  - intros i Hi. specialize (Hok i (Ok tt) (or_intror Hi) eq_refl). rewrite Hok in Hd. simpl in Hd.
    rewrite (H2 Hok) in Hd. lia.
Qed.

(** [Pool] shares items: all users that hold an item of a key hold the same one, and a
    key has an item only while somebody holds it. *)
Lemma Pool_shares {K V} `{Countable K} (p : pool.Pool (K := K) (V := V)) held :
  pool.uses p held ->
  (forall key i j, (key, i) ∈ held -> (key, j) ∈ held -> i = j)
  /\ (forall key item, pool.items p !! key = Some item -> (key, item) ∈ held).
Proof.
  intros Hu. destruct (pool.pool_uses_wf p held Hu) as [Hh Hi Hj]. split.
  - intros key i j Hi' Hj'. apply Hh in Hi', Hj'. congruence.
  - intros key item Hk. destruct (Hi _ _ Hk) as [_ (k' & Hin)%pool.held_count_pos].
    by rewrite (Hj _ _ _ Hk (Hh _ _ Hin)).
Qed.

(** ** [internal/container/set/set.go] *)
Module container_set.
Section Set_.
Context {T : Type} `{Countable T}.

(** A [map[T]struct{}]. *)
Definition New : gmap T unit := ∅.
Definition Add (item : T) (s : gmap T unit) : gmap T unit := <[item := tt]> s.
Definition Contains (s : gmap T unit) (item : T) : bool := bool_decide (is_Some (s !! item)).
Definition Delete (item : T) (s : gmap T unit) : gmap T unit := delete item s.

(** It is the finite set of its keys, which the other files use in its place. *)
Lemma set_is_gset s item x :
  Contains s x = bool_decide (x ∈ dom s) /\
  dom (Add item s) = {[item]} ∪ dom s /\ dom (Delete item s) = dom s ∖ {[item]}.
Proof.
  split; [unfold Contains; apply bool_decide_ext; by rewrite elem_of_dom|].
  split; [apply dom_insert_L|apply dom_delete_L].
Qed.
End Set_.
End container_set.
