(* ===== verification/Base64.v ===== *)
(** [encoding/base64.StdEncoding], which carries user names and passwords in headers
    and in configuration files. *)

From Stdlib Require Import Ascii String NArith Lia.
From S2P Require Import Prelude GoStrings.

#[local] Open Scope string_scope.
#[local] Open Scope list_scope.

Module base64.

(** The digits. *)
Definition alphabet : list ascii := chars "ABCDEFGHIJKLMNOPQRSTUVWXYZabcdefghijklmnopqrstuvwxyz0123456789+/".
Definition pad : ascii := "=".

Definition digit (n : N) : ascii := List.nth (N.to_nat n) alphabet pad.

(** The value of a digit. *)
Definition undigit (c : ascii) : option N :=
  let n := N_of_ascii c in
  if in_range "A" "Z" c then Some (n - 65)%N
  else if in_range "a" "z" c then Some (n - 71)%N
  else if in_range "0" "9" c then Some (n + 4)%N
  else if Ascii.eqb c "+" then Some 62%N
  else if Ascii.eqb c "/" then Some 63%N
  else None.

(** Three bytes are four digits; one or two bytes at the end are padded. *)
Fixpoint encode (l : list N) : list ascii :=
  match l with
  | a :: b :: c :: rest =>
      digit (N.shiftr a 2) :: digit (N.lor (N.shiftl (N.land a 3) 4) (N.shiftr b 4))
        :: digit (N.lor (N.shiftl (N.land b 15) 2) (N.shiftr c 6)) :: digit (N.land c 63) :: encode rest
  | [a; b] =>
      [digit (N.shiftr a 2); digit (N.lor (N.shiftl (N.land a 3) 4) (N.shiftr b 4));
       digit (N.shiftl (N.land b 15) 2); pad]
  | [a] => [digit (N.shiftr a 2); digit (N.shiftl (N.land a 3) 4); pad; pad]
  | [] => []
  end.

(** The bytes of two to four digits; bits left over are dropped. *)
Definition bytes2 (x y : N) : N := N.land (N.lor (N.shiftl x 2) (N.shiftr y 4)) 255.
Definition bytes3 (y z : N) : N := N.land (N.lor (N.shiftl y 4) (N.shiftr z 2)) 255.
Definition bytes4 (z w : N) : N := N.land (N.lor (N.shiftl z 6) w) 255.

Fixpoint decode (l : list ascii) : option (list N) :=
  match l with
  | [] => Some []
  | [a; b; c; d] =>
      match undigit a, undigit b with
      | Some x, Some y =>
          if Ascii.eqb c pad then (if Ascii.eqb d pad then Some [bytes2 x y] else None)
          else match undigit c with
          | Some z =>
              if Ascii.eqb d pad then Some [bytes2 x y; bytes3 y z]
              else match undigit d with
                   | Some w => Some [bytes2 x y; bytes3 y z; bytes4 z w]
                   | None => None
                   end
          | None => None
          end
      | _, _ => None
      end
  | a :: b :: c :: d :: rest =>
      match undigit a, undigit b, undigit c, undigit d, decode rest with
      | Some x, Some y, Some z, Some w, Some r => Some (bytes2 x y :: bytes3 y z :: bytes4 z w :: r)
      | _, _, _, _, _ => None
      end
  | _ => None
  end.

Definition EncodeToString (s : string) : string := of_chars (encode (N_of_ascii <$> chars s)).

(** New lines are ignored. *)
Definition is_newline (c : ascii) : bool := Ascii.eqb c (ascii_of_N 10) || Ascii.eqb c (ascii_of_N 13).

Definition DecodeString (s : string) : option string :=
  (fun l => of_chars (ascii_of_N <$> l)) <$> decode (List.filter (fun c => negb (is_newline c)) (chars s)).

(** ** Decoding what was encoded *)

Lemma digit_ok n : (n < 64)%N ->
  undigit (digit n) = Some n /\ digit n <> pad /\ is_newline (digit n) = false.
Proof.
  intros Hn. assert (forall k, k < 64 -> undigit (digit (N.of_nat k)) = Some (N.of_nat k)
    /\ Ascii.eqb (digit (N.of_nat k)) pad = false /\ is_newline (digit (N.of_nat k)) = false) as H.
  { intros k Hk. do 64 (destruct k as [|k]; [vm_compute; auto|]). lia. }
  specialize (H (N.to_nat n) ltac:(lia)). rewrite N2Nat.id in H. destruct H as (H1 & H2%Ascii.eqb_neq & H3). done.
Qed.

(** Facts about bytes are checked on all of them. *)
Definition below (k : nat) (n : nat) (f : N -> N -> bool) : bool :=
  List.forallb (fun a => List.forallb (fun h => f (N.of_nat a) (N.of_nat h)) (List.seq 0 n)) (List.seq 0 k).

Lemma below_spec k n f a h :
  below k n f = true -> (a < N.of_nat k)%N -> (h < N.of_nat n)%N -> f a h = true.
Proof.
  unfold below. intros H Ha Hh. rewrite List.forallb_forall in H.
  specialize (H (N.to_nat a) ltac:(apply List.in_seq; lia)). rewrite List.forallb_forall in H.
  specialize (H (N.to_nat h) ltac:(apply List.in_seq; lia)). rewrite !N2Nat.id in H. done.
Qed.

Lemma bytes2_join a h : (a < 256)%N -> (h < 16)%N ->
  bytes2 (N.shiftr a 2) (N.lor (N.shiftl (N.land a 3) 4) h) = a.
Proof.
  intros Ha Hh. apply N.eqb_eq.
  by apply (below_spec 256 16 (fun a h => bytes2 (N.shiftr a 2) (N.lor (N.shiftl (N.land a 3) 4) h) =? a)%N);
    [vm_compute|..].
Qed.

Lemma bytes3_join x b h : (b < 256)%N -> (x < 4)%N -> (h < 4)%N ->
  bytes3 (N.lor (N.shiftl x 4) (N.shiftr b 4)) (N.lor (N.shiftl (N.land b 15) 2) h) = b.
Proof.
  intros Hb Hx Hh.
  pose (f := fun b y : N => (bytes3 (N.lor (N.shiftl (y / 4) 4) (N.shiftr b 4))
                               (N.lor (N.shiftl (N.land b 15) 2) (y mod 4)) =? b)%N).
  assert (f b (4 * x + h)%N = true) as H by (apply (below_spec 256 16); [by vm_compute|lia..]).
  unfold f in H. replace ((4 * x + h) / 4)%N with x in H by (apply (N.div_unique _ 4 x h); lia).
  replace ((4 * x + h) mod 4)%N with h in H by (apply (N.mod_unique _ 4 x h); lia). by apply N.eqb_eq.
Qed.

Lemma bytes4_join x c : (c < 256)%N -> (x < 16)%N ->
  bytes4 (N.lor (N.shiftl x 2) (N.shiftr c 6)) (N.land c 63) = c.
Proof.
  intros Hc Hx. apply N.eqb_eq.
  by apply (below_spec 256 16 (fun c x => bytes4 (N.lor (N.shiftl x 2) (N.shiftr c 6)) (N.land c 63) =? c)%N);
    [vm_compute|..].
Qed.

(** Each group of bits is one digit. *)
Lemma groups_small a b : (a < 256)%N -> (b < 256)%N ->
  ((N.shiftr a 2 < 64)%N /\ (N.shiftr a 4 < 16)%N /\ (N.shiftr a 6 < 4)%N) /\
  ((N.land a 3 < 4)%N /\ (N.land a 15 < 16)%N /\ (N.land a 63 < 64)%N) /\
  (N.lor (N.shiftl (N.land a 3) 4) (N.shiftr b 4) < 64)%N /\
  (N.lor (N.shiftl (N.land a 15) 2) (N.shiftr b 6) < 64)%N /\
  (N.shiftl (N.land a 3) 4 < 64)%N /\ (N.shiftl (N.land a 15) 2 < 64)%N.
Proof.
  intros Ha Hb.
  pose (f := fun a b : N => (N.shiftr a 2 <? 64)%N && (N.shiftr a 4 <? 16)%N && (N.shiftr a 6 <? 4)%N
    && (N.land a 3 <? 4)%N && (N.land a 15 <? 16)%N && (N.land a 63 <? 64)%N
    && (N.lor (N.shiftl (N.land a 3) 4) (N.shiftr b 4) <? 64)%N
    && (N.lor (N.shiftl (N.land a 15) 2) (N.shiftr b 6) <? 64)%N
    && (N.shiftl (N.land a 3) 4 <? 64)%N && (N.shiftl (N.land a 15) 2 <? 64)%N).
  assert (f a b = true) as H by (apply (below_spec 256 256); [by vm_compute|lia..]).
  unfold f in H. rewrite !andb_true_iff, !N.ltb_lt in H. by destruct_and!.
Qed.

Lemma bytes2_last a : (a < 256)%N -> bytes2 (N.shiftr a 2) (N.shiftl (N.land a 3) 4) = a.
Proof. intros Ha. rewrite <- (N.lor_0_r (N.shiftl _ _)). by apply bytes2_join. Qed.

Lemma bytes3_last x b : (b < 256)%N -> (x < 4)%N ->
  bytes3 (N.lor (N.shiftl x 4) (N.shiftr b 4)) (N.shiftl (N.land b 15) 2) = b.
Proof. intros Hb Hx. rewrite <- (N.lor_0_r (N.shiftl (N.land _ _) _)). by apply bytes3_join. Qed.

Definition is_byte (n : N) : Prop := (n < 256)%N.

(** Four digits ahead of a group. *)
Lemma decode_group x y z w rest : (x < 64)%N -> (y < 64)%N -> (z < 64)%N -> (w < 64)%N ->
  decode (digit x :: digit y :: digit z :: digit w :: rest)
  = (fun r => bytes2 x y :: bytes3 y z :: bytes4 z w :: r) <$> decode rest.
Proof.
  intros (Ux & _)%digit_ok (Uy & _)%digit_ok (Uz & Nz%Ascii.eqb_neq & _)%digit_ok (Uw & Nw%Ascii.eqb_neq & _)%digit_ok.
  destruct rest as [|e rest].
  - cbn [decode]. rewrite Ux, Uy, Uz, Uw, Nz, Nw. done.
  - change (match undigit (digit x), undigit (digit y), undigit (digit z), undigit (digit w), decode (e :: rest) with
            | Some x, Some y, Some z, Some w, Some r => Some (bytes2 x y :: bytes3 y z :: bytes4 z w :: r)
            | _, _, _, _, _ => None end
            = (fun r => bytes2 x y :: bytes3 y z :: bytes4 z w :: r) <$> decode (e :: rest)).
    rewrite Ux, Uy, Uz, Uw. by destruct (decode (e :: rest)).
Qed.

Lemma decode_encode l : Forall is_byte l -> decode (encode l) = Some l.
Proof.
  remember (length l) as n eqn:Hn. revert l Hn. induction (lt_wf n) as [n _ IH].
  intros l -> Hl. unfold is_byte in *. destruct l as [|a [|b [|c rest]]]; [done|..]; decompose_Forall_hyps.
  - destruct (groups_small a 0) as ((A2 & _) & _ & _ & _ & A34 & _); [lia..|].
    cbn [encode decode]. destruct (digit_ok _ A2) as (-> & _), (digit_ok _ A34) as (-> & _).
    by rewrite bytes2_last by done.
  - destruct (groups_small a b) as ((A2 & _) & (L3 & _) & A34 & _); [lia..|].
    destruct (groups_small b 0) as ((_ & B4 & _) & _ & _ & _ & _ & B15); [lia..|].
    cbn [encode decode]. destruct (digit_ok _ A2) as (-> & _), (digit_ok _ A34) as (-> & _),
      (digit_ok _ B15) as (-> & ->%Ascii.eqb_neq & _).
    by rewrite bytes2_join, bytes3_last by done.
  - destruct (groups_small a b) as ((A2 & _) & (L3 & _) & A34 & _); [lia..|].
    destruct (groups_small b c) as ((_ & B4 & _) & (_ & LB & _) & _ & B15 & _); [lia..|].
    destruct (groups_small c 0) as ((_ & _ & C6) & (_ & _ & C63) & _); [lia..|].
    change (decode (encode (a :: b :: c :: rest)) = Some (a :: b :: c :: rest)). cbn [encode].
    rewrite decode_group by done.
    rewrite (IH (length rest)) by (done || (simpl; lia)). cbn.
    by rewrite bytes2_join, bytes3_join, bytes4_join by done.
Qed.

Lemma encode_no_newline l : Forall is_byte l -> Forall (fun c => is_newline c = false) (encode l).
Proof.
  assert (forall n, (n < 64)%N -> is_newline (digit n) = false) as D by (intros n (_ & _ & ?)%digit_ok; done).
  remember (length l) as n eqn:Hn. revert l Hn. induction (lt_wf n) as [n _ IH].
  intros l -> Hl. unfold is_byte in *. destruct l as [|a [|b [|c rest]]]; [by constructor|..]; decompose_Forall_hyps;
    cbn [encode].
  - destruct (groups_small a 0) as ((A2 & _) & _ & _ & _ & A34 & _); [lia..|]. repeat constructor; auto.
  - destruct (groups_small a b) as ((A2 & _) & _ & A34 & _); [lia..|].
    destruct (groups_small b 0) as (_ & _ & _ & _ & _ & B15); [lia..|]. repeat constructor; auto.
  - destruct (groups_small a b) as ((A2 & _) & _ & A34 & _); [lia..|].
    destruct (groups_small b c) as (_ & _ & _ & B15 & _); [lia..|].
    destruct (groups_small c 0) as (_ & (_ & _ & C63) & _); [lia..|].
    do 4 (constructor; auto). apply (IH (length rest)); [simpl; lia|done|done].
Qed.

Lemma DecodeString_EncodeToString s : DecodeString (EncodeToString s) = Some s.
Proof.
  unfold DecodeString, EncodeToString.
  assert (Forall is_byte (N_of_ascii <$> chars s)) as Hb
    by (apply list.Forall_fmap, list.Forall_true; intros c; apply N_ascii_bounded).
  rewrite chars_of_chars. set (l := encode _).
  assert (List.filter (fun c => negb (is_newline c)) l = l) as ->.
  { assert (Forall (fun c => is_newline c = false) l) as H by by apply encode_no_newline.
    clearbody l. induction H as [|c l Hc _ IH]; [done|]. simpl. by rewrite Hc, IH. }
  unfold l. rewrite decode_encode by done. simpl. f_equal.
  rewrite <- list_fmap_compose. rewrite <- (of_chars_chars s) at 2. f_equal.
  rewrite <- (list_fmap_id (chars s)) at 2. apply list_fmap_ext. intros i c _. apply ascii_N_embedding.
Qed.

End base64.
