(* ===== verification/ChallengeCorrect.v ===== *)
(** The challenge parser against the grammar of RFC 7235: what it reads from every
    header of the grammar, and that its loop ends. *)

From Stdlib Require Import Ascii String ZArith Lia.
From S2P Require Import Prelude Errors GoStrings Reference Http Challenge.

#[local] Open Scope string_scope.
#[local] Open Scope list_scope.

(** ** Scanning *)

Definition all_chars (p : ascii -> bool) (s : string) : bool := forallb p (chars s).

(** The string does not start with a character that passes the test. *)
Definition starts_not (p : ascii -> bool) (s : string) : bool :=
  match s with EmptyString => true | String.String c _ => negb (p c) end.

Lemma span_app p a b : all_chars p a = true -> starts_not p b = true -> span p (a +:+ b) = (a, b).
Proof.
  intros Ha Hb. induction a as [|c a IH].
  - destruct b as [|c b]; [done|]. simpl in Hb. apply negb_true_iff in Hb.
    change (span p (String.String c b) = (EmptyString, String.String c b)). cbn [span]. by rewrite Hb.
  - unfold all_chars in *. simpl in Ha. apply andb_true_iff in Ha as [Hc Ha].
    change (String.String c a +:+ b) with (String.String c (a +:+ b)). cbn [span]. by rewrite Hc, (IH Ha).
Qed.

Lemma span_split p s a b : span p s = (a, b) -> s = a +:+ b.
Proof.
  revert a b. induction s as [|c s IH]; intros a b; cbn [span]; [by intros [= <- <-]|].
  destruct (p c); [|by intros [= <- <-]]. destruct (span p s) as [a' b']. intros [= <- <-].
  by rewrite (IH a' b' eq_refl).
Qed.

Lemma skipSpace_app ws s :
  all_chars is_space ws = true -> starts_not is_space s = true -> s <> EmptyString -> skipSpace (ws +:+ s) = s.
Proof. intros Hw Hs Hne. unfold skipSpace. rewrite span_app by done. by destruct s. Qed.

Lemma string_length_append s t : String.length (s +:+ t) = String.length s + String.length t.
Proof. induction s as [|a s IH]; [done|]. exact (f_equal S IH). Qed.

Lemma skipSpace_le s : String.length (skipSpace s) <= String.length s.
Proof.
  unfold skipSpace. destruct (span is_space s) as [a b] eqn:E. apply span_split in E as ->. simpl.
  destruct b; [done|]. rewrite string_length_append. lia.
Qed.

Lemma substring_le n m s : String.length (String.substring n m s) <= String.length s.
Proof.
  revert n m. induction s as [|c s IH]; intros n m; [by destruct n, m|].
  destruct n as [|n], m as [|m]; simpl; [lia|apply le_n_S, IH|..]; specialize (IH n); eauto with lia.
Qed.

(** ** The loop ends *)

Section loop.
Context {GQ : GoQuote}.

Lemma parseValue_le rest v rest' : parseValue rest = Some (v, rest') -> String.length rest' <= String.length rest.
Proof.
  unfold parseValue. destruct rest as [|c s]; [done|]. destruct (Ascii.eqb c dquote).
  - destruct (QuotedPrefix _) as [p|]; [|done]. destruct (Unquote p); [|done]. intros [= _ <-]. apply substring_le.
  - destruct (parseToken _) as [value r] eqn:E. destruct (String.eqb value EmptyString); [done|]. intros [= _ <-].
    apply span_split in E. rewrite E, string_length_append. lia.
Qed.

(** Each turn reads a key, so the length of the header is fuel enough. *)
Lemma parse_params_fuel fuel k rest params :
  String.length rest < fuel -> parse_params (fuel + k) rest params = parse_params fuel rest params.
Proof.
  revert rest params. induction fuel as [|fuel IH]; intros rest params Hf; [lia|].
  cbn [parse_params plus]. destruct (parseToken (skipSpace rest)) as [key r1] eqn:E1.
  apply span_split in E1. pose proof (skipSpace_le rest) as L1. rewrite E1, string_length_append in L1.
  destruct (String.eqb_spec key EmptyString) as [|Hkey]; [done|].
  assert (0 < String.length key) by (destruct key; simpl; [done|lia]).
  pose proof (skipSpace_le r1) as L2. destruct (skipSpace r1) as [|c r2]; [done|]. simpl in L2.
  destruct (negb (Ascii.eqb c "=")); [done|].
  destruct (parseValue (skipSpace r2)) as [[v r3]|] eqn:E3; [|done].
  apply parseValue_le in E3. pose proof (skipSpace_le r2) as L3. pose proof (skipSpace_le r3) as L4.
  destruct (skipSpace r3) as [|c' r4]; [done|]. simpl in L4. destruct (Ascii.eqb c' ","); [|done].
  apply IH. lia.
Qed.

End loop.

(** ** The grammar *)

(** A value is a token or a quoted string; white space may stand around each part. *)
Inductive param_value := VToken (t : string) | VQuoted (v : string).
Record auth_param := mkParam {
  ap_ws1 : string; ap_key : string; ap_ws2 : string; ap_ws3 : string; ap_value : param_value; ap_ws4 : string
}.

(** [strconv.Quote] and what its documentation says of the functions that read its
    result back. *)
Class GoQuoteLaws (GQ : GoQuote) (Quote : string -> string) := {
  Quote_start : forall v, exists s, Quote v = String.String dquote s;
  QuotedPrefix_Quote : forall v rest, QuotedPrefix (Quote v +:+ rest) = Some (Quote v);
  Unquote_Quote : forall v, Unquote (Quote v) = Some v
}.

Section grammar.
Context {GQ : GoQuote} (Quote : string -> string) {QL : GoQuoteLaws GQ Quote}.

Definition is_token (s : string) : bool := all_chars isTokenChar s && negb (String.eqb s EmptyString).

Definition value_text (v : param_value) : string := match v with VToken t => t | VQuoted v => Quote v end.
Definition value_of (v : param_value) : string := match v with VToken t => t | VQuoted v => v end.

Definition param_ok (p : auth_param) : bool :=
  all_chars is_space (ap_ws1 p) && is_token (ap_key p) && all_chars is_space (ap_ws2 p)
  && all_chars is_space (ap_ws3 p) && match ap_value p with VToken t => is_token t | VQuoted _ => true end
  && all_chars is_space (ap_ws4 p).

(** [auth-param = token BWS "=" BWS ( token / quoted-string )]. *)
Definition param_text (p : auth_param) : string :=
  ap_ws1 p +:+ ap_key p +:+ ap_ws2 p +:+ "=" +:+ ap_ws3 p +:+ value_text (ap_value p) +:+ ap_ws4 p.

(** [#auth-param], with commas. *)
Definition params_text (ps : list auth_param) : string := Join "," (param_text <$> ps).

Lemma starts_not_app p a b : a <> EmptyString -> starts_not p (a +:+ b) = starts_not p a.
Proof. by destruct a. Qed.

Lemma space_not_token c : is_space c = true -> isTokenChar c = false.
Proof.
  unfold is_space. rewrite orb_true_iff, !Ascii.eqb_eq. by intros [->| ->].
Qed.

Lemma token_not_space c : isTokenChar c = true -> is_space c = false.
Proof. intros H. destruct (is_space c) eqn:E; [|done]. apply space_not_token in E. congruence. Qed.

Lemma ws_starts_not_token ws s :
  all_chars is_space ws = true -> starts_not isTokenChar s = true -> starts_not isTokenChar (ws +:+ s) = true.
Proof.
  destruct ws as [|c ws]; [done|]. unfold all_chars. simpl. intros [Hc _]%andb_true_iff _.
  by rewrite (space_not_token c Hc).
Qed.

Lemma token_starts t s : is_token t = true -> starts_not is_space (t +:+ s) = true /\ t +:+ s <> EmptyString.
Proof.
  unfold is_token. rewrite andb_true_iff, negb_true_iff, String.eqb_neq. intros [Ht Hne].
  destruct t as [|c t]; [done|]. unfold all_chars in Ht. simpl in Ht. apply andb_true_iff in Ht as [Hc _].
  split; [|done]. simpl. by rewrite (token_not_space c Hc).
Qed.

Lemma drop_prefix_app p s : drop_prefix p (p +:+ s) = s.
Proof.
  unfold drop_prefix. rewrite string_length_append, Nat.add_comm. generalize (String.length p) at 2 as n.
  induction p as [|c p IH]; intros n; [|exact (IH n)].
  change (String.substring 0 (String.length s + n) s = s).
  induction s as [|c s IH]; [by destruct n|]. simpl. by rewrite IH.
Qed.

(** One parameter, followed by what is not part of a token. *)
Lemma parse_value_text v ws rest :
  match v with VToken t => is_token t | VQuoted _ => true end = true ->
  all_chars is_space ws = true -> starts_not isTokenChar rest = true ->
  parseValue (value_text v +:+ ws +:+ rest) = Some (value_of v, ws +:+ rest)
  /\ starts_not is_space (value_text v +:+ ws +:+ rest) = true /\ value_text v +:+ ws +:+ rest <> EmptyString.
Proof.
  intros Hv Hw Hr. pose proof (ws_starts_not_token ws rest Hw Hr) as Hs. destruct v as [t|v]; simpl in *.
  - destruct (token_starts t (ws +:+ rest) Hv) as [H1 H2]. split; [|done].
    unfold is_token in Hv. apply andb_true_iff in Hv as [Ht Hne%negb_true_iff].
    unfold parseValue. destruct (t +:+ ws +:+ rest) as [|c s] eqn:E; [done|]. rewrite <- E.
    assert (Ascii.eqb c dquote = false) as ->.
    { destruct t as [|c' t]; [done|]. injection E as -> _. unfold all_chars in Ht. simpl in Ht.
      apply andb_true_iff in Ht as [Ht _]. destruct (Ascii.eqb_spec c dquote) as [->|]; done. }
    unfold parseToken. rewrite span_app by done. by rewrite Hne.
  - destruct (Quote_start v) as [q Hq]. rewrite Hq.
    change (String.String dquote q +:+ ws +:+ rest) with (String.String dquote (q +:+ ws +:+ rest)).
    split; [|done]. unfold parseValue. rewrite Ascii.eqb_refl.
    change (String.String dquote (q +:+ ws +:+ rest)) with (String.String dquote q +:+ (ws +:+ rest)).
    rewrite <- Hq, QuotedPrefix_Quote, Unquote_Quote, drop_prefix_app. done.
Qed.

Lemma skipSpace_ws ws s :
  all_chars is_space ws = true -> s <> EmptyString -> starts_not is_space s = true \/ s = EmptyString ->
  skipSpace (ws +:+ s) = s.
Proof. intros Hw Hne [Hs| ->]; [by apply skipSpace_app|done]. Qed.

Lemma parse_params_cons fuel p tail params :
  param_ok p = true -> tail = EmptyString \/ (exists t, tail = String.String "," t) ->
  parse_params (S fuel) (param_text p +:+ tail) params =
    match tail with
    | EmptyString => <[ap_key p := value_of (ap_value p)]> params
    | String.String _ rest => parse_params fuel rest (<[ap_key p := value_of (ap_value p)]> params)
    end.
Proof.
  intros Hok Ht. unfold param_ok in Hok. rewrite !andb_true_iff in Hok.
  destruct Hok as [[[[[Hw1 Hk] Hw2] Hw3] Hv] Hw4]. unfold param_text.
  rewrite !string_app_assoc. cbn [parse_params].
  destruct (token_starts (ap_key p) (ap_ws2 p +:+ "=" +:+ ap_ws3 p +:+ value_text (ap_value p) +:+ ap_ws4 p +:+ tail) Hk) as [S1 S2].
  rewrite skipSpace_app by done. unfold parseToken at 1.
  unfold is_token in Hk. apply andb_true_iff in Hk as [Hkt Hkn%negb_true_iff].
  rewrite span_app; [|done|by apply ws_starts_not_token]. rewrite Hkn.
  rewrite (skipSpace_app (ap_ws2 p)) by done.
  change ("=" +:+ ?s) with (String.String "=" s). cbn [Ascii.eqb Bool.eqb negb].
  assert (starts_not isTokenChar tail = true) as Hst by (destruct Ht as [->|[t ->]]; done).
  destruct (parse_value_text (ap_value p) (ap_ws4 p) tail Hv Hw4 Hst) as (HV & S3 & S4).
  change (("=" +:+ (ap_ws3 p +:+ value_text (ap_value p) +:+ ap_ws4 p +:+ tail)))
    with (String.String "=" (ap_ws3 p +:+ value_text (ap_value p) +:+ ap_ws4 p +:+ tail)). cbn iota.
  rewrite (skipSpace_app (ap_ws3 p)) by done. rewrite HV. cbn iota.
  destruct Ht as [->|[t ->]].
  - rewrite string_app_nil_r. unfold skipSpace. pose proof (span_app is_space (ap_ws4 p) EmptyString Hw4 eq_refl) as Hsp.
    rewrite string_app_nil_r in Hsp. rewrite Hsp. simpl. destruct (ap_ws4 p) as [|c w]; [done|].
    unfold all_chars in Hw4. simpl in Hw4. apply andb_true_iff in Hw4 as [Hc _].
    destruct (Ascii.eqb_spec c ",") as [->|]; [done|done].
  - rewrite (skipSpace_app (ap_ws4 p)) by done. done.
Qed.

(** Later parameters of the same name win, as the assignments of the loop. *)
Definition params_of (ps : list auth_param) (m : gmap string string) : gmap string string :=
  foldl (fun m p => <[ap_key p := value_of (ap_value p)]> m) m ps.

Lemma parse_params_text fuel ps params :
  length ps <= fuel -> forallb param_ok ps = true -> ps <> [] ->
  parse_params fuel (params_text ps) params = params_of ps params.
Proof.
  revert fuel params. induction ps as [|p ps IH]; intros fuel params Hf Hok Hne; [done|].
  destruct fuel as [|fuel]; [simpl in Hf; lia|]. simpl in Hok. apply andb_true_iff in Hok as [Hp Hok].
  destruct ps as [|p' ps].
  - change (params_text [p]) with (param_text p). rewrite <- (string_app_nil_r (param_text p)).
    rewrite parse_params_cons by auto. done.
  - change (params_text (p :: p' :: ps)) with (param_text p +:+ String.String "," (params_text (p' :: ps))).
    rewrite parse_params_cons by eauto. rewrite IH by (simpl in *; auto with lia). done.
Qed.

Lemma params_text_length ps : forallb param_ok ps = true -> length ps <= String.length (params_text ps).
Proof.
  induction ps as [|p ps IH]; intros Hok; [done|]. simpl in Hok. apply andb_true_iff in Hok as [Hp Hok].
  specialize (IH Hok). assert (0 < String.length (param_text p)).
  { unfold param_text. rewrite !string_length_append. simpl. lia. }
  destruct ps as [|p' ps]; [change (params_text [p]) with (param_text p); cbn [length]; lia|].
  change (params_text (p :: p' :: ps)) with (param_text p +:+ String.String "," (params_text (p' :: ps))).
  rewrite string_length_append. cbn [length String.length] in *. lia.
Qed.

(** Challenges are read as the grammar says.  From every header made of a scheme
    that is Bearer in any case, white space, and parameters of RFC 7235 (a token, an
    equals sign and a token or a quoted string, with optional white space around each,
    separated by commas), the parser returns the Bearer scheme and exactly these
    parameters, unquoted, the later ones replacing earlier ones of the same name. *)
Theorem parseChallenge_grammar scheme ws ps :
  is_token scheme = true -> EqualFold scheme "bearer" = true ->
  all_chars is_space ws = true -> ws <> EmptyString -> ps <> [] -> forallb param_ok ps = true ->
  parseChallenge (scheme +:+ ws +:+ params_text ps) = (SchemeBearer, params_of ps ∅).
Proof.
  intros Hs Hb Hw Hwne Hne Hok. unfold parseChallenge, parseToken.
  unfold is_token in Hs. apply andb_true_iff in Hs as [Hst _].
  rewrite span_app; [|done|].
  2: { destruct ws as [|c ws]; [done|]. unfold all_chars in Hw. simpl in Hw. apply andb_true_iff in Hw as [Hc _].
       change (negb (isTokenChar c) = true). by rewrite (space_not_token c Hc). }
  unfold parseScheme. rewrite Hb.
  assert (EqualFold scheme "basic" = false) as ->.
  { unfold EqualFold in *. apply String.eqb_eq in Hb. rewrite Hb. reflexivity. }
  f_equal. destruct ps as [|p ps]; [done|]. simpl in Hok. apply andb_true_iff in Hok as [Hp Hok].
  (* the white space before the first parameter belongs to it *)
  set (p1 := mkParam (ws +:+ ap_ws1 p) (ap_key p) (ap_ws2 p) (ap_ws3 p) (ap_value p) (ap_ws4 p)).
  assert (ws +:+ params_text (p :: ps) = params_text (p1 :: ps)) as ->.
  { assert (ws +:+ param_text p = param_text p1) as Hpt by (unfold param_text, p1; simpl; by rewrite !string_app_assoc).
    destruct ps as [|p' ps]; [exact Hpt|].
    change (params_text (p :: p' :: ps)) with (param_text p +:+ String.String "," (params_text (p' :: ps))).
    rewrite <- string_app_assoc, Hpt. done. }
  assert (param_ok p1 = true) as Hp1.
  { unfold param_ok, p1 in *. simpl. rewrite !andb_true_iff in *. destruct Hp as [[[[[H1 H2] H3] H4] H5] H6].
    repeat split; try done. unfold all_chars in *. rewrite chars_app, forallb_app. by rewrite Hw, H1. }
  rewrite parse_params_text; [done| |by simpl; rewrite Hp1|done].
  pose proof (params_text_length (p1 :: ps)) as HL. simpl in HL. rewrite Hp1, Hok in HL. specialize (HL eq_refl).
  rewrite string_length_append. simpl. lia.
Qed.

End grammar.

(** ** An example *)

Module challenge_example.

(** Quoted strings with the escapes of the quote and of the backslash. *)
Definition bslash : ascii := ascii_of_N 92.

Fixpoint escape (v : string) : string :=
  match v with
  | EmptyString => EmptyString
  | String.String c v' =>
      if Ascii.eqb c dquote || Ascii.eqb c bslash
      then String.String bslash (String.String c (escape v')) else String.String c (escape v')
  end.

Definition quote (v : string) : string := String.String dquote (escape v +:+ String.String dquote EmptyString).

(** The text up to the closing quote and its value. *)
Fixpoint scan (s : string) : option (string * string) :=
  match s with
  | EmptyString => None
  | String.String c s' =>
      if Ascii.eqb c dquote then Some (String.String c EmptyString, EmptyString)
      else if Ascii.eqb c bslash then
        match s' with
        | String.String c2 s'' =>
            match scan s'' with
            | Some (r, v) => Some (String.String c (String.String c2 r), String.String c2 v)
            | None => None
            end
        | EmptyString => None
        end
      else match scan s' with
           | Some (r, v) => Some (String.String c r, String.String c v)
           | None => None
           end
  end.

#[export] Instance quoting : GoQuote := {|
  QuotedPrefix s :=
    match s with
    | String.String c s' =>
        if Ascii.eqb c dquote then (fun rv => String.String c rv.1) <$> scan s' else None
    | EmptyString => None
    end;
  Unquote s :=
    match s with
    | String.String c s' =>
        if Ascii.eqb c dquote then
          match scan s' with
          | Some (r, v) => if String.eqb r s' then Some v else None
          | None => None
          end
        else None
    | EmptyString => None
    end
|}.

Lemma scan_escape v rest :
  scan (escape v +:+ String.String dquote rest) = Some (escape v +:+ String.String dquote EmptyString, v).
Proof.
  induction v as [|c v IH]; [done|]. cbn [escape]. destruct (Ascii.eqb c dquote || Ascii.eqb c bslash) eqn:E.
  - change (scan (String.String bslash (String.String c (escape v +:+ String.String dquote rest)))
      = Some (String.String bslash (String.String c (escape v +:+ String.String dquote EmptyString)), String.String c v)).
    cbn [scan]. change (Ascii.eqb bslash dquote) with false. rewrite Ascii.eqb_refl. by rewrite IH.
  - apply orb_false_iff in E as [E1 E2].
    change (scan (String.String c (escape v +:+ String.String dquote rest))
      = Some (String.String c (escape v +:+ String.String dquote EmptyString), String.String c v)).
    cbn [scan]. by rewrite E1, E2, IH.
Qed.

#[export] Instance quoting_laws : GoQuoteLaws quoting quote.
Proof.
  split.
  - intros v. by eexists.
  - intros v rest. unfold quote.
    change (String.String dquote (escape v +:+ String.String dquote EmptyString) +:+ rest)
      with (String.String dquote ((escape v +:+ String.String dquote EmptyString) +:+ rest)).
    rewrite string_app_assoc. cbn [QuotedPrefix quoting]. rewrite Ascii.eqb_refl.
    change (String.String dquote EmptyString +:+ rest) with (String.String dquote rest). by rewrite scan_escape.
  - intros v. unfold quote. cbn [Unquote quoting]. rewrite Ascii.eqb_refl, scan_escape. by rewrite String.eqb_refl.
Qed.

Definition realm : auth_param := mkParam EmptyString "realm" EmptyString EmptyString (VQuoted "https://auth/token") EmptyString.
Definition service : auth_param := mkParam " " "service" " " EmptyString (VToken "registry") " ".

Lemma parseChallenge_grammar_witness :
  parseChallenge ("BEARER" +:+ " " +:+ params_text quote [realm; service])
  = (SchemeBearer, params_of [realm; service] ∅).
Proof.
  apply (parseChallenge_grammar quote "BEARER" " " [realm; service]); try reflexivity; discriminate.
Defined.

(** Warnings in the expected form are passed on, others are ignored. *)
Lemma handleWarningHeaders_example :
  handleWarningHeaders ["299 - " +:+ quote "deprecated"; "199 - " +:+ quote "x"; "299 - x"; "299 - " +:+ quote EmptyString]
  = [mkWarning 299 "-" "deprecated"].
Proof. vm_compute. reflexivity. Qed.

End challenge_example.
