(* ===== verification/HttpClient.v ===== *)
(** What the auth client and the retrying transport use of [net/http] and
    [net/url]: requests with all the values of a header, with [GetBody] and with
    [Host]; and calls that keep an invariant and return only good values. *)

From Stdlib Require Import Ascii String ZArith Lia.
From S2P Require Import Prelude Errors Descriptor Reader GoStrings Scope Http Base64.

#[local] Open Scope string_scope.

(** [http.Header] and [url.Values]: all the values of a name. *)
Notation Values := (gmap string (list string)).

Definition Values_Get (k : string) (h : Values) : string := default EmptyString (head (default [] (h !! k))).
Definition Values_Set (k v : string) (h : Values) : Values := <[k := [v]]> h.
Definition Values_Add (k v : string) (h : Values) : Values := <[k := (default [] (h !! k) ++ [v])%list]> h.

(** [url_Host u] is the [Host] of a request for [u]; [url_Query] and
    [url_SetRawQuery] read and write the query of a URL; [Values_Encode] is
    [Values.Encode]. *)
Class QueryURL `{NetURL} := {
  url_Host : URL -> string;
  url_Query : URL -> Values;
  Values_Encode : Values -> string;
  url_SetRawQuery : string -> URL -> URL
}.

(** [req.Body]: nil, [http.NoBody] or a reader. *)
Inductive ReqBody := NilBody | NoBody | ReaderBody (r : Reader).

Section http_client.
Context {NU : NetURL} {QU : QueryURL}.

(** A request; [GetBody] is a function of the program, so it may change the state
    [N] of the outside world. *)
Record HRequest (N : Type) := mkHRequest {
  hr_Method : Method;
  hr_URL : URL;
  hr_Host : string;
  hr_Header : Values;
  hr_Body : ReqBody;
  hr_GetBody : option (M N ReqBody);
  hr_ContentLength : Z
}.
#[global] Arguments mkHRequest {N}.
#[global] Arguments hr_Method {N}.
#[global] Arguments hr_URL {N}.
#[global] Arguments hr_Host {N}.
#[global] Arguments hr_Header {N}.
#[global] Arguments hr_Body {N}.
#[global] Arguments hr_GetBody {N}.
#[global] Arguments hr_ContentLength {N}.

Context {N : Type}.

(** [req.Clone(ctx)] copies the header and the URL, so a copy is the value. *)
Definition set_Header (h : Values) (r : HRequest N) : HRequest N :=
  mkHRequest (hr_Method r) (hr_URL r) (hr_Host r) h (hr_Body r) (hr_GetBody r) (hr_ContentLength r).
Definition hr_Header_Set (k v : string) (r : HRequest N) : HRequest N :=
  set_Header (Values_Set k v (hr_Header r)) r.
Definition set_Body (b : ReqBody) (r : HRequest N) : HRequest N :=
  mkHRequest (hr_Method r) (hr_URL r) (hr_Host r) (hr_Header r) b (hr_GetBody r) (hr_ContentLength r).
Definition set_URL (u : URL) (r : HRequest N) : HRequest N :=
  mkHRequest (hr_Method r) u (hr_Host r) (hr_Header r) (hr_Body r) (hr_GetBody r) (hr_ContentLength r).

(** [http.NewRequestWithContext] without a body, and with a [strings.Reader]. *)
Definition NewHRequest (method : Method) (url : string) (body : option string) : result (HRequest N) :=
  match url_Parse url with
  | None => Err (ENew "parse url")
  | Some u =>
      let read (b : string) : ReqBody :=
        if String.eqb b EmptyString then NoBody
        else ReaderBody (bytes_NewReader (String.list_byte_of_string b)) in
      Ok (mkHRequest method u (url_Host u) ∅
            (match body with None => NilBody | Some b => read b end)
            ((fun b => (mret (read b) : M N ReqBody)) <$> body)
            (Z.of_nat (String.length (default EmptyString body))))
  end.

(** A request of [Request] with the context set aside, and the request that a
    response keeps: a header has its first value. *)
Definition of_Request (r : Request) : HRequest N :=
  mkHRequest (rq_Method r) (rq_URL r) (url_Host (rq_URL r)) ((fun v => [v]) <$> rq_Header r)
    (match rq_Body r with None => NilBody | Some b => ReaderBody b end)
    ((fun b => (mret (ReaderBody b) : M N ReqBody)) <$> rq_GetBody r) (rq_ContentLength r).
Definition sent_Request (r : HRequest N) : Request :=
  mkRequest (hr_Method r) (hr_URL r) ((fun l => default EmptyString (head l)) <$> hr_Header r)
    (match hr_Body r with ReaderBody b => Some b | _ => None end) None (hr_ContentLength r) Background.

(** [req.SetBasicAuth]. *)
Definition basicAuth (username password : string) : string :=
  base64.EncodeToString (username +:+ ":" +:+ password).
Definition SetBasicAuth (username password : string) (r : HRequest N) : HRequest N :=
  hr_Header_Set "Authorization" ("Basic " +:+ basicAuth username password) r.
End http_client.

(** A client that sends a request and returns the response to it. *)
Class HttpClient `{QueryURL} (N : Type) := { http_Do : HRequest N -> M N Response }.

(** ** Calls that keep an invariant and return only good values *)

Definition yields {W A} (P : W -> Prop) (Q : A -> Prop) (m : M W A) : Prop :=
  forall w, P w -> P (m w).2 /\ forall a, (m w).1 = Ok a -> Q a.

Section yields.
Context {W : Type} (P : W -> Prop).

Lemma yields_ret {A} (Q : A -> Prop) a : Q a -> yields P Q (mret a : M W A).
Proof. intros HQ w Hw. split; [done|]. by intros ? [= <-]. Qed.
Lemma yields_fails {A} (Q : A -> Prop) e : yields P Q (fails e : M W A).
Proof. intros w Hw. by split. Qed.
Lemma yields_bind {A B} (Q : A -> Prop) (R : B -> Prop) (m : M W A) (f : A -> M W B) :
  yields P Q m -> (forall a, Q a -> yields P R (f a)) -> yields P R (m ≫= f).
Proof.
  intros Hm Hf w Hw. destruct (Hm w Hw) as [Hp Hq]. unfold mbind, M_bind.
  destruct (m w) as [[a|e|] w1]; simpl in *; [|done..]. by apply Hf; [apply Hq|].
Qed.
Lemma yields_on_err {A} (Q : A -> Prop) f (m : M W A) : yields P Q m -> yields P Q (on_err f m).
Proof.
  intros Hm w Hw. destruct (Hm w Hw) as [Hp Hq]. unfold on_err.
  destruct (m w) as [[a|e|] w1]; simpl in *; [|done..]. split; [done|]. intros ? [= <-]. by apply Hq.
Qed.
Lemma yields_weaken {A} (Q R : A -> Prop) (m : M W A) : yields P Q m -> (forall a, Q a -> R a) -> yields P R m.
Proof. intros Hm Hi w Hw. destruct (Hm w Hw). split; auto. Qed.
Lemma yields_reads {A} (Q : A -> Prop) (f : W -> result A) :
  (forall w a, P w -> f w = Ok a -> Q a) -> yields P Q (reads f).
Proof. intros Hf w Hw. split; [done|]. intros a Ha. by apply (Hf w). Qed.
End yields.

Create HintDb yields discriminated.
#[export] Hint Resolve yields_ret yields_fails yields_on_err : yields.
