(* ===== verification/AuthCache.v ===== *)
(** Credentials and the token caches of the auth client:
    [registry/remote/auth/credential.go] and [cache.go]. *)

From Stdlib Require Import Ascii String ZArith Lia.
From S2P Require Import Prelude Errors GoStrings Challenge HttpClient.

#[local] Open Scope string_scope.

Record Credential := mkCredential {
  Username : string;
  Password : string;
  RefreshToken : string;
  AccessToken : string
}.

Definition EmptyCredential : Credential := mkCredential EmptyString EmptyString EmptyString EmptyString.

#[export] Instance Credential_eq_dec : EqDecision Credential.
Proof. solve_decision. Defined.

(** The interface [Cache], over a cache state [C] that is a part of the state [W]
    of the program: [fetch] may change [W] too. *)
Class Cache (C : Type) := {
  GetScheme : string -> C -> result Scheme;
  GetToken : string -> Scheme -> string -> C -> result string;
  Set_ : forall {W : Type}, (W -> C) -> (C -> W -> W) ->
    string -> Scheme -> string -> M W string -> M W string
}.

(** ** concurrentCache *)

Record cacheEntry := mkEntry { scheme : Scheme; tokens : gmap string string }.

(** [status] holds the keys of the [Once] values in the map. *)
Record concurrentCache := mkCache { status : gset string; cache : gmap string cacheEntry }.

Module concurrent.

Definition GetScheme (registry : string) (cc : concurrentCache) : result Scheme :=
  match cache cc !! registry with
  | None => ErrS ErrNotFound
  | Some entry => Ok (scheme entry)
  end.

Definition GetToken (registry : string) (sch : Scheme) (key : string) (cc : concurrentCache) : result string :=
  match cache cc !! registry with
  | None => ErrS ErrNotFound
  | Some entry =>
      if decide (scheme entry = sch)
      then match tokens entry !! key with Some token => Ok token | None => ErrS ErrNotFound end
      else ErrS ErrNotFound
  end.

Definition statusKey (registry : string) (sch : Scheme) (key : string) : string :=
  Join " " [registry; Scheme_String sch; key].

(** The last part of [Set]: the entry of the registry, replaced when it is of
    another scheme, gets the token. *)
Definition store (registry : string) (sch : Scheme) (key token : string) (cc : concurrentCache) : concurrentCache :=
  let newEntry := mkEntry sch ∅ in
  let entry :=
    match cache cc !! registry with
    | Some entry => if decide (scheme entry = sch) then entry else newEntry
    | None => newEntry
    end in
  mkCache (status cc) (<[registry := mkEntry (scheme entry) (<[key := token]> (tokens entry))]> (cache cc)).

(** The errors after which a [Once] may be tried again. *)
Definition canceled (e : error) : bool :=
  bool_decide (e = ESentinel Canceled) || bool_decide (e = ESentinel DeadlineExceeded).

(** [Set] of a caller that gets the token of the [Once]; callers that wait for it
    get its result. *)
Definition Set_ {W} (get : W -> concurrentCache) (put : concurrentCache -> W -> W)
    (registry : string) (sch : Scheme) (key : string) (fetch : M W string) : M W string := fun w =>
  let k := statusKey registry sch key in
  let cc := get w in
  let w := put (mkCache ({[k]} ∪ status cc) (cache cc)) w in
  match fetch w with
  | (Panic, w) => (Panic, w)
  | (Err e, w) =>
      if canceled e then (Err e, w)
      else (Err e, put (mkCache (status (get w) ∖ {[k]}) (cache (get w))) w)
  | (Ok token, w) =>
      let cc := mkCache (status (get w) ∖ {[k]}) (cache (get w)) in
      (Ok token, put (store registry sch key token cc) w)
  end.

End concurrent.

Definition NewCache : concurrentCache := mkCache ∅ ∅.

#[export] Instance concurrentCache_Cache : Cache concurrentCache := {|
  GetScheme := concurrent.GetScheme;
  GetToken := concurrent.GetToken;
  Set_ := @concurrent.Set_
|}.

(** ** noCache, hostCache and fallbackCache *)

Definition noCache {C} : Cache C := {|
  GetScheme := fun _ _ => ErrS ErrNotFound;
  GetToken := fun _ _ _ _ => ErrS ErrNotFound;
  Set_ := fun W get put _ _ _ fetch => fetch
|}.

Definition hostCache {C} (Cache_ : Cache C) : Cache C := {|
  GetScheme := GetScheme;
  GetToken := fun registry sch key c => GetToken registry sch EmptyString c;
  Set_ := fun W get put registry sch key fetch => Set_ get put registry sch EmptyString fetch
|}.

(** The error of the first call is dropped; a panic is not. *)
Definition or_else {A} (x y : result A) : result A := match x with Err _ => y | _ => x end.

(** The two caches are views of one state. *)
Definition fallbackCache {C} (primary secondary : Cache C) : Cache C := {|
  GetScheme := fun registry c =>
    or_else (@GetScheme _ primary registry c) (@GetScheme _ secondary registry c);
  GetToken := fun registry sch key c =>
    or_else (@GetToken _ primary registry sch key c) (@GetToken _ secondary registry sch key c);
  Set_ := fun W get put registry sch key fetch =>
    token ← @Set_ _ primary W get put registry sch key fetch;
    @Set_ _ secondary W get put registry sch key (mret token)
|}.

(** [NewSingleContextCache]: both views are of the same [NewCache]. *)
Definition singleContextCache : Cache concurrentCache :=
  fallbackCache concurrentCache_Cache (hostCache concurrentCache_Cache).

(** ** What a cache promises

    A token is returned for the registry and the scheme it was fetched for. *)
Class CacheLaws (C : Type) {CA : Cache C} := {
  has : C -> string -> Scheme -> string -> Prop;
  GetToken_has c registry sch key token :
    GetToken registry sch key c = Ok token -> has c registry sch token;
  Set_yields {W} (get : W -> C) put (Inv : W -> Prop) (P : string -> Scheme -> string -> Prop) registry sch key fetch :
    (forall c w, get (put c w) = c) ->
    (forall c w, Inv w -> Inv (put c w)) ->
    let safe w := Inv w /\ forall r s t, has (get w) r s t -> P r s t in
    yields safe (P registry sch) fetch ->
    yields safe (P registry sch) (Set_ get put registry sch key fetch);
  (** [fetch] is called at most once. *)
  Set_once {W V} (get : W -> C) put (view : W -> V) registry sch key fetch w :
    (forall c w, get (put c w) = c) ->
    (forall c w, view (put c w) = view w) ->
    view (Set_ get put registry sch key fetch w).2 = view w \/
    exists w1, view w1 = view w /\
      view (Set_ get put registry sch key fetch w).2 = view (fetch w1).2
}.

Definition concurrent_has (cc : concurrentCache) (registry : string) (sch : Scheme) (token : string) : Prop :=
  exists entry key, cache cc !! registry = Some entry /\ scheme entry = sch /\ tokens entry !! key = Some token.

Lemma store_has registry sch key token cc r s t :
  concurrent_has (concurrent.store registry sch key token cc) r s t ->
  concurrent_has cc r s t \/ (r = registry /\ s = sch /\ t = token).
Proof.
  intros (e & k & He & <- & Hk). unfold concurrent.store in He. simpl in He.
  destruct (decide (r = registry)) as [->|Hr]; [|rewrite lookup_insert_ne in He by done; left; by exists e, k].
  rewrite lookup_insert_eq in He. injection He as <-. simpl in Hk |- *.
  destruct (decide (k = key)) as [->|Hne];
    [rewrite lookup_insert_eq in Hk; injection Hk as <-|rewrite lookup_insert_ne in Hk by done];
    destruct (cache cc !! registry) as [e|] eqn:E; try destruct (decide (scheme e = sch)) as [<-|]; simpl in *; auto;
    try (by rewrite lookup_empty in Hk).
  left. by exists e, k.
Qed.

#[export, program] Instance concurrentCache_laws : CacheLaws concurrentCache := {| has := concurrent_has |}.
Next Obligation.
  intros c registry sch key token. simpl. unfold concurrent.GetToken.
  destruct (cache c !! registry) as [e|] eqn:E; [|done]. destruct (decide _) as [<-|]; [|done].
  destruct (tokens e !! key) as [t|] eqn:T; [|done]. intros [= <-]. by exists e, key.
Qed.
Next Obligation.
  intros W get put Inv P registry sch key fetch Hgp Hput safe Hf w [Hi Hh]. simpl. unfold concurrent.Set_.
  set (w1 := put _ w). assert (safe w1) as Hs1.
  { split; [by apply Hput|]. intros r s t. unfold w1. rewrite Hgp. apply Hh. }
  destruct (Hf w1 Hs1) as [[Hi2 Hh2] Hq]. destruct (fetch w1) as [[token|e|] w2]; simpl in *.
  - split; [split|]; [by apply Hput| |by apply Hq]. intros r s t. rewrite Hgp.
    intros [Ho|(-> & -> & ->)]%store_has; [by apply Hh2|by apply Hq].
  - destruct (concurrent.canceled e); simpl; [done|]. split; [split|done]; [by apply Hput|].
    intros r s t. rewrite Hgp. apply Hh2.
  - done.
Qed.
Next Obligation.
  intros W V get put view registry sch key fetch w Hgp Hv. right. simpl. unfold concurrent.Set_.
  set (w1 := put _ w). exists w1. split; [apply Hv|].
  destruct (fetch w1) as [[token|e|] w2]; simpl; [by rewrite Hv| |done].
  destruct (concurrent.canceled e); simpl; by rewrite ?Hv.
Qed.

#[export, program] Instance noCache_laws {C} : @CacheLaws C noCache := {| has := fun _ _ _ _ => False |}.
Next Obligation. done. Qed.
Next Obligation. done. Qed.
Next Obligation. intros C W V get put view registry sch key fetch w Hgp Hv. right. by exists w. Qed.

(** The key plays no part, so a host cache and a fallback of two views of one
    state promise the same. *)
#[export, program] Instance hostCache_laws {C} (CA : Cache C) (L : CacheLaws C) : @CacheLaws C (hostCache CA) :=
  {| has := has |}.
Next Obligation. intros C CA L c registry sch key token. simpl. apply GetToken_has. Qed.
Next Obligation. intros C CA L W get put Inv P registry sch key fetch Hgp Hput safe Hf. by apply (@Set_yields C CA L). Qed.
Next Obligation.
  intros C CA L W V get put view registry sch key fetch w Hgp Hv.
  by apply (@Set_once C CA L W V get put view registry sch EmptyString fetch w).
Qed.

Section fallback.
Context {C : Type} (p s : Cache C) (Lp : @CacheLaws C p) (Ls : @CacheLaws C s).
Hypothesis same : @has C p Lp = @has C s Ls.

#[program] Definition fallbackCache_laws : @CacheLaws C (fallbackCache p s) := {| has := @has C p Lp |}.
Next Obligation.
  intros c registry sch key token. simpl. unfold or_else.
  destruct (@GetToken C p registry sch key c) eqn:E; [intros [= <-]; by eapply GetToken_has| |done].
  rewrite same. apply GetToken_has.
Qed.
Next Obligation.
  intros W get put Inv P registry sch key fetch Hgp Hput safe Hf. simpl.
  eapply yields_bind; [by apply (@Set_yields C p Lp)|]. intros t Ht.
  unfold safe. rewrite same. apply (@Set_yields C s Ls); [done..|]. by apply yields_ret.
Qed.
Next Obligation.
  intros W V get put view registry sch key fetch w Hgp Hv. simpl. unfold mbind, M_bind.
  assert (view (match @Set_ C p W get put registry sch key fetch w with
                | (Ok a, w') => @Set_ C s W get put registry sch key (mret a) w'
                | (Err e, w') => (Err e, w') | (Panic, w') => (Panic, w') end).2
          = view (@Set_ C p W get put registry sch key fetch w).2) as ->;
    [|by apply (@Set_once C p Lp W V get put view)].
  destruct (@Set_ C p W get put registry sch key fetch w) as [[t|e|] w1]; simpl; [|done..].
  destruct (@Set_once C s Ls W V get put view registry sch key (mret t) w1) as [H|(w2 & Hw2 & H)]; [done..| |].
  - exact H.
  - rewrite H. exact Hw2.
Qed.
End fallback.

#[export] Instance singleContextCache_laws : @CacheLaws concurrentCache singleContextCache :=
  fallbackCache_laws concurrentCache_Cache (hostCache concurrentCache_Cache)
    concurrentCache_laws (hostCache_laws _ concurrentCache_laws) eq_refl.

(** ** What a cached token is used for *)

(** After [Set] of the concurrent cache returned a token, the cache answers
    with the scheme and the token of that registry and key; the tokens of the other
    keys stay only if the scheme of the registry did not change; every other
    registry is untouched; and the call leaves no [Once] behind. *)
Theorem Cache_Set_spec {W} (get : W -> concurrentCache) put registry sch key fetch token w w' :
  (forall c w, get (put c w) = c) ->
  (forall w, get (fetch w).2 = get w) ->
  Set_ get put registry sch key fetch w = (Ok token, w') ->
  GetScheme registry (get w') = Ok sch /\ GetToken registry sch key (get w') = Ok token /\
  (forall k, k <> key ->
     GetToken registry sch k (get w') =
       if decide (GetScheme registry (get w) = Ok sch) then GetToken registry sch k (get w) else ErrS ErrNotFound) /\
  (forall s k, s <> sch -> GetToken registry s k (get w') = ErrS ErrNotFound) /\
  (forall r, r <> registry -> GetScheme r (get w') = GetScheme r (get w) /\
     forall s k, GetToken r s k (get w') = GetToken r s k (get w)) /\
  status (get w') = status (get w) ∖ {[concurrent.statusKey registry sch key]}.
Proof.
  intros Hgp Hfetch. simpl. unfold concurrent.Set_. set (w0 := put _ w).
  pose proof (Hfetch w0) as Hg. destruct (fetch w0) as [[t|e|] w1]; [|by destruct (concurrent.canceled e)|done].
  unfold w0 in Hg. rewrite Hgp in Hg. simpl in Hg. intros [= -> <-]. rewrite Hgp, Hg.
  unfold concurrent.GetScheme, concurrent.GetToken, concurrent.store. simpl. rewrite lookup_insert_eq. simpl.
  assert (scheme (match cache (get w) !! registry with
     | Some entry => if decide (scheme entry = sch) then entry else mkEntry sch ∅ | None => mkEntry sch ∅ end) = sch) as Hs
    by (destruct (cache (get w) !! registry) as [e|]; [destruct (decide _)|]; done).
  rewrite Hs. split_and!; [done|by rewrite decide_True, lookup_insert_eq by done|..].
  - intros k Hk. rewrite decide_True, lookup_insert_ne by done.
    destruct (cache (get w) !! registry) as [e|]; simpl; [|by rewrite lookup_empty].
    destruct (decide (scheme e = sch)) as [Hse|Hse]; simpl.
    + by rewrite decide_True by congruence.
    + rewrite lookup_empty, decide_False by congruence. done.
  - intros s k Hne. by rewrite decide_False by done.
  - intros r Hr. by rewrite lookup_insert_ne by done.
  - set_solver.
Qed.

Lemma Cache_Set_spec_witness :
  let put (c _ : concurrentCache) := c in
  let w' := (Set_ id put "localhost:5000" SchemeBearer "repository:app:pull" (mret "token" : M concurrentCache string) NewCache).2 in
  GetToken "localhost:5000" SchemeBearer "repository:app:pull" w' = Ok "token" /\
  GetToken "localhost:5000" SchemeBasic EmptyString w' = ErrS ErrNotFound.
Proof.
  intros put w'.
  destruct (Cache_Set_spec id put "localhost:5000" SchemeBearer "repository:app:pull" (mret "token" : M concurrentCache string) "token" NewCache w')
    as (_ & H2 & _ & H4 & _); [done|done|reflexivity|]. split; [exact H2|]. apply H4. done.
Defined.

(** The single context cache answers for every key once it has a token of the
    registry: the host cache ignores the key. *)
Lemma single_context_shared {W} (get : W -> concurrentCache) put registry sch key fetch token w w' k :
  (forall c w, get (put c w) = c) ->
  @Set_ _ singleContextCache W get put registry sch key fetch w = (Ok token, w') ->
  exists t, @GetToken _ singleContextCache registry sch k (get w') = Ok t.
Proof.
  intros Hgp. simpl. rewrite M_bind_Ok. intros (t & w1 & _ & H2).
  unfold concurrent.Set_ in H2. simpl in H2. injection H2 as -> <-. rewrite Hgp.
  unfold or_else, concurrent.GetToken, concurrent.store. simpl. rewrite lookup_insert_eq. simpl.
  set (entry := match cache _ !! registry with Some _ => _ | None => _ end).
  assert (scheme entry = sch) as Hs
    by (unfold entry; destruct (cache _ !! registry) as [e|]; [destruct (decide _)|]; done).
  rewrite !decide_True by done. rewrite lookup_insert_eq.
  destruct (<[EmptyString := token]> (tokens entry) !! k) as [t|]; eauto.
Qed.
