(* ===== verification/AuthClient.v ===== *)
(** The auth client: [registry/remote/auth/client.go].  A request is a value: the
    headers that [send] adds to the request of the caller when it has an
    [Authorization] already are not seen by the caller. *)

From Stdlib Require Import Ascii String ZArith Lia.
From S2P Require Import Prelude Errors Descriptor Reader GoStrings Scope Http Base64 Challenge HttpClient AuthCache.

#[local] Open Scope string_scope.

(** The responses of token servers. *)
Class TokenJSON := {
  Decode_Token : Reader -> result (string * string);      (* token, access_token *)
  Decode_AccessToken : Reader -> result string
}.

Definition maxResponseBytes : Z := 128 * 1024.
Definition defaultClientID : string := "oras-go".

Section client.
Context {NU : NetURL} {QU : QueryURL} {N : Type} {HC : HttpClient N}.
Context {RJ : RegistryJSON} {TJ : TokenJSON} {GQ : GoQuote} {MO : MapOrder}.
Context {C : Type} {CA : Cache C}.

Notation CredentialFunc := (Context_ -> string -> M N Credential).

(** [StaticCredential]. *)
Definition StaticCredential (registry : string) (cred : Credential) : CredentialFunc :=
  let registry := if String.eqb registry "docker.io" then "registry-1.docker.io" else registry in
  fun _ hostport => if String.eqb hostport registry then mret cred else mret EmptyCredential.

(** [Client]; its HTTP client and its cache are [HC] and [CA] ([noCache] when nil),
    a nil header is the empty map. *)
Record AuthClient := mkAuthClient {
  c_Header : Values;
  c_Credential : option CredentialFunc;
  c_ClientID : string;
  c_ForceAttemptOAuth2 : bool
}.

Definition SetUserAgent (userAgent : string) (c : AuthClient) : AuthClient :=
  mkAuthClient (Values_Set "User-Agent" userAgent (c_Header c)) (c_Credential c) (c_ClientID c)
    (c_ForceAttemptOAuth2 c).

(** The outside world, the cache, and what happened on the wire: the requests sent
    with their results, and the response bodies closed. *)
Inductive event := Sent (req : HRequest N) (r : result Response) | Closed (resp : Response).
Record World := mkWorld { net : N; cache_ : C; events : list event }.

Definition put_cache (c : C) (w : World) : World := mkWorld (net w) c (events w).
Definition on_net {A} (m : M N A) : M World A := fun w =>
  let '(r, n) := m (net w) in (r, mkWorld n (cache_ w) (events w)).
Definition Close (resp : Response) : M World unit := fun w =>
  (Ok tt, mkWorld (net w) (cache_ w) (events w ++ [Closed resp])%list).
(** [defer resp.Body.Close()]. *)
Definition defer_Close {A} (resp : Response) (r : result A) : M World A := fun w =>
  (r, (Close resp w).2).
(** [if a, err := f(); err == nil]. *)
Definition tries {A} (f : World -> result A) : M World (option A) := fun w =>
  match f w with Ok a => (Ok (Some a), w) | Err _ => (Ok None, w) | Panic => (Panic, w) end.

Section methods.
Context (c : AuthClient).

(** [req.Header[key] = append(req.Header[key], values...)] for the keys of
    [c.Header]. *)
Definition add_Header (req : HRequest N) : HRequest N :=
  set_Header (union_with (fun a b => Some (a ++ b)%list) (hr_Header req) (c_Header c)) req.

Definition send (req : HRequest N) : M World Response := fun w =>
  let req := add_Header req in
  let '(r, n) := http_Do req (net w) in
  (r, mkWorld n (cache_ w) (events w ++ [Sent req r])%list).

Definition credential (ctx : Context_) (reg : string) : M N Credential :=
  match c_Credential c with None => mret EmptyCredential | Some f => f ctx reg end.

Definition fetchBasicAuth (ctx : Context_) (registry : string) : M World string :=
  cred ← on_err (EWrap "failed to resolve credential") (on_net (credential ctx registry));
  if decide (cred = EmptyCredential) then fails ErrBasicCredentialNotFound
  else if String.eqb (Username cred) EmptyString || String.eqb (Password cred) EmptyString
  then fails (ENew "missing username or password for basic auth")
  else mret (base64.EncodeToString (Username cred +:+ ":" +:+ Password cred)).

(** The request of [fetchDistributionToken]. *)
Definition distributionRequest (realm service : string) (scopes : list string) (username password : string)
    : result (HRequest N) :=
  req ← NewHRequest GET realm None;
  let req :=
    if negb (String.eqb username EmptyString) || negb (String.eqb password EmptyString)
    then SetBasicAuth username password req else req in
  let q := url_Query (hr_URL req) in
  let q := if String.eqb service EmptyString then q else Values_Set "service" service q in
  let q := foldl (fun q scope => Values_Add "scope" scope q) q scopes in
  Ok (set_URL (url_SetRawQuery (Values_Encode q) (hr_URL req)) req).

Definition fetchDistributionToken (realm service : string) (scopes : list string) (username password : string)
    : M World string :=
  req ← reads (fun _ => distributionRequest realm service scopes username password);
  resp ← send req;
  defer_Close resp
    (if negb (bool_decide (StatusCode resp = 200%Z)) then Err (ParseErrorResponse resp)
     else
       '(Token, AccessToken) ← map_err (EWrap "failed to decode response")
         (Decode_Token (LimitReader maxResponseBytes (Body resp)));
       if negb (String.eqb AccessToken EmptyString) then Ok AccessToken
       else if negb (String.eqb Token EmptyString) then Ok Token
       else Err (ENew "empty token returned")).

(** The request of [fetchOAuth2Token]. *)
Definition oauth2Request (realm service : string) (scopes : list string) (cred : Credential)
    : result (HRequest N) :=
  form ← (if negb (String.eqb (RefreshToken cred) EmptyString)
          then Ok (Values_Set "refresh_token" (RefreshToken cred) (Values_Set "grant_type" "refresh_token" ∅))
          else if negb (String.eqb (Username cred) EmptyString) && negb (String.eqb (Password cred) EmptyString)
          then Ok (Values_Set "password" (Password cred)
                     (Values_Set "username" (Username cred) (Values_Set "grant_type" "password" ∅)))
          else Err (ENew "missing username or password for bearer auth"));
  let form := Values_Set "service" service form in
  let clientID := if String.eqb (c_ClientID c) EmptyString then defaultClientID else c_ClientID c in
  let form := Values_Set "client_id" clientID form in
  let form := match scopes with [] => form | _ => Values_Set "scope" (Join " " scopes) form end in
  req ← NewHRequest POST realm (Some (Values_Encode form));
  Ok (hr_Header_Set "Content-Type" "application/x-www-form-urlencoded" req).

Definition fetchOAuth2Token (realm service : string) (scopes : list string) (cred : Credential)
    : M World string :=
  req ← reads (fun _ => oauth2Request realm service scopes cred);
  resp ← send req;
  defer_Close resp
    (if negb (bool_decide (StatusCode resp = 200%Z)) then Err (ParseErrorResponse resp)
     else
       AccessToken ← map_err (EWrap "failed to decode response")
         (Decode_AccessToken (LimitReader maxResponseBytes (Body resp)));
       if negb (String.eqb AccessToken EmptyString) then Ok AccessToken
       else Err (ENew "empty token returned")).

Definition fetchBearerToken (ctx : Context_) (registry realm service : string) (scopes : list string)
    : M World string :=
  cred ← on_net (credential ctx registry);
  if negb (String.eqb (AccessToken cred) EmptyString) then mret (AccessToken cred)
  else if bool_decide (cred = EmptyCredential)
          || String.eqb (RefreshToken cred) EmptyString && negb (c_ForceAttemptOAuth2 c)
  then fetchDistributionToken realm service scopes (Username cred) (Password cred)
  else fetchOAuth2Token realm service scopes cred.

Definition rewindRequestBody (req : HRequest N) : M World (HRequest N) :=
  match hr_Body req with
  | NilBody | NoBody => mret req
  | ReaderBody _ =>
      match hr_GetBody req with
      | None => fails (ENew "request body is not rewindable")
      | Some GetBody =>
          body ← on_err (EWrap "failed to get request body") (on_net GetBody);
          mret (set_Body body req)
      end
  end.

(** The first part of [Do]: a token of the cache, and the key it was looked up
    with. *)
Definition attempt (ctx : Context_) (originalReq : HRequest N) : M World (HRequest N * string) :=
  let host := hr_Host originalReq in
  scheme ← tries (fun w => GetScheme host (cache_ w));
  match scheme with
  | Some SchemeBasic =>
      token ← tries (fun w => GetToken host SchemeBasic EmptyString (cache_ w));
      mret (match token with
            | Some token => hr_Header_Set "Authorization" ("Basic " +:+ token) originalReq
            | None => originalReq
            end, EmptyString)
  | Some SchemeBearer =>
      let attemptedKey := Join " " (GetAllScopesForHost ctx host) in
      token ← tries (fun w => GetToken host SchemeBearer attemptedKey (cache_ w));
      mret (match token with
            | Some token => hr_Header_Set "Authorization" ("Bearer " +:+ token) originalReq
            | None => originalReq
            end, attemptedKey)
  | _ => mret (originalReq, EmptyString)
  end.

(** The scopes of a bearer challenge. *)
Definition challenge_scopes (ctx : Context_) (host : string) (params : gmap string string) : list string :=
  let scopes := GetAllScopesForHost ctx host in
  let paramScope := default EmptyString (params !! "scope") in
  if String.eqb paramScope EmptyString then scopes else CleanScopes (scopes ++ Split " " paramScope)%list.

(** The attempt with a cached token of the scopes of the challenge. *)
Definition attempt_again (originalReq : HRequest N) (key attemptedKey : string) : M World (option Response) :=
  if String.eqb key attemptedKey then mret None
  else
    token ← tries (fun w => GetToken (hr_Host originalReq) SchemeBearer key (cache_ w));
    match token with
    | None => mret None
    | Some token =>
        req ← rewindRequestBody (hr_Header_Set "Authorization" ("Bearer " +:+ token) originalReq);
        resp ← send req;
        if negb (bool_decide (StatusCode resp = 401%Z)) then mret (Some resp)
        else (_ ← Close resp; mret None)
    end.

Definition Do (ctx : Context_) (originalReq : HRequest N) : M World Response :=
  if negb (String.eqb (Values_Get "Authorization" (hr_Header originalReq)) EmptyString) then send originalReq
  else
    let host := hr_Host originalReq in
    '(req, attemptedKey) ← attempt ctx originalReq;
    resp ← send req;
    if negb (bool_decide (StatusCode resp = 401%Z)) then mret resp
    else
      let '(scheme, params) := parseChallenge (Header_Get "Www-Authenticate" (rs_Header resp)) in
      match scheme with
      | SchemeBasic =>
          _ ← Close resp;
          token ← on_err (EWrap "fetch") (Set_ cache_ put_cache host SchemeBasic EmptyString (fetchBasicAuth ctx host));
          req ← rewindRequestBody (hr_Header_Set "Authorization" ("Basic " +:+ token) originalReq);
          send req
      | SchemeBearer =>
          _ ← Close resp;
          let scopes := challenge_scopes ctx host params in
          let key := Join " " scopes in
          again ← attempt_again originalReq key attemptedKey;
          match again with
          | Some resp => mret resp
          | None =>
              let realm := default EmptyString (params !! "realm") in
              let service := default EmptyString (params !! "service") in
              token ← on_err (EWrap "fetch") (Set_ cache_ put_cache host SchemeBearer key
                (fetchBearerToken ctx host realm service scopes));
              req ← rewindRequestBody (hr_Header_Set "Authorization" ("Bearer " +:+ token) originalReq);
              send req
          end
      | SchemeUnknown => mret resp
      end.
End methods.

(** The auth client as the client of a repository; the context of a request is the
    one the auth client reads. *)
Definition auth_Client (c : AuthClient) : Client World :=
  {| Http.Do r := Do c (rq_Context r) (of_Request r) |}.

End client.
