(* ===== verification/AuthCorrect.v ===== *)
(** What the auth client sends, and to whom: credentials and tokens reach only the
    host they are for and the token server that host named, as long as the HTTP client
    is not redirected to another host; every response that is
    not returned is closed, after a bounded number of requests. *)

From Stdlib Require Import Ascii String ZArith Lia.
From S2P Require Import Prelude Errors Descriptor Reader GoStrings Scope Http Base64 Challenge HttpClient AuthCache AuthClient.

#[local] Open Scope string_scope.

Section correct.
Context {NU : NetURL} {QU : QueryURL} {N : Type} {HC : HttpClient N}.
Context {RJ : RegistryJSON} {TJ : TokenJSON} {GQ : GoQuote} {MO : MapOrder}.
Context {C : Type} {CA : Cache C} {CL : CacheLaws C}.
Context (c : @AuthClient N).

Notation World := (@World NU N C).

(** ** Where secrets come from *)

(** The client's credential for a host. *)
Definition grants (host : string) (cred : Credential) : Prop :=
  exists ctx n n', credential c ctx host n = (Ok cred, n').

Definition answered (req : HRequest N) (resp : Response) : Prop :=
  exists n n', http_Do req n = (Ok resp, n').

(** The host challenged with that realm: the response came from the host, not from
    another one that the HTTP client was redirected to ([resp.Request] is the last
    request of a chain of redirects). *)
Definition challenged (host realm : string) : Prop :=
  exists req resp params, hr_Host req = host /\ answered req resp /\
    url_Host (rq_URL (rs_Request resp)) = host /\ StatusCode resp = 401%Z /\
    parseChallenge (Header_Get "Www-Authenticate" (rs_Header resp)) = (SchemeBearer, params) /\
    realm = default EmptyString (params !! "realm").

(** A request for a token on behalf of a host: to the realm the host named, with
    the credential for that host. *)
Definition token_request (host : string) (req : HRequest N) : Prop :=
  exists realm service scopes cred r,
    challenged host realm /\ grants host cred /\
    (distributionRequest realm service scopes (Username cred) (Password cred) = Ok r \/
     oauth2Request c realm service scopes cred = Ok r) /\
    req = add_Header c r.

Definition token_response (resp : Response) (token : string) : Prop :=
  Decode_AccessToken (LimitReader maxResponseBytes (Body resp)) = Ok token \/
  exists t a, Decode_Token (LimitReader maxResponseBytes (Body resp)) = Ok (t, a) /\ (token = t \/ token = a).

(** The tokens that belong to a host. *)
Inductive issued (host : string) : Scheme -> string -> Prop :=
| issued_basic cred :
    grants host cred -> issued host SchemeBasic (basicAuth (Username cred) (Password cred))
| issued_access cred : grants host cred -> issued host SchemeBearer (AccessToken cred)
| issued_fetched req resp token :
    token_request host req -> answered req resp -> token_response resp token ->
    issued host SchemeBearer token.

(** ** What may be sent for a request of the caller *)

Definition Authorization (sch : Scheme) (token : string) : string :=
  match sch with SchemeBasic => "Basic " | _ => "Bearer " end +:+ token.

(** The request of the caller, as it is or with a token that belongs to its host;
    its body is the body of the caller's request or one of [GetBody]. *)
Definition derived (originalReq req : HRequest N) : Prop :=
  exists r b, req = add_Header c (set_Body b r) /\
    (r = originalReq \/ exists sch token, issued (hr_Host originalReq) sch token /\
       r = hr_Header_Set "Authorization" (Authorization sch token) originalReq).

Definition confined (originals : list (HRequest N)) (e : event) : Prop :=
  match e with
  | Sent req _ => (exists o, o ∈ originals /\ derived o req) \/ (exists host, token_request host req)
  | Closed _ => True
  end.

(** The state between calls. *)
Definition safe (originals : list (HRequest N)) (w : World) : Prop :=
  Forall (confined originals) (events w) /\ forall r s t, has (cache_ w) r s t -> issued r s t.

(** The HTTP client follows no redirect to another host: the response to a request
    for a host comes from that host. *)
Definition stays_on_host : Prop := forall req n resp n', url_Host (hr_URL req) = hr_Host req ->
  http_Do req n = (Ok resp, n') -> url_Host (rq_URL (rs_Request resp)) = hr_Host req.

Section do.
Context (Hstays : stays_on_host).
Context (originals : list (HRequest N)) (o : HRequest N) (Ho : o ∈ originals) (Hurl : url_Host (hr_URL o) = hr_Host o).
Notation S := (safe originals).

Lemma on_net_yields {A} (Q : A -> Prop) (m : M N A) :
  (forall n a n', m n = (Ok a, n') -> Q a) -> yields S Q (on_net m).
Proof.
  intros Hm w Hw. unfold on_net. specialize (Hm (net w)).
  destruct (m (net w)) as [[a|e|] n]; simpl; (split; [done|]); [|done..]. intros ? [= <-]. by apply (Hm a n).
Qed.

Lemma credential_yields ctx host : yields S (grants host) (on_net (credential c ctx host)).
Proof. apply on_net_yields. intros n a n' H. by exists ctx, n, n'. Qed.

Lemma tries_yields {A} (f : World -> result A) (Q : A -> Prop) :
  (forall w a, S w -> f w = Ok a -> Q a) -> yields S (fun r => forall a, r = Some a -> Q a) (tries f).
Proof.
  intros Hf w Hw. unfold tries. specialize (Hf w). destruct (f w) as [a|e|]; simpl; split; try done.
  - intros ? [= <-] ? [= <-]. by apply Hf.
  - by intros ? [= <-] ?.
Qed.

Lemma send_yields req : (forall r, confined originals (Sent (add_Header c req) r)) ->
  yields S (answered (add_Header c req)) (send c req).
Proof.
  intros Hc w [He Hh]. unfold send. destruct (http_Do (add_Header c req) (net w)) as [r n] eqn:E.
  split; [|intros resp; simpl; intros ->; by exists (net w), n]. split; [|done].
  apply Forall_app. split; [done|]. constructor; [apply Hc|constructor].
Qed.

Lemma Close_yields resp : yields S (fun _ => True) (Close resp).
Proof.
  intros w [He Hh]. split; [|done]. split; [|done].
  apply Forall_app. split; [done|]. by repeat constructor.
Qed.

Lemma defer_Close_yields {A} (Q : A -> Prop) resp (r : result A) :
  (forall a, r = Ok a -> Q a) -> yields S Q (defer_Close resp r).
Proof. intros Hr w Hw. split; [by apply Close_yields|done]. Qed.

Lemma sent_original b r : confined originals (Sent (add_Header c (set_Body b o)) r).
Proof. left. exists o. split; [done|]. exists o, b. auto. Qed.

Lemma sent_authorized sch token b r : issued (hr_Host o) sch token ->
  confined originals (Sent (add_Header c (set_Body b (hr_Header_Set "Authorization" (Authorization sch token) o))) r).
Proof. intros Hi. left. exists o. split; [done|]. eexists _, b. split; [done|]. right. by exists sch, token. Qed.

Lemma set_Body_same (r : HRequest N) : set_Body (hr_Body r) r = r.
Proof. by destruct r. Qed.

Lemma rewind_yields req : yields S (fun r => exists b, r = set_Body b req) (rewindRequestBody req).
Proof.
  unfold rewindRequestBody. destruct (hr_Body req) eqn:E; [apply yields_ret..|].
  1, 2: exists (hr_Body req); by rewrite set_Body_same.
  destruct (hr_GetBody req) as [g|]; [|apply yields_fails].
  eapply (yields_bind _ (fun _ => True)); [by apply yields_on_err, on_net_yields|].
  intros b _. apply yields_ret. by exists b.
Qed.

(** A request with a token of its host is sent again. *)
Lemma resend_yields sch token : issued (hr_Host o) sch token ->
  yields S (fun resp => exists req, hr_Host req = hr_Host o /\ answered req resp)
    (req ← rewindRequestBody (hr_Header_Set "Authorization" (Authorization sch token) o); send c req).
Proof.
  intros Hi. eapply yields_bind; [apply rewind_yields|]. intros ? [b ->].
  eapply yields_weaken; [apply send_yields; intros r; by apply sent_authorized|].
  intros resp Hr. eexists. split; [|exact Hr]. done.
Qed.

Lemma fetchBasicAuth_yields ctx host : yields S (issued host SchemeBasic) (fetchBasicAuth c ctx host).
Proof.
  unfold fetchBasicAuth. eapply yields_bind; [apply yields_on_err, credential_yields|]. intros cred Hg.
  destruct (decide _); [apply yields_fails|]. destruct (_ || _); [apply yields_fails|].
  by apply yields_ret, issued_basic.
Qed.

(** What is left once the request is known to be a token request. *)
Lemma token_yields host (r : result (HRequest N)) (f : Response -> result string) :
  (forall req, r = Ok req -> token_request host (add_Header c req)) ->
  (forall resp token, f resp = Ok token -> token_response resp token) ->
  yields S (issued host SchemeBearer)
    (req ← reads (fun _ => r); resp ← send c req; defer_Close resp (f resp)).
Proof.
  intros Hr Hf. eapply (yields_bind _ (fun req => r = Ok req)); [by apply yields_reads|]. intros req Hreq.
  eapply yields_bind; [apply send_yields; intros ?; right; exists host; auto|].
  intros resp Ha. apply defer_Close_yields. intros token Ht. eapply issued_fetched; eauto.
Qed.

Lemma fetchDistributionToken_yields host realm service scopes cred :
  challenged host realm -> grants host cred ->
  yields S (issued host SchemeBearer)
    (fetchDistributionToken c realm service scopes (Username cred) (Password cred)).
Proof.
  intros Hc Hg. apply token_yields.
  - intros req Hreq. exists realm, service, scopes, cred, req. auto.
  - intros resp token. destruct (negb _); [done|]. rewrite bind_Ok. intros ([t a] & Hd%map_err_Ok & H). right. exists t, a.
    split; [done|]. destruct (negb _); [injection H; auto|]. destruct (negb _); [injection H; auto|done].
Qed.

Lemma fetchOAuth2Token_yields host realm service scopes cred :
  challenged host realm -> grants host cred ->
  yields S (issued host SchemeBearer) (fetchOAuth2Token c realm service scopes cred).
Proof.
  intros Hc Hg. apply token_yields.
  - intros req Hreq. exists realm, service, scopes, cred, req. auto.
  - intros resp token. destruct (negb _); [done|]. rewrite bind_Ok. intros (a & Hd%map_err_Ok & H). left.
    destruct (negb _); [by injection H as <-|done].
Qed.

Lemma fetchBearerToken_yields ctx host realm service scopes : challenged host realm ->
  yields S (issued host SchemeBearer) (fetchBearerToken c ctx host realm service scopes).
Proof.
  intros Hc. unfold fetchBearerToken. eapply yields_bind; [apply credential_yields|]. intros cred Hg.
  destruct (negb _); [by apply yields_ret, issued_access|].
  destruct (_ || _); [by apply fetchDistributionToken_yields|by apply fetchOAuth2Token_yields].
Qed.

Lemma cached_yields host sch key :
  yields S (fun r => forall token, r = Some token -> issued host sch token)
    (tries (fun w => GetToken host sch key (cache_ w))).
Proof. apply tries_yields. intros w token [_ Hh] Ht. by apply Hh, (GetToken_has _ _ _ key). Qed.

Lemma Set_issued host sch key fetch : yields S (issued host sch) fetch ->
  yields S (issued host sch) (Set_ cache_ put_cache host sch key fetch).
Proof.
  intros Hf. apply (Set_yields cache_ put_cache (fun w : World => Forall (confined originals) (events w)));
    [done..|exact Hf].
Qed.

Definition or_authorized (req : HRequest N) : Prop :=
  req = o \/ exists sch token, issued (hr_Host o) sch token /\
    req = hr_Header_Set "Authorization" (Authorization sch token) o.

Lemma attempt_yields ctx : yields S (fun r => or_authorized r.1) (attempt ctx o).
Proof.
  unfold attempt. eapply (yields_bind _ (fun _ => True)).
  { eapply yields_weaken; [apply (tries_yields _ (fun _ => True)); done|done]. }
  intros [[]|] _; [by apply yields_ret; left| | |by apply yields_ret; left];
    (eapply yields_bind; [apply cached_yields|]; intros [t|] Ht; apply yields_ret; simpl; [right|by left]).
  - exists SchemeBasic, t. split; [by apply Ht|done].
  - exists SchemeBearer, t. split; [by apply Ht|done].
Qed.

Lemma attempt_again_yields key attemptedKey : yields S (fun _ => True) (attempt_again c o key attemptedKey).
Proof.
  unfold attempt_again. destruct (String.eqb _ _); [by apply yields_ret|].
  eapply yields_bind; [apply cached_yields|]. intros [t|] Ht; [|by apply yields_ret].
  eapply yields_bind; [apply rewind_yields|]. intros ? [b ->].
  eapply (yields_bind _ (fun _ => True)).
  { eapply yields_weaken; [|done]. apply send_yields. intros r. apply (sent_authorized SchemeBearer). by apply Ht. }
  intros resp _. destruct (negb _); [by apply yields_ret|].
  eapply yields_bind; [apply Close_yields|]. intros _ _. by apply yields_ret.
Qed.

Lemma resend sch token : issued (hr_Host o) sch token ->
  yields S (fun _ => True)
    (req ← rewindRequestBody (hr_Header_Set "Authorization" (Authorization sch token) o); send c req).
Proof. intros Hi. eapply yields_weaken; [by apply resend_yields|done]. Qed.

Lemma Do_yields ctx : yields S (fun _ => True) (Do c ctx o).
Proof.
  unfold Do. destruct (negb _).
  { eapply yields_weaken; [|done]. apply send_yields. intros r. rewrite <- (set_Body_same o). apply sent_original. }
  eapply yields_bind; [apply attempt_yields|]. intros [req attemptedKey] Hreq. simpl in Hreq.
  assert (hr_Host req = hr_Host o /\ hr_URL req = hr_URL o) as [Hhost Hu]
    by (destruct Hreq as [->|(? & ? & _ & ->)]; done).
  eapply yields_bind.
  { apply send_yields. intros r. left. exists o. split; [done|]. exists req, (hr_Body req).
    split; [by rewrite set_Body_same|done]. }
  intros resp Hresp. destruct (negb (bool_decide _)) eqn:Hs; [by apply yields_ret|].
  apply negb_false_iff, bool_decide_eq_true in Hs.
  destruct (parseChallenge _) as [[] params] eqn:Hp; [by apply yields_ret|..];
    (eapply yields_bind; [apply Close_yields|]; intros _ _).
  - eapply yields_bind; [apply yields_on_err, Set_issued, fetchBasicAuth_yields|].
    intros token Ht. by apply (resend SchemeBasic).
  - eapply yields_bind; [apply attempt_again_yields|]. intros [r|] _; [by apply yields_ret|].
    eapply yields_bind; [apply yields_on_err, Set_issued, fetchBearerToken_yields|].
    + exists (add_Header c req), resp, params. split_and!; try done. rewrite <- Hhost.
      destruct Hresp as (n & n' & HD). eapply (Hstays (add_Header c req)); [|exact HD]. simpl. by rewrite Hu, Hhost.
    + intros token Ht. by apply (resend SchemeBearer).
Qed.
End do.

(** The calls of a client, one after another. *)
Definition Do_all (calls : list (Context_ * HRequest N)) (w : World) : World :=
  foldl (fun w call => (Do c call.1 call.2 w).2) w calls.

Lemma Do_all_safe originals calls w : stays_on_host ->
  (forall o, o ∈ calls.*2 -> o ∈ originals /\ url_Host (hr_URL o) = hr_Host o) ->
  safe originals w -> safe originals (Do_all calls w).
Proof.
  intros Hstays. revert w. induction calls as [|[ctx o] calls IH]; intros w Hin Hw; [done|].
  destruct (Hin o) as [Ho Hu]; [by left|].
  apply IH; [intros o' Ho'; apply Hin; by right|]. by apply (Do_yields Hstays originals o).
Qed.

(** ** Requests and open responses *)

Definition sends (l : list (@event NU N)) : nat :=
  length (List.filter (fun e => match e with Sent _ _ => true | _ => false end) l).

(** The responses received, and those closed. *)
Definition received (l : list (@event NU N)) : list Response :=
  omap (fun e => match e with Sent _ (Ok resp) => Some resp | _ => None end) l.
Definition closed (l : list (@event NU N)) : list Response :=
  omap (fun e => match e with Closed resp => Some resp | _ => None end) l.

Lemma sends_app l1 l2 : sends (l1 ++ l2) = (sends l1 + sends l2)%nat.
Proof. unfold sends. by rewrite List.filter_app, length_app. Qed.

(** The call [m] sends at most [k] requests; when the responses [pre] are open
    before it, those open after it are [post a] when it returns [a], and none when it
    fails: every other response that was open or received is closed, once. *)
Definition owns {A} (k : nat) (pre : list Response) (post : A -> list Response) (m : M World A) : Prop :=
  forall w, exists new, events (m w).2 = (events w ++ new)%list /\ (sends new <= k)%nat /\
    pre ++ received new ≡ₚ closed new ++ match (m w).1 with Ok a => post a | _ => [] end.

Lemma owns_ret {A} k (post : A -> list Response) a : owns k (post a) post (mret a : M World A).
Proof.
  intros w. exists []. simpl. rewrite !app_nil_r. split_and!; [done|unfold sends; simpl; lia|done].
Qed.

Lemma owns_fails {A} (post : A -> list Response) e : owns 0 [] post (fails e : M World A).
Proof. intros w. exists []. simpl. rewrite app_nil_r. by split_and!. Qed.

Lemma owns_weaken {A} k k' pre (post : A -> list Response) (m : M World A) :
  owns k pre post m -> (k <= k')%nat -> owns k' pre post m.
Proof. intros Hm Hk w. destruct (Hm w) as (new & ? & ? & ?). exists new. split_and!; [done|lia|done]. Qed.

Lemma owns_bind {A B} k1 k2 pre (mid : A -> list Response) (post : B -> list Response)
    (m : M World A) (f : A -> M World B) :
  owns k1 pre mid m -> (forall a, owns k2 (mid a) post (f a)) -> owns (k1 + k2) pre post (m ≫= f).
Proof.
  intros Hm Hf w. destruct (Hm w) as (new & He & Hs & Ho). unfold mbind, M_bind.
  destruct (m w) as [[a|e|] w1]; simpl in *; [|exists new; split_and!; [done|lia|done]..].
  destruct (Hf a w1) as (new' & He' & Hs' & Ho'). exists (new ++ new')%list.
  unfold received, closed in *. rewrite sends_app, !omap_app, He', He, app_assoc.
  split_and!; [done|lia|]. by rewrite app_assoc, Ho, <- !app_assoc, Ho'.
Qed.

Lemma owns_on_err {A} k pre (post : A -> list Response) g (m : M World A) :
  owns k pre post m -> owns k pre post (on_err g m).
Proof.
  intros Hm w. destruct (Hm w) as (new & He & Hs & Ho). exists new. unfold on_err.
  by destruct (m w) as [[a|e|] w1].
Qed.

Lemma owns_still {A} (m : M World A) : (forall w, events (m w).2 = events w) -> owns 0 [] (fun _ => []) m.
Proof.
  intros Hm w. exists []. rewrite app_nil_r. split_and!; [done..|]. by destruct (m w) as [[] ?].
Qed.

Lemma owns_on_net {A} (m : M N A) : owns 0 [] (fun _ => []) (on_net m).
Proof. apply owns_still. intros w. unfold on_net. by destruct (m (net w)). Qed.
Lemma owns_tries {A} (f : World -> result A) : owns 0 [] (fun _ => []) (tries f).
Proof. apply owns_still. intros w. unfold tries. by destruct (f w). Qed.
Lemma owns_reads {A} (f : World -> result A) : owns 0 [] (fun _ => []) (reads f).
Proof. by apply owns_still. Qed.

Lemma owns_send req : owns 1 [] (fun resp => [resp]) (send c req).
Proof.
  intros w. unfold send. destruct (http_Do _ (net w)) as [r n]. simpl. eexists. split; [done|].
  split; [done|]. by destruct r.
Qed.
Lemma owns_Close resp : owns 0 [resp] (fun _ => []) (Close resp).
Proof. intros w. simpl. eexists. split; [done|]. by split; [vm_compute; lia|]. Qed.
Lemma owns_defer_Close {A} resp (r : result A) : owns 0 [resp] (fun _ => []) (defer_Close resp r).
Proof. intros w. simpl. eexists. split; [done|]. split; [vm_compute; lia|]. by destruct r. Qed.

Lemma owns_fetchBasicAuth ctx host : owns 0 [] (fun _ => []) (fetchBasicAuth c ctx host : M World string).
Proof.
  eapply (owns_bind 0 0); [apply owns_on_err, owns_on_net|]. intros cred.
  destruct (decide _); [apply owns_fails|]. destruct (_ || _); [apply owns_fails|].
  apply (owns_ret 0 (fun _ => [])).
Qed.

Lemma owns_token (r : result (HRequest N)) (f : Response -> result string) :
  owns 1 [] (fun _ => []) (req ← reads (fun _ => r); resp ← send c req; defer_Close resp (f resp) : M World string).
Proof.
  eapply (owns_bind 0 1); [apply owns_reads|]. intros req.
  eapply (owns_bind 1 0); [apply owns_send|]. intros resp. apply owns_defer_Close.
Qed.

Lemma owns_fetchBearerToken ctx host realm service scopes :
  owns 1 [] (fun _ => []) (fetchBearerToken c ctx host realm service scopes : M World string).
Proof.
  eapply (owns_bind 0 1); [apply owns_on_net|]. intros cred.
  destruct (negb _); [apply (owns_ret 1 (fun _ => []))|].
  destruct (_ || _); apply owns_token.
Qed.

Lemma owns_Set k host sch key (fetch : M World string) : owns k [] (fun _ => []) fetch ->
  owns k [] (fun _ => []) (Set_ cache_ put_cache host sch key fetch).
Proof.
  intros Hf w. set (r := Set_ _ _ _ _ _ _).
  assert (forall x : result string, match x with Ok _ => [] | _ => [] end = ([] : list Response)) as Hz by by intros [].
  rewrite Hz. destruct (Set_once cache_ put_cache events host sch key fetch w) as [He|(w1 & H1 & He)]; [done..| |].
  - exists []. rewrite app_nil_r. split_and!; [done|unfold sends; simpl; lia|done].
  - destruct (Hf w1) as (new & Hn & Hs & Ho). rewrite Hz in Ho. exists new. unfold r. rewrite He, Hn, H1. done.
Qed.

Lemma owns_rewind req : owns 0 [] (fun _ => []) (rewindRequestBody req : M World _).
Proof.
  unfold rewindRequestBody. destruct (hr_Body req); [apply (owns_ret 0 (fun _ => []))..|].
  destruct (hr_GetBody req); [|apply owns_fails]. eapply (owns_bind 0 0); [apply owns_on_err, owns_on_net|].
  intros b. apply (owns_ret 0 (fun _ => [])).
Qed.

Lemma owns_resend req :
  owns 1 [] (fun resp => [resp]) (r ← rewindRequestBody req; send c r : M World Response).
Proof. eapply (owns_bind 0 1); [apply owns_rewind|]. intros r. apply owns_send. Qed.

Lemma owns_attempt ctx o : owns 0 [] (fun _ => []) (attempt ctx o : M World _).
Proof.
  eapply (owns_bind 0 0); [apply owns_tries|].
  intros [[]|]; try (apply (owns_ret 0 (fun _ => [])));
    (eapply (owns_bind 0 0); [apply owns_tries|]; intros t; apply (owns_ret 0 (fun _ => []))).
Qed.

Definition some_open (r : option Response) : list Response := match r with Some resp => [resp] | None => [] end.

Lemma owns_attempt_again o key attemptedKey :
  owns 1 [] some_open (attempt_again c o key attemptedKey : M World _).
Proof.
  unfold attempt_again. destruct (String.eqb _ _); [apply (owns_ret 1 some_open)|].
  eapply (owns_bind 0 1); [apply owns_tries|].
  intros [t|]; [|apply (owns_ret 1 some_open)].
  eapply (owns_bind 0 1); [apply owns_rewind|]. intros r. eapply (owns_bind 1 0); [apply owns_send|]. intros resp.
  destruct (negb _); [apply (owns_ret 0 some_open (Some resp))|].
  eapply (owns_bind 0 0); [apply owns_Close|]. intros []. apply (owns_ret 0 some_open None).
Qed.

Lemma owns_Do ctx o : owns 4 [] (fun resp => [resp]) (Do c ctx o : M World Response).
Proof.
  unfold Do. destruct (negb _); [eapply owns_weaken; [apply owns_send|lia]|].
  eapply (owns_bind 0 4); [apply owns_attempt|]. intros [req attemptedKey].
  eapply (owns_bind 1 3); [apply owns_send|]. intros resp.
  destruct (negb _); [apply (owns_ret 3 (fun resp => [resp]))|].
  destruct (parseChallenge _) as [[] params];
    [apply (owns_ret 3 (fun resp => [resp]))|..]; (eapply (owns_bind 0 3); [apply owns_Close|]; intros []).
  - apply (owns_weaken (0 + 1)); [|lia]. eapply owns_bind; [|intros; apply owns_resend].
    apply owns_on_err, owns_Set, owns_fetchBasicAuth.
  - eapply (owns_bind 1 2); [apply owns_attempt_again|]. intros [r|]; simpl.
    + apply (owns_ret 2 (fun resp => [resp])).
    + eapply (owns_bind 1 1); [|intros; apply owns_resend].
      apply owns_on_err, owns_Set, owns_fetchBearerToken.
Qed.
End correct.
