(* ===== verification/AuthExample.v ===== *)
(** The guarantees of the auth client, and a registry with a token server that
    they are instantiated at. *)

From Stdlib Require Import Ascii String ZArith Lia.
From S2P Require Import Prelude Errors Descriptor Reader GoStrings Scope Http Base64 Challenge ChallengeCorrect HttpClient AuthCache AuthClient AuthCorrect.

#[local] Open Scope string_scope.

(** ** A registry and its token server *)
Module auth_example.
Import challenge_example.

#[export] Instance url_text : NetURL := {|
  URL := string;
  url_Parse s := if String.eqb s EmptyString then None else Some s;
  url_Ref _ s := Some s;
  url_String u := u;
  url_Scheme _ := "https";
  url_Hostname u := u;
  url_Port _ := EmptyString;
  url_SetHost _ u := u;
  url_SetQuery _ _ u := u;
  ParseMediaType s := Some s
|}.

(** The part between the slashes of the scheme and of the path. *)
#[export] Instance url_query : QueryURL := {|
  url_Host u := match Split "/" u with _ :: _ :: h :: _ => h | _ => EmptyString end;
  url_Query _ := ∅;
  Values_Encode v := Join "&" ((fun kv => kv.1 +:+ "=" +:+ Join "," kv.2) <$> map_to_list v);
  url_SetRawQuery q u := u +:+ "?" +:+ q
|}.

#[export] Instance no_codes : RegistryJSON := {|
  Decode_Index _ := Err (ENew "json");
  Decode_Tags _ := Err (ENew "json");
  Decode_Repositories _ := Err (ENew "json");
  Decode_ErrorCodes _ := None
|}.

(** The token is the whole body. *)
#[export] Instance token_text : TokenJSON := {|
  Decode_Token r := (fun b => (EmptyString, String.string_of_list_byte b)) <$> io_ReadAll r;
  Decode_AccessToken r := String.string_of_list_byte <$> io_ReadAll r
|}.

#[export] Instance map_order : MapOrder := canonical_order.

Definition reply (status : Z) (h : list (string * string)) (body : string) (req : HRequest unit) : Response :=
  mkResponse status (list_to_map h) [] 0 (bytes_NewReader (String.list_byte_of_string body))
    (sent_Request req).

Definition q (s : string) : string := quote s.
Definition bearer_challenge : string :=
  "Bearer realm=" +:+ q "https://auth.example/token" +:+ ",service=" +:+ q "reg.example" +:+ ",scope="
    +:+ q "repository:app:pull".

(** The registry wants the token of the token server, another host wants a
    password. *)
Definition serve (req : HRequest unit) : Response :=
  let auth := Values_Get "Authorization" (hr_Header req) in
  if String.eqb (hr_Host req) "auth.example" then reply 200 [] "t0ken" req
  else if String.eqb (hr_Host req) "reg.example" then
    if String.eqb auth "Bearer t0ken" then reply 200 [] "content" req
    else reply 401 [("Www-Authenticate", bearer_challenge)] EmptyString req
  else if String.eqb auth ("Basic " +:+ basicAuth "user" "pass") then reply 200 [] "content" req
  else reply 401 [("Www-Authenticate", "Basic realm=x")] EmptyString req.

#[export] Instance server : HttpClient unit := {| http_Do req n := (Ok (serve req), n) |}.

Definition client : @AuthClient unit :=
  SetUserAgent "oras-go" (mkAuthClient ∅ (Some (StaticCredential "basic.example" (mkCredential "user" "pass" EmptyString EmptyString)))
    EmptyString false).

Definition get (host : string) : HRequest unit :=
  mkHRequest GET ("https://" +:+ host +:+ "/v2/") host ∅ NilBody None 0.
Definition ctx : Context_ := mkContext None ∅.
Definition start : @World url_text unit concurrentCache := mkWorld tt NewCache [].

Definition summary (w : @World url_text unit concurrentCache) : list (string * string) :=
  omap (fun e => match e with Sent r _ => Some (hr_URL r, Values_Get "Authorization" (hr_Header r)) | _ => None end)
    (events w).

(** The first call to a registry fetches a token, the second uses it after the
    challenge named the scope; with a password there is no token server. *)
Lemma three_calls :
  summary (Do_all client [(ctx, get "reg.example"); (ctx, get "reg.example"); (ctx, get "basic.example")] start)
  = [("https://reg.example/v2/", EmptyString);
     ("https://auth.example/token?scope=repository:app:pull&service=reg.example", EmptyString);
     ("https://reg.example/v2/", "Bearer t0ken");
     ("https://reg.example/v2/", EmptyString);
     ("https://reg.example/v2/", "Bearer t0ken");
     ("https://basic.example/v2/", EmptyString);
     ("https://basic.example/v2/", "Basic dXNlcjpwYXNz")].
Proof. vm_compute. reflexivity. Qed.
End auth_example.

(** ** Guarantees *)

Section guarantees.
Context {NU : NetURL} {QU : QueryURL} {N : Type} {HC : HttpClient N}.
Context {RJ : RegistryJSON} {TJ : TokenJSON} {GQ : GoQuote} {MO : MapOrder}.
Context {C : Type} {CA : Cache C} {CL : CacheLaws C}.
Context (c : @AuthClient N).


(** C30: one call of [Do] sends at most four requests (three to the registry and one
    to the token server), and it closes exactly the responses that it received and
    does not return, each once: the responses received are those closed and, when the
    call succeeds, the one returned; whatever the network, the credential function
    and the cache do. *)
Theorem auth_Do_bounded ctx (o : HRequest N) (w : @World NU N C) : exists new,
  events (Do c ctx o w).2 = (events w ++ new)%list /\ sends new <= 4 /\
  received new ≡ₚ closed new ++ match (Do c ctx o w).1 with Ok resp => [resp] | _ => [] end.
Proof. apply (owns_Do c ctx o w). Qed.
End guarantees.

Section liveness.
Context {NU : NetURL} {QU : QueryURL} {N : Type} {HC : HttpClient N}.
Context {RJ : RegistryJSON} {TJ : TokenJSON} {GQ : GoQuote} {MO : MapOrder}.
Context (c : @AuthClient N) (ctx : Context_) (o : HRequest N).

Lemma send_answer (answer : HRequest N -> Response) req (w : @World NU N concurrentCache) :
  (forall req n, http_Do req n = (Ok (answer req), n)) ->
  send c req w = (Ok (answer (add_Header c req)),
    mkWorld (net w) (cache_ w) (events w ++ [Sent (add_Header c req) (Ok (answer (add_Header c req)))])%list).
Proof. intros Ha. unfold send. by rewrite Ha. Qed.

Lemma add_Header_Get k (req : HRequest N) : c_Header c !! k = None ->
  Values_Get k (hr_Header (add_Header c req)) = Values_Get k (hr_Header req).
Proof.
  intros Hk. unfold Values_Get, add_Header. simpl. rewrite lookup_union_with, Hk.
  by destruct (hr_Header req !! k).
Qed.

Lemma Values_Get_Set k v (req : HRequest N) : Values_Get k (hr_Header (hr_Header_Set k v req)) = v.
Proof. unfold Values_Get, hr_Header_Set, Values_Set. simpl. by rewrite lookup_insert_eq. Qed.

(** An anonymous client gets the token of the token server. *)
Lemma fetch_anonymous answer realm service scopes treq x t (w : @World NU N concurrentCache) :
  (forall req n, http_Do req n = (Ok (answer req), n)) -> c_Credential c = None ->
  distributionRequest realm service scopes EmptyString EmptyString = Ok treq ->
  StatusCode (answer (add_Header c treq)) = 200%Z ->
  Decode_Token (LimitReader maxResponseBytes (Body (answer (add_Header c treq)))) = Ok (x, t) -> t <> EmptyString ->
  exists closed, fetchBearerToken c ctx (hr_Host o) realm service scopes w =
    (Ok t, mkWorld (net w) (cache_ w)
       (events w ++ [Sent (add_Header c treq) (Ok (answer (add_Header c treq))); Closed closed])%list).
Proof.
  intros Ha Hcred Ht H200 Hd Hne. eexists. unfold fetchBearerToken.
  rewrite (bind_run _ _ _ EmptyCredential w) by (unfold credential, on_net; rewrite Hcred; by destruct w).
  simpl. unfold fetchDistributionToken. rewrite (bind_run _ _ _ treq w) by (unfold reads; by rewrite Ht).
  erewrite bind_run by by apply (send_answer answer). unfold defer_Close. rewrite H200. simpl. rewrite Hd. simpl.
  apply String.eqb_neq in Hne. rewrite Hne. simpl. by rewrite <- app_assoc.
Qed.

(** A request for a token with a password is sent before anything is known of the
    token server. *)
Lemma fetch_sends cred realm service scopes treq (w : @World NU N concurrentCache) n2 :
  credential c ctx (hr_Host o) (net w) = (Ok cred, n2) -> cred <> EmptyCredential ->
  AccessToken cred = EmptyString -> RefreshToken cred = EmptyString -> c_ForceAttemptOAuth2 c = false ->
  distributionRequest realm service scopes (Username cred) (Password cred) = Ok treq ->
  exists x new, events (fetchBearerToken c ctx (hr_Host o) realm service scopes w).2
    = (events w ++ Sent (add_Header c treq) x :: new)%list.
Proof.
  intros Hcred Hne Ha Hr Hf Ht. unfold fetchBearerToken.
  rewrite (bind_run _ _ _ cred (mkWorld n2 (cache_ w) (events w))) by (unfold on_net; by rewrite Hcred).
  rewrite Ha, Hr, Hf, bool_decide_eq_false_2 by done. simpl. unfold fetchDistributionToken.
  erewrite bind_run by (unfold reads; by rewrite Ht). unfold mbind, M_bind, send. simpl.
  destruct (http_Do (add_Header c treq) n2) as [[resp|e|] n3]; simpl; [|by exists (Err e), []|by exists Panic, []].
  exists (Ok resp), [Closed resp]. by rewrite <- app_assoc.
Qed.

(** The lookup of a key in a cache without an entry of the registry. *)
Lemma attempt_again_none key attemptedKey (w : @World NU N concurrentCache) :
  cache (cache_ w) !! hr_Host o = None -> attempt_again c o key attemptedKey w = (Ok None, w).
Proof.
  intros Hc. unfold attempt_again. destruct (String.eqb _ _); [done|].
  rewrite (bind_run _ _ _ None w); [done|]. unfold tries. simpl. unfold concurrent.GetToken. by rewrite Hc.
Qed.

Lemma Set_run {W} (get : W -> concurrentCache) put registry sch key fetch w t w1 :
  fetch (put (mkCache ({[concurrent.statusKey registry sch key]} ∪ status (get w)) (cache (get w))) w) = (Ok t, w1) ->
  Set_ get put registry sch key fetch w =
    (Ok t, put (concurrent.store registry sch key t
      (mkCache (status (get w1) ∖ {[concurrent.statusKey registry sch key]}) (cache (get w1)))) w1).
Proof. intros Hf. simpl. unfold concurrent.Set_. by rewrite Hf. Qed.

Lemma Set_events registry sch key fetch (w : @World NU N concurrentCache) :
  events (Set_ cache_ put_cache registry sch key fetch w).2
  = events (fetch (put_cache (mkCache ({[concurrent.statusKey registry sch key]} ∪ status (cache_ w))
      (cache (cache_ w))) w)).2.
Proof.
  simpl. unfold concurrent.Set_. destruct (fetch _) as [[t|e|] w1]; simpl; [done| |done].
  by destruct (concurrent.canceled e).
Qed.

(** What follows the token is appended to the events. *)
Lemma bind_events {A B} (m : M (@World NU N concurrentCache) A) (f : A -> M _ B) w k (post : B -> list Response) :
  (forall a, owns k [] post (f a)) ->
  exists new, events ((m ≫= f) w).2 = (events (m w).2 ++ new)%list.
Proof.
  intros Hf. unfold mbind, M_bind. destruct (m w) as [[a|e|] w1]; [|exists []; by rewrite app_nil_r..].
  destruct (Hf a w1) as (new & He & _). by exists new.
Qed.

(** A challenge that is reached through a redirect is answered with the
    credential of the host that was asked.  When a request without [Authorization]
    to a host that the cache does not know ends at another host, whose response is a
    [Bearer] challenge, the client resolves the user name and the password for the
    host that was asked and sends them to the realm that the other host named. *)
Theorem auth_redirect_leaks (w : @World NU N concurrentCache) resp n1 params cred n2 treq u
    (Hauth : Values_Get "Authorization" (hr_Header o) = EmptyString)
    (Hcache : cache (cache_ w) !! hr_Host o = None)
    (Hresp : http_Do (add_Header c o) (net w) = (Ok resp, n1)) (H401 : StatusCode resp = 401%Z)
    (Hother : url_Host (rq_URL (rs_Request resp)) <> hr_Host o)
    (Hchal : parseChallenge (Header_Get "Www-Authenticate" (rs_Header resp)) = (SchemeBearer, params))
    (Hcred : credential c ctx (hr_Host o) n1 = (Ok cred, n2))
    (Huser : Username cred <> EmptyString)
    (Hplain : AccessToken cred = EmptyString /\ RefreshToken cred = EmptyString /\ c_ForceAttemptOAuth2 c = false)
    (Hclient : c_Header c !! "Authorization" = None)
    (Hrealm : url_Parse (default EmptyString (params !! "realm")) = Some u)
    (Ht : distributionRequest (default EmptyString (params !! "realm")) (default EmptyString (params !! "service"))
      (challenge_scopes ctx (hr_Host o) params) (Username cred) (Password cred) = Ok treq) :
  exists x, Sent (add_Header c treq) x ∈ events (Do c ctx o w).2
    /\ hr_Host treq = url_Host u
    /\ Values_Get "Authorization" (hr_Header (add_Header c treq))
       = "Basic " +:+ basicAuth (Username cred) (Password cred).
Proof.
  destruct Hplain as (Ha & Hr & Hf).
  assert (hr_Host treq = url_Host u /\ Values_Get "Authorization" (hr_Header (add_Header c treq))
    = "Basic " +:+ basicAuth (Username cred) (Password cred)) as [Hhost Hbasic].
  { unfold distributionRequest, NewHRequest in Ht. rewrite Hrealm in Ht. simpl in Ht.
    apply String.eqb_neq in Huser. rewrite Huser in Ht. simpl in Ht. injection Ht as <-. split; [done|].
    rewrite add_Header_Get by done. simpl. unfold SetBasicAuth, hr_Header_Set, Values_Get, Values_Set. simpl.
    by rewrite lookup_insert_eq. }
  unfold Do. rewrite Hauth. simpl.
  rewrite (bind_run _ _ _ (o, EmptyString) w)
    by (unfold attempt, mbind, M_bind, tries; simpl; unfold concurrent.GetScheme; by rewrite Hcache).
  erewrite bind_run by (unfold send; by rewrite Hresp). rewrite H401. simpl. rewrite Hchal.
  erewrite (bind_run (Close _)) by done. erewrite bind_run by by apply attempt_again_none.
  cbv beta match. set (w1 := mkWorld _ _ _). set (key := Join " " _).
  match goal with |- context [events ((?m ≫= ?f) w1).2] =>
    destruct (bind_events m f w1 1 (fun resp => [resp])) as [new ->] end; [intros token; apply owns_resend|].
  unfold on_err.
  match goal with |- context [concurrent.Set_ _ _ ?h ?s ?k ?f w1] => pose proof (Set_events h s k f w1) as He end.
  simpl in He. destruct (concurrent.Set_ _ _ _ _ _ _ w1) as [r w2]. simpl in He |- *. rewrite He.
  edestruct (fetch_sends cred) as (x & l & ->); [simpl; exact Hcred|by intros ->|done..|exact Ht|].
  exists x. split; [|done]. apply elem_of_app. left. apply elem_of_app. right. apply elem_of_cons. by left.
Qed.

(** C31: against a registry that challenges with [Bearer] and a token server that
    answers, an anonymous call without a cached token succeeds: it returns the
    response to the request with the token, after exactly one request for the
    challenge, one for the token and one with the token, and the token is in the
    cache under the scopes of the call and of the challenge. *)
Theorem auth_Do_authenticates answer params realm service treq x t (w : @World NU N concurrentCache) :
  (forall req n, http_Do req n = (Ok (answer req), n)) ->
  (forall req, hr_Host req = hr_Host o ->
     if decide (Values_Get "Authorization" (hr_Header req) = "Bearer " +:+ t)
     then StatusCode (answer req) <> 401%Z
     else StatusCode (answer req) = 401%Z /\
       parseChallenge (Header_Get "Www-Authenticate" (rs_Header (answer req))) = (SchemeBearer, params)) ->
  params !! "realm" = Some realm -> params !! "service" = Some service ->
  let scopes := challenge_scopes ctx (hr_Host o) params in
  distributionRequest realm service scopes EmptyString EmptyString = Ok treq ->
  StatusCode (answer (add_Header c treq)) = 200%Z ->
  Decode_Token (LimitReader maxResponseBytes (Body (answer (add_Header c treq)))) = Ok (x, t) ->
  t <> EmptyString -> hr_Body o = NilBody ->
  hr_Header o !! "Authorization" = None -> c_Header c !! "Authorization" = None -> c_Credential c = None ->
  cache (cache_ w) !! hr_Host o = None ->
  let req := add_Header c (hr_Header_Set "Authorization" ("Bearer " +:+ t) o) in
  exists w', Do c ctx o w = (Ok (answer req), w') /\ StatusCode (answer req) <> 401%Z /\
    GetToken (hr_Host o) SchemeBearer (Join " " scopes) (cache_ w') = Ok t /\
    exists closed1 closed2, events w' = (events w ++
      [Sent (add_Header c o) (Ok (answer (add_Header c o))); Closed closed1;
       Sent (add_Header c treq) (Ok (answer (add_Header c treq))); Closed closed2;
       Sent req (Ok (answer req))])%list.
Proof.
  intros Ha Hs Hr Hsv scopes Ht H200 Hd Hne Hb Ho Hc Hcred Hcache req.
  assert (Values_Get "Authorization" (hr_Header o) = EmptyString) as Hauth by (unfold Values_Get; by rewrite Ho).
  pose proof (Hs (add_Header c o) eq_refl) as H1. rewrite add_Header_Get, Hauth, decide_False in H1 by done.
  destruct H1 as [H1 Hp].
  pose proof (Hs req eq_refl) as H2. unfold req in H2.
  rewrite add_Header_Get, Values_Get_Set, decide_True in H2 by done.
  unfold Do. rewrite Hauth. simpl.
  rewrite (bind_run _ _ _ (o, EmptyString) w)
    by (unfold attempt, mbind, M_bind, tries; simpl; unfold concurrent.GetScheme; by rewrite Hcache).
  erewrite bind_run by by apply (send_answer answer). rewrite H1. simpl. rewrite Hp.
  erewrite (bind_run (Close _)) by done. erewrite bind_run by by apply attempt_again_none.
  cbv beta match. rewrite Hr, Hsv.
  edestruct (fetch_anonymous answer realm service scopes treq x t) as [closed Hf]; [done..|].
  erewrite bind_run; [|unfold on_err; erewrite Set_run by exact Hf; reflexivity].
  erewrite bind_run by (unfold rewindRequestBody; simpl; by rewrite Hb).
  erewrite (send_answer answer) by done. eexists. split; [done|]. split; [exact H2|]. simpl. split.
  - unfold concurrent.GetToken, concurrent.store. simpl. rewrite Hcache, lookup_insert_eq. simpl.
    by rewrite lookup_insert_eq.
  - eexists _, closed. rewrite <- !app_assoc. done.
Qed.
End liveness.

(** ** The guarantees at the example *)
Module auth_witness.
Import challenge_example auth_example.

Lemma example_stays : stays_on_host (HC := server).
Proof.
  intros req n resp n' Hu [= <- _]. rewrite <- Hu. unfold serve. by repeat case_match.
Qed.


Lemma auth_Do_bounded_witness : exists new,
  events (Do client ctx (get "reg.example") start).2 = new /\ sends new <= 4 /\
  length (received new) = S (length (closed new)).
Proof.
  destruct (auth_Do_bounded client ctx (get "reg.example") start) as (new & H1 & H2 & H3).
  exists new. split; [exact H1|]. split; [exact H2|].
  assert (exists resp, (Do client ctx (get "reg.example") start).1 = Ok resp) as [resp Hr]
    by (eexists; vm_compute; reflexivity).
  rewrite Hr in H3. rewrite H3, length_app. simpl. lia.
Defined.

(** A registry that redirects to a host whose challenge names its own realm. *)
Definition redirected (req : HRequest unit) : Response :=
  if String.eqb (hr_Host req) "reg.example" then
    reply 401 [("Www-Authenticate", "Bearer realm=" +:+ q "https://evil.example/token")] EmptyString
      (get "evil.example")
  else reply 200 [] "t0ken" req.

Definition redirects : HttpClient unit := {| http_Do req n := (Ok (redirected req), n) |}.
Definition victim : Credential := mkCredential "user" "pass" EmptyString EmptyString.
Definition careless : @AuthClient unit :=
  mkAuthClient ∅ (Some (StaticCredential "reg.example" victim)) EmptyString false.

Lemma auth_redirect_leaks_witness : exists req x,
  Sent req x ∈ events (Do (HC := redirects) careless ctx (get "reg.example") start).2 /\
  hr_Host req = "evil.example" /\
  Values_Get "Authorization" (hr_Header req) = "Basic " +:+ basicAuth "user" "pass".
Proof.
  set (treq := SetBasicAuth "user" "pass"
    (@mkHRequest url_text unit GET "https://evil.example/token?" "evil.example" ∅ NilBody None 0)).
  destruct (auth_redirect_leaks (HC := redirects) careless ctx (get "reg.example") start (redirected (get "reg.example"))
    tt {["realm" := "https://evil.example/token"]} victim tt treq "https://evil.example/token") as (x & H1 & H2 & H3);
    [vm_compute; first [reflexivity|congruence|split_and!; reflexivity]..|].
  exists (add_Header careless treq), x. split; [exact H1|]. split; [exact H2|exact H3].
Defined.

Definition anonymous : @AuthClient unit := mkAuthClient ∅ None EmptyString false.

Definition params : gmap string string :=
  <["scope" := "repository:app:pull"]> (<["service" := "reg.example"]> {["realm" := "https://auth.example/token"]}).

Lemma auth_Do_authenticates_witness : exists w',
  Do anonymous ctx (get "reg.example") start
    = (Ok (serve (hr_Header_Set "Authorization" "Bearer t0ken" (get "reg.example"))), w') /\
  GetToken "reg.example" SchemeBearer "repository:app:pull" (cache_ w') = Ok "t0ken".
Proof.
  set (treq := @mkHRequest url_text unit GET "https://auth.example/token?scope=repository:app:pull&service=reg.example"
                 "auth.example" ∅ NilBody None 0).
  destruct (auth_Do_authenticates anonymous ctx (get "reg.example") serve params "https://auth.example/token" "reg.example"
    treq EmptyString "t0ken" start) as (w' & H1 & _ & H3 & _);
    [done|intros req Hreq|first [vm_compute; reflexivity|vm_compute; congruence|idtac]..].
  - unfold serve. change (hr_Host (get "reg.example")) with "reg.example" in Hreq. rewrite Hreq. simpl.
    destruct (decide _) as [->|Hne]; [done|]. apply String.eqb_neq in Hne.
    change ("Bearer " +:+ "t0ken") with "Bearer t0ken" in Hne. rewrite Hne. split; [done|]. vm_compute. reflexivity.
  - exists w'. split; [exact H1|exact H3].
Defined.
End auth_witness.
