(* ===== verification/RemoteAuth.v ===== *)
(** A remote repository over the auth client: the operations of the repository
    confine the credentials of a host to that host, as long as the HTTP client is not
    redirected to another host, except for the upload of a blob,
    whose second request takes the [Authorization] of the first to wherever the server
    says. *)

From Stdlib Require Import Ascii String ZArith Lia.
From S2P Require Import Prelude Errors Descriptor Reader Manifest Storage GoStrings Reference Scope ScopeCorrect.
From S2P Require Import Http Base64 Challenge ChallengeCorrect Remote RemoteCorrect RemoteReferrers RemoteRequests.
From S2P Require Import HttpClient AuthCache AuthClient AuthCorrect AuthExample.
Import registry.

#[local] Open Scope string_scope.

Section over_auth.
Context {GD : GoDigest} {MJ : ManifestJSON} {RJ : RegistryJSON} {TJ : TokenJSON} {GQ : GoQuote} {MO : MapOrder}.
Context {NU : NetURL} {QU : QueryURL} {N U : Type} {HC : HttpClient N}.
Context {C : Type} {CA : Cache C} {CL : CacheLaws C} (c : @AuthClient N).

Notation World := (@World NU N C).
Notation W := (rworld World U).
#[local] Instance over : Client World := auth_Client c.

(** ** Confinement *)

(** A request that leaves the client: one without a credential, to which the client
    added nothing or the credential of its host, or a request for a token on behalf
    of a host, to the realm that host named. *)
Definition confined_request (req : HRequest N) : Prop :=
  (exists o, Values_Get "Authorization" (hr_Header o) = EmptyString /\ derived c o req) \/
  exists host, token_request c host req.

Definition confined_event (e : @event NU N) : Prop :=
  match e with Sent req _ => confined_request req | Closed _ => True end.

Definition confined_world (w : World) : Prop := exists originals,
  Forall (fun o => Values_Get "Authorization" (hr_Header o) = EmptyString) originals /\ safe c originals w.

Lemma confined_world_events w : confined_world w -> Forall confined_event (events w).
Proof.
  intros (os & Hos & Hs & _). eapply List.Forall_impl; [|exact Hs]. intros [req r|resp]; [|done]. simpl.
  intros [(o & Ho & Hd)|Ht]; [left|by right]. exists o. split; [|done]. rewrite List.Forall_forall in Hos. by apply Hos, list_elem_of_In.
Qed.

Lemma of_Request_Authorization (req : Request) :
  Values_Get "Authorization" (hr_Header (of_Request req : HRequest N)) = Header_Get "Authorization" (rq_Header req).
Proof. unfold Values_Get, Header_Get. simpl. rewrite lookup_fmap. by destruct (rq_Header req !! "Authorization"). Qed.

Lemma safe_more originals o w : safe c originals w -> safe c (o :: originals) w.
Proof.
  intros [He Hh]. split; [|done]. eapply List.Forall_impl; [|exact He]. intros [req r|resp]; [|done].
  intros [(o' & Ho' & Hd)|Ht]; [left|by right]. exists o'. split; [by right|done].
Qed.

Lemma auth_Do_confined req : stays_on_host -> unauthorized req -> keeps confined_world (Http.Do req).
Proof.
  intros Hstays Hu w (os & Hos & Hs). exists (of_Request req :: os). split.
  - constructor; [|done]. by rewrite of_Request_Authorization.
  - apply (Do_yields c Hstays (of_Request req :: os) (of_Request req)); [by left|done|by apply safe_more].
Qed.

(** Calls one after another. *)
Fixpoint run_calls (fuel : nat) (fn : list OciDescriptor -> M W unit) (tagsFn : list string -> M W unit)
    (r : Repo) (cs : list (Context_ * call)) (w : W) : option W :=
  match cs with
  | [] => Some w
  | (ctx, op) :: cs' =>
      match run_call fuel fn tagsFn ctx r op w with
      | Some w' => run_calls fuel fn tagsFn r cs' w'
      | None => None
      end
  end.

(** C13: through any sequence of operations of a repository over the auth client other
    than blob uploads, against any servers, over an HTTP client that follows no
    redirect to another host and starting from an empty cache, every request that the
    auth client hands to it is confined: a credential or a token is sent only to the
    host it belongs to, or to the token server that this host named.  The scope
    hints in the contexts of the calls, if any, are scopes of the form
    [type:name:actions] that [CleanScopes] recognizes, the callbacks of the listings
    leave the network alone, and the operations return: listings do so within [fuel]
    pages, the others need no fuel. *)
Theorem repository_confined fuel fn tagsFn r cs n cc st u (w' : W) :
  stays_on_host ->
  Repository (rp_Reference r) <> EmptyString ->
  (forall a b t, ~ has cc a b t) ->
  Forall (fun p => clean_ctx r p.1 /\ uploads_blob p.2 = false) cs ->
  (forall l w1, rw_net (fn l w1).2 = rw_net w1) -> (forall l w1, rw_net (tagsFn l w1).2 = rw_net w1) ->
  run_calls fuel fn tagsFn r cs (mkRW st (mkWorld n cc []) u) = Some w' ->
  Forall confined_event (events (rw_net w')).
Proof.
  intros Hstays Hr Hempty Hcs Hfn Htags Hrun. apply confined_world_events.
  assert (confined_world (mkWorld n cc [])) as Hw.
  { exists []. split; [constructor|]. split; [constructor|]. intros a b t H. by apply Hempty in H. }
  change (mkWorld n cc []) with (rw_net (mkRW st (mkWorld n cc []) u)) in Hw. revert Hw Hrun.
  generalize (mkRW st (mkWorld n cc []) u). induction Hcs as [|[ctx op] cs [Hc Hup] _ IH]; intros w Hw Hrun.
  - simpl in Hrun. by injection Hrun as <-.
  - simpl in Hrun. destruct (run_call _ _ _ _ _ _ w) as [w1|] eqn:E; [|done]. apply (IH w1); [|done].
    apply (run_call_inv r Hr confined_world unauthorized) with (9 := E); try done.
    + intros req. by apply auth_Do_confined.
    + by destruct op.
    + simpl. intros Hu. simpl in Hup. congruence.
    + intros l w2. unfold inv. by rewrite Hfn.
    + intros l w2. unfold inv. by rewrite Htags.
Qed.

(** ** The upload of a blob *)

Lemma completePush_run ctx r req resp d content location put (w : W) :
  Location resp = Ok location -> new_upload ctx (url_String (add_port (rq_URL req) location)) d content = Ok put ->
  Header_Get "Authorization" (rq_Header (rs_Request resp)) <> EmptyString ->
  exists put', rq_URL put' = url_SetQuery "digest" (Digest d) (rq_URL put) /\
    Header_Get "Authorization" (rq_Header put') = Header_Get "Authorization" (rq_Header (rs_Request resp)) /\
    rw_net (completePushAfterInitialPost ctx r req resp d content w).2 = (Http.Do put' (rw_net w)).2.
Proof.
  intros Hl Hput Ha. unfold completePushAfterInitialPost. apply String.eqb_neq in Ha.
  unfold mbind, M_bind, lift, reads. rewrite Hl, Hput, Ha.
  match goal with |- context [do ?p w] => exists p end. split; [done|]. split.
  - simpl. unfold Header_Get at 1. by rewrite lookup_insert_eq.
  - unfold do, on_part.
    match goal with |- context [match Http.Do ?p ?n with _ => _ end] => destruct (Http.Do p n) as [[]] end; done.
Qed.

Lemma Do_authorized ctx (o : HRequest N) (w : World) : Values_Get "Authorization" (hr_Header o) <> EmptyString ->
  exists x, events (AuthClient.Do c ctx o w).2 = (events w ++ [Sent (add_Header c o) x])%list.
Proof.
  intros Ha. unfold AuthClient.Do. apply String.eqb_neq in Ha. rewrite Ha. simpl. unfold AuthClient.send.
  destruct (http_Do (add_Header c o) (net w)) as [x n]. by exists x.
Qed.

(** C14: when the server accepts the upload of a blob, the next and last request goes to
    the host that its [Location] names, whichever that is, with the [Authorization] that
    the first request was sent with. *)
Theorem upload_forwards_authorization ctx r d content req resp location put (w : W) w1 :
  let ctx' := AppendRepositoryScope ctx (rp_Reference r) [ActionPull; ActionPush] in
  NewRequest ctx' POST (buildRepositoryBlobUploadURL (PlainHTTP r) (rp_Reference r)) None = Ok req ->
  Http.Do req (rw_net w) = (Ok resp, w1) -> StatusCode resp = StatusAccepted ->
  Location resp = Ok location -> new_upload ctx' (url_String (add_port (rq_URL req) location)) d content = Ok put ->
  Header_Get "Authorization" (rq_Header (rs_Request resp)) <> EmptyString ->
  c_Header c !! "Authorization" = None ->
  exists q x, events (rw_net (blobStore_Push ctx r d content w).2) = (events w1 ++ [Sent q x])%list /\
    hr_Host q = url_Host (url_SetQuery "digest" (Digest d) (rq_URL put)) /\
    Values_Get "Authorization" (hr_Header q) = Header_Get "Authorization" (rq_Header (rs_Request resp)).
Proof.
  intros ctx' Hreq HDo Hst Hl Hput Ha Hc.
  destruct (completePush_run ctx' r req resp d content location put (set_net w1 w)) as (put' & Hu & Hh & Hnet); [done..|].
  assert (Values_Get "Authorization" (hr_Header (of_Request put' : HRequest N)) <> EmptyString) as Hne
    by by rewrite of_Request_Authorization, Hh.
  destruct (Do_authorized (rq_Context put') (of_Request put') w1 Hne) as [x Hx].
  exists (add_Header c (of_Request put')), x. split; [|split].
  - unfold blobStore_Push. cbv zeta. fold ctx'. unfold mbind at 1, M_bind at 1, lift at 1, reads at 1. rewrite Hreq.
    unfold mbind at 1, M_bind at 1, do at 1, on_part at 1. rewrite HDo, decide_True by done. rewrite Hnet. exact Hx.
  - simpl. by rewrite Hu.
  - by rewrite add_Header_Get, of_Request_Authorization.
Qed.
End over_auth.

(** ** A registry that keeps uploads elsewhere *)
Module upload_example.
Import HexDigest challenge_example auth_example.
#[local] Existing Instance registry_example.json.

#[export] Instance elsewhere : HttpClient unit := {|
  http_Do req n :=
    (Ok (if String.eqb (hr_Host req) "other.example" then reply 201 [] EmptyString req
         else if String.eqb (Values_Get "Authorization" (hr_Header req)) ("Basic " +:+ basicAuth "user" "pass")
         then reply 202 [("Location", "https://other.example/upload")] EmptyString req
         else reply 401 [("Www-Authenticate", "Basic realm=x")] EmptyString req), n)
|}.

Definition repo : Repo := mkRepo (mkReference "basic.example" "app" EmptyString) false [] 0 0 0 false true.
Definition blob : OciDescriptor := mkOci "application/octet-stream" "sha256:61" 1 [] None [] None EmptyString.
Definition before : rworld (@World url_text unit concurrentCache) unit := mkRW referrersStateUnknown start tt.

#[export] Instance over_client : Client (@World url_text unit concurrentCache) := auth_Client client.

Definition hints_ : Context_ := AppendRepositoryScope ctx (rp_Reference repo) [ActionPull; ActionPush].
Definition post : Request := mkRequest POST "https://basic.example/v2/app/blobs/uploads/" ∅ None None 0 hints_.
(** The response to the request as it was sent after the challenge. *)
Definition authorized : HRequest unit :=
  add_Header client (hr_Header_Set "Authorization" "Basic dXNlcjpwYXNz" (of_Request post)).
Definition accepted : Response := reply 202 [("Location", "https://other.example/upload")] EmptyString authorized.
Definition put : Request :=
  mkRequest PUT "https://other.example/upload" ∅ (Some (bytes_NewReader [Byte.x61])) (Some (bytes_NewReader [Byte.x61])) 1 hints_.

(** The password for [basic.example] reaches [other.example]. *)
Lemma upload_forwards_authorization_witness : exists q x,
  events (rw_net (blobStore_Push ctx repo blob (CBytes [Byte.x61]) before).2) =
    (events (Http.Do post start).2 ++ [Sent q x])%list /\
  hr_Host q = "other.example" /\ Values_Get "Authorization" (hr_Header q) = "Basic dXNlcjpwYXNz".
Proof.
  destruct (upload_forwards_authorization client ctx repo blob (CBytes [Byte.x61]) post accepted
    "https://other.example/upload" put before (Http.Do post start).2) as (q & x & H1 & H2 & H3).
  - vm_compute. reflexivity.
  - vm_compute. reflexivity.
  - reflexivity.
  - vm_compute. reflexivity.
  - vm_compute. reflexivity.
  - vm_compute. congruence.
  - vm_compute. reflexivity.
  - exists q, x. split; [exact H1|]. split; [rewrite H2|rewrite H3]; vm_compute; reflexivity.
Defined.

Definition no_page {A} : A -> M (rworld (@World url_text unit concurrentCache) unit) unit := fun _ => mret tt.

(** Two operations on the registry that wants a password. *)
Lemma repository_confined_witness : exists w',
  run_calls client (HC := server) 1 no_page no_page repo [(ctx, CTags EmptyString); (ctx, CBlobResolve "sha256:61")] before = Some w' /\
  Forall (confined_event (HC := server) client) (events (rw_net w')).
Proof.
  destruct (run_calls client (HC := server) 1 no_page no_page repo [(ctx, CTags EmptyString); (ctx, CBlobResolve "sha256:61")] before)
    as [w'|] eqn:E; [|exfalso; vm_compute in E; discriminate E].
  exists w'. split; [reflexivity|].
  apply (repository_confined (HC := server) client 1 no_page no_page repo
    [(ctx, CTags EmptyString); (ctx, CBlobResolve "sha256:61")] tt NewCache referrersStateUnknown tt); [exact auth_witness.example_stays|done| | |done|done|exact E].
  - intros a b t (e & k & He & _). simpl in He. by rewrite lookup_empty in He.
  - repeat constructor; intros s Hs; by apply elem_of_nil in Hs.
Defined.
End upload_example.
