(* ===== verification/Retry.v ===== *)
(** Retries of requests: [registry/remote/retry/client.go] and [policy.go].
    Durations are 64-bit integers (nanoseconds), the arithmetic of the backoff is
    that of IEEE 754 double precision numbers. *)

From Stdlib Require Import Ascii String ZArith Lia SpecFloat.
From S2P Require Import Prelude Errors Descriptor Reader GoStrings Scope Http Base64 HttpClient.

#[local] Open Scope string_scope.

(** ** Integers and floating point numbers *)

Definition int64_wrap (z : Z) : Z := ((z + 2 ^ 63) mod 2 ^ 64 - 2 ^ 63)%Z.
Definition maxInt64 : Z := (2 ^ 63 - 1)%Z.

Notation float64 := spec_float.
Definition fmul : float64 -> float64 -> float64 := SFmul 53 1024.
Definition fsub : float64 -> float64 -> float64 := SFsub 53 1024.
Definition float_of_int (z : Z) : float64 := binary_normalize 53 1024 z 0 false.

(** The integer part of a number. *)
Definition trunc (x : float64) : option Z :=
  match x with
  | S754_zero _ => Some 0%Z
  | S754_finite s m e =>
      let a := if (0 <=? e)%Z then (Z.pos m * 2 ^ e)%Z else (Z.pos m / 2 ^ (- e))%Z in
      Some (if s then (- a)%Z else a)
  | S754_infinity _ | S754_nan => None
  end.

(** [math.Pow], and the result of a conversion to [int64] when the value is not one,
    which Go leaves to the implementation. *)
Class GoFloat := {
  math_Pow : float64 -> float64 -> float64;
  conv_overflow : float64 -> Z
}.

Definition int64_of_float `{GoFloat} (x : float64) : Z :=
  match trunc x with
  | Some z => if ((- 2 ^ 63 <=? z) && (z <=? maxInt64))%Z then z else conv_overflow x
  | None => conv_overflow x
  end.

(** [v, _ := strconv.ParseInt(s, 10, 64)]: zero for a syntax error, the nearest
    integer for one that is out of range; the digits are read from the left, so what
    follows the overflow of an [uint64] is not looked at. *)
Fixpoint parse_uint (l : list ascii) (n : Z) : Z + Z :=
  match l with
  | [] => inl n
  | a :: l' =>
      if in_range "0" "9" a then
        let n := (n * 10 + (Z.of_N (N_of_ascii a) - 48))%Z in
        if (n <? 2 ^ 64)%Z then parse_uint l' n else inl (2 ^ 64 - 1)%Z
      else inr 0%Z
  end.

Definition ParseInt (s : string) : Z :=
  let '(neg, l) :=
    match chars s with
    | a :: l => if Ascii.eqb a "-" then (true, l) else if Ascii.eqb a "+" then (false, l) else (false, a :: l)
    | [] => (false, [])
    end in
  match l with
  | [] => 0%Z
  | _ =>
      match parse_uint l 0 with
      | inr v => v
      | inl un =>
          if neg then (if (2 ^ 63 <? un)%Z then (- 2 ^ 63)%Z else (- un)%Z)
          else (if (maxInt64 <? un)%Z then maxInt64 else un)
      end
  end.

(** ** policy.go *)

(** [math/rand]: a draw below a positive bound. *)
Class Rand (N : Type) := { draw : Z -> M N Z }.

(** [err.(net.Error)] of the network's errors, and whether it is a timeout. *)
Class NetError := { net_Timeout : error -> bool }.

Definition Millisecond : Z := 1000000.
Definition Second : Z := 1000000000.

Section policy.
Context {NU : NetURL} {QU : QueryURL} {N : Type}.
Context {GF : GoFloat} {RN : Rand N} {NE : NetError}.

(** What [RoundTrip] returned is a response or an error. *)
Notation Predicate := (result Response -> result bool).
Notation Backoff := (Z -> option Response -> M N Z).
Notation Policy := (Z -> result Response -> M N Z).

Definition DefaultPredicate : Predicate := fun r =>
  match r with
  | Err err => if net_Timeout err then Ok true else Err err
  | Ok resp =>
      if bool_decide (StatusCode resp = 408%Z) || bool_decide (StatusCode resp = 429%Z) then Ok true
      else if bool_decide (StatusCode resp = 0%Z) || bool_decide (500 <= StatusCode resp)%Z then Ok true
      else Ok false
  | Panic => Panic
  end.

(** [rand.Int64N] panics when the bound is not positive. *)
Definition Int64N (n : Z) : M N Z := if (0 <? n)%Z then draw n else fun w => (Panic, w).

(** The delay a [429] response asks for. *)
Definition RetryAfter (resp : option Response) : option Z :=
  match resp with
  | Some resp =>
      if bool_decide (StatusCode resp = 429%Z) then
        let v := Header_Get "Retry-After" (rs_Header resp) in
        if String.eqb v EmptyString then None
        else let retryAfter := ParseInt v in
             if (0 <? retryAfter)%Z then Some (int64_wrap (retryAfter * Second)) else None
      else None
  | None => None
  end.

Definition ExponentialBackoff (backoff : Z) (factor jitter : float64) : Backoff := fun attempt resp =>
  match RetryAfter resp with
  | Some d => mret d
  | None =>
      let temp := fmul (float_of_int backoff) (math_Pow factor (float_of_int attempt)) in
      r ← Int64N (int64_of_float (fmul (fmul (float_of_int 2) jitter) temp));
      mret (int64_wrap (int64_of_float (fmul temp (fsub (float_of_int 1) jitter)) + r))
  end.

(** 0.1 *)
Definition tenth : float64 := S754_finite false 7205759403792794 (-56).

Definition DefaultBackoff : Backoff := ExponentialBackoff (250 * Millisecond) (float_of_int 2) tenth.

Record GenericPolicy := mkPolicy {
  Retryable : Predicate;
  Backoff_ : Backoff;
  MinWait : Z;
  MaxWait : Z;
  MaxRetry : Z
}.

Definition Retry (p : GenericPolicy) : Policy := fun attempt r =>
  if (MaxRetry p <=? attempt)%Z then mret (-1)%Z
  else
    ok ← reads (fun _ => Retryable p r);
    if negb ok then mret (-1)%Z
    else
      backoff ← Backoff_ p attempt (match r with Ok resp => Some resp | _ => None end);
      let backoff := if (backoff <? MinWait p)%Z then MinWait p else backoff in
      let backoff := if (MaxWait p <? backoff)%Z then MaxWait p else backoff in
      mret backoff.

Definition DefaultPolicy : GenericPolicy :=
  mkPolicy DefaultPredicate DefaultBackoff (200 * Millisecond) (3 * Second) 5.
End policy.

(** ** client.go *)

(** The base transport; [wait d] is the [select] between the timer and the end of
    the context, whose error it returns. *)
Class Transport `{NetURL} (N : Type) := {
  base_RoundTrip : HRequest N -> M N Response;
  wait : Z -> M N unit
}.

Section client.
Context {NU : NetURL} {QU : QueryURL} {N : Type} {TR : Transport N}.

(** What happens on the wire and to the response bodies. *)
Inductive retry_event :=
| Attempt (req : HRequest N) (r : result Response)
| CloseBody (resp : Response)
| Waited (d : Z).
Record RWorld := mkRWorld { r_net : N; r_events : list retry_event }.

Definition on_rnet {A} (m : M N A) : M RWorld A := fun w =>
  let '(r, n) := m (r_net w) in (r, mkRWorld n (r_events w)).
Definition emit (e : retry_event) (w : RWorld) : RWorld := mkRWorld (r_net w) (r_events w ++ [e])%list.

Definition roundTrip (req : HRequest N) : M RWorld Response := fun w =>
  let '(r, n) := base_RoundTrip req (r_net w) in
  (r, mkRWorld n (r_events w ++ [Attempt req r])%list).

(** [if respErr == nil { resp.Body.Close() }]. *)
Definition close_resp (r : result Response) (w : RWorld) : RWorld :=
  match r with Ok resp => emit (CloseBody resp) w | _ => w end.

(** The body of the next attempt; [None] when there is no way back to its start. *)
Definition next_body (req : HRequest N) : M RWorld (option (HRequest N)) :=
  match hr_Body req with
  | NilBody => mret (Some req)
  | _ =>
      match hr_GetBody req with
      | None => mret None
      | Some GetBody => fun w =>
          match on_rnet GetBody w with
          | (Ok body, w) => (Ok (Some (set_Body body req)), w)
          | (Err _, w) => (Ok None, w)
          | (Panic, w) => (Panic, w)
          end
      end
  end.

(** The loop of [RoundTrip]; [None] when the fuel is used up. *)
Fixpoint round_trip_loop (fuel : nat) (policy : Z -> result Response -> M N Z) (attempt : Z) (req : HRequest N)
    (w : RWorld) : option (result Response * RWorld) :=
  match fuel with
  | O => None
  | S fuel' =>
      match roundTrip req w with
      | (Panic, w) => Some (Panic, w)
      | (resp, w) =>
          match on_rnet (policy attempt resp) w with
          | (Panic, w) => Some (Panic, w)
          | (Err err, w) => Some (Err err, close_resp resp w)
          | (Ok duration, w) =>
              if (duration <? 0)%Z then Some (resp, w)
              else match next_body req w with
              | (Ok (Some req), w) =>
                  let w := close_resp resp w in
                  match on_rnet (wait duration) (emit (Waited duration) w) with
                  | (Ok _, w) => round_trip_loop fuel' policy (attempt + 1) req w
                  | (Err err, w) => Some (Err err, w)
                  | (Panic, w) => Some (Panic, w)
                  end
              | (Ok None, w) => Some (resp, w)
              | (_, w) => Some (Panic, w)
              end
          end
      end
  end.

(** [Transport.RoundTrip] with a [GenericPolicy]. *)
Definition RoundTrip (p : GenericPolicy) (req : HRequest N) (w : RWorld) : option (result Response * RWorld) :=
  round_trip_loop (S (Z.to_nat (MaxRetry p))) (Retry p) 0 req w.
End client.
