(* ===== verification/RetryCorrect.v ===== *)
(** The retrying transport stops, waits within its bounds, never sends a body that
    was already read, and closes the responses it drops; the delays of the
    exponential backoff. *)

From Stdlib Require Import Ascii String ZArith Lia SpecFloat.
From S2P Require Import Prelude Errors Descriptor Reader GoStrings Scope Http Base64 HttpClient AuthExample Retry.

#[local] Open Scope string_scope.

Section correct.
Context {NU : NetURL} {QU : QueryURL} {N : Type} {TR : Transport N}.

Definition attempts (l : list (@retry_event NU N)) : nat :=
  length (List.filter (fun e => match e with Attempt _ _ => true | _ => false end) l).

Definition r_opens (e : @retry_event NU N) : Z :=
  match e with Attempt _ (Ok _) => 1 | CloseBody _ => -1 | _ => 0 end.
(** Responses received and not closed. *)
Fixpoint r_open (l : list (@retry_event NU N)) : Z :=
  match l with [] => 0 | e :: l => r_opens e + r_open l end.

(** The request of a later attempt: its body is nil or came from [GetBody]. *)
Definition again (req rq : HRequest N) : Prop :=
  (rq = req /\ hr_Body req = NilBody) \/
  exists GetBody body n n', hr_GetBody req = Some GetBody /\ GetBody n = (Ok body, n') /\ rq = set_Body body req.

(** What may happen after the first attempt. *)
Definition proper (p : @GenericPolicy NU N) (req : HRequest N) (e : @retry_event NU N) : Prop :=
  match e with
  | Attempt rq _ => again req rq
  | Waited d => (0 <= d <= MaxWait p)%Z /\ (MinWait p <= MaxWait p -> MinWait p <= d)%Z
  | CloseBody _ => True
  end.

Lemma Retry_spec (p : @GenericPolicy NU N) a r n d n' : Retry p a r n = (Ok d, n') -> (0 <= d)%Z ->
  (a < MaxRetry p)%Z /\ (d <= MaxWait p)%Z /\ (MinWait p <= MaxWait p -> MinWait p <= d)%Z.
Proof.
  unfold Retry. destruct (Z.leb_spec (MaxRetry p) a); [intros [= <- <-]; lia|].
  rewrite M_bind_Ok. intros (ok & n1 & _ & H2). destruct (negb ok); [injection H2; lia|].
  apply M_bind_Ok in H2 as (b & n2 & _ & H2). injection H2 as <- _.
  destruct (Z.ltb_spec b (MinWait p)), (Z.ltb_spec (MaxWait p) (MinWait p)), (Z.ltb_spec (MaxWait p) b); lia.
Qed.

Lemma on_rnet_run {A} (m : M N A) (w : RWorld) r w' : on_rnet m w = (r, w') ->
  r_events w' = r_events w /\ m (r_net w) = (r, r_net w').
Proof. unfold on_rnet. destruct (m (r_net w)) as [r1 n1]. by intros [= <- <-]. Qed.

Lemma next_body_spec req rq w rq' w' : rq = req \/ again req rq -> next_body rq w = (rq', w') ->
  r_events w' = r_events w /\ (forall x, rq' = Ok (Some x) -> again req x) /\ (forall e, rq' <> Err e).
Proof.
  intros Hrq. unfold next_body.
  assert (hr_GetBody rq = hr_GetBody req) as Hg
    by (destruct Hrq as [->|[[-> _]|(? & ? & ? & ? & ? & ? & ->)]]; done).
  assert (forall b, set_Body b rq = set_Body b req) as Hset
    by (intros b; destruct Hrq as [->|[[-> _]|(? & ? & ? & ? & ? & ? & ->)]]; done).
  destruct (hr_Body rq) eqn:Hb.
  1: { intros [= <- <-]. split_and!; [done| |done]. intros x [= <-]. destruct Hrq as [->|Hrq]; [by left|done]. }
  all: rewrite Hg; destruct (hr_GetBody req) as [g|] eqn:Eg; [|by intros [= <- <-]];
    destruct (on_rnet g w) as [[b|e|] w1] eqn:E; intros [= <- <-]; apply on_rnet_run in E as [-> E];
    (split_and!; [done| |done]); intros x; try done; intros [= <-]; right; exists g, b, (r_net w), (r_net w1); by rewrite Hset.
Qed.

(** The result of a loop that started with the request [rq]. *)
Definition finishes (p : @GenericPolicy NU N) (req rq : HRequest N) (k : nat) (w : RWorld)
    (res : option (result Response * RWorld)) : Prop :=
  exists r w' r0 rest, res = Some (r, w') /\
    r_events w' = (r_events w ++ Attempt rq r0 :: rest)%list /\
    attempts rest < k /\ Forall (proper p req) rest /\
    (r = Panic \/ (r_opens (Attempt rq r0) + r_open rest = match r with Ok _ => 1 | _ => 0 end)%Z).

(** A loop that ends after one attempt, with the response returned or closed. *)
Lemma finishes_now p req rq k w r r0 w' :
  r_events w' = (r_events w ++ [Attempt rq r0])%list ->
  r = Panic \/ r_opens (Attempt rq r0) = match r with Ok _ => 1%Z | _ => 0%Z end ->
  finishes p req rq (S k) w (Some (r, w')).
Proof.
  intros He Ho. exists r, w', r0, []. split_and!; [done|done|unfold attempts; simpl; lia|constructor|].
  destruct Ho as [?|Ho]; [by left|]. right. change (r_open []) with 0%Z. lia.
Qed.

(** The events of a response that is dropped and of the wait. *)
Definition dropped (r0 : result Response) (d : Z) : list (@retry_event NU N) :=
  match r0 with Ok resp => [CloseBody resp] | _ => [] end ++ [Waited d].

Lemma dropped_proper p req r0 d : proper p req (Waited d) -> Forall (proper p req) (dropped r0 d).
Proof.
  intros Hd. unfold dropped. apply Forall_app. split; [|by apply list.Forall_singleton].
  destruct r0; [by apply list.Forall_singleton|constructor..].
Qed.

Lemma finishes_more p req rq rq' k w w1 r0 d res :
  r0 <> Panic -> r_events w1 = (r_events w ++ Attempt rq r0 :: dropped r0 d)%list ->
  again req rq' -> proper p req (Waited d) ->
  finishes p req rq' k w1 res -> finishes p req rq (S k) w res.
Proof.
  intros Hr0 He Ha Hd (r & w' & r1 & rest & -> & He' & Hk & Hp & Ho).
  exists r, w', r0, (dropped r0 d ++ Attempt rq' r1 :: rest)%list. split_and!; [done|..].
  - by rewrite He', He, <- app_assoc.
  - unfold attempts, dropped in *. rewrite !List.filter_app, !length_app. destruct r0; simpl; lia.
  - apply Forall_app. split; [by apply dropped_proper|by constructor].
  - destruct Ho as [?|Ho]; [by left|]. right. rewrite <- Ho. unfold dropped. destruct r0; simpl in *; lia || done.
Qed.

Lemma finishes_wait p req rq k w r0 d w1 (m : M N unit) (next : RWorld -> option (result Response * RWorld)) :
  r0 <> Panic -> r_events w1 = (r_events w ++ Attempt rq r0 :: dropped r0 d)%list -> proper p req (Waited d) ->
  (forall w2, r_events w2 = r_events w1 -> finishes p req rq (S k) w (next w2)) ->
  finishes p req rq (S k) w
    match on_rnet m w1 with (Ok _, w) => next w | (Err err, w) => Some (Err err, w) | (Panic, w) => Some (Panic, w) end.
Proof.
  intros Hr0 He Hd Hn. destruct (on_rnet m w1) as [[[]|e|] w2] eqn:E; apply on_rnet_run in E as [Ew _]; [by apply Hn|..];
    (eexists _, w2, r0, (dropped r0 d); split_and!; [done|by rewrite Ew|..]);
    try (by left); try (unfold attempts, dropped; destruct r0; simpl; lia);
    try (by apply dropped_proper).
Qed.

Lemma loop_finishes p req fuel a rq w : (0 <= a)%Z -> (Z.to_nat (MaxRetry p - a) < fuel)%nat ->
  rq = req \/ again req rq ->
  finishes p req rq fuel w (round_trip_loop fuel (Retry p) a rq w).
Proof.
  revert a rq w. induction fuel as [|fuel IH]; intros a rq w Ha Hf Hrq; [lia|]. cbn [round_trip_loop].
  unfold roundTrip. destruct (base_RoundTrip rq (r_net w)) as [r0 n0]. set (w0 := mkRWorld n0 _).
  assert (r0 = Panic \/ r0 <> Panic) as [->|Hnp] by (destruct r0; auto); [apply (finishes_now _ _ _ _ _ _ Panic); auto|].
  match goal with |- finishes _ _ _ _ _ ?x => replace x with
    match on_rnet (Retry p a r0) w0 with
    | (Panic, w) => Some (Panic, w)
    | (Err err, w) => Some (Err err, close_resp r0 w)
    | (Ok duration, w) =>
        if (duration <? 0)%Z then Some (r0, w)
        else match next_body rq w with
        | (Ok (Some req), w) =>
            match on_rnet (wait duration) (emit (Waited duration) (close_resp r0 w)) with
            | (Ok _, w) => round_trip_loop fuel (Retry p) (a + 1) req w
            | (Err err, w) => Some (Err err, w)
            | (Panic, w) => Some (Panic, w)
            end
        | (Ok None, w) => Some (r0, w)
        | (_, w) => Some (Panic, w)
        end
    end by by destruct r0 end.
  destruct (on_rnet (Retry p a r0) w0) as [[d|err|] w1] eqn:Er; apply on_rnet_run in Er as [E1 Er].
  - destruct (Z.ltb_spec d 0) as [Hd|Hd].
    { apply (finishes_now _ _ _ _ _ _ r0); [by rewrite E1|]. right. by destruct r0. }
    apply Retry_spec in Er as (Hlt & Hmax & Hmin); [|done].
    destruct (next_body rq w1) as [nb w2] eqn:En. apply (next_body_spec req) in En as (E2 & Hag & Hne); [|done].
    destruct nb as [[rq'|]|e|]; [|..].
    + apply (finishes_wait p req rq fuel w r0 d); [done| |done|].
      * destruct r0; simpl; rewrite ?E2, ?E1; unfold w0; simpl; by rewrite <- !app_assoc.
      * intros w3 E3. eapply (finishes_more p req rq rq' fuel w w3 r0 d); [done| |by apply Hag|done|apply IH; [lia|lia|]].
        -- rewrite E3. destruct r0; simpl; rewrite ?E2, ?E1; unfold w0; simpl; by rewrite <- !app_assoc.
        -- right. by apply Hag.
    + apply (finishes_now _ _ _ _ _ _ r0); [by rewrite E2, E1|]. right. by destruct r0.
    + by destruct (Hne e).
    + apply (finishes_now _ _ _ _ _ _ r0); [by rewrite E2, E1|]. by left.
  - destruct r0 as [resp|e|]; [|apply (finishes_now _ _ _ _ _ _ (Err e)); [simpl; by rewrite E1|by right]|done].
    exists (Err err), (emit (CloseBody resp) w1), (Ok resp), [CloseBody resp].
    split_and!; [done|simpl; rewrite E1; unfold w0; simpl; by rewrite <- app_assoc|unfold attempts; simpl; lia| |by right].
    by apply list.Forall_singleton.
  - apply (finishes_now _ _ _ _ _ _ r0); [by rewrite E1|]. by left.
Qed.
End correct.

(** ** Guarantees *)

Section guarantees.
Context {NU : NetURL} {QU : QueryURL} {N : Type} {TR : Transport N}.


Context {GF : GoFloat} {RN : Rand N} {NE : NetError}.

(** The two products of the backoff, for the attempts the default policy makes. *)
Lemma backoff_floats k : (0 <= k < 5)%Z ->
  let temp := fmul (float_of_int (250 * Millisecond)) (float_of_int (2 ^ k)) in
  trunc (fmul temp (fsub (float_of_int 1) tenth)) = Some (225 * Millisecond * 2 ^ k)%Z /\
  trunc (fmul (fmul (float_of_int 2) tenth) temp) = Some (50 * Millisecond * 2 ^ k)%Z.
Proof.
  intros Hk. assert (k = 0 \/ k = 1 \/ k = 2 \/ k = 3 \/ k = 4)%Z as Hc by lia.
  destruct Hc as [->|[->|[->|[->| ->]]]]; vm_compute; done.
Qed.

(** The default backoff before attempt [k + 1] is in
    [0.9 * 250ms * 2^k, 1.1 * 250ms * 2^k), for every attempt the default policy
    makes, when the server did not ask for a delay ([math.Pow] is exact on these
    powers of two and [rand.Int64N] draws below its bound). *)
Theorem DefaultBackoff_bounds k resp n :
  (forall j, (0 <= j < 5)%Z -> math_Pow (float_of_int 2) (float_of_int j) = float_of_int (2 ^ j)) ->
  (forall b n, (0 < b)%Z -> exists r n', draw b n = (Ok r, n') /\ (0 <= r < b)%Z) ->
  (0 <= k < 5)%Z -> RetryAfter resp = None ->
  exists d n', DefaultBackoff k resp n = (Ok d, n') /\
    (225 * Millisecond * 2 ^ k <= d < 275 * Millisecond * 2 ^ k)%Z.
Proof.
  intros Hpow Hdraw Hk Hra. destruct (backoff_floats k Hk) as [H1 H2].
  unfold DefaultBackoff, ExponentialBackoff. rewrite Hra, Hpow by done. unfold int64_of_float.
  assert (1 <= 2 ^ k <= 16)%Z as Hp
    by (split; [apply (Z.pow_le_mono_r 2 0); lia|apply (Z.pow_le_mono_r 2 k 4); lia]).
  assert (forall m, (0 < m <= 500)%Z -> ((- 2 ^ 63 <=? m * Millisecond * 2 ^ k) && (m * Millisecond * 2 ^ k <=? maxInt64))%Z = true) as Hr.
  { intros m Hm. unfold Millisecond, maxInt64. rewrite andb_true_iff, !Z.leb_le. nia. }
  rewrite H1, H2, !Hr by lia. unfold Int64N. rewrite (proj2 (Z.ltb_lt _ _)) by (unfold Millisecond; nia).
  destruct (Hdraw (50 * Millisecond * 2 ^ k)%Z n) as (r & n' & E & Hrange); [unfold Millisecond; nia|].
  unfold mbind, M_bind. rewrite E. eexists _, n'. split; [done|].
  unfold int64_wrap. unfold Millisecond in *. rewrite Z.mod_small by nia. nia.
Qed.

Definition too_many (v : string) (req : Request) : Response :=
  mkResponse 429 {["Retry-After" := v]} [] 0 (bytes_NewReader []) req.

(** A server that sends [429] is waited for as long as it asks, up to three
    seconds, only below 9223372037 seconds: from there on the delay overflows an
    [int64] and the next attempt is made after 200 milliseconds. *)
Theorem retry_after_overflow k v req n : (0 <= k < 5)%Z -> (0 < ParseInt v)%Z -> v <> EmptyString ->
  ((ParseInt v <= 9223372036)%Z ->
     Retry DefaultPolicy k (Ok (too_many v req)) n = (Ok (Z.min (ParseInt v * Second) (3 * Second)), n)) /\
  ((ParseInt v = 9223372037)%Z ->
     Retry DefaultPolicy k (Ok (too_many v req)) n = (Ok (200 * Millisecond)%Z, n)).
Proof.
  intros Hk Hv Hne. apply String.eqb_neq in Hne.
  assert (Retry DefaultPolicy k (Ok (too_many v req)) n =
    (Ok (let b := int64_wrap (ParseInt v * Second) in
         let b := if (b <? 200 * Millisecond)%Z then (200 * Millisecond)%Z else b in
         if (3 * Second <? b)%Z then (3 * Second)%Z else b), n)) as ->.
  { unfold Retry. rewrite (proj2 (Z.leb_gt _ _)) by (simpl; lia).
    unfold mbind, M_bind, reads. simpl. unfold DefaultBackoff, ExponentialBackoff, RetryAfter. simpl.
    unfold Header_Get. rewrite lookup_singleton_eq. simpl. rewrite Hne, (proj2 (Z.ltb_lt _ _)) by lia. done. }
  split; intros Hb.
  - f_equal. f_equal. unfold int64_wrap, Second, Millisecond in *. rewrite Z.mod_small by lia. cbv zeta.
    destruct (Z.ltb_spec (ParseInt v * 1000000000 + 2 ^ 63 - 2 ^ 63) (200 * 1000000)); [lia|].
    destruct (Z.ltb_spec (3 * 1000000000) (ParseInt v * 1000000000 + 2 ^ 63 - 2 ^ 63)); lia.
  - rewrite Hb. reflexivity.
Qed.

(** Without jitter the bound of the draw is zero, and the first retry panics
    ([math.Pow(x, 0)] is one). *)
Lemma backoff_no_jitter_panics n :
  (forall x, math_Pow x (float_of_int 0) = float_of_int 1) ->
  ExponentialBackoff (250 * Millisecond) (float_of_int 2) (float_of_int 0) 0 None n = (Panic, n).
Proof. intros Hpow. unfold ExponentialBackoff. cbn [RetryAfter]. rewrite Hpow. reflexivity. Qed.
End guarantees.

(** ** A server that is busy *)
Module retry_example.
Import auth_example.

(** Powers of two; the least draw. *)
#[export] Instance floats : GoFloat := {|
  math_Pow x y := match trunc y with Some k => float_of_int (2 ^ k) | None => S754_nan end;
  conv_overflow _ := (- 2 ^ 63)%Z
|}.
#[export] Instance least : Rand nat := {| draw b n := (Ok 0%Z, n) |}.
#[export] Instance timeouts : NetError := {| net_Timeout e := errors_Is e DeadlineExceeded |}.

(** Every response is [503] until the counter is down to zero. *)
#[export] Instance busy : Transport nat := {|
  base_RoundTrip req n :=
    (Ok (mkResponse (match n with O => 200%Z | _ => 503%Z end) ∅ [] 0 (bytes_NewReader [])
           (sent_Request req)), pred n);
  wait d n := (Ok tt, n)
|}.

Definition req : HRequest nat := @mkHRequest url_text nat GET "https://localhost/v2/" "localhost" ∅ NilBody None 0.

Definition run (n : nat) : option (Z * list Z) :=
  '(r, w) ← RoundTrip DefaultPolicy req (mkRWorld n []);
  match r with
  | Ok resp => Some (StatusCode resp, omap (fun e => match e with Waited d => Some d | _ => None end) (r_events w))
  | _ => None
  end.

Lemma retry_runs :
  run 0 = Some (200%Z, []) /\ run 2 = Some (200%Z, Z.mul Millisecond <$> [225; 450])%Z /\
  run 9 = Some (503%Z, Z.mul Millisecond <$> [225; 450; 900; 1800; 3000])%Z.
Proof. vm_compute. done. Qed.

Lemma DefaultBackoff_bounds_witness : exists d n',
  DefaultBackoff 3 None 0 = (Ok d, n') /\ (1800000000 <= d < 2200000000)%Z.
Proof.
  apply (DefaultBackoff_bounds 3 None 0).
  - intros j Hj. assert (j = 0 \/ j = 1 \/ j = 2 \/ j = 3 \/ j = 4)%Z as Hc by lia.
    destruct Hc as [->|[->|[->|[->| ->]]]]; vm_compute; reflexivity.
  - intros b n Hb. exists 0%Z, n. split; [reflexivity|lia].
  - lia.
  - reflexivity.
Defined.

Lemma retry_after_overflow_witness :
  let resp v := Ok (too_many v (@mkRequest url_text GET "https://localhost/v2/" ∅ None None 0 Background)) in
  Retry DefaultPolicy 0 (resp "2") 0 = (Ok (2 * Second)%Z, 0) /\
  Retry DefaultPolicy 0 (resp "9223372037") 0 = (Ok (200 * Millisecond)%Z, 0).
Proof.
  intros resp. split.
  - apply (retry_after_overflow 0 "2"); [lia|vm_compute; reflexivity|done|vm_compute; congruence].
  - apply (retry_after_overflow 0 "9223372037"); [lia|vm_compute; reflexivity|done|vm_compute; reflexivity].
Defined.
End retry_example.
