(* ===== verification/Seek.v ===== *)
(** Seekable HTTP responses: [internal/httputil/seek.go], and that reading and seeking
    in a response of a server that supports ranges is reading and seeking in the
    content. *)

From Stdlib Require Import Ascii String ZArith Lia.
From stdpp Require Import pretty.
From S2P Require Import Prelude Errors Descriptor Reader GoStrings Scope Http Challenge Remote AuthExample Retry.

#[local] Open Scope string_scope.

Section seek.
Context {NU : NetURL} {N : Type} {CL : Client N}.

(** [readSeekCloser]; its client is [CL]. *)
Record readSeekCloser := mkRSC {
  rsc_req : Request;
  rc : Reader;
  rsc_size : Z;
  rsc_offset : Z;
  rsc_closed : bool
}.

Definition NewReadSeekCloser (req : Request) (respBody : Reader) (size : Z) : readSeekCloser :=
  mkRSC req respBody size 0 false.

Definition set_rc (r : Reader) (offset : Z) (s : readSeekCloser) : readSeekCloser :=
  mkRSC (rsc_req s) r (rsc_size s) offset (rsc_closed s).

(** [Read(p)] with [len(p) = n]. *)
Definition rsc_Read (n : nat) (s : readSeekCloser) : bytes * option error * readSeekCloser :=
  if rsc_closed s then ([], Some (ENew "read: already closed"), s)
  else
    let '(b, err, r) := Read n (rc s) in
    (b, err, set_rc r (int64_wrap (rsc_offset s + Zlen b)) s).

Definition SeekStart : Z := 0.
Definition SeekCurrent : Z := 1.
Definition SeekEnd : Z := 2.

(** The absolute offset that is asked for. *)
Definition seek_target (offset whence pos size : Z) : option Z :=
  if decide (whence = SeekCurrent) then Some (int64_wrap (offset + pos))
  else if decide (whence = SeekStart) then Some offset
  else if decide (whence = SeekEnd) then Some (int64_wrap (offset + size))
  else None.

Definition range_header (offset size : Z) : string :=
  "bytes=" +:+ Itoa offset +:+ "-" +:+ Itoa (int64_wrap (size - 1)).

(** [Seek]: the result, the seeker and the network after it. *)
Definition rsc_Seek (offset whence : Z) (s : readSeekCloser) (n : N) : result Z * readSeekCloser * N :=
  if rsc_closed s then (Err (ENew "seek: already closed"), s, n)
  else match seek_target offset whence (rsc_offset s) (rsc_size s) with
  | None => (Err (ENew "seek: invalid whence"), s, n)
  | Some offset =>
      if (offset <? 0)%Z
      then (Err (ENew "seek: an attempt was made to move the pointer before the beginning of the content"), s, n)
      else if (offset =? rsc_offset s)%Z then (Ok offset, s, n)
      else if (rsc_size s <=? offset)%Z then (Ok offset, set_rc (bytes_NewReader []) offset s, n)
      else
        match Do (Header_Set "Range" (range_header offset (rsc_size s)) (rsc_req s)) n with
        | (Err e, n) => (Err (EWrap "seek" e), s, n)
        | (Panic, n) => (Panic, s, n)
        | (Ok resp, n) =>
            if negb (bool_decide (StatusCode resp = 206%Z)) then (Err (ENew "seek: unexpected status code"), s, n)
            else (Ok offset, set_rc (Body resp) offset s, n)
        end
  end.

Definition rsc_Close (s : readSeekCloser) : readSeekCloser :=
  mkRSC (rsc_req s) (rc s) (rsc_size s) (rsc_offset s) true.

(** ** Seeking in bytes *)

Inductive seek_op := ORead (n : nat) | OSeek (offset whence : Z) | OClose.
Inductive seek_obs := ReadObs (b : bytes) (e : option error) | SeekObs (r : result Z) | CloseObs.

(** The state of the specification: the position, [None] once closed.  A seek to a
    valid offset succeeds, unless it needs a range and ranges may be refused. *)
Inductive seek_spec (refused : Prop) (c : bytes) : option Z -> seek_op -> seek_obs -> option Z -> Prop :=
| spec_read pos n b e :
    (* the bytes at the position; the end is reported at the end only *)
    b `prefix_of` drop (Z.to_nat pos) c -> length b <= n ->
    (e = None \/ e = Some (ESentinel EOF) /\ (Zlen c <= pos + Zlen b)%Z) ->
    seek_spec refused c (Some pos) (ORead n) (ReadObs b e) (Some (pos + Zlen b)%Z)
| spec_seek pos offset whence pos' :
    seek_target offset whence pos (Zlen c) = Some pos' -> (0 <= pos')%Z ->
    seek_spec refused c (Some pos) (OSeek offset whence) (SeekObs (Ok pos')) (Some pos')
| spec_seek_invalid pos offset whence e :
    (forall pos', seek_target offset whence pos (Zlen c) = Some pos' -> (pos' < 0)%Z) ->
    seek_spec refused c (Some pos) (OSeek offset whence) (SeekObs (Err e)) (Some pos)
| spec_seek_refused pos offset whence pos' r :
    seek_target offset whence pos (Zlen c) = Some pos' -> (0 <= pos' < Zlen c)%Z -> pos' <> pos ->
    refused -> (forall p, r <> Ok p) ->
    seek_spec refused c (Some pos) (OSeek offset whence) (SeekObs r) (Some pos)
| spec_close st : seek_spec refused c st OClose CloseObs None
| spec_closed_read n e : e <> ESentinel EOF -> seek_spec refused c None (ORead n) (ReadObs [] (Some e)) None
| spec_closed_seek offset whence e : seek_spec refused c None (OSeek offset whence) (SeekObs (Err e)) None.

Inductive spec_run (refused : Prop) (c : bytes) : option Z -> list (seek_op * seek_obs) -> Prop :=
| run_nil st : spec_run refused c st []
| run_cons st op obs st' l :
    seek_spec refused c st op obs st' -> spec_run refused c st' l -> spec_run refused c st ((op, obs) :: l).

(** One call, and a sequence of calls with what they return. *)
Definition seek_step (op : seek_op) (s : readSeekCloser) (n : N) : seek_obs * readSeekCloser * N :=
  match op with
  | ORead k => let '(b, e, s) := rsc_Read k s in (ReadObs b e, s, n)
  | OSeek offset whence => let '(r, s, n) := rsc_Seek offset whence s n in (SeekObs r, s, n)
  | OClose => (CloseObs, rsc_Close s, n)
  end.
Fixpoint seek_run (ops : list seek_op) (s : readSeekCloser) (n : N) : list (seek_op * seek_obs) :=
  match ops with
  | [] => []
  | op :: ops => let '(obs, s, n) := seek_step op s n in (op, obs) :: seek_run ops s n
  end.

(** ** Byte ranges of HTTP

    The grammar of RFC 9110, 14.1.2, for one range: [bytes=first-last], where the last
    position may be left out.  A range whose last position is beyond the content ends
    with the content. *)

Fixpoint decimal_go (acc : Z) (s : string) : option Z :=
  match s with
  | EmptyString => Some acc
  | String.String a s' =>
      if in_range "0" "9" a then decimal_go (acc * 10 + (Z.of_N (N_of_ascii a) - 48)) s' else None
  end.
Definition decimal (s : string) : option Z := if String.eqb s EmptyString then None else decimal_go 0 s.

Definition parse_range (v : string) : option (Z * option Z) :=
  '(unit, set) ← cut "=" v;
  '(first, last) ← cut "-" set;
  a ← decimal first;
  if negb (String.eqb unit "bytes") then None
  else if String.eqb last EmptyString then Some (a, None)
  else (b ← decimal last; Some (a, Some b)).

Definition satisfiable (first : Z) (last : option Z) (c : bytes) : Prop :=
  (0 <= first < Zlen c /\ match last with Some b => first <= b | None => True end)%Z.

Definition range_bytes (first : Z) (last : option Z) (c : bytes) : bytes :=
  let rest := drop (Z.to_nat first) c in
  match last with Some b => take (Z.to_nat (b - first + 1)) rest | None => rest end.

Lemma decimal_pretty_go x s : decimal_go 0 (pretty_N_go x s) = decimal_go (Z.of_N x) s.
Proof.
  revert s. induction (N.lt_wf_0 x) as [x _ IH]; intros s.
  destruct (decide (0 < x)%N) as [Hx|Hx]; [|assert (x = 0)%N as -> by lia; by rewrite pretty_N_go_0].
  rewrite pretty_N_go_step, IH by (done || by apply N.div_lt).
  assert (forall k, (k < 10)%N -> decimal_go (Z.of_N (x / 10)) (String.String (pretty_N_char k) s)
    = decimal_go (Z.of_N (x / 10) * 10 + Z.of_N k) s) as Hk.
  { intros k Hk. assert (k = 0 \/ k = 1 \/ k = 2 \/ k = 3 \/ k = 4 \/ k = 5 \/ k = 6 \/ k = 7 \/ k = 8 \/ k = 9)%N
      as Hcases by lia. repeat destruct Hcases as [->|Hcases]; try reflexivity. by rewrite Hcases. }
  rewrite Hk by (by apply N.mod_lt). f_equal. rewrite (N.div_mod x 10) at 3 by done. lia.
Qed.

Lemma decimal_Itoa z : (0 <= z)%Z -> decimal (Itoa z) = Some z.
Proof.
  intros Hz. destruct z as [|p|p]; [done| |lia].
  change (Itoa (Z.pos p)) with (pretty_N_go (N.pos p) EmptyString). unfold decimal.
  rewrite decimal_pretty_go. simpl decimal_go.
  destruct (String.eqb_spec (pretty_N_go (N.pos p) EmptyString) EmptyString) as [He|]; [|done].
  pose proof (decimal_pretty_go (N.pos p) EmptyString) as H. rewrite He in H. simpl in H. congruence.
Qed.

Lemma decimal_no_dash s z : decimal s = Some z -> has_char "-" s = false.
Proof.
  unfold decimal. destruct (String.eqb s EmptyString); [done|]. generalize 0%Z. induction s as [|a s IH]; intros acc; [done|].
  simpl. destruct (in_range "0" "9" a) eqn:E; [|done]. intros H.
  change (has_char "-" (String.String a s)) with (Ascii.eqb "-" a || has_char "-" s).
  destruct (Ascii.eqb_spec "-" a) as [<-|]; [done|]. by eapply IH.
Qed.

(** What [Seek] writes is the range that it means. *)
Lemma parse_range_header offset size : (0 <= offset < size)%Z -> (size < 2 ^ 63)%Z ->
  parse_range (range_header offset size) = Some (offset, Some (size - 1)%Z).
Proof.
  intros Ho Hs. unfold range_header, int64_wrap.
  replace ((size - 1 + 2 ^ 63) mod 2 ^ 64 - 2 ^ 63)%Z with (size - 1)%Z by (rewrite Z.mod_small by lia; lia).
  pose proof (decimal_Itoa offset ltac:(lia)) as H1. pose proof (decimal_Itoa (size - 1) ltac:(lia)) as H2.
  unfold parse_range. change ("bytes=" +:+ ?s) with ("bytes" +:+ String.String "=" s).
  rewrite cut_app by done. simpl. change ("-" +:+ Itoa (size - 1)) with (String.String "-" (Itoa (size - 1))).
  rewrite cut_app by (by eapply decimal_no_dash). simpl. rewrite H1. simpl.
  destruct (String.eqb_spec (Itoa (size - 1)) EmptyString) as [He|]; [by rewrite He in H2|]. by rewrite H2.
Qed.

(** ** Refinement *)

(** A server with the content [c] that supports ranges: when it answers a request for
    a range of the content, in whatever way the range is written, with partial content,
    the content of the response is those bytes. *)
Definition serves_ranges (req : Request) (c : bytes) : Prop :=
  forall v first last n resp n', parse_range v = Some (first, last) -> satisfiable first last c ->
    Do (Header_Set "Range" v req) n = (Ok resp, n') -> StatusCode resp = 206%Z ->
    clean (Body resp) /\ content (Body resp) = range_bytes first last c.

(** ... and it answers every such request that way. *)
Definition grants_ranges (req : Request) (c : bytes) : Prop :=
  forall v first last n, parse_range v = Some (first, last) -> satisfiable first last c ->
    exists resp n', Do (Header_Set "Range" v req) n = (Ok resp, n') /\ StatusCode resp = 206%Z.

(** A seeker over [c] at a position. *)
Record seeks (req : Request) (c : bytes) (s : readSeekCloser) (pos : Z) : Prop := {
  sk_req : rsc_req s = req;
  sk_size : rsc_size s = Zlen c;
  sk_open : rsc_closed s = false;
  sk_offset : rsc_offset s = pos;
  sk_pos : (0 <= pos < 2 ^ 63)%Z;
  sk_clean : clean (rc s);
  sk_rest : content (rc s) = drop (Z.to_nat pos) c
}.

Definition refines (req : Request) (c : bytes) (s : readSeekCloser) (st : option Z) : Prop :=
  match st with Some pos => seeks req c s pos | None => rsc_closed s = true end.

Lemma Read_prefix n r b e r' : clean r -> Read n r = (b, e, r') ->
  content r = (b ++ content r')%list /\ length b <= n /\ clean r' /\
  (e = None \/ e = Some (ESentinel EOF) /\ content r' = []).
Proof.
  intros Hc. destruct n as [|n].
  - unfold Read. destruct Hc as [Hf He]. destruct r as [[|c cs] eg en]; cbn [rd_chunks rd_eager rd_end] in *.
    + intros [= <- <- <-]. split_and!; [done|done|by split; [|left]|]. right. by rewrite Hf.
    + destruct (decide (0 < length c)) as [Hlt|Hge].
      { intros [= <- <- <-]. split_and!; [done|simpl; lia|split; [done|]|by left]. right. destruct He; naive_solver. }
      destruct c as [|x c]; [|simpl in Hge; lia]. destruct He as [|He]; [done|]. destruct cs as [|c' cs]; intros [= <- <- <-].
      * split_and!; [done|done|split; [done|by left]|]. destruct He as [->| ->]; auto.
      * split_and!; [done|done|split; [done|by right]|by left].
  - intros Heq. apply Read_spec in Heq as (H1 & H2 & H3 & H4 & H5); [|lia]. split_and!; auto.
    destruct e as [e|]; [|by left]. right. destruct H5 as [Hr Hi]. split; [f_equal; by apply Hi|].
    unfold content. by rewrite Hr.
Qed.

Lemma rsc_Read_refines refused req c s pos n b e s' : (Zlen c < 2 ^ 63)%Z -> seeks req c s pos ->
  rsc_Read n s = (b, e, s') ->
  seek_spec refused c (Some pos) (ORead n) (ReadObs b e) (Some (pos + Zlen b)%Z) /\ seeks req c s' (pos + Zlen b).
Proof.
  intros Hlen [Hreq Hsize Hopen Hoff Hpos Hc Hrest]. unfold rsc_Read. rewrite Hopen.
  destruct (Read n (rc s)) as [[b1 e1] r1] eqn:E. intros [= <- <- <-].
  apply Read_prefix in E as (H1 & H2 & H3 & H4); [|done]. rewrite Hrest in H1.
  assert (content r1 = drop (Z.to_nat (pos + Zlen b1)) c) as H5.
  { rewrite Z2Nat.inj_add by (unfold Zlen; lia). unfold Zlen. rewrite Nat2Z.id, <- drop_drop, H1.
    by rewrite drop_app_length. }
  assert (length b1 + length (content r1) = length c - Z.to_nat pos) as H6.
  { rewrite <- length_app, <- H1. apply length_drop. }
  assert (b1 = [] \/ pos + Zlen b1 <= Zlen c)%Z as Hle by (destruct b1; [by left|right; unfold Zlen in *; simpl in *; lia]).
  assert (0 <= pos + Zlen b1 < 2 ^ 63)%Z as Hb by (destruct Hle as [->|]; unfold Zlen in *; simpl; lia).
  split.
  - constructor; [by exists (content r1)|done|]. destruct H4 as [->|[-> He]]; [by left|right]. split; [done|].
    rewrite He in H6. simpl in H6. unfold Zlen. lia.
  - split; try done. simpl. rewrite Hoff. unfold int64_wrap. rewrite Z.mod_small by lia. lia.
Qed.

Lemma seek_target_bounds offset whence pos size p :
  (- 2 ^ 63 <= offset < 2 ^ 63)%Z -> seek_target offset whence pos size = Some p -> (- 2 ^ 63 <= p < 2 ^ 63)%Z.
Proof.
  intros Ho. unfold seek_target. assert (forall z, - 2 ^ 63 <= int64_wrap z < 2 ^ 63)%Z as Hw.
  { intros z. unfold int64_wrap. pose proof (Z.mod_pos_bound (z + 2 ^ 63) (2 ^ 64)). lia. }
  repeat case_decide; intros [= <-]; auto.
Qed.

Lemma rsc_Seek_refines req c s pos offset whence n r s' n' :
  serves_ranges req c -> (Zlen c < 2 ^ 63)%Z -> (- 2 ^ 63 <= offset < 2 ^ 63)%Z -> seeks req c s pos ->
  rsc_Seek offset whence s n = (r, s', n') ->
  exists pos', seek_spec (~ grants_ranges req c) c (Some pos) (OSeek offset whence) (SeekObs r) (Some pos') /\ seeks req c s' pos'.
Proof.
  intros Hserve Hlen Hoffset Hs. destruct Hs as [Hreq Hsize Hopen Hoff Hpos Hc Hrest]. unfold rsc_Seek. rewrite Hopen, Hoff, Hsize.
  assert (seeks req c s pos) as Hs by by split.
  destruct (seek_target offset whence pos (Zlen c)) as [p|] eqn:Ht;
    [|intros [= <- <- <-]; exists pos; split; [constructor; congruence|done]].
  pose proof (seek_target_bounds _ _ _ _ _ Hoffset Ht) as Hp.
  destruct (Z.ltb_spec p 0); [intros [= <- <- <-]; exists pos; split; [constructor; congruence|done]|].
  destruct (Z.eqb_spec p pos) as [->|Hne]; [intros [= <- <- <-]; exists pos; split; [by constructor|done]|].
  destruct (Z.leb_spec (Zlen c) p) as [Hge|Hlt].
  { intros [= <- <- <-]. exists p. split; [by constructor|]. destruct (bytes_NewReader_spec []) as [H1 H2].
    split; try done; [lia|]. cbn [rc set_rc]. rewrite H2, drop_ge; [done|]. unfold Zlen in Hge. lia. }
  assert (satisfiable p (Some (Zlen c - 1)%Z) c) as Hsat by (unfold satisfiable; lia).
  pose proof (parse_range_header p (Zlen c) ltac:(lia) Hlen) as Hv. rewrite Hreq.
  assert (forall e, (forall resp n', Do (Header_Set "Range" (range_header p (Zlen c)) req) n = (Ok resp, n') ->
      StatusCode resp <> 206%Z) -> (forall x, e <> Ok x) ->
    seek_spec (~ grants_ranges req c) c (Some pos) (OSeek offset whence) (SeekObs e) (Some pos)) as Hfail.
  { intros e He Hno. apply (spec_seek_refused _ _ _ _ _ p); [done|lia|done| |done]. intros Hg.
    destruct (Hg _ _ _ n Hv Hsat) as (resp & n1 & H1 & H2). by apply He in H1. }
  destruct (Do _ n) as [[resp|e|] n1] eqn:E;
    [|intros [= <- <- <-]; exists pos; (split; [apply Hfail; naive_solver|done])..].
  destruct (negb _) eqn:E206.
  { apply negb_true_iff, bool_decide_eq_false in E206. intros [= <- <- <-]. exists pos.
    split; [apply Hfail; naive_solver|done]. }
  apply negb_false_iff, bool_decide_eq_true in E206. intros [= <- <- <-]. exists p. split; [by constructor|].
  destruct (Hserve _ _ _ n resp n1 Hv Hsat E E206) as [H1 H2]. split; try done; [lia|]. cbn [rc set_rc].
  rewrite H2. unfold range_bytes. apply take_ge. rewrite length_drop. unfold Zlen. lia.
Qed.

(** The offsets of a call are 64-bit integers. *)
Definition op_int64 (op : seek_op) : Prop :=
  match op with OSeek offset _ => (- 2 ^ 63 <= offset < 2 ^ 63)%Z | _ => True end.

End seek.

(** ** A server of five bytes *)
Module seek_example.
Import auth_example.

Definition bytes5 : bytes := String.list_byte_of_string "hello".

#[export] Instance ranges : Client unit := {|
  Do req n :=
    let partial := parse_range (Header_Get "Range" (rq_Header req)) in
    let body := match partial with Some (a, b) => range_bytes a b bytes5 | None => bytes5 end in
    (Ok (mkResponse (if partial then 206 else 200) ∅ [] 0 (bytes_NewReader body) req), n)
|}.

Definition get : Request := @mkRequest url_text GET "https://localhost/v2/app/blobs/sha256:00" ∅ None None 0 Background.

Definition ops : list seek_op := [ORead 2; OSeek (-1) SeekEnd; ORead 9; ORead 9; OSeek 1 SeekStart; ORead 2; OClose; ORead 1].

Lemma seek_example_run : seek_run ops (NewReadSeekCloser get (bytes_NewReader bytes5) 5) tt =
  combine ops
    [ReadObs (String.list_byte_of_string "he") None; SeekObs (Ok 4%Z); ReadObs (String.list_byte_of_string "o") None;
     ReadObs [] (Some (ESentinel EOF)); SeekObs (Ok 1%Z); ReadObs (String.list_byte_of_string "el") None; CloseObs;
     ReadObs [] (Some (ENew "read: already closed"))].
Proof. vm_compute. reflexivity. Qed.

Lemma ranges_Do v n : exists resp,
  Do (Header_Set "Range" v get) n = (Ok resp, n) /\
  forall a b, parse_range v = Some (a, b) ->
    StatusCode resp = 206%Z /\ Body resp = bytes_NewReader (range_bytes a b bytes5).
Proof.
  eexists. split; [reflexivity|]. intros a b Hv.
  change (Header_Get "Range" (rq_Header (Header_Set "Range" v get))) with v. by rewrite Hv.
Qed.

Lemma ranges_serves : serves_ranges get bytes5.
Proof.
  intros v a b n resp n' Hv _ Hd _. destruct (ranges_Do v n) as (r & H1 & H2). rewrite H1 in Hd.
  injection Hd as <- _. destruct (H2 a b Hv) as [_ ->]. apply bytes_NewReader_spec.
Qed.

Lemma ranges_grants : grants_ranges get bytes5.
Proof. intros v a b n Hv _. destruct (ranges_Do v n) as (r & H1 & H2). exists r, n. split; [done|]. by apply (H2 a b). Qed.

End seek_example.
