(* ===== verification/FilePath.v ===== *)
(** Slash-separated file paths: the functions of Go's [path/filepath] that the file
    store uses, for Unix.  A path is read as whether it is rooted and its list of
    elements in normal form; [Clean] prints that normal form, and the other
    functions are defined on it.  Nothing here looks at a file system. *)

From Stdlib Require Import Ascii String Lia.
From S2P Require Import Prelude Errors GoStrings.

#[local] Open Scope string_scope.
#[local] Open Scope list_scope.

Module filepath.

Definition sep : ascii := "/"%char.

Definition IsAbs (p : string) : bool :=
  match p with String.String c _ => Ascii.eqb c sep | EmptyString => false end.

(** The elements of a path as written: the pieces between slashes. *)
Definition pieces (p : string) : list string := List.filter (fun s => negb (String.eqb s EmptyString)) (Split sep p).

(** One element read by [Clean]: the stack holds the elements so far, last first. *)
Definition push_elem (rooted : bool) (stack : list string) (e : string) : list string :=
  if String.eqb e "." then stack
  else if String.eqb e ".." then
    match stack with
    | [] => if rooted then [] else [".."]
    | top :: rest => if String.eqb top ".." then ".." :: stack else rest
    end
  else e :: stack.

(** The normal form of a path. *)
Definition elems (p : string) : list string := rev (fold_left (push_elem (IsAbs p)) (pieces p) []).

Definition render (rooted : bool) (l : list string) : string :=
  if rooted then String.String sep (Join sep l)
  else match l with [] => "." | _ => Join sep l end.

Definition Clean (p : string) : string := render (IsAbs p) (elems p).

(** [filepath.Join(a, b)]: empty arguments are skipped. *)
Definition Join2 (a b : string) : string :=
  if String.eqb a EmptyString then (if String.eqb b EmptyString then EmptyString else Clean b)
  else Clean (a +:+ String.String sep b).

(** [filepath.Dir(p)]: what precedes the last slash, cleaned. *)
Definition Dir (p : string) : string :=
  match cut_last sep p with
  | None => Clean EmptyString
  | Some (d, _) => Clean (d +:+ String.String sep EmptyString)
  end.

(** [filepath.Abs(p)] in the working directory [wd]. *)
Definition Abs (wd p : string) : string := if IsAbs p then Clean p else Join2 wd p.

(** Drop the common prefix of two lists of elements. *)
Fixpoint strip_common (b t : list string) : list string * list string :=
  match b, t with
  | x :: b', y :: t' => if String.eqb x y then strip_common b' t' else (b, t)
  | _, _ => (b, t)
  end.

(** [filepath.Rel(base, target)]. *)
Definition Rel (base target : string) : result string :=
  if String.eqb (Clean base) (Clean target) then Ok "."
  else if negb (Bool.eqb (IsAbs base) (IsAbs target)) then Err (ENew "Rel: can't make target relative to base")
  else
    let '(b, t) := strip_common (elems base) (elems target) in
    if match b with x :: _ => String.eqb x ".." | [] => false end
    then Err (ENew "Rel: can't make target relative to base")
    else Ok (render false (((fun _ => "..") <$> b) ++ t)).

(** ** Normal forms *)

(** An element that names a directory entry. *)
Definition proper (e : string) : bool :=
  negb (has_char sep e) && negb (String.eqb e EmptyString)
  && negb (String.eqb e ".") && negb (String.eqb e "..").

(** Normal forms: proper elements, after some [".."] when not rooted. *)
Definition normal (rooted : bool) (l : list string) : Prop :=
  exists n l', l = replicate n ".." ++ l' /\ Forall (fun e => proper e = true) l' /\ (rooted = true -> n = 0).

Lemma proper_spec e :
  proper e = true <-> has_char sep e = false /\ e <> EmptyString /\ e <> "." /\ e <> "..".
Proof.
  unfold proper. rewrite !andb_true_iff, !negb_true_iff, !String.eqb_neq. tauto.
Qed.

Lemma normal_proper rooted l : Forall (fun e => proper e = true) l -> normal rooted l.
Proof. intros H. exists 0, l. by repeat split. Qed.

Lemma elem_of_pieces p e : e ∈ pieces p -> has_char sep e = false /\ e <> EmptyString.
Proof.
  unfold pieces. rewrite list_elem_of_In, filter_In. intros [Hin He%negb_true_iff%String.eqb_neq].
  split; [|done]. clear He. unfold Split in Hin.
  apply List.in_map_iff in Hin as (l & <- & Hl). unfold has_char. rewrite chars_of_chars.
  revert l Hl. induction (chars p) as [|a cs IH]; intros l Hl; simpl in Hl.
  - by destruct Hl as [<-|[]].
  - destruct (Ascii.eqb a sep) eqn:Ha.
    + destruct Hl as [<-|Hl]; [done|by apply IH].
    + destruct (split_chars sep cs) as [|q qs] eqn:E.
      * destruct Hl as [<-|[]]. cbn [existsb]. by rewrite orb_false_r, Ascii.eqb_sym.
      * destruct Hl as [<-|Hl]; [|by apply IH; right].
        cbn [existsb]. rewrite Ascii.eqb_sym, Ha. apply IH. by left.
Qed.

(** The stack of [Clean] is a normal form read backwards. *)
Lemma push_elem_normal rooted stack e :
  has_char sep e = false -> e <> EmptyString ->
  normal rooted (rev stack) -> normal rooted (rev (push_elem rooted stack e)).
Proof.
  intros Hc He Hn. unfold push_elem.
  destruct (String.eqb_spec e ".") as [|Hd]; [done|]. destruct (String.eqb_spec e "..") as [->|Hdd].
  - destruct Hn as (n & l & Hl & Hp & Hr). destruct stack as [|top rest]; simpl in *.
    + destruct rooted; [by exists 0, []|]. exists 1, []. done.
    + destruct l as [|x l _] using rev_ind.
      * rewrite app_nil_r in Hl. destruct n as [|n]; [by destruct (rev rest)|].
        rewrite replicate_S_end in Hl. apply app_inj_tail in Hl as [Hl ->]. simpl.
        exists (S (S n)), []. rewrite app_nil_r, Hl. split; [|split; [done|]].
        -- by rewrite !replicate_S_end.
        -- intros Hro. by specialize (Hr Hro).
      * rewrite app_assoc in Hl. apply app_inj_tail in Hl as [Hl ->].
        apply Forall_app in Hp as [Hp1 Hp2]. apply list.Forall_cons in Hp2 as [Hp2 _]. apply proper_spec in Hp2 as (_ & _ & _ & Hx).
        destruct (String.eqb_spec x ".."); [done|]. by exists n, l.
  - destruct Hn as (n & l & Hl & Hp & Hr). simpl. rewrite Hl. exists n, (l ++ [e]).
    split; [by rewrite app_assoc|]. split; [|done]. apply Forall_app. split; [done|].
    apply list.Forall_singleton, proper_spec. done.
Qed.

Lemma elems_normal p : normal (IsAbs p) (elems p).
Proof.
  unfold elems. assert (forall l stack, Forall (fun e => has_char sep e = false /\ e <> EmptyString) l ->
    normal (IsAbs p) (rev stack) -> normal (IsAbs p) (rev (fold_left (push_elem (IsAbs p)) l stack))) as H.
  { induction l as [|e l IH]; intros stack Hl Hs; [done|]. apply list.Forall_cons in Hl as [[Hc He] Hl].
    simpl. apply IH; [done|]. by apply push_elem_normal. }
  apply H; [|by apply normal_proper]. apply list.Forall_forall. intros e. apply elem_of_pieces.
Qed.

Lemma normal_no_sep rooted l e :
  normal rooted l -> e ∈ l -> has_char sep e = false /\ e <> EmptyString /\ e <> ".".
Proof.
  intros (n & l' & -> & Hp & _). rewrite elem_of_app, elem_of_replicate. intros [[-> _]|Hin]; [done|].
  rewrite list.Forall_forall in Hp. apply Hp, proper_spec in Hin. tauto.
Qed.

(** Reading a normal form pushes its elements one by one. *)
Lemma fold_push_proper rooted l stack :
  Forall (fun e => proper e = true) l -> fold_left (push_elem rooted) l stack = rev l ++ stack.
Proof.
  revert stack. induction l as [|e l IH]; intros stack Hl; [done|]. apply list.Forall_cons in Hl as [He Hl].
  simpl. rewrite IH by done. apply proper_spec in He as (_ & _ & H1 & H2). unfold push_elem.
  apply String.eqb_neq in H1, H2. rewrite H1, H2. by rewrite <- app_assoc.
Qed.

Lemma fold_push_normal rooted l :
  normal rooted l -> fold_left (push_elem rooted) l [] = rev l.
Proof.
  intros (n & l' & -> & Hp & Hr). rewrite fold_left_app, fold_push_proper by done. rewrite rev_app_distr.
  f_equal. destruct rooted; [by rewrite (Hr eq_refl)|]. clear.
  assert (forall k, fold_left (push_elem false) (replicate n "..") (replicate k "..") = replicate (n + k) "..") as H.
  { induction n as [|n IH]; intros k; [done|]. rewrite replicate_S. cbn [fold_left].
    replace (push_elem false (replicate k "..") "..") with (replicate (S k) "..") by (destruct k; reflexivity).
    rewrite IH. f_equal. lia. }
  specialize (H 0). rewrite Nat.add_0_r in H. simpl in H. rewrite H. symmetry. clear H.
  induction n as [|n IH]; [done|]. cbn [replicate rev]. by rewrite IH, <- replicate_S_end.
Qed.

Lemma pieces_Join l :
  (forall e, e ∈ l -> has_char sep e = false /\ e <> EmptyString) -> pieces (Join sep l) = l.
Proof.
  intros Hl. destruct l as [|e l]; [done|]. unfold pieces.
  rewrite Split_Join; [|done|intros s Hs; by apply Hl].
  assert (forall l, (forall e, e ∈ l -> e <> EmptyString) ->
    List.filter (fun s => negb (String.eqb s EmptyString)) l = l) as H; [|apply H; intros ? ?; by apply Hl].
  clear. induction l as [|x l IH]; intros Hl; [done|]. simpl.
  destruct (String.eqb_spec x EmptyString) as [->|]; [by destruct (Hl EmptyString (list_elem_of_here _ _))|].
  simpl. f_equal. apply IH. intros y Hy. apply Hl. by right.
Qed.

Lemma pieces_sep p : pieces (String.String sep p) = pieces p.
Proof. unfold pieces. change (String.String sep p) with (EmptyString +:+ String.String sep p).
  by rewrite Split_app. Qed.

Lemma IsAbs_Join rooted l : normal rooted l -> l <> [] -> IsAbs (Join sep l) = false.
Proof.
  intros Hn Hne. destruct l as [|e l]; [done|].
  destruct (normal_no_sep _ _ e Hn (list_elem_of_here _ _)) as (Hc & He & _).
  destruct e as [|c e]; [done|]. unfold has_char in Hc. simpl in Hc. apply orb_false_iff in Hc as [Hc _].
  destruct l; simpl; by rewrite Ascii.eqb_sym.
Qed.

Lemma IsAbs_render rooted l : normal rooted l -> IsAbs (render rooted l) = rooted.
Proof.
  intros Hn. unfold render. destruct rooted; [done|]. destruct l as [|e l]; [done|]. by eapply IsAbs_Join.
Qed.

Lemma pieces_render rooted l :
  normal rooted l -> l <> [] \/ rooted = true -> pieces (render rooted l) = l.
Proof.
  intros Hn Hl. assert (pieces (Join sep l) = l) as HJ.
  { apply pieces_Join. intros e He. destruct (normal_no_sep _ _ e Hn He) as (? & ? & ?). done. }
  unfold render. destruct rooted; [by rewrite pieces_sep|]. destruct l; [by destruct Hl|done].
Qed.

(** Printing and reading a normal form. *)
Lemma elems_render rooted l : normal rooted l -> elems (render rooted l) = l.
Proof.
  intros Hn. unfold elems. rewrite IsAbs_render by done.
  destruct (decide (l = [])) as [->|Hne].
  - by destruct rooted.
  - rewrite pieces_render by auto. rewrite fold_push_normal by done. apply rev_involutive.
Qed.

Lemma elems_Clean p : elems (Clean p) = elems p.
Proof. apply elems_render, elems_normal. Qed.
Lemma IsAbs_Clean p : IsAbs (Clean p) = IsAbs p.
Proof. apply IsAbs_render, elems_normal. Qed.
Lemma Clean_idem p : Clean (Clean p) = Clean p.
Proof. unfold Clean at 1. by rewrite elems_Clean, IsAbs_Clean. Qed.

Lemma Forall_proper_no_sep l :
  Forall (fun e => proper e = true) l -> forall e, e ∈ l -> has_char sep e = false /\ e <> EmptyString.
Proof. rewrite list.Forall_forall. intros H e He%H%proper_spec. tauto. Qed.

Lemma pieces_app_sep a b : pieces (a +:+ String.String sep b) = pieces a ++ pieces b.
Proof.
  unfold pieces. rewrite <- List.filter_app. f_equal. unfold Split. rewrite chars_app. simpl.
  induction (chars a) as [|c l IH]; [done|]. simpl. destruct (Ascii.eqb c sep); [simpl; by f_equal|].
  destruct (split_chars sep (l ++ _)) as [|p ps] eqn:E; [by apply split_chars_ne in E|].
  destruct (split_chars sep l) as [|q qs] eqn:E'; [by apply split_chars_ne in E'|].
  simpl in *. by injection IH as -> ->.
Qed.

Lemma IsAbs_app a b : a <> EmptyString -> IsAbs (a +:+ b) = IsAbs a.
Proof. by destruct a. Qed.

(** Joining a path below a rooted one appends the elements. *)
Lemma Join2_below b l :
  Forall (fun e => proper e = true) b -> Forall (fun e => proper e = true) l ->
  Join2 (render true b) (render false l) = render true (b ++ l).
Proof.
  intros Hb Hl. unfold Join2. change (String.eqb (render true b) EmptyString) with false. cbn iota.
  unfold Clean. rewrite IsAbs_app by done. change (IsAbs (render true b)) with true. f_equal.
  unfold elems. rewrite IsAbs_app, pieces_app_sep by done. change (IsAbs (render true b)) with true.
  rewrite pieces_render by (by auto using normal_proper).
  rewrite fold_left_app, (fold_push_proper true b [] Hb), app_nil_r. destruct (decide (l = [])) as [->|Hne].
  - rewrite app_nil_r. apply rev_involutive.
  - rewrite pieces_render by (auto using normal_proper). rewrite fold_push_proper by done.
    by rewrite rev_app_distr, !rev_involutive.
Qed.

Lemma Join_app_last l e : l <> [] -> Join sep (l ++ [e]) = Join sep l +:+ String.String sep e.
Proof.
  induction l as [|x l IH]; intros Hne; [done|]. destruct l as [|y l]; [done|].
  change (Join sep ((x :: y :: l) ++ [e])) with (x +:+ String.String sep (Join sep ((y :: l) ++ [e]))).
  rewrite IH by done. change (Join sep (x :: y :: l)) with (x +:+ String.String sep (Join sep (y :: l))).
  by rewrite string_app_cons.
Qed.

(** [Dir] drops the last element. *)
Lemma Dir_below l e :
  Forall (fun e => proper e = true) (l ++ [e]) -> Dir (render false (l ++ [e])) = render false l.
Proof.
  intros [Hl He]%Forall_app. apply list.Forall_cons in He as [He _]. apply proper_spec in He as (He & _).
  unfold Dir. destruct (decide (l = [])) as [->|Hne].
  - change (render false ([] ++ [e])) with e. by rewrite (proj2 (cut_last_None sep e) He).
  - assert (render false (l ++ [e]) = Join sep l +:+ String.String sep e) as ->.
    { rewrite <- Join_app_last by done. unfold render. by destruct l. }
    rewrite cut_last_app by done. unfold Clean.
    assert (Join sep l <> EmptyString) as HJ.
    { intros HJ. pose proof (pieces_Join l (Forall_proper_no_sep l Hl)) as Hp. rewrite HJ in Hp. by destruct l. }
    rewrite IsAbs_app by done. rewrite (IsAbs_Join true l) by (done || by apply normal_proper).
    f_equal. unfold elems. rewrite IsAbs_app by done. rewrite (IsAbs_Join true l) by (done || by apply normal_proper).
    rewrite pieces_app_sep, pieces_Join by (by apply Forall_proper_no_sep).
    rewrite app_nil_r, fold_push_proper, app_nil_r by done. apply rev_involutive.
Qed.

(** The test [rel == ".." || strings.HasPrefix(rel, "../")]. *)
Definition escapes (rel : string) : bool := String.eqb rel ".." || String.prefix "../" rel.

Lemma escapes_render l : normal false l -> escapes (render false l) = false -> Forall (fun e => proper e = true) l.
Proof.
  intros (n & l' & -> & Hp & _) He. destruct n as [|n]; [done|]. exfalso.
  change (replicate (S n) ".." ++ l') with (".." :: (replicate n ".." ++ l')) in He.
  destruct (replicate n ".." ++ l') as [|x xs]; [discriminate He|].
  apply orb_false_iff in He as [_ He].
  change (render false (".." :: x :: xs)) with (".." +:+ String.String sep (Join sep (x :: xs))) in He.
  by destruct (Join sep (x :: xs)).
Qed.

(** Stripping the elements of the base from those of a rooted target. *)
Lemma strip_common_app b t b' t' :
  strip_common b t = (b', t') -> exists c, b = c ++ b' /\ t = c ++ t'.
Proof.
  revert t. induction b as [|x b IH]; intros t H; [injection H as <- <-; by exists []|].
  destruct t as [|y t]; [injection H as <- <-; by exists []|]. simpl in H.
  destruct (String.eqb_spec x y) as [->|]; [|injection H as <- <-; by exists []].
  apply IH in H as (c & -> & ->). by exists (y :: c).
Qed.

Lemma normal_suffix rooted c l : normal rooted (c ++ l) -> normal rooted l.
Proof.
  intros (n & l' & H & Hp & Hr). revert n H Hr. induction c as [|x c IH]; intros n H Hr; [by exists n, l'|].
  destruct n as [|n]; simpl in H.
  - subst l'. apply normal_proper. apply list.Forall_cons in Hp as [_ Hp]. by apply Forall_app in Hp as [_ Hp].
  - injection H as -> H. apply (IH n); [done|]. intros Hro. by specialize (Hr Hro).
Qed.

(** A relative path that [Rel] gives and that does not leave the base. *)
Lemma Rel_below base target rel :
  Rel base target = Ok rel -> escapes (Clean rel) = false ->
  exists l, rel = render false l /\ Forall (fun e => proper e = true) l
    /\ elems target = elems base ++ l /\ IsAbs base = IsAbs target.
Proof.
  unfold Rel. destruct (String.eqb_spec (Clean base) (Clean target)) as [Heq|Hneq].
  { intros [= <-] _. exists []. split; [done|]. split; [done|]. rewrite app_nil_r.
    by rewrite <- (elems_Clean target), <- Heq, elems_Clean, <- (IsAbs_Clean target), <- Heq, IsAbs_Clean. }
  destruct (Bool.eqb_spec (IsAbs base) (IsAbs target)) as [Ha|]; [|done]. cbn [negb].
  destruct (strip_common (elems base) (elems target)) as [b t] eqn:E. intros H Hesc.
  apply strip_common_app in E as (c & Hb & Ht).
  pose proof (elems_normal base) as Nb. pose proof (elems_normal target) as Nt.
  rewrite Hb in Nb. rewrite Ht in Nt. apply normal_suffix in Nb, Nt.
  destruct b as [|x b].
  - assert (rel = render false t) as -> by (by injection H). exists t. split; [done|].
    assert (normal false t) as Nf by (destruct Nt as (n & l' & ? & ? & _); by exists n, l').
    split; [|by rewrite Hb, Ht, app_nil_r]. unfold Clean in Hesc.
    rewrite IsAbs_render, elems_render in Hesc by done. by apply escapes_render.
  - destruct (String.eqb_spec x "..") as [|Hx]; [done|]. exfalso.
    assert (rel = render false (((fun _ => "..") <$> x :: b) ++ t)) as -> by congruence.
    assert (normal false (((fun _ => "..") <$> x :: b) ++ t)) as Nl.
    { destruct Nt as (n & l' & -> & Hp & _). exists (length (x :: b) + n), l'. split; [|done].
      rewrite replicate_add, app_assoc. f_equal. f_equal. clear. by induction (x :: b) as [|y l IH]; csimpl; [|f_equal]. }
    unfold Clean in Hesc. rewrite IsAbs_render, elems_render in Hesc by done.
    apply escapes_render in Hesc; [|done]. by apply list.Forall_cons in Hesc as [? _].
Qed.

End filepath.
