(* ===== verification/TarFS.v ===== *)
(** A read-only file system over a tar archive: [internal/fs/tarfs/tarfs.go]. *)

From Stdlib Require Import Ascii String ZArith Lia.
From S2P Require Import Prelude Errors Descriptor Reader GoStrings FilePath.

#[local] Open Scope string_scope.

Module tarfs.

Record Header := mkHeader { Name : string; Typeflag : ascii; Size : nat }.

Definition TypeReg : ascii := "0".
Definition blockSize : nat := 512.

(** [archive/tar]: [Next] of a new reader on these bytes: the header, the number of
    bytes up to the data (extended headers included), and from there to the next
    header.  [utf8_Valid] is [utf8.ValidString]. *)
Class TarFormat := {
  tar_Next : bytes -> result (Header * nat * nat);
  utf8_Valid : string -> bool
}.

Record entry := mkEntry { header : Header; pos : nat }.
Record TarFS := mkTarFS { path : string; entries : gmap string entry }.

Section tarfs.
Context {TF : TarFormat}.

(** [indexEntries] on the content of the archive, from the offset [off] on. *)
Fixpoint indexEntries (fuel : nat) (b : bytes) (off : nat) (m : gmap string entry) : option (result (gmap string entry)) :=
  match fuel with
  | O => None
  | S fuel' =>
      match tar_Next (drop off b) with
      | Err e => if errors_Is e EOF then Some (Ok m) else Some (Err e)
      | Panic => Some Panic
      | Ok (h, k, adv) =>
          indexEntries fuel' b (off + k + adv)
            (<[filepath.Clean (Name h) := mkEntry h (off + k - blockSize)]> m)
      end
  end.

(** [New]; [open] is [os.Open] with the content of the file, [wd] the working
    directory. *)
Definition New (open : string -> result bytes) (wd p : string) : option (result TarFS) :=
  let pathAbs := filepath.Abs wd p in
  match open pathAbs with
  | Err e => Some (Err e)
  | Panic => Some Panic
  | Ok b =>
      (fun r => m ← r; Ok (mkTarFS pathAbs m)) <$> indexEntries (S (length b)) b 0 ∅
  end.

(** [fs.ValidPath]. *)
Definition ValidPath (name : string) : bool :=
  utf8_Valid name &&
  (String.eqb name "." ||
   forallb (fun e => negb (String.eqb e EmptyString || String.eqb e "." || String.eqb e "..")) (Split "/" name)).

Definition getEntry (operation name : string) (t : TarFS) : result entry :=
  if negb (ValidPath name) then Err (EWrap operation (ENew "invalid argument"))
  else match entries t !! name with
       | None => Err (EWrap operation fsErrNotExist)
       | Some e =>
           if Ascii.eqb (Typeflag (header e)) TypeReg then Ok e
           else Err (EWrap "type flag is not supported" ErrUnsupported)
       end.

(** [Open]: the header and the data that is read. *)
Definition Open (open : string -> result bytes) (name : string) (t : TarFS) : result (Header * bytes) :=
  e ← getEntry "open" name t;
  b ← open (path t);
  '(h, k, _) ← tar_Next (drop (pos e) b);
  Ok (header e, take (Size h) (drop (pos e + k) b)).

Definition Stat (name : string) (t : TarFS) : result Header :=
  e ← getEntry "stat" name t; Ok (header e).

(** ** What the archive holds *)

(** The members of an archive from an offset on: their header and the offset of their
    data. *)
Inductive members (b : bytes) : nat -> list (Header * nat) -> Prop :=
| members_end off e : tar_Next (drop off b) = Err e -> errors_Is e EOF = true -> members b off []
| members_next off h k adv l :
    tar_Next (drop off b) = Ok (h, k, adv) -> members b (off + k + adv) l ->
    members b off ((h, off + k) :: l).

(** What the format promises: a header takes at least a block and lies within the
    archive. *)
Class TarLaws := {
  Next_block b h k adv : tar_Next b = Ok (h, k, adv) -> blockSize <= k /\ k <= length b
}.

(** The last block before the data of a member is a header that gives the same size:
    no extended header overrides it (as a PAX record for a size of 8 GiB or a sparse
    file does). *)
Definition plain (b : bytes) : Prop :=
  forall off h k adv, tar_Next (drop off b) = Ok (h, k, adv) ->
    exists h', tar_Next (drop (off + k - blockSize) b) = Ok (h', blockSize, adv) /\ Size h' = Size h.

(** The last member with a name. *)
Definition last_member (name : string) (l : list (Header * nat)) : option (Header * nat) :=
  foldl (fun r m => if String.eqb (filepath.Clean (Name m.1)) name then Some m else r) None l.

Definition member_entry (m : Header * nat) : entry := mkEntry m.1 (m.2 - blockSize).

Lemma last_member_cons name m l :
  last_member name (m :: l) =
    match last_member name l with
    | Some x => Some x
    | None => if String.eqb (filepath.Clean (Name m.1)) name then Some m else None
    end.
Proof.
  unfold last_member. cbn [foldl]. generalize (if String.eqb (filepath.Clean (Name m.1)) name then Some m else None).
  induction l as [|x l IH] using rev_ind; intros r; [done|]. rewrite !foldl_app. cbn [foldl].
  destruct (String.eqb (filepath.Clean (Name x.1)) name); [done|apply IH].
Qed.

Lemma index_spec fuel b off l m : members b off l -> length l < fuel ->
  exists m', indexEntries fuel b off m = Some (Ok m') /\
    forall name, m' !! name = match last_member name l with Some x => Some (member_entry x) | None => m !! name end.
Proof.
  intros Hl. revert fuel m. induction Hl as [off e Hn He|off h k adv l Hn _ IH]; intros [|fuel] m Hf; try (simpl in Hf; lia).
  - cbn [indexEntries]. rewrite Hn, He. exists m. done.
  - cbn [indexEntries]. rewrite Hn. destruct (IH fuel (<[filepath.Clean (Name h) := mkEntry h (off + k - blockSize)]> m)) as (m' & H1 & H2);
      [simpl in Hf; lia|].
    exists m'. split; [done|]. intros name. rewrite H2, last_member_cons. destruct (last_member name l); [done|]. simpl.
    destruct (String.eqb_spec (filepath.Clean (Name h)) name) as [<-|Hne]; [by rewrite lookup_insert_eq|].
    by rewrite lookup_insert_ne.
Qed.

Context {TL : TarLaws}.

Lemma members_length b off l : members b off l -> length l + off <= length b \/ l = [].
Proof.
  induction 1 as [|off h k adv l Hn Hm IH]; [by right|]. left. apply Next_block in Hn as [Hk Hb].
  rewrite length_drop in Hb. unfold blockSize in *. simpl. destruct IH as [IH| ->]; simpl in *; lia.
Qed.

(** Where the data of a member is. *)
Lemma members_data b off l h d : plain b -> members b off l -> (h, d) ∈ l ->
  blockSize <= d /\ exists h' adv, tar_Next (drop (d - blockSize) b) = Ok (h', blockSize, adv) /\ Size h' = Size h.
Proof.
  intros Hplain. induction 1 as [|off h0 k adv l Hn Hm IH]; [by intros ?%elem_of_nil|].
  intros [[= -> ->]|Hin]%elem_of_cons; [|auto]. pose proof (Next_block _ _ _ _ Hn) as [Hk _]. split; [lia|].
  destruct (Hplain _ _ _ _ Hn) as (h' & H1 & H2). by exists h', adv.
Qed.

Lemma last_member_elem name l x : last_member name l = Some x -> x ∈ l /\ filepath.Clean (Name x.1) = name.
Proof.
  induction l as [|y l IH]; [done|]. rewrite last_member_cons. destruct (last_member name l).
  - intros [= ->]. destruct (IH eq_refl). split; [by right|done].
  - destruct (String.eqb_spec (filepath.Clean (Name y.1)) name); [|done]. intros [= <-]. split; [by left|done].
Qed.

(** A tar file system indexes every archive and serves exactly its members: [New]
    returns, and [Open] of a valid path yields the data of the last member with that
    name when it is a regular file, [ErrUnsupported] when it is not, and
    [fs.ErrNotExist] when no member has the name (for archives in which no extended
    header overrides the size of a member). *)
Theorem tarfs_Open_correct open wd p b l name :
  open (filepath.Abs wd p) = Ok b -> plain b -> members b 0 l -> ValidPath name = true ->
  exists t, New open wd p = Some (Ok t) /\
    match last_member name l with
    | None => Open open name t = Err (EWrap "open" fsErrNotExist)
    | Some (h, d) =>
        if Ascii.eqb (Typeflag h) TypeReg
        then Open open name t = Ok (h, take (Size h) (drop d b)) /\ Stat name t = Ok h
        else Open open name t = Err (EWrap "type flag is not supported" ErrUnsupported)
    end.
Proof.
  intros Ho Hplain Hl Hv. unfold New. rewrite Ho.
  destruct (index_spec (S (length b)) b 0 l ∅ Hl) as (m & Hm & Hspec).
  { apply members_length in Hl as [?| ->]; simpl; lia. }
  rewrite Hm. simpl. eexists. split; [done|]. unfold Open, Stat, getEntry. rewrite Hv. simpl. rewrite Hspec.
  destruct (last_member name l) as [[h d]|] eqn:E; [|by rewrite lookup_empty]. simpl.
  destruct (Ascii.eqb (Typeflag h) TypeReg); [|done]. simpl. rewrite Ho. simpl.
  apply last_member_elem in E as [Hin _]. destruct (members_data _ _ _ _ _ Hplain Hl Hin) as (Hd & h' & adv & H1 & H2).
  rewrite H1. simpl. rewrite H2. split; [|done]. by replace (d - blockSize + blockSize) with d by lia.
Qed.
End tarfs.
End tarfs.

(** ** A format of one-block headers *)
Module tarfs_example.
Import tarfs.

(** The first byte of a block is the name, the next whether it is a regular file; the
    data is the next block. *)
#[export] Instance blocks : TarFormat := {|
  tar_Next b :=
    match b with
    | x :: y :: _ =>
        if decide (1024 <= length b) then
          Ok (mkHeader (String.string_of_list_byte [x]) (ascii_of_byte y) 3, 512, 512)
        else ErrS EOF
    | _ => ErrS EOF
    end;
  utf8_Valid _ := true
|}.

#[export, program] Instance blocks_laws : TarLaws.
Next Obligation.
  intros b h k adv. simpl. destruct b as [|x [|y b]]; [done..|]. destruct (decide _); [|done].
  intros [= <- <- <-]. unfold blockSize. split; [done|lia].
Qed.

Lemma blocks_plain b : plain b.
Proof.
  intros off h k adv Hn. exists h. split; [|done]. assert (k = 512) as ->
    by (simpl in Hn; destruct (drop off b) as [|x [|y l]]; [done..|]; destruct (decide _); [|done]; by injection Hn).
  unfold blockSize. replace (off + 512 - 512) with off by lia. exact Hn.
Qed.

Definition block (s : string) : bytes :=
  take 512 (String.list_byte_of_string s ++ replicate 512 Byte.x00)%list.

(** A member that is there twice, and a directory. *)
Definition archive : bytes := concat (block <$> ["a0"; "old"; "d5"; "dir"; "a0"; "new"]).

Lemma archive_members : members archive 0
  [(mkHeader "a" "0" 3, 512); (mkHeader "d" "5" 3, 1536); (mkHeader "a" "0" 3, 2560)].
Proof.
  eapply (members_next archive 0 _ 512 512); [vm_compute; reflexivity|].
  eapply (members_next archive 1024 _ 512 512); [vm_compute; reflexivity|].
  eapply (members_next archive 2048 _ 512 512); [vm_compute; reflexivity|].
  eapply (members_end archive 3072); [vm_compute; reflexivity|reflexivity].
Qed.

Lemma tarfs_Open_correct_witness : exists t,
  New (fun _ => Ok archive) "/tmp" "x.tar" = Some (Ok t) /\
  Open (fun _ => Ok archive) "a" t = Ok (mkHeader "a" "0" 3, String.list_byte_of_string "new") /\
  Stat "a" t = Ok (mkHeader "a" "0" 3).
Proof.
  destruct (tarfs_Open_correct (fun _ => Ok archive) "/tmp" "x.tar" archive _ "a" eq_refl (blocks_plain archive)
    archive_members ltac:(vm_compute; reflexivity)) as (t & H1 & H2).
  exists t. split; [exact H1|]. exact H2.
Defined.
End tarfs_example.
