(* ===== verification/Vfs.v ===== *)
(** A Unix file system as the file store sees it through package [os]: inodes,
    directory entries, symbolic and hard links, and path resolution that follows
    links the way the kernel does.  Access rights are not checked; permission bits
    are stored, and so are the times that a process sets: the clock is not modelled. *)

From Stdlib Require Import Ascii String ZArith Lia.
From S2P Require Import Prelude Errors Reader GoStrings FilePath.

#[local] Open Scope string_scope.
#[local] Open Scope list_scope.

Module vfs.

Inductive inode :=
| IFile (mode : Z) (data : bytes)
| IDir (mode : Z) (parent : nat) (entries : gmap string nat)
| ISym (target : string).

Notation inodes := (gmap nat inode).

(** A time that a header holds or that a process has set; [None] is [time.Time{}] in
    a header and a time of the clock on an inode. *)
Definition time := option Z.

(** The process: the inodes, its working directory as an inode and as a path, its
    umask; the access and modification times that were set on inodes. *)
Record FS := mkFS { nodes : inodes; cwd : nat; wd : string; umask : Z; times : gmap nat (time * time) }.

Definition set_nodes (n : inodes) (f : FS) : FS := mkFS n (cwd f) (wd f) (umask f) (times f).
Definition set_times (t : gmap nat (time * time)) (f : FS) : FS := mkFS (nodes f) (cwd f) (wd f) (umask f) t.

Definition ino_times (i : nat) (f : FS) : time * time := default (None, None) (times f !! i).

(** The root directory. *)
Definition root : nat := 0.

(** The kernel's limit on symbolic links followed in one resolution. *)
Definition maxLinks : nat := 40.

Definition ENOTDIR : error := ENew "not a directory".
Definition EISDIR : error := ENew "is a directory".
Definition ELOOP : error := ENew "too many levels of symbolic links".
Definition ENOTEMPTY : error := ENew "directory not empty".
Definition EPERM : error := ENew "operation not permitted".
Definition EINVAL : error := ENew "invalid argument".

Definition is_link (i : inode) : bool := match i with ISym _ => true | _ => false end.
Definition is_dir (i : inode) : bool := match i with IDir _ _ _ => true | _ => false end.

(** ** Path resolution *)

(** The elements the kernel reads from a path; a trailing slash asks for a
    directory, as a final ["."] does. *)
Definition os_pieces (p : string) : list string :=
  let l := filepath.pieces p in
  match cut_last filepath.sep p, l with
  | Some (_, EmptyString), _ :: _ => l ++ ["."]
  | _, _ => l
  end.

(** Where a resolution ends: at an inode, with the entry it was reached by when the
    last element names one, or at a missing last element of a directory. *)
Inductive place :=
| Found (entry : option (nat * string)) (i : nat)
| Missing (d : nat) (name : string).

(** Resolve elements from the directory [cur]; [follow] tells whether a link in the
    last position is followed, [links] how many more may be. *)
Fixpoint walk (links : nat) (n : inodes) (follow : bool)
    : nat -> option (nat * string) -> list string -> result place :=
  fix go cur entry cs :=
    match cs with
    | [] => Ok (Found entry cur)
    | c :: rest =>
        match n !! cur with
        | Some (IDir _ parent entries) =>
            if String.eqb c "." then go cur None rest
            else if String.eqb c ".." then go parent None rest
            else match entries !! c with
            | None => match rest with [] => Ok (Missing cur c) | _ => ErrS fsErrNotExist end
            | Some i =>
                match n !! i with
                | Some (ISym t) =>
                    match rest, follow with
                    | [], false => Ok (Found (Some (cur, c)) i)
                    | _, _ =>
                        match links with
                        | O => Err ELOOP
                        | S links' =>
                            walk links' n follow (if filepath.IsAbs t then root else cur) None
                              (os_pieces t ++ rest)
                        end
                    end
                | _ => go i (Some (cur, c)) rest
                end
            end
        | Some _ => Err ENOTDIR
        | None => ErrS fsErrNotExist
        end
    end.

Definition start (f : FS) (p : string) : nat := if filepath.IsAbs p then root else cwd f.

Definition resolve (follow : bool) (p : string) (f : FS) : result place :=
  if String.eqb p EmptyString then ErrS fsErrNotExist
  else walk maxLinks (nodes f) follow (start f p) None (os_pieces p).

(** The inode a resolution ends at. *)
Definition found (f : FS) (r : result place) : result (nat * inode) :=
  pl ← r;
  match pl with
  | Found _ i => match nodes f !! i with Some x => Ok (i, x) | None => ErrS fsErrNotExist end
  | Missing _ _ => ErrS fsErrNotExist
  end.

(** ** Package [os] *)

Definition os_Lstat (p : string) (f : FS) : result inode := snd <$> found f (resolve false p f).
Definition os_Stat (p : string) (f : FS) : result inode := snd <$> found f (resolve true p f).
Definition os_Readlink (p : string) (f : FS) : result string :=
  x ← os_Lstat p f; match x with ISym t => Ok t | _ => Err EINVAL end.

(** [os.IsNotExist], [errors.Is(err, fs.ErrExist)]. *)
Definition IsNotExist (e : error) : bool := bool_decide (e = ESentinel fsErrNotExist).
Definition IsExist (e : error) : bool := bool_decide (e = ESentinel fsErrExist).

(** An inode number that neither exists nor is the target of an entry. *)
Definition max_target (x : inode) : nat :=
  match x with IDir _ _ es => map_fold (fun _ i m => Nat.max i m) 0 es | _ => 0 end.
Definition fresh_ino (n : inodes) : nat :=
  S (map_fold (fun i x m => Nat.max (Nat.max i (max_target x)) m) 0 n).

(** Change the entries of a directory. *)
Definition set_entries (d : nat) (g : gmap string nat -> gmap string nat) (n : inodes) : inodes :=
  match n !! d with
  | Some (IDir m p es) => <[d := IDir m p (g es)]> n
  | _ => n
  end.

(** Add a new inode under a name of a directory. *)
Definition add_node (d : nat) (name : string) (x : inode) (n : inodes) : inodes :=
  let j := fresh_ino n in <[j := x]> (set_entries d <[name := j]> n).

(** [os.OpenFile(p, O_WRONLY|O_CREATE|O_TRUNC, perm)]: the inode opened. *)
Definition os_OpenTrunc (p : string) (perm : Z) : M FS nat := fun f =>
  match resolve true p f with
  | Ok (Found _ i) =>
      match nodes f !! i with
      | Some (IFile m _) => (Ok i, set_nodes (<[i := IFile m []]> (nodes f)) f)
      | Some (IDir _ _ _) => (Err EISDIR, f)
      | Some (ISym _) => (Err ELOOP, f)
      | None => (ErrS fsErrNotExist, f)
      end
  | Ok (Missing d c) =>
      (Ok (fresh_ino (nodes f)),
       set_nodes (add_node d c (IFile (Z.ldiff perm (umask f)) []) (nodes f)) f)
  | Err e => (Err e, f)
  | Panic => (Panic, f)
  end.

(** [os.Create]. *)
Definition os_Create (p : string) : M FS nat := os_OpenTrunc p 438 (* 0666 *).

(** Write through an open file. *)
Definition write_ino (i : nat) (b : bytes) (f : FS) : FS :=
  match nodes f !! i with
  | Some (IFile m d) => set_nodes (<[i := IFile m (d ++ b)]> (nodes f)) f
  | _ => f
  end.

(** Reading an open inode from its start. *)
Definition ino_reader (i : nat) (f : FS) : Reader :=
  match nodes f !! i with
  | Some (IFile _ d) => bytes_NewReader d
  | _ => mkReader [] None EISDIR
  end.

(** [os.Open]: the inode opened for reading. *)
Definition os_Open (p : string) (f : FS) : result nat := fst <$> found f (resolve true p f).

Definition os_Mkdir (p : string) (perm : Z) : M FS unit := fun f =>
  match resolve false p f with
  | Ok (Found _ _) => (ErrS fsErrExist, f)
  | Ok (Missing d c) =>
      (Ok tt, set_nodes (add_node d c (IDir (Z.ldiff perm (umask f)) d ∅) (nodes f)) f)
  | Err e => (Err e, f)
  | Panic => (Panic, f)
  end.

Definition os_Symlink (target p : string) : M FS unit := fun f =>
  if String.eqb target EmptyString then (ErrS fsErrNotExist, f)
  else match resolve false p f with
  | Ok (Found _ _) => (ErrS fsErrExist, f)
  | Ok (Missing d c) => (Ok tt, set_nodes (add_node d c (ISym target) (nodes f)) f)
  | Err e => (Err e, f)
  | Panic => (Panic, f)
  end.

(** [os.Link(old, new)]: a link at the end of [old] is linked itself. *)
Definition os_Link (old p : string) : M FS unit := fun f =>
  match found f (resolve false old f) with
  | Ok (i, x) =>
      if is_dir x then (Err EPERM, f)
      else match resolve false p f with
      | Ok (Found _ _) => (ErrS fsErrExist, f)
      | Ok (Missing d c) => (Ok tt, set_nodes (set_entries d <[c := i]> (nodes f)) f)
      | Err e => (Err e, f)
      | Panic => (Panic, f)
      end
  | Err e => (Err e, f)
  | Panic => (Panic, f)
  end.

(** [os.Remove]: [unlink], or [rmdir] of an empty directory. *)
Definition os_Remove (p : string) : M FS unit := fun f =>
  match resolve false p f with
  | Ok (Found (Some (d, c)) i) =>
      match nodes f !! i with
      | Some (IDir _ _ es) =>
          if bool_decide (es = ∅) then (Ok tt, set_nodes (set_entries d (delete c) (nodes f)) f)
          else (Err ENOTEMPTY, f)
      | _ => (Ok tt, set_nodes (set_entries d (delete c) (nodes f)) f)
      end
  | Ok (Found None _) => (Err EINVAL, f)
  | Ok (Missing _ _) => (ErrS fsErrNotExist, f)
  | Err e => (Err e, f)
  | Panic => (Panic, f)
  end.

Definition os_Chmod (p : string) (mode : Z) : M FS unit := fun f =>
  match found f (resolve true p f) with
  | Ok (i, IFile _ d) => (Ok tt, set_nodes (<[i := IFile mode d]> (nodes f)) f)
  | Ok (i, IDir _ q es) => (Ok tt, set_nodes (<[i := IDir mode q es]> (nodes f)) f)
  | Ok (_, ISym _) => (Err ELOOP, f)
  | Err e => (Err e, f)
  | Panic => (Panic, f)
  end.

(** [os.Chtimes] follows a link; the zero time leaves a time as it is. *)
Definition newer (t old : time) : time := match t with Some _ => t | None => old end.

Definition os_Chtimes (p : string) (atime mtime : time) : M FS unit := fun f =>
  match found f (resolve true p f) with
  | Ok (i, _) =>
      let '(a, m) := ino_times i f in (Ok tt, set_times (<[i := (newer atime a, newer mtime m)]> (times f)) f)
  | Err e => (Err e, f)
  | Panic => (Panic, f)
  end.

(** The times that [os.Lstat] reports. *)
Definition os_Lstat_times (p : string) (f : FS) : time * time :=
  match found f (resolve false p f) with Ok (i, _) => ino_times i f | _ => (None, None) end.

(** [os.MkdirAll] on the path whose elements, last first, are [rcs]. *)
Fixpoint mkdir_all (rooted : bool) (perm : Z) (rcs : list string) : M FS unit := fun f =>
  match os_Stat (filepath.render rooted (rev rcs)) f with
  | Ok x => (if is_dir x then Ok tt else Err ENOTDIR, f)
  | Panic => (Panic, f)
  | Err e =>
      match rcs with
      | [] => (Err e, f)
      | _ :: rcs' =>
          let '(r, f1) :=
            match rcs', rooted with [], false => (Ok tt, f) | _, _ => mkdir_all rooted perm rcs' f end in
          match r with
          | Ok _ =>
              match os_Mkdir (filepath.render rooted (rev rcs)) perm f1 with
              | (Ok _, f2) => (Ok tt, f2)
              | (Panic, f2) => (Panic, f2)
              | (Err e', f2) =>
                  match os_Lstat (filepath.render rooted (rev rcs)) f2 with
                  | Ok x => (if is_dir x then Ok tt else Err e', f2)
                  | _ => (Err e', f2)
                  end
              end
          | r => (r, f1)
          end
      end
  end.

Definition os_MkdirAll (p : string) (perm : Z) : M FS unit :=
  if String.eqb p EmptyString then fails (ESentinel fsErrNotExist)
  else mkdir_all (filepath.IsAbs p) perm (rev (filepath.pieces p)).

End vfs.
