(* ===== verification/VfsFacts.v ===== *)
(** Facts on path resolution and on what the calls of package [os] can change: the
    inodes below a directory, chains of entries, and mutations contained in a
    directory. *)

From Stdlib Require Import Ascii String ZArith Lia.
From S2P Require Import Prelude Errors Reader GoStrings FilePath Vfs.

#[local] Open Scope string_scope.
#[local] Open Scope list_scope.

Import vfs.

#[global] Arguments walk : simpl never.
#[global] Arguments maxLinks : simpl never.

(** ** Entries, chains of entries, reachability *)

(** The directory [d] has an entry [c] for [i]. *)
Definition edge (n : inodes) (d : nat) (c : string) (i : nat) : Prop :=
  exists m p es, n !! d = Some (IDir m p es) /\ es !! c = Some i.

Inductive chain (n : inodes) : nat -> list string -> nat -> Prop :=
| chain_nil a : chain n a [] a
| chain_cons a c x cs i : edge n a c x -> chain n x cs i -> chain n a (c :: cs) i.

(** Below the directory [b], through entries only. *)
Inductive reach (n : inodes) (b : nat) : nat -> Prop :=
| reach_refl : reach n b b
| reach_step d c i : reach n b d -> edge n d c i -> reach n b i.

#[export] Hint Constructors chain reach : go.

Lemma edge_fun n d c i j : edge n d c i -> edge n d c j -> i = j.
Proof. intros (? & ? & ? & ? & ?) (? & ? & ? & ? & ?). congruence. Qed.

Lemma chain_fun n a cs i j : chain n a cs i -> chain n a cs j -> i = j.
Proof.
  induction 1 as [|a c x cs i He _ IH]; inversion 1 as [|? ? y ? ? He']; subst; [done|].
  apply IH. by rewrite (edge_fun _ _ _ _ _ He He').
Qed.

Lemma chain_app n a cs x cs' i : chain n a cs x -> chain n x cs' i -> chain n a (cs ++ cs') i.
Proof. induction 1; simpl; eauto with go. Qed.

Lemma chain_app_inv n a cs cs' i :
  chain n a (cs ++ cs') i -> exists x, chain n a cs x /\ chain n x cs' i.
Proof.
  revert a. induction cs as [|c cs IH]; intros a H; [by eauto with go|].
  inversion H as [|? ? y ? ? He Hc]; subst. apply IH in Hc as (x & ? & ?). eauto with go.
Qed.

Lemma chain_reach n b cs d i : reach n b d -> chain n d cs i -> reach n b i.
Proof. intros Hr Hc. induction Hc as [|d c x cs i He _ IH]; [done|]. apply IH. eauto with go. Qed.

Lemma edge_mono n n' : (forall d c i, edge n' d c i -> edge n d c i) ->
  forall a cs i, chain n' a cs i -> chain n a cs i.
Proof. intros H a cs i. induction 1; eauto with go. Qed.

Lemma reach_mono n n' b : (forall d c i, edge n' d c i -> edge n d c i) ->
  forall i, reach n' b i -> reach n b i.
Proof. intros H i. induction 1; eauto with go. Qed.

(** ** Resolution *)

Lemma walk_cons links n follow cur e c rest :
  walk links n follow cur e (c :: rest) =
    match n !! cur with
    | Some (IDir _ parent entries) =>
        if String.eqb c "." then walk links n follow cur None rest
        else if String.eqb c ".." then walk links n follow parent None rest
        else match entries !! c with
        | None => match rest with [] => Ok (Missing cur c) | _ => ErrS fsErrNotExist end
        | Some i =>
            match n !! i with
            | Some (ISym t) =>
                match rest, follow with
                | [], false => Ok (Found (Some (cur, c)) i)
                | _, _ =>
                    match links with
                    | O => Err ELOOP
                    | S links' =>
                        walk links' n follow (if filepath.IsAbs t then root else cur) None (os_pieces t ++ rest)
                    end
                end
            | _ => walk links n follow i (Some (cur, c)) rest
            end
        end
    | Some _ => Err ENOTDIR
    | None => ErrS fsErrNotExist
    end.
Proof. destruct links; reflexivity. Qed.

Lemma walk_nil links n follow cur e : walk links n follow cur e [] = Ok (Found e cur).
Proof. by destruct links. Qed.

(** No link on the way: at every strict prefix of the path. *)
Definition clear (n : inodes) (b : nat) (cs : list string) : Prop :=
  forall pre c suf i t, cs = pre ++ c :: suf -> pre <> [] -> chain n b pre i -> n !! i <> Some (ISym t).

(** ... and none at its end. *)
Definition no_link_at (n : inodes) (b : nat) (cs : list string) : Prop :=
  forall i t, chain n b cs i -> n !! i <> Some (ISym t).

Definition props (cs : list string) : Prop := Forall (fun e => filepath.proper e = true) cs.

(** Where a resolution without links on the way ends. *)
Definition ends_at (n : inodes) (b : nat) (e0 : option (nat * string)) (cs : list string) (r : result place) : Prop :=
  match r with
  | Ok (Found e i) =>
      chain n b cs i /\
      match e with
      | Some (d, c) => e0 = e /\ cs = [] \/ exists cs', cs = cs' ++ [c] /\ chain n b cs' d /\ edge n d c i
      | None => cs = [] /\ e0 = None
      end
  | Ok (Missing d c) =>
      exists cs' m p es, cs = cs' ++ [c] /\ chain n b cs' d /\ n !! d = Some (IDir m p es) /\ es !! c = None
  | _ => forall i, ~ chain n b cs i
  end.

Lemma ends_at_cons n b c x e0 e1 cs r :
  edge n b c x -> e1 = Some (b, c) -> ends_at n x e1 cs r -> ends_at n b e0 (c :: cs) r.
Proof.
  intros He -> H. destruct r as [[e i|d c']| |]; simpl in *.
  - destruct H as [Hc H]. split; [eauto with go|]. destruct e as [[d c']|].
    + right. destruct H as [[[= <- <-] ->]|(cs' & -> & Hc' & He')].
      * inversion Hc; subst. exists []. eauto with go.
      * exists (c :: cs'). eauto with go.
    + by destruct H as [-> ?].
  - destruct H as (cs' & m & p & es & -> & Hc & Hd & Hes). exists (c :: cs'), m, p, es. eauto with go.
  - intros i. inversion 1 as [|? ? y ? ? He' Hc]; subst. rewrite <- (edge_fun _ _ _ _ _ He He') in Hc. by eapply H.
  - intros i. inversion 1 as [|? ? y ? ? He' Hc]; subst. rewrite <- (edge_fun _ _ _ _ _ He He') in Hc. by eapply H.
Qed.

Lemma clear_tail n b c x cs : edge n b c x -> clear n b (c :: cs) -> clear n x cs.
Proof.
  intros He H pre c' suf i t -> Hne Hc. eapply (H (c :: pre)); [done|done|]. by eapply chain_cons.
Qed.

Lemma walk_clear links n follow b e0 cs :
  props cs -> clear n b cs -> (follow = true -> no_link_at n b cs) ->
  ends_at n b e0 cs (walk links n follow b e0 cs).
Proof.
  revert b e0. induction cs as [|c cs IH]; intros b e0 Hp Hcl Hf.
  - rewrite walk_nil. simpl. split; [constructor|]. destruct e0 as [[d c]|]; [by left|done].
  - apply list.Forall_cons in Hp as [Hc Hp]. apply filepath.proper_spec in Hc as (_ & _ & Hd & Hdd).
    rewrite walk_cons. destruct (n !! b) as [[m d|m p es|t]|] eqn:Hb.
    1, 3, 4: intros i; inversion 1 as [|? ? ? ? ? (? & ? & ? & ? & ?)]; congruence.
    apply String.eqb_neq in Hd, Hdd. rewrite Hd, Hdd.
    destruct (es !! c) as [i|] eqn:Hi.
    2: { assert (forall j, ~ edge n b c j) as Hno by (intros j (? & ? & ? & ? & ?); congruence).
         destruct cs as [|c' cs]; [by exists [], m, p, es; eauto with go|].
         intros j. inversion 1 as [|? ? ? ? ? He]; subst. by eapply Hno. }
    assert (edge n b c i) as He by (by exists m, p, es).
    assert (ends_at n b e0 (c :: cs) (walk links n follow i (Some (b, c)) cs)) as Hgo.
    { eapply ends_at_cons; [done|done|]. apply IH; [done|by eapply clear_tail|].
      intros Hft j t Hch. eapply Hf; [done|]. by eapply chain_cons. }
    destruct (n !! i) as [[| |t]|] eqn:Hni; try done.
    destruct cs as [|c' cs].
    + destruct follow; [exfalso; eapply (Hf eq_refl i t); eauto with go|].
      simpl. split; [eauto with go|]. right. exists []. eauto with go.
    + exfalso. eapply (Hcl [c] c' cs i t); eauto with go.
Qed.

(** ** Absolute paths *)

Lemma os_pieces_render cs : props cs -> os_pieces (filepath.render true cs) = cs.
Proof.
  intros Hp. assert (filepath.pieces (filepath.render true cs) = cs) as HP
    by (apply filepath.pieces_render; [by apply filepath.normal_proper|by right]).
  unfold os_pieces. rewrite HP. destruct cs as [|c cs] using rev_ind; [by destruct (cut_last _ _) as [[? []]|]|].
  clear IHcs. apply Forall_app in Hp as [Hp Hc]. apply list.Forall_cons in Hc as [Hc _].
  apply filepath.proper_spec in Hc as (Hc & Hne & _).
  assert (exists d, filepath.render true (cs ++ [c]) = d +:+ String.String filepath.sep c) as [d ->].
  { destruct cs as [|x cs]; [by exists EmptyString|].
    exists (String.String filepath.sep (Join filepath.sep (x :: cs))).
    unfold filepath.render. by rewrite filepath.Join_app_last. }
  rewrite cut_last_app by done. by destruct c.
Qed.

Lemma resolve_render follow cs f :
  props cs -> resolve follow (filepath.render true cs) f = walk maxLinks (nodes f) follow root None cs.
Proof.
  intros Hp. unfold resolve, start. change (String.eqb (filepath.render true cs) EmptyString) with false.
  change (filepath.IsAbs (filepath.render true cs)) with true. cbn iota. by rewrite os_pieces_render.
Qed.

(** [b] is the directory at the elements [cs] from [d], with no link and nothing
    below [b] on the way. *)
Inductive at_base (n : inodes) (b : nat) : nat -> list string -> Prop :=
| ab_nil m p es : n !! b = Some (IDir m p es) -> at_base n b b []
| ab_cons d c x cs m p es :
    edge n d c x -> ~ reach n b d -> n !! x = Some (IDir m p es) -> at_base n b x cs -> at_base n b d (c :: cs).

Lemma walk_base links n follow b d bcs c rest e :
  at_base n b d bcs -> props bcs ->
  walk links n follow d e (bcs ++ c :: rest) = walk links n follow b None (c :: rest).
Proof.
  intros H. revert e. induction H as [m p es Hb|d c' x cs m p es He Hr Hx _ IH]; intros e Hp; simpl.
  - by rewrite !walk_cons.
  - apply list.Forall_cons in Hp as [Hc Hp]. apply filepath.proper_spec in Hc as (_ & _ & Hd%String.eqb_neq & Hdd%String.eqb_neq).
    rewrite walk_cons. destruct He as (m' & p' & es' & -> & ->). rewrite Hd, Hdd, Hx. by apply IH.
Qed.

Lemma walk_at_base links n follow b d bcs e :
  at_base n b d bcs -> props bcs -> exists e', walk links n follow d e bcs = Ok (Found e' b).
Proof.
  intros H. revert e. induction H as [m p es Hb|d c' x cs m p es He Hr Hx _ IH]; intros e Hp; simpl.
  - rewrite walk_nil. eauto.
  - apply list.Forall_cons in Hp as [Hc Hp]. apply filepath.proper_spec in Hc as (_ & _ & Hd%String.eqb_neq & Hdd%String.eqb_neq).
    rewrite walk_cons. destruct He as (m' & p' & es' & -> & ->). rewrite Hd, Hdd, Hx. by apply IH.
Qed.

Lemma at_base_dir n b d bcs : at_base n b d bcs -> exists m p es, n !! b = Some (IDir m p es).
Proof. induction 1; eauto. Qed.

(** Resolving below the base. *)
Lemma resolve_below follow f b bcs cs :
  at_base (nodes f) b root bcs -> props bcs -> props cs -> cs <> [] ->
  clear (nodes f) b cs -> (follow = true -> no_link_at (nodes f) b cs) ->
  ends_at (nodes f) b None cs (resolve follow (filepath.render true (bcs ++ cs)) f).
Proof.
  intros Hab Hb Hc Hne Hcl Hf. rewrite resolve_render by (by apply Forall_app). destruct cs as [|c cs]; [done|].
  rewrite (walk_base _ _ _ b) by done. by apply walk_clear.
Qed.

(** ** Mutations contained in a directory *)

(** What is compared outside of the directory: everything, or everything but the
    permission bits. *)
Definition view (perms : bool) (x : inode) : inode :=
  if perms then x
  else match x with IFile _ d => IFile 0 d | IDir _ p es => IDir 0 p es | ISym t => ISym t end.

(** From [n] to [n'] only [b] and what is below it has changed, nothing from
    outside has come below it, and every inode is still of its kind. *)
Record contained (perms : bool) (b : nat) (n n' : inodes) : Prop := {
  ct_out : forall i x, n !! i = Some x -> ~ reach n b i ->
    exists y, n' !! i = Some y /\ view perms y = view perms x;
  ct_in : forall i, reach n' b i -> is_Some (n !! i) -> reach n b i;
  ct_dir : forall i m p es, n !! i = Some (IDir m p es) -> exists m' p' es', n' !! i = Some (IDir m' p' es');
  ct_dom : forall i, is_Some (n !! i) -> is_Some (n' !! i)
}.

Lemma contained_refl perms b n : contained perms b n n.
Proof. split; eauto. Qed.

Lemma contained_trans perms b n1 n2 n3 :
  contained perms b n1 n2 -> contained perms b n2 n3 -> contained perms b n1 n3.
Proof.
  intros H1 H2. split.
  - intros i x Hi Hr. destruct (ct_out _ _ _ _ H1 i x Hi Hr) as (y & Hy & Hv).
    destruct (ct_out _ _ _ _ H2 i y Hy) as (z & Hz & Hv').
    + intros Hr2. apply Hr, (ct_in _ _ _ _ H1); [done|by eexists].
    + exists z. split; [done|]. congruence.
  - intros i Hr Hi. apply (ct_in _ _ _ _ H1); [|done]. apply (ct_in _ _ _ _ H2); [done|].
    by apply (ct_dom _ _ _ _ H1).
  - intros i m p es (m' & p' & es' & H)%(ct_dir _ _ _ _ H1). by apply (ct_dir _ _ _ _ H2) in H.
  - intros i Hi. by apply (ct_dom _ _ _ _ H2), (ct_dom _ _ _ _ H1).
Qed.

#[export] Hint Resolve contained_refl contained_trans : go.

Lemma view_dir perms x m p es :
  view perms x = view perms (IDir m p es) -> exists m', x = IDir m' p es.
Proof. destruct perms, x; simpl; intros [=]; subst; eauto. Qed.

(** The base stays where it is. *)
Lemma contained_at_base perms b n n' d bcs :
  contained perms b n n' -> at_base n b d bcs -> at_base n' b d bcs.
Proof.
  intros Hct. induction 1 as [m p es Hb|d c x cs m p es He Hr Hx _ IH].
  - apply (ct_dir _ _ _ _ Hct) in Hb as (m' & p' & es' & Hb). by econstructor.
  - destruct He as (m0 & p0 & es0 & Hd & Hc).
    destruct (ct_out _ _ _ _ Hct d _ Hd Hr) as (y & Hy & (m' & ->)%view_dir).
    apply (ct_dir _ _ _ _ Hct) in Hx as (m1 & p1 & es1 & Hx).
    econstructor; [by exists m', p0, es0| |done|done].
    intros Hr'. apply Hr, (ct_in _ _ _ _ Hct); [done|by eexists].
Qed.

(** *** Unused inode numbers *)

Lemma max_fold_le {V} (g : nat -> V -> nat) (n : gmap nat V) i x :
  n !! i = Some x -> g i x <= map_fold (fun i x m => Nat.max (g i x) m) 0 n.
Proof.
  revert i x. induction n as [|j y n Hj IH] using map_ind; intros i x Hi; [by rewrite lookup_empty in Hi|].
  rewrite map_fold_insert_L; [|intros; lia|done]. destruct (decide (j = i)) as [->|Hne].
  - rewrite lookup_insert_eq in Hi. injection Hi as ->. lia.
  - rewrite lookup_insert_ne in Hi by done. apply IH in Hi. lia.
Qed.

Lemma max_fold_string_le (n : gmap string nat) c i :
  n !! c = Some i -> i <= map_fold (fun _ i m => Nat.max i m) 0 n.
Proof.
  revert c i. induction n as [|j y n Hj IH] using map_ind; intros c i Hi; [by rewrite lookup_empty in Hi|].
  rewrite map_fold_insert_L; [|intros; lia|done]. destruct (decide (j = c)) as [->|Hne].
  - rewrite lookup_insert_eq in Hi. injection Hi as ->. lia.
  - rewrite lookup_insert_ne in Hi by done. apply IH in Hi. lia.
Qed.

Lemma fresh_ino_lt n i x : n !! i = Some x -> Nat.max i (max_target x) < fresh_ino n.
Proof.
  intros Hi. unfold fresh_ino. apply le_n_S. exact (max_fold_le (fun i x => Nat.max i (max_target x)) n i x Hi).
Qed.

Lemma fresh_ino_None n : n !! fresh_ino n = None.
Proof. destruct (n !! fresh_ino n) eqn:E; [|done]. apply fresh_ino_lt in E. lia. Qed.

Lemma fresh_ino_edge n d c i : edge n d c i -> i <> fresh_ino n.
Proof.
  intros (m & p & es & Hd & Hc). apply fresh_ino_lt in Hd. simpl in Hd. apply max_fold_string_le in Hc. lia.
Qed.

(** *** The mutations *)

Section mutations.
Context (perms : bool) (b : nat).

Lemma insert_same_edges n i x y :
  n !! i = Some x -> (forall m p es, y = IDir m p es -> exists m' p', x = IDir m' p' es) ->
  forall d c j, edge (<[i := y]> n) d c j -> edge n d c j.
Proof.
  intros Hi Hy d c j (m & p & es & Hd & Hc). destruct (decide (d = i)) as [->|Hne].
  - rewrite lookup_insert_eq in Hd. injection Hd as ->. destruct (Hy _ _ _ eq_refl) as (m' & p' & ->). by exists m', p', es.
  - rewrite lookup_insert_ne in Hd by done. by exists m, p, es.
Qed.

(** Replacing an inode by one of the same kind with the same entries. *)
Lemma contained_insert n i x y :
  n !! i = Some x -> reach n b i \/ view perms y = view perms x ->
  match x, y with
  | IFile _ _, IFile _ _ => True
  | IDir _ _ es, IDir _ _ es' => es = es'
  | _, _ => False
  end ->
  contained perms b n (<[i := y]> n).
Proof.
  intros Hi Hr Hk. split.
  - intros j z Hj Hnr. destruct (decide (j = i)) as [->|Hne].
    + rewrite lookup_insert_eq. exists y. split; [done|]. destruct Hr; [done|congruence].
    + rewrite lookup_insert_ne by done. eauto.
  - intros j Hj _. eapply reach_mono; [|done]. eapply insert_same_edges; [done|].
    intros m p es ->. destruct x; [done| |done]. subst. eauto.
  - intros j m p es Hj. destruct (decide (j = i)) as [->|Hne].
    + rewrite lookup_insert_eq. rewrite Hi in Hj. injection Hj as ->. destruct y; [done| |done]. eauto.
    + rewrite lookup_insert_ne by done. eauto.
  - intros j Hj. destruct (decide (j = i)) as [->|Hne]; [rewrite lookup_insert_eq; by eexists|].
    by rewrite lookup_insert_ne.
Qed.

Lemma set_entries_eq n d m p es g :
  n !! d = Some (IDir m p es) -> set_entries d g n = <[d := IDir m p (g es)]> n.
Proof. intros H. unfold set_entries. by rewrite H. Qed.

Lemma edge_delete n d c d' c' i :
  edge (set_entries d (delete c) n) d' c' i -> edge n d' c' i /\ (d', c') <> (d, c).
Proof.
  intros (m' & p' & es' & Hd' & Hc'). unfold set_entries in Hd'.
  destruct (n !! d) as [[| m p es|]|] eqn:Hd.
  - split; [by exists m', p', es'|]. intros [= -> ->]. congruence.
  - destruct (decide (d' = d)) as [->|Hne].
    + rewrite lookup_insert_eq in Hd'. injection Hd' as <- <- <-.
      apply lookup_delete_Some in Hc' as [Hne Hc']. split; [by exists m, p, es|]. intros [= ->]. done.
    + rewrite lookup_insert_ne in Hd' by done. split; [by exists m', p', es'|]. intros [= -> ->]. done.
  - split; [by exists m', p', es'|]. intros [= -> ->]. congruence.
  - split; [by exists m', p', es'|]. intros [= -> ->]. congruence.
Qed.

Lemma set_entries_lookup n d g i x :
  n !! i = Some x -> exists y, set_entries d g n !! i = Some y /\ (i <> d -> y = x)
    /\ forall m p es, x = IDir m p es -> exists es', y = IDir m p es'.
Proof.
  intros Hi. unfold set_entries. destruct (n !! d) as [[| m p es|]|] eqn:Hd;
    try (exists x; by repeat split; eauto).
  destruct (decide (i = d)) as [->|Hne].
  - rewrite lookup_insert_eq. rewrite Hd in Hi. injection Hi as <-. eexists. split; [done|]. split; [done|].
    intros m' p' es' [= <- <- <-]. eauto.
  - rewrite lookup_insert_ne by done. exists x. by repeat split; eauto.
Qed.

(** Removing an entry of a directory below the base. *)
Lemma contained_delete n d c : reach n b d -> contained perms b n (set_entries d (delete c) n).
Proof.
  intros Hr. split.
  - intros i x Hi Hnr. destruct (set_entries_lookup n d (delete c) i x Hi) as (y & Hy & Heq & _).
    exists y. split; [done|]. rewrite Heq; [done|]. by intros ->.
  - intros i Hi _. eapply reach_mono; [|done]. intros ? ? ? He. by apply edge_delete in He as [? _].
  - intros i m p es Hi. destruct (set_entries_lookup n d (delete c) i _ Hi) as (y & Hy & _ & Hd).
    destruct (Hd _ _ _ eq_refl) as (es' & ->). eauto.
  - intros i [x Hi]. destruct (set_entries_lookup n d (delete c) i _ Hi) as (y & -> & _). by eexists.
Qed.

(** A new inode without entries. *)
Definition no_entries (x : inode) : Prop := match x with IDir _ _ es => es = ∅ | _ => True end.

Lemma edge_add n d c x d' c' i :
  no_entries x -> edge (add_node d c x n) d' c' i ->
  edge n d' c' i /\ i <> fresh_ino n \/ d' = d /\ c' = c /\ i = fresh_ino n.
Proof.
  intros Hx (m' & p' & es' & Hd' & Hc'). unfold add_node in Hd'.
  destruct (decide (d' = fresh_ino n)) as [->|Hne].
  { rewrite lookup_insert_eq in Hd'. injection Hd' as ->. simpl in Hx. subst. by rewrite lookup_empty in Hc'. }
  rewrite lookup_insert_ne in Hd' by done. unfold set_entries in Hd'.
  assert (forall e, edge n d' c' e -> e = i -> edge n d' c' i /\ i <> fresh_ino n) as Hold.
  { intros e He ->. split; [done|]. by eapply fresh_ino_edge. }
  destruct (n !! d) as [[| m p es|]|] eqn:Hd; try (left; apply (Hold i); [by exists m', p', es'|done]).
  destruct (decide (d' = d)) as [->|Hnd].
  - rewrite lookup_insert_eq in Hd'. injection Hd' as <- <- <-.
    destruct (decide (c' = c)) as [->|Hnc].
    + rewrite lookup_insert_eq in Hc'. injection Hc' as <-. by right.
    + rewrite lookup_insert_ne in Hc' by done. left. apply (Hold i); [by exists m, p, es|done].
  - rewrite lookup_insert_ne in Hd' by done. left. apply (Hold i); [by exists m', p', es'|done].
Qed.

Lemma contained_add n d c x :
  reach n b d -> no_entries x -> is_Some (n !! b) -> contained perms b n (add_node d c x n).
Proof.
  intros Hr Hx Hb. assert (forall i y, n !! i = Some y -> i <> fresh_ino n) as Hfr.
  { intros i y Hi ->. by rewrite fresh_ino_None in Hi. }
  split.
  - intros i y Hi Hnr. destruct (set_entries_lookup n d <[c := fresh_ino n]> i y Hi) as (z & Hz & Heq & _).
    exists z. unfold add_node. rewrite lookup_insert_ne by (intros <-; by eapply Hfr). split; [done|].
    rewrite Heq; [done|]. by intros ->.
  - assert (forall i, reach (add_node d c x n) b i -> reach n b i \/ i = fresh_ino n) as H.
    { induction 1 as [|d' c' i _ IH He]; [left; constructor|].
      apply (edge_add n d c x _ _ _ Hx) in He as [[He Hi]|(-> & -> & ->)]; [|by right].
      destruct IH as [IH| ->]; [left; eauto with go|]. exfalso. destruct He as (? & ? & ? & He & _).
      by rewrite fresh_ino_None in He. }
    intros i [Hi| ->]%H [y Hy]; [done|]. by rewrite fresh_ino_None in Hy.
  - intros i m p es Hi. destruct (set_entries_lookup n d <[c := fresh_ino n]> i _ Hi) as (y & Hy & _ & Hd).
    destruct (Hd _ _ _ eq_refl) as (es' & ->). unfold add_node.
    rewrite lookup_insert_ne by (intros <-; by eapply Hfr). eauto.
  - intros i [y Hi]. destruct (set_entries_lookup n d <[c := fresh_ino n]> i _ Hi) as (z & Hz & _).
    unfold add_node. rewrite lookup_insert_ne by (intros <-; by eapply Hfr). by rewrite Hz; eexists.
Qed.

End mutations.

(** ** A path after a file was created at it *)

Lemma walk_Missing links n follow cur e cs d c :
  walk links n follow cur e cs = Ok (Missing d c) ->
  exists m p es, n !! d = Some (IDir m p es) /\ es !! c = None.
Proof.
  revert cur e cs. induction links as [|links IHl];
    intros cur e cs; revert cur e; induction cs as [|c0 cs IH]; intros cur e H;
    rewrite ?walk_nil in H; try done; rewrite walk_cons in H;
    (destruct (n !! cur) as [[|m p es|]|] eqn:Hcur; try done);
    (destruct (String.eqb c0 "."); [by eapply IH|]); (destruct (String.eqb c0 ".."); [by eapply IH|]);
    (destruct (es !! c0) as [i|] eqn:Hc0; [|destruct cs; [injection H as <- <-; eauto|done]]);
    (destruct (n !! i) as [[| |t]|]; try (by eapply IH)); destruct cs, follow; try done; by eapply IHl.
Qed.

(** Without a link at its own place, the new inode is what the path resolves to. *)
Lemma walk_add links n follow cur e cs d c x :
  is_link x = false -> walk links n follow cur e cs = Ok (Missing d c) ->
  walk links (add_node d c x n) follow cur e cs = Ok (Found (Some (d, c)) (fresh_ino n)).
Proof.
  intros Hx H0. destruct (walk_Missing _ _ _ _ _ _ _ _ H0) as (md & pd & esd & Hd & Hmiss).
  assert (forall i, i <> fresh_ino n -> add_node d c x n !! i =
    if decide (i = d) then Some (IDir md pd (<[c := fresh_ino n]> esd)) else n !! i) as Hlk.
  { intros i Hi. unfold add_node. rewrite lookup_insert_ne by done. rewrite (set_entries_eq _ _ _ _ _ _ Hd).
    rewrite lookup_insert. repeat case_decide; congruence. }
  assert (add_node d c x n !! fresh_ino n = Some x) as Hnew by (unfold add_node; by rewrite lookup_insert_eq).
  set (n' := add_node d c x n) in *. revert cur e cs H0.
  induction links as [|links IHl]; intros cur e cs; revert cur e; induction cs as [|c0 cs IH]; intros cur e H;
    rewrite ?walk_nil in H; try done; rewrite walk_cons in H |- *;
    (destruct (n !! cur) as [[|m p es|]|] eqn:Hcur; try done);
    (assert (cur <> fresh_ino n) as Hcf by (intros ->; by rewrite fresh_ino_None in Hcur));
    rewrite (Hlk cur Hcf);
    (assert (exists es', (if decide (cur = d) then Some (IDir md pd (<[c:=fresh_ino n]> esd)) else n !! cur)
        = Some (IDir m p es') /\ (forall k, (cur, k) <> (d, c) -> es' !! k = es !! k)
        /\ (cur = d -> es' !! c = Some (fresh_ino n) /\ es !! c = None)) as (es' & Hes & Hsame & Hat)
      by (case_decide as Hcd; [subst cur; rewrite Hd in Hcur; injection Hcur as <- <- <-; eexists; split; [done|];
            split; [intros k Hk; rewrite lookup_insert_ne; [done|congruence]|intros _; by rewrite lookup_insert_eq]
          |exists es; by rewrite Hcur]));
    rewrite Hes;
    (destruct (String.eqb c0 "."); [by apply IH|]); (destruct (String.eqb c0 ".."); [by apply IH|]);
    (destruct (es !! c0) as [i|] eqn:Hc0;
      [|destruct cs; [injection H as -> ->; destruct (Hat eq_refl) as [-> _]; rewrite Hnew;
                      destruct x; [by rewrite walk_nil..|done]|done]]);
    (rewrite Hsame by (intros [= -> ->]; destruct (Hat eq_refl); congruence)); rewrite Hc0;
    (assert (i <> fresh_ino n) as Hif by (eapply (fresh_ino_edge n cur c0); by exists m, p, es));
    rewrite (Hlk i Hif); (destruct (decide (i = d)) as [Hid|Hid]; [rewrite Hid, Hd in H; rewrite Hid; by apply IH|]);
    (destruct (n !! i) as [[| |t]|]; try (by apply IH)); destruct cs, follow; try done; by apply IHl.
Qed.

(** The same for an entry that is added for an existing file, and a path that is then
    followed to its end. *)
Lemma walk_link links n follow cur e cs d c j m0 d0 :
  n !! j = Some (IFile m0 d0) -> walk links n false cur e cs = Ok (Missing d c) ->
  walk links (set_entries d <[c := j]> n) follow cur e cs = Ok (Found (Some (d, c)) j).
Proof.
  intros Hj H0. destruct (walk_Missing _ _ _ _ _ _ _ _ H0) as (md & pd & esd & Hd & Hmiss).
  rewrite (set_entries_eq _ _ _ _ _ _ Hd). assert (j <> d) as Hjd by congruence. revert cur e cs H0.
  induction links as [|links IHl]; intros cur e cs; revert cur e; induction cs as [|c0 cs IH]; intros cur e H;
    rewrite ?walk_nil in H; try done; rewrite walk_cons in H |- *;
    (destruct (n !! cur) as [[|m p es|]|] eqn:Hcur; try done);
    (assert (exists es', <[d := IDir md pd (<[c := j]> esd)]> n !! cur = Some (IDir m p es')
        /\ (forall k, (cur, k) <> (d, c) -> es' !! k = es !! k)
        /\ (cur = d -> es' !! c = Some j /\ es !! c = None)) as (es' & Hes & Hsame & Hat)
      by (rewrite lookup_insert; case_decide as Hcd;
          [subst cur; rewrite Hd in Hcur; injection Hcur as <- <- <-; eexists; split; [done|];
           split; [intros k Hk; rewrite lookup_insert_ne; [done|congruence]|intros _; by rewrite lookup_insert_eq]
          |exists es; split; [done|]; split; [done|]; intros ->; done]));
    rewrite Hes;
    (destruct (String.eqb c0 "."); [by apply IH|]); (destruct (String.eqb c0 ".."); [by apply IH|]);
    (destruct (es !! c0) as [i|] eqn:Hc0;
      [|destruct cs; [injection H as -> ->; destruct (Hat eq_refl) as [-> _];
                      rewrite lookup_insert_ne, Hj by done; by rewrite walk_nil|done]]);
    (rewrite Hsame by (intros [= -> ->]; destruct (Hat eq_refl); congruence)); rewrite Hc0;
    (destruct (decide (i = d)) as [->|Hid]; [rewrite Hd in H; rewrite lookup_insert_eq; by apply IH|]);
    rewrite lookup_insert_ne by done;
    (destruct (n !! i) as [[| |t]|]; try (by apply IH)); destruct cs; try done; by apply IHl.
Qed.

(** The shape of the tree: what resolution depends on. *)
Definition shape (x : inode) : inode :=
  match x with IFile _ _ => IFile 0 [] | IDir _ p es => IDir 0 p es | ISym t => ISym t end.

Lemma walk_shape links n n' follow cur e cs :
  (forall i, shape <$> n !! i = shape <$> n' !! i) -> walk links n follow cur e cs = walk links n' follow cur e cs.
Proof.
  intros Hsh. revert cur e cs.
  induction links as [|links IHl]; intros cur e cs; revert cur e; induction cs as [|c0 cs IH]; intros cur e;
    rewrite ?walk_nil; try done; rewrite !walk_cons;
    (pose proof (Hsh cur) as Hcur; destruct (n !! cur) as [[]|], (n' !! cur) as [[]|]; try discriminate Hcur; try done);
    simpl in Hcur; injection Hcur as <- <-;
    (destruct (String.eqb c0 "."); [by apply IH|]); (destruct (String.eqb c0 ".."); [by apply IH|]);
    (destruct (entries !! c0) as [i|]; [|done]);
    (pose proof (Hsh i) as Hi; destruct (n !! i) as [[]|], (n' !! i) as [[]|]; try discriminate Hi; try (by apply IH));
    simpl in Hi; injection Hi as <-; destruct cs, follow; try done; by apply IHl.
Qed.

Lemma resolve_shape f f' follow p :
  (forall i, shape <$> nodes f !! i = shape <$> nodes f' !! i) -> cwd f' = cwd f ->
  resolve follow p f = resolve follow p f'.
Proof.
  intros H Hc. unfold resolve, start. destruct (String.eqb p EmptyString); [done|].
  rewrite Hc. by apply walk_shape.
Qed.

Lemma insert_file_shape (n : inodes) i m d m' d' :
  n !! i = Some (IFile m d) -> forall j, shape <$> n !! j = shape <$> <[i := IFile m' d']> n !! j.
Proof. intros Hi j. rewrite lookup_insert. case_decide as Hj; [subst j; by rewrite Hi|done]. Qed.

(** [os.Create] opens an empty file that the path then resolves to. *)
Lemma OpenTrunc_resolves p perm f i f' :
  os_OpenTrunc p perm f = (Ok i, f') ->
  cwd f' = cwd f /\ (exists e, resolve true p f' = Ok (Found e i)) /\ exists m, nodes f' !! i = Some (IFile m []).
Proof.
  unfold os_OpenTrunc. destruct (resolve true p f) as [[e j|d c]| |] eqn:HR; [| |done|done].
  - destruct (nodes f !! j) as [[m x| |]|] eqn:Hj; try done. intros [= <- <-]. simpl.
    split; [done|]. split; [|rewrite lookup_insert_eq; eauto]. exists e. rewrite <- HR. symmetry.
    apply resolve_shape; [|done]. simpl. by eapply insert_file_shape.
  - intros [= <- <-]. split; [done|]. split.
    + exists (Some (d, c)). unfold resolve, start in *. destruct (String.eqb p EmptyString); [done|]. simpl.
      by apply walk_add.
    + simpl. unfold add_node. rewrite lookup_insert_eq. eauto.
Qed.

Lemma write_ino_resolves p i b m d f :
  (exists e, resolve true p f = Ok (Found e i)) -> nodes f !! i = Some (IFile m d) ->
  (exists e, resolve true p (write_ino i b f) = Ok (Found e i))
  /\ nodes (write_ino i b f) !! i = Some (IFile m (d ++ b)).
Proof.
  intros [e He] Hi. unfold write_ino. rewrite Hi. simpl. rewrite lookup_insert_eq. split; [|done].
  exists e. rewrite <- He. symmetry. apply resolve_shape; [|done]. simpl. by eapply insert_file_shape.
Qed.
