(* ===== verification/FileExtract.v ===== *)
(** Archives of directories: [content/file/utils.go].  Directories are packed with
    [tarDirectory] and unpacked with [extractTarDirectory], which checks every name
    and link of the archive against the directory it extracts to.  The formats of
    [archive/tar] and [compress/gzip] are an interface, and the caller's context is
    never cancelled. *)

From Stdlib Require Import Ascii String ZArith Lia.
From S2P Require Import Prelude Errors Descriptor Reader GoStrings FilePath Vfs.

#[local] Open Scope string_scope.
#[local] Open Scope list_scope.

(** [tar.Header]'s type flags; the other kinds are skipped by the code. *)
Inductive Typeflag := TypeReg | TypeDir | TypeLink | TypeSymlink | TypeOther.

#[export] Instance Typeflag_eq_dec : EqDecision Typeflag.
Proof. solve_decision. Defined.

(** An entry of an archive: the header fields used, the content and the error that
    reading the content ends with. *)
Record TarEntry := mkEntry {
  te_Name : string;
  te_Typeflag : Typeflag;
  te_Linkname : string;
  te_Mode : Z;
  te_AccessTime : vfs.time;
  te_ModTime : vfs.time;
  te_data : bytes;
  te_err : option error
}.

(** The archive formats.  [tar_Next] delivers the entries of a stream, the error
    after the last one ([None] for [io.EOF]) and the bytes it has consumed. *)
Class Archive := {
  gzip_NewReader : Reader -> result Reader;
  tar_Next : Reader -> list TarEntry * option error * bytes;
  gzip_Writer : bytes -> bytes;
  tar_Writer : list TarEntry -> result bytes
}.

Module file.
Import vfs.

(** ** Packing *)

(** The callback of [filepath.Walk] in [tarDirectory]: the entry written for the
    file [x] at [path]. *)
Definition tar_visit (removeTimes : bool) (root prefix path : string) (x : inode) (f : FS) : result TarEntry :=
  rel ← filepath.Rel root path;
  let name := filepath.Join2 prefix rel in
  let '(atime, mtime) := if removeTimes then (None, None) else os_Lstat_times path f in
  match x with
  | ISym _ => link ← os_Readlink path f; Ok (mkEntry name TypeSymlink link 511 atime mtime [] None)
  | IDir m _ _ => Ok (mkEntry name TypeDir EmptyString m atime mtime [] None)
  | IFile m _ =>
      i ← os_Open path f;
      match nodes f !! i with
      | Some (IFile _ d) => Ok (mkEntry name TypeReg EmptyString m atime mtime d None)
      | _ => Err (EWrap "failed to copy to" EISDIR)
      end
  end.

(** [filepath.Walk]: the directory itself, then its entries by name. *)
Fixpoint tar_walk (fuel : nat) (removeTimes : bool) (root prefix path : string) (x : inode) (f : FS) : result (list TarEntry) :=
  match fuel with
  | O => Err (ENew "walk: out of fuel")
  | S fuel' =>
      e ← tar_visit removeTimes root prefix path x f;
      match x with
      | IDir _ _ es =>
          let fix names (l : list string) : result (list TarEntry) :=
            match l with
            | [] => Ok []
            | n :: l' =>
                let filename := filepath.Join2 path n in
                x' ← os_Lstat filename f;
                a ← tar_walk fuel' removeTimes root prefix filename x' f;
                b ← names l';
                Ok (a ++ b)
            end in
          rest ← names (sort_strings (elements (dom es)));
          Ok (e :: rest)
      | _ => Ok [e]
      end
  end.

(** [tarDirectory]: the entries, and the bytes of the archive. *)
Definition tar_entries (removeTimes : bool) (root prefix : string) (f : FS) : result (list TarEntry) :=
  x ← os_Lstat root f; tar_walk (S (size (nodes f))) removeTimes root prefix root x f.

Definition tarDirectory `{Archive} (root prefix : string) (removeTimes : bool) (f : FS) : result bytes :=
  es ← tar_entries removeTimes root prefix f; tar_Writer es.

(** ** Unpacking *)

(** The loop of [resolveRelToBase] over the directories of the relative path. *)
Fixpoint check_dirs (fuel : nat) (baseAbs dir : string) (f : FS) : result unit :=
  match fuel with
  | O => Err (ENew "check: out of fuel")
  | S fuel' =>
      if String.eqb dir "." then Ok tt
      else match os_Lstat (filepath.Join2 baseAbs dir) f with
      | Err e => if IsNotExist e then check_dirs fuel' baseAbs (filepath.Dir dir) f else Err e
      | Ok x =>
          if is_link x then Err (ENew "no symbolic link allowed")
          else check_dirs fuel' baseAbs (filepath.Dir dir) f
      | Panic => Panic
      end
  end.

Definition resolveRelToBase (baseAbs baseRel target : string) (f : FS) : result string :=
  let base := if filepath.IsAbs target then baseAbs else baseRel in
  path ← filepath.Rel base target;
  if filepath.escapes (filepath.Clean path) then Err (ENew "path is outside of the base")
  else
    _ ← check_dirs (S (String.length path)) baseAbs (filepath.Dir path) f;
    Ok path.

Definition ensureLinkPath (baseAbs baseRel link target : string) (f : FS) : result string :=
  let path := if filepath.IsAbs target then target else filepath.Join2 (filepath.Dir link) target in
  _ ← resolveRelToBase baseAbs baseRel path f;
  Ok target.

(** [writeFile]; [r] is the content with the error reading it ends with. *)
Definition writeFile (path : string) (r : bytes * option error) (perm : Z) : M FS unit :=
  _ ← (fun f => match os_Lstat path f with
                | Ok x => if is_link x then os_Remove path f else (Ok tt, f)
                | _ => (Ok tt, f)
                end : result unit * FS) : M FS unit;
  i ← os_OpenTrunc path perm;
  (fun f => (of_err r.2, write_ino i r.1 f)) : M FS unit.

(** The entry kinds of the switch in [extractTarDirectory]. *)
Definition create_entry (dirPath dirName filePath : string) (e : TarEntry) : M FS unit :=
  match te_Typeflag e with
  | TypeReg => writeFile filePath (te_data e, te_err e) (te_Mode e)
  | TypeDir => os_MkdirAll filePath (te_Mode e)
  | TypeLink =>
      target ← reads (ensureLinkPath dirPath dirName filePath (te_Linkname e));
      os_Link target filePath
  | TypeSymlink =>
      target ← reads (ensureLinkPath dirPath dirName filePath (te_Linkname e));
      (fun f =>
        match os_Symlink target filePath f with
        | (Err err, f1) =>
            if IsExist err then ((_ ← os_Remove filePath; os_Symlink target filePath) : M FS unit) f1
            else (Err err, f1)
        | r => r
        end) : M FS unit
  | TypeOther => mret tt
  end.

(** [_ = f()]. *)
Definition ignored (m : M FS unit) : M FS unit := fun f => (Ok tt, (m f).2).

(** One turn of the loop of [extractTarDirectory]. *)
Definition extract_entry (preservePermissions : bool) (dirPath dirName : string) (e : TarEntry) : M FS unit :=
  filePathRel ← reads (resolveRelToBase dirPath dirName (te_Name e));
  let filePath := filepath.Join2 dirPath filePathRel in
  if bool_decide (te_Typeflag e = TypeOther) then mret tt else
  _ ← create_entry dirPath dirName filePath e;
  _ ← ignored (os_Chtimes filePath (te_AccessTime e) (te_ModTime e));
  if preservePermissions && (bool_decide (te_Typeflag e = TypeReg) || bool_decide (te_Typeflag e = TypeDir))
  then os_Chmod filePath (te_Mode e)
  else mret tt.

Fixpoint extract_entries (preservePermissions : bool) (dirPath dirName : string) (es : list TarEntry)
    (last : option error) : M FS unit :=
  match es with
  | [] => fun f => (of_err last, f)
  | e :: es' =>
      _ ← extract_entry preservePermissions dirPath dirName e;
      extract_entries preservePermissions dirPath dirName es' last
  end.

Section archive.
Context {GD : GoDigest} {AR : Archive}.

(** [extractTarDirectory]; it also returns what it read of the stream. *)
Definition extractTarDirectory (dirPath dirName : string) (r : Reader) (preservePermissions : bool) : M FS bytes :=
  let '(es, last, consumed) := tar_Next r in
  _ ← extract_entries preservePermissions dirPath dirName es last;
  mret consumed.

(** [extractTarGzip]. *)
Definition extractTarGzip (dirPath dirName gzPath checksum : string) (preservePermissions : bool) : M FS unit :=
  fp ← reads (os_Open gzPath);
  gzr ← reads (fun f => gzip_NewReader (ino_reader fp f));
  let verifier :=
    if negb (String.eqb checksum EmptyString) && digest_Validate checksum
    then digest_Verifier checksum else None in
  consumed ← extractTarDirectory dirPath dirName gzr preservePermissions;
  match verifier with
  | Some v => if v consumed then mret tt else fails (ENew "content digest mismatch")
  | None => mret tt
  end.

End archive.
End file.
