(* ===== verification/ExtractSafe.v ===== *)
(** Extraction stays inside its directory: whatever the archive holds, as long as it
    has no hard links and no symbolic link in the place of the directory itself, no
    content outside of the directory changes; times and, when they are preserved,
    permission bits may.  The last section has the entries that act on what a name
    leads to outside: directories behind a link, and hard links. *)

From Stdlib Require Import Ascii String ZArith Lia.
From S2P Require Import Prelude Errors Descriptor Reader GoStrings FilePath Vfs VfsFacts FileExtract.

#[local] Open Scope string_scope.
#[local] Open Scope list_scope.

Import vfs file.

(** ** Calls below a base directory *)

Section base.
Context (perms : bool) (b : nat) (bcs : list string) (Hbcs : props bcs).

Local Notation at_b f := (at_base (nodes f) b root bcs).
Local Notation path cs := (filepath.render true (bcs ++ cs)).

(** The call changes nothing outside of the base. *)
Definition safe {A} (m : M FS A) (f : FS) : Prop := contained perms b (nodes f) (nodes (m f).2).

Lemma safe_bind {A B} (m : M FS A) (k : A -> M FS B) f :
  safe m f -> (forall a, (m f).1 = Ok a -> contained perms b (nodes f) (nodes (m f).2) -> safe (k a) (m f).2) ->
  safe (m ≫= k) f.
Proof.
  unfold safe, mbind, M_bind. destruct (m f) as [[a|e|] f1]; simpl; [|done..].
  intros H1 H2. eapply contained_trans; [done|]. by apply H2.
Qed.

Lemma safe_ret {A} (a : A) f : safe (mret a) f.
Proof. apply contained_refl. Qed.
Lemma safe_reads {A} (g : FS -> result A) f : safe (reads g) f.
Proof. apply contained_refl. Qed.
Lemma safe_fails {A} e f : safe (fails e : M FS A) f.
Proof. apply contained_refl. Qed.

Lemma at_b_step n n' : contained perms b n n' -> at_base n b root bcs -> at_base n' b root bcs.
Proof. apply contained_at_base. Qed.

Lemma base_Some f : at_b f -> is_Some (nodes f !! b).
Proof. intros (m & p & es & ->)%at_base_dir. by eexists. Qed.

Lemma chain_below n cs i : chain n b cs i -> reach n b i.
Proof. apply chain_reach. constructor. Qed.

Hint Resolve safe_ret safe_reads safe_fails base_Some chain_below : go.

Section op.
Context (f : FS) (cs : list string) (Hab : at_b f) (Hcs : props cs) (Hne : cs <> []) (Hcl : clear (nodes f) b cs).

Lemma resolve_nofollow : ends_at (nodes f) b None cs (resolve false (path cs) f).
Proof. by apply resolve_below. Qed.

(** An inode at the path is what [Lstat] sees. *)
Lemma Lstat_chain i x : chain (nodes f) b cs i -> nodes f !! i = Some x -> os_Lstat (path cs) f = Ok x.
Proof.
  intros Hc Hi. pose proof resolve_nofollow as HR. unfold os_Lstat, found.
  destruct (resolve false (path cs) f) as [[e j|d c']| |]; simpl in HR |- *.
  - destruct HR as [Hcj _]. by rewrite (chain_fun _ _ _ _ _ Hcj Hc), Hi.
  - destruct HR as (cs' & m & p & es & -> & Hcd & Hd & Hmiss).
    apply chain_app_inv in Hc as (y & Hy & Hyi). rewrite (chain_fun _ _ _ _ _ Hy Hcd) in Hyi.
    inversion Hyi as [|? ? ? ? ? (? & ? & ? & ? & ?)]; subst. congruence.
  - by apply HR in Hc.
  - by apply HR in Hc.
Qed.

Lemma Remove_safe : safe (os_Remove (path cs)) f.
Proof.
  unfold safe, os_Remove. pose proof resolve_nofollow as H.
  destruct (resolve false (path cs) f) as [[[[d c]|] i|d c]| |]; simpl in H |- *; try apply contained_refl.
  destruct H as [_ [[_ ->]|(cs' & _ & Hd & _)]]; [done|].
  assert (contained perms b (nodes f) (set_entries d (delete c) (nodes f))) by (apply contained_delete; eauto with go).
  destruct (nodes f !! i) as [[]|]; try case_bool_decide; simpl; eauto with go.
Qed.

(** Removal leaves no entry at the path, and adds none anywhere. *)
Lemma Remove_gone f' :
  os_Remove (path cs) f = (Ok tt, f') ->
  (forall i, ~ chain (nodes f') b cs i) /\ (forall d c i, edge (nodes f') d c i -> edge (nodes f) d c i)
  /\ (forall i t, nodes f' !! i = Some (ISym t) -> nodes f !! i = Some (ISym t)).
Proof.
  unfold os_Remove. pose proof resolve_nofollow as H.
  destruct (resolve false (path cs) f) as [[[[d c]|] i|d c]| |]; simpl in H; try done.
  destruct H as [_ [[_ ->]|(cs' & Hsplit & Hd & He)]]; [done|]. intros Hf'.
  assert (f' = set_nodes (set_entries d (delete c) (nodes f)) f) as ->.
  { destruct (nodes f !! i) as [[]|]; try case_bool_decide; congruence. }
  simpl. assert (forall d' c' i', edge (set_entries d (delete c) (nodes f)) d' c' i' ->
    edge (nodes f) d' c' i' /\ (d', c') <> (d, c)) as Hed by (intros; by apply edge_delete).
  split; [|split].
  - intros j Hj. rewrite Hsplit in Hj. apply chain_app_inv in Hj as (x & Hx & Hxj).
    inversion Hxj as [|? ? ? ? ? Hxe]; subst. apply Hed in Hxe as [_ Hne'].
    apply (edge_mono (nodes f)) in Hx; [|intros; by apply Hed].
    by rewrite (chain_fun _ _ _ _ _ Hx Hd) in Hne'.
  - intros. by apply Hed.
  - intros j t. unfold set_entries. destruct (nodes f !! d) as [[|m p es|]|] eqn:E; try done.
    rewrite lookup_insert. by case_decide.
Qed.

Lemma OpenTrunc_safe perm :
  no_link_at (nodes f) b cs ->
  safe (os_OpenTrunc (path cs) perm) f /\
  forall i f', os_OpenTrunc (path cs) perm f = (Ok i, f') ->
    (is_Some (nodes f !! i) -> reach (nodes f) b i).
Proof.
  intros Hnl. unfold safe, os_OpenTrunc.
  assert (ends_at (nodes f) b None cs (resolve true (path cs) f)) as H by (by apply resolve_below).
  destruct (resolve true (path cs) f) as [[e i|d c]| |]; simpl in H.
  - destruct H as [Hc _]. destruct (nodes f !! i) as [[m x|m p es|t]|] eqn:Hi; simpl; (split; [try apply contained_refl|]).
    + eapply contained_insert; [done|left; eauto with go|done].
    + intros ? ? [= <- <-] _. eauto with go.
    + by intros ? ? [=].
    + by intros ? ? [=].
    + by intros ? ? [=].
  - destruct H as (cs' & m & p & es & -> & Hd & _). simpl. split.
    + apply contained_add; eauto with go. done.
    + intros ? ? [= <- <-] [x Hx]. by rewrite fresh_ino_None in Hx.
  - split; [apply contained_refl|by intros ? ? [=]].
  - split; [apply contained_refl|by intros ? ? [=]].
Qed.

Lemma Mkdir_safe perm : safe (os_Mkdir (path cs) perm) f.
Proof.
  unfold safe, os_Mkdir. pose proof resolve_nofollow as H.
  destruct (resolve false (path cs) f) as [[e i|d c]| |]; simpl in H |- *; try apply contained_refl.
  destruct H as (cs' & m & p & es & -> & Hd & _). apply contained_add; eauto with go. done.
Qed.

Lemma Symlink_safe target : safe (os_Symlink target (path cs)) f.
Proof.
  unfold safe, os_Symlink. destruct (String.eqb target EmptyString); [apply contained_refl|].
  pose proof resolve_nofollow as H.
  destruct (resolve false (path cs) f) as [[e i|d c]| |]; simpl in H |- *; try apply contained_refl.
  destruct H as (cs' & m & p & es & -> & Hd & _). apply contained_add; eauto with go. done.
Qed.

End op.

(** *** Directories *)

Lemma chain_add n d c x a cs i :
  no_entries x -> is_Some (n !! d) -> a <> fresh_ino n ->
  chain (add_node d c x n) a cs i -> chain n a cs i \/ i = fresh_ino n.
Proof.
  intros Hx [y Hd] Ha Hc. induction Hc as [a|a c' z cs i He Hc IH]; [left; constructor|].
  apply (edge_add n d c x _ _ _ Hx) in He as [[He Hz]|(-> & -> & ->)].
  - destruct (IH Hz) as [IH'| ->]; [left; eauto with go|by right].
  - right. inversion Hc as [|? ? ? ? ? He']; subst; [done|].
    apply (edge_add n d c x _ _ _ Hx) in He' as [[(? & ? & ? & He' & _) _]|(He' & _)].
    + by rewrite fresh_ino_None in He'.
    + by rewrite <- He', fresh_ino_None in Hd.
Qed.

Lemma add_node_ISym n d c x i t :
  add_node d c x n !! i = Some (ISym t) -> i <> fresh_ino n -> n !! i = Some (ISym t).
Proof.
  unfold add_node. intros Hi Hne. rewrite lookup_insert_ne in Hi by done. unfold set_entries in Hi.
  destruct (n !! d) as [[]|] eqn:E; try done. rewrite lookup_insert in Hi. by case_decide.
Qed.

Lemma clear_add_dir n d c m p l :
  is_Some (n !! b) -> is_Some (n !! d) -> clear n b l -> clear (add_node d c (IDir m p ∅) n) b l.
Proof.
  intros [x Hb] Hd Hcl pre c' suf i t -> Hne Hc Hi.
  assert (b <> fresh_ino n) as Hbf by (intros ->; by rewrite fresh_ino_None in Hb).
  destruct (chain_add n d c (IDir m p ∅) b pre i eq_refl Hd Hbf Hc) as [Hc'| ->].
  - eapply Hcl; [done|done|done|]. eapply add_node_ISym; [done|]. intros ->.
    unfold add_node in Hi. by rewrite lookup_insert_eq in Hi.
  - unfold add_node in Hi. by rewrite lookup_insert_eq in Hi.
Qed.

Lemma Mkdir_clear f cs perm l :
  at_b f -> props cs -> cs <> [] -> clear (nodes f) b cs ->
  clear (nodes f) b l -> clear (nodes (os_Mkdir (path cs) perm f).2) b l.
Proof.
  intros Hab Hcs Hne Hcl Hl. unfold os_Mkdir.
  pose proof (resolve_nofollow f cs Hab Hcs Hne Hcl) as H.
  destruct (resolve false (path cs) f) as [[e i|d c]| |]; simpl in H |- *; try done.
  destruct H as (cs' & m & p & es & -> & Hd & He & _). apply clear_add_dir; eauto with go.
Qed.

Lemma Stat_base f : at_b f -> exists m p es, os_Stat (filepath.render true bcs) f = Ok (IDir m p es).
Proof.
  intros Hab. unfold os_Stat, found. rewrite resolve_render by done.
  destruct (walk_at_base maxLinks _ true _ _ _ None Hab Hbcs) as (e & ->). simpl.
  destruct (at_base_dir _ _ _ _ Hab) as (m & p & es & ->). simpl. eauto.
Qed.

Lemma clear_prefix n l l' : clear n b (l ++ l') -> clear n b l.
Proof. intros H pre c suf i t -> Hne Hc. eapply (H pre c (suf ++ l')); [by rewrite <- app_assoc|done|done]. Qed.

Lemma mkdir_all_safe perm cs f :
  at_b f -> props cs -> clear (nodes f) b cs ->
  safe (mkdir_all true perm (rev (bcs ++ cs))) f /\
  forall l, clear (nodes f) b l -> clear (nodes (mkdir_all true perm (rev (bcs ++ cs)) f).2) b l.
Proof.
  induction cs as [|c cs IH] using rev_ind; intros Hab Hcs Hcl.
  - rewrite app_nil_r. destruct (Stat_base f Hab) as (m & p & es & HS). unfold safe.
    destruct (rev bcs) as [|x l] eqn:E; cbn [mkdir_all]; rewrite <- E, rev_involutive, HS;
      (split; [apply contained_refl|done]).
  - assert (rev (bcs ++ cs ++ [c]) = c :: rev (bcs ++ cs)) as Hrev by (by rewrite app_assoc, rev_app_distr).
    rewrite Hrev. unfold safe. cbn [mkdir_all]. rewrite <- Hrev, rev_involutive.
    destruct (os_Stat _ f) as [x|e|]; [split; [apply contained_refl|done]| |split; [apply contained_refl|done]].
    assert (props cs) as Hcs' by (by apply Forall_app in Hcs as [? _]).
    destruct (IH Hab Hcs' (clear_prefix _ _ _ Hcl)) as [IH1 IH2]. unfold safe in IH1.
    assert (match rev (bcs ++ cs) with [] => mkdir_all true perm (rev (bcs ++ cs)) f | _ => mkdir_all true perm (rev (bcs ++ cs)) f end
      = mkdir_all true perm (rev (bcs ++ cs)) f) as Hm by (by destruct (rev (bcs ++ cs))).
    rewrite Hm. clear Hm. destruct (mkdir_all true perm (rev (bcs ++ cs)) f) as [[[]| |] f1]; simpl in IH1, IH2;
      [|by split..].
    assert (at_b f1) as Hab1 by (by eapply at_b_step).
    assert (cs ++ [c] <> []) as Hne by (by destruct cs).
    pose proof (Mkdir_safe f1 (cs ++ [c]) Hab1 Hcs Hne (IH2 _ Hcl) perm) as HM. unfold safe in HM.
    pose proof (fun l => Mkdir_clear f1 (cs ++ [c]) perm l Hab1 Hcs Hne (IH2 _ Hcl)) as HC.
    destruct (os_Mkdir _ perm f1) as [[[]|e'|] f2]; simpl in HM, HC |- *;
      [|destruct (os_Lstat _ f2); simpl|]; (split; [by eapply contained_trans|auto]).
Qed.

Lemma MkdirAll_safe perm cs f :
  at_b f -> props cs -> clear (nodes f) b cs -> safe (os_MkdirAll (path cs) perm) f.
Proof.
  intros Hab Hcs Hcl. unfold os_MkdirAll. change (String.eqb (path cs) EmptyString) with false.
  change (filepath.IsAbs (path cs)) with true. cbn iota.
  rewrite filepath.pieces_render by (try (by right); by apply filepath.normal_proper, Forall_app).
  by apply mkdir_all_safe.
Qed.

(** ** The checks of the archive's names *)

Local Notation baseAbs := (filepath.render true bcs).

(** A directory that passed the loop has no link at any of its prefixes. *)
Lemma check_dirs_clear fuel f l :
  at_b f -> props l -> check_dirs fuel baseAbs (filepath.render false l) f = Ok tt ->
  forall pre suf i t, l = pre ++ suf -> pre <> [] -> chain (nodes f) b pre i -> nodes f !! i <> Some (ISym t).
Proof.
  intros Hab. revert fuel. induction l as [|c l IH] using rev_ind; intros fuel Hp Hck pre suf i t Hl Hne Hc Hi.
  { symmetry in Hl. by apply app_eq_nil in Hl as [-> _]. }
  assert (String.eqb (filepath.render false (l ++ [c])) "." = false) as Hdot.
  { apply String.eqb_neq. intros H. apply (f_equal filepath.elems) in H.
    rewrite filepath.elems_render in H by (by apply filepath.normal_proper). by destruct l. }
  destruct fuel as [|fuel]; [done|]. cbn [check_dirs] in Hck. rewrite Hdot, filepath.Dir_below in Hck by done.
  rewrite filepath.Join2_below in Hck by done.
  assert (props l) as Hl' by (by apply Forall_app in Hp as [? _]).
  assert (check_dirs fuel baseAbs (filepath.render false l) f = Ok tt
    /\ forall x, os_Lstat (path (l ++ [c])) f = Ok x -> is_link x = false) as [Hrec HL].
  { destruct (os_Lstat _ f) as [x|e|]; [|destruct (IsNotExist e); [done|done]|done].
    destruct (is_link x) eqn:E; [done|]. split; [done|]. by intros ? [= <-]. }
  specialize (IH fuel Hl' Hrec).
  destruct suf as [|c' suf] using rev_ind.
  2: { clear IHsuf. rewrite app_assoc in Hl. apply app_inj_tail in Hl as [-> _]. by eapply IH. }
  rewrite app_nil_r in Hl. subst pre.
  assert (clear (nodes f) b (l ++ [c])) as Hcl.
  { intros pre c' suf j t' Hsp Hne' Hch. destruct suf as [|c'' suf _] using rev_ind.
    - apply app_inj_tail in Hsp as [-> _]. eapply (IH pre []); [by rewrite app_nil_r|done|done].
    - rewrite app_comm_cons, app_assoc in Hsp. apply app_inj_tail in Hsp as [-> _]. by eapply IH. }
  by specialize (HL _ (Lstat_chain f _ Hab Hp Hne Hcl i _ Hc Hi)).
Qed.

(** What [resolveRelToBase] promises: a path below the base without links on the way. *)
Lemma resolveRelToBase_clear baseRel target p f :
  at_b f -> resolveRelToBase baseAbs baseRel target f = Ok p ->
  exists cs, p = filepath.render false cs /\ props cs /\ clear (nodes f) b cs
    /\ filepath.Join2 baseAbs p = path cs.
Proof.
  intros Hab. unfold resolveRelToBase. set (base := if filepath.IsAbs target then _ else _). intros H.
  apply bind_Ok in H as (rel & Hrel & H). destruct (filepath.escapes _) eqn:Hesc; [done|].
  apply bind_Ok in H as ([] & Hck & [= <-]).
  destruct (filepath.Rel_below _ _ _ Hrel Hesc) as (cs & -> & Hcs & _). exists cs.
  split; [done|]. split; [done|]. split; [|by apply filepath.Join2_below].
  destruct cs as [|c cs] using rev_ind; [by intros [] ? ? ? ? H|]. clear IHcs.
  rewrite filepath.Dir_below in Hck by done. assert (props cs) as Hp by (by apply Forall_app in Hcs as [? _]).
  intros pre c' suf i t Hsp Hne Hch. destruct suf as [|c'' suf _] using rev_ind.
  - apply app_inj_tail in Hsp as [-> _]. eapply (check_dirs_clear _ _ _ Hab Hp Hck pre []); [by rewrite app_nil_r|done|done].
  - rewrite app_comm_cons, app_assoc in Hsp. apply app_inj_tail in Hsp as [-> _].
    by eapply (check_dirs_clear _ _ _ Hab Hp Hck).
Qed.

(** ** Creating an entry *)

Lemma write_ino_contained n f i d :
  contained perms b n (nodes f) -> (is_Some (n !! i) -> reach n b i) ->
  contained perms b n (nodes (write_ino i d f)).
Proof.
  intros Hct Hi. unfold write_ino. destruct (nodes f !! i) as [[m d0| |]|] eqn:E; try done. simpl. split.
  - intros j x Hj Hr. assert (j <> i) as Hne by (intros ->; apply Hr, Hi; by eexists).
    rewrite lookup_insert_ne by done. by apply (ct_out _ _ _ _ Hct).
  - intros j Hr. apply (ct_in _ _ _ _ Hct). eapply reach_mono; [|done].
    by eapply insert_same_edges; [done|intros ? ? ? [=]].
  - intros j m' p es Hj. rewrite lookup_insert_ne; [by apply (ct_dir _ _ _ _ Hct) in Hj|].
    intros <-. apply (ct_dir _ _ _ _ Hct) in Hj as (? & ? & ? & Hj). congruence.
  - intros j Hj. destruct (decide (j = i)) as [->|]; [rewrite lookup_insert_eq; by eexists|].
    rewrite lookup_insert_ne by done. by apply (ct_dom _ _ _ _ Hct).
Qed.

(** Opening a path without a link at its end and writing. *)
Lemma write_safe perm data cs f :
  at_b f -> props cs -> clear (nodes f) b cs -> no_link_at (nodes f) b cs ->
  safe (i ← os_OpenTrunc (path cs) perm; (fun f => (of_err data.2, write_ino i data.1 f)) : M FS unit) f.
Proof.
  intros Hab Hcs Hcl Hnl. destruct (decide (cs = [])) as [->|Hne].
  - unfold safe, mbind, M_bind, os_OpenTrunc. rewrite app_nil_r, resolve_render by done.
    destruct (walk_at_base maxLinks _ true _ _ _ None Hab Hbcs) as (e & ->).
    destruct (at_base_dir _ _ _ _ Hab) as (m & p & es & ->). apply contained_refl.
  - destruct (OpenTrunc_safe f cs Hab Hcs Hne Hcl perm Hnl) as [H1 H2].
    unfold safe, mbind, M_bind in *. destruct (os_OpenTrunc (path cs) perm f) as [[i|e|] f1]; [|done..].
    apply write_ino_contained; [done|]. by eapply H2.
Qed.

Lemma Lstat_base f : at_b f -> exists m p es, os_Lstat (path []) f = Ok (IDir m p es).
Proof.
  intros Hab. unfold os_Lstat, found. rewrite app_nil_r, resolve_render by done.
  destruct (walk_at_base maxLinks _ false _ _ _ None Hab Hbcs) as (e & ->). simpl.
  destruct (at_base_dir _ _ _ _ Hab) as (m & p & es & ->). simpl. eauto.
Qed.

Lemma no_link_Lstat f cs :
  at_b f -> props cs -> clear (nodes f) b cs ->
  (forall x, os_Lstat (path cs) f = Ok x -> is_link x = false) -> no_link_at (nodes f) b cs.
Proof.
  intros Hab Hcs Hcl HL i t Hc Hi. destruct (decide (cs = [])) as [->|Hne].
  - inversion Hc; subst. destruct (at_base_dir _ _ _ _ Hab) as (m & p & es & Hb). congruence.
  - by specialize (HL _ (Lstat_chain f cs Hab Hcs Hne Hcl i _ Hc Hi)).
Qed.

Lemma writeFile_safe cs data perm f :
  at_b f -> props cs -> clear (nodes f) b cs -> safe (writeFile (path cs) data perm) f.
Proof.
  intros Hab Hcs Hcl. unfold writeFile.
  destruct (os_Lstat (path cs) f) as [x|e|] eqn:HL; [destruct (is_link x) eqn:Hx|..].
  - assert (cs <> []) as Hne.
    { intros ->. destruct (Lstat_base f Hab) as (m & p & es & E). rewrite HL in E. by injection E as ->. }
    apply safe_bind; rewrite ?HL, ?Hx; [unfold safe; rewrite HL, Hx; by apply Remove_safe|].
    intros [] Hok Hct. destruct (os_Remove (path cs) f) as [r f1] eqn:HR. simpl in *. subst r.
    destruct (Remove_gone f cs Hab Hcs Hne Hcl f1 HR) as (Hgone & Hed & Hsym).
    apply write_safe; [by eapply at_b_step|done| |by intros i t Hc%Hgone].
    intros pre c suf i t Hsp Hpre Hc Hi. eapply Hcl; [done|done| |by apply Hsym].
    by eapply edge_mono.
  - apply safe_bind; [unfold safe; rewrite HL, Hx; apply contained_refl|]. rewrite HL, Hx. intros [] _ _.
    apply write_safe; try done. apply no_link_Lstat; try done. intros ? [= <-]%(eq_trans (eq_sym HL)). done.
  - apply safe_bind; [unfold safe; rewrite HL; apply contained_refl|]. rewrite HL. intros [] _ _. simpl.
    apply write_safe; try done. apply no_link_Lstat; try done. intros ? ?. congruence.
  - apply safe_bind; [unfold safe; rewrite HL; apply contained_refl|]. rewrite HL. intros [] _ _. simpl.
    apply write_safe; try done. apply no_link_Lstat; try done. intros ? ?. congruence.
Qed.

(** The archives the theorem is about: no hard link, and no symbolic link in the place
    of the directory itself. *)
Definition names_base (dirPath dirName : string) (e : TarEntry) : bool :=
  bool_decide (filepath.Rel (if filepath.IsAbs (te_Name e) then dirPath else dirName) (te_Name e) = Ok ".").

Definition tame (dirPath dirName : string) (e : TarEntry) : bool :=
  match te_Typeflag e with
  | TypeLink => false
  | TypeSymlink => negb (names_base dirPath dirName e)
  | _ => true
  end.

Lemma symlink_safe target cs f :
  at_b f -> props cs -> cs <> [] -> clear (nodes f) b cs ->
  safe (fun f => match os_Symlink target (path cs) f with
        | (Err err, f1) =>
            if IsExist err then ((_ ← os_Remove (path cs); os_Symlink target (path cs)) : M FS unit) f1
            else (Err err, f1)
        | r => r
        end) f.
Proof.
  intros Hab Hcs Hne Hcl. pose proof (Symlink_safe f cs Hab Hcs Hne Hcl target) as HS. unfold safe in *.
  destruct (os_Symlink target (path cs) f) as [[[]|err|] f1] eqn:E; try done.
  assert (f1 = f) as ->.
  { unfold os_Symlink in E. destruct (String.eqb target EmptyString); [congruence|].
    destruct (resolve false (path cs) f) as [[]| |]; congruence. }
  destruct (IsExist err); [|done]. apply safe_bind; [by apply Remove_safe|].
  intros [] Hok Hct. destruct (os_Remove (path cs) f) as [r f1] eqn:HR. simpl in *. subst r.
  destruct (Remove_gone f cs Hab Hcs Hne Hcl f1 HR) as (Hgone & Hed & Hsym).
  apply Symlink_safe; [by eapply at_b_step|done|done|].
  intros pre c suf i t Hsp Hpre Hc Hi. eapply Hcl; [done|done| |by apply Hsym]. by eapply edge_mono.
Qed.

(** Times are set on inodes, they change none. *)
Lemma Chtimes_nodes p atime mtime f : nodes (os_Chtimes p atime mtime f).2 = nodes f.
Proof. unfold os_Chtimes. destruct (found f _) as [[i x]| |]; [|done..]. by destruct (ino_times i f). Qed.

Lemma found_times t follow p f :
  found (set_times t f) (resolve follow p (set_times t f)) = found f (resolve follow p f).
Proof. unfold found, resolve, start. cbn [nodes cwd set_times]. reflexivity. Qed.

Lemma Chtimes_safe p atime mtime f : safe (ignored (os_Chtimes p atime mtime)) f.
Proof. unfold safe, ignored. simpl. rewrite Chtimes_nodes. apply contained_refl. Qed.

Lemma Chmod_safe p mode f : perms = false -> safe (os_Chmod p mode) f.
Proof.
  intros Hp. unfold safe, os_Chmod. destruct (found f (resolve true p f)) as [[i x]|e|] eqn:E; simpl; try apply contained_refl.
  assert (nodes f !! i = Some x) as Hi.
  { unfold found in E. apply bind_Ok in E as ([? j|] & _ & E); [|done].
    destruct (nodes f !! j) eqn:Hj; [|done]. by injection E as -> ->. }
  destruct x; simpl; [..|apply contained_refl];
    (eapply contained_insert; [done|right; by rewrite Hp|done]).
Qed.

End base.

(** ** The loop *)

Section extract.
Context (preserve : bool) (b : nat) (bcs : list string) (Hbcs : props bcs).

Local Notation dirPath := (filepath.render true bcs).

Lemma extract_entry_safe dirName e f :
  at_base (nodes f) b root bcs -> tame dirPath dirName e = true ->
  safe (negb preserve) b (extract_entry preserve dirPath dirName e) f.
Proof.
  intros Hab Ht. unfold extract_entry. apply safe_bind; [apply contained_refl|]. intros p Hp _. cbn [reads fst snd] in *. cbv zeta.
  destruct (resolveRelToBase_clear b bcs Hbcs dirName (te_Name e) p f Hab Hp) as (cs & -> & Hcs & Hcl & ->).
  case_bool_decide as Hother; [apply contained_refl|]. apply safe_bind.
  - unfold create_entry, tame in *. destruct (te_Typeflag e).
    + by apply writeFile_safe.
    + by apply MkdirAll_safe.
    + done.
    + apply safe_bind; [apply contained_refl|]. intros target Hta _. cbn [reads fst snd] in *.
      apply symlink_safe; try done. intros ->. apply negb_true_iff, bool_decide_eq_false in Ht. apply Ht.
      unfold resolveRelToBase in Hp. apply bind_Ok in Hp as (rel & -> & Hp).
      destruct (filepath.escapes _); [done|]. by apply bind_Ok in Hp as ([] & _ & [= ->]).
    + apply contained_refl.
  - intros [] _ Hct. apply safe_bind; [apply Chtimes_safe|]. intros [] _ _. destruct (preserve && _) eqn:E; [|apply safe_ret].
    apply andb_true_iff in E as [-> _]. by apply Chmod_safe.
Qed.

Lemma extract_entries_safe dirName es last f :
  at_base (nodes f) b root bcs -> forallb (tame dirPath dirName) es = true ->
  safe (negb preserve) b (extract_entries preserve dirPath dirName es last) f.
Proof.
  revert f. induction es as [|e es IH]; intros f Hab Ht; simpl; [apply contained_refl|].
  simpl in Ht. apply andb_true_iff in Ht as [He Ht]. apply safe_bind; [by apply extract_entry_safe|].
  intros [] _ Hct. apply IH; [|done]. by eapply contained_at_base.
Qed.

End extract.

(** ** Fuel of the loop over directories

    The loop runs at most once per element of the path, and a path is at least as long
    as it has elements, so the fuel given by [resolveRelToBase] is enough: more does
    not change the result. *)

Lemma check_dirs_fuel baseAbs l f fuel k :
  props l -> length l < fuel ->
  check_dirs (fuel + k) baseAbs (filepath.render false l) f = check_dirs fuel baseAbs (filepath.render false l) f.
Proof.
  revert l. induction fuel as [|fuel IH]; intros l Hl Hf; [lia|]. cbn [check_dirs plus].
  destruct l as [|c l _] using rev_ind; [done|]. rewrite filepath.Dir_below by done.
  assert (props l) as Hp by (by apply Forall_app in Hl as [? _]).
  rewrite length_app in Hf. simpl in Hf. rewrite (IH l Hp) by lia. done.
Qed.

Lemma string_length_app s t : String.length (s +:+ t) = String.length s + String.length t.
Proof. induction s as [|a s IH]; [done|]. exact (f_equal S IH). Qed.

Lemma Join_length l : props l -> length l <= String.length (Join filepath.sep l).
Proof.
  induction l as [|c l IH]; intros Hl; [done|]. apply list.Forall_cons in Hl as [Hc Hl].
  apply filepath.proper_spec in Hc as (_ & Hne & _). specialize (IH Hl).
  assert (0 < String.length c) by (destruct c; simpl; [done|lia]).
  destruct l as [|c' l]; [simpl in *; lia|].
  change (Join filepath.sep (c :: c' :: l)) with (c +:+ String.String filepath.sep (Join filepath.sep (c' :: l))).
  rewrite string_length_app. simpl in *. lia.
Qed.

Lemma resolveRelToBase_fuel baseAbs base target path f k :
  filepath.Rel base target = Ok path -> filepath.escapes (filepath.Clean path) = false ->
  check_dirs (S (String.length path) + k) baseAbs (filepath.Dir path) f
  = check_dirs (S (String.length path)) baseAbs (filepath.Dir path) f.
Proof.
  intros HR Hesc. destruct (filepath.Rel_below _ _ _ HR Hesc) as (l & -> & Hl & _).
  destruct l as [|c l _] using rev_ind; [done|]. rewrite filepath.Dir_below by done.
  pose proof (Join_length _ Hl) as HJ. rewrite length_app in HJ. simpl in HJ.
  apply Forall_app in Hl as [Hl _]. apply check_dirs_fuel; [done|].
  unfold filepath.render. destruct (l ++ [c]) eqn:E; [by destruct l|]. rewrite <- E in *. lia.
Qed.

(** ** Entries that follow a name out of the directory *)

Section follows.
Context (preserve : bool) (bcs : list string) (Hbcs : props bcs) (dirName : string) (e : TarEntry) (f : FS) (p : string).
Local Notation dirPath := (filepath.render true bcs).
Context (Hname : resolveRelToBase dirPath dirName (te_Name e) f = Ok p).
Local Notation filePath := (filepath.Join2 dirPath p).
#[local] Arguments filepath.render : simpl never.

Lemma entry_path : exists cs, props cs /\ filePath = filepath.render true (bcs ++ cs).
Proof.
  unfold resolveRelToBase in Hname. apply bind_Ok in Hname as (rel & Hrel & H).
  destruct (filepath.escapes _) eqn:Hesc; [done|]. apply bind_Ok in H as ([] & _ & [= <-]).
  destruct (filepath.Rel_below _ _ _ Hrel Hesc) as (cs & -> & Hcs & _). exists cs.
  split; [done|]. by apply filepath.Join2_below.
Qed.

(** [os.MkdirAll] accepts a path that leads to a directory. *)
Lemma MkdirAll_exists perm m q es : os_Stat filePath f = Ok (IDir m q es) -> os_MkdirAll filePath perm f = (Ok tt, f).
Proof.
  destruct entry_path as (cs & Hcs & ->). intros HS. unfold os_MkdirAll.
  change (String.eqb (filepath.render true (bcs ++ cs)) EmptyString) with false. cbn iota.
  change (filepath.IsAbs (filepath.render true (bcs ++ cs))) with true.
  rewrite filepath.pieces_render by (try (by right); by apply filepath.normal_proper, Forall_app).
  destruct (rev (bcs ++ cs)) as [|c l] eqn:E; cbn [mkdir_all]; rewrite <- E, rev_involutive, HS; done.
Qed.

(** A directory entry whose path leads to a directory leaves it and sets its times. *)
Lemma extract_entry_dir i m q es :
  te_Typeflag e = TypeDir -> found f (resolve true filePath f) = Ok (i, IDir m q es) ->
  extract_entry preserve dirPath dirName e f =
    (if preserve then os_Chmod filePath (te_Mode e) else mret tt)
      (set_times (<[i := (newer (te_AccessTime e) (ino_times i f).1, newer (te_ModTime e) (ino_times i f).2)]> (times f)) f).
Proof.
  intros Hty Hf. unfold extract_entry. rewrite (bind_run _ _ _ p f) by (unfold reads; by rewrite Hname).
  rewrite Hty, !bool_decide_eq_false_2 by done. rewrite bool_decide_eq_true_2 by done.
  rewrite orb_true_r, andb_true_r. cbv zeta.
  rewrite (bind_run _ _ _ tt f)
    by (unfold create_entry; rewrite Hty; eapply MkdirAll_exists; unfold os_Stat; by rewrite Hf).
  erewrite bind_run; [reflexivity|]. unfold ignored, os_Chtimes. rewrite Hf. by destruct (ino_times i f).
Qed.

Lemma found_node g r i x : found g r = Ok (i, x) -> nodes g !! i = Some x.
Proof.
  unfold found. intros H. apply bind_Ok in H as ([? j|] & _ & H); [|done].
  destruct (nodes g !! j) eqn:Hj; [|done]. congruence.
Qed.

Lemma set_times_eq t i g : ino_times i (set_times (<[i := t]> (times g)) g) = t.
Proof. unfold ino_times, set_times. cbn [times]. by rewrite lookup_insert_eq. Qed.

(** With [preserve] it also sets the permission bits. *)
Lemma extract_dir_follows i m q es :
  te_Typeflag e = TypeDir -> found f (resolve true filePath f) = Ok (i, IDir m q es) ->
  exists f', extract_entry preserve dirPath dirName e f = (Ok tt, f')
    /\ nodes f' !! i = Some (IDir (if preserve then te_Mode e else m) q es)
    /\ ino_times i f' = (newer (te_AccessTime e) (ino_times i f).1, newer (te_ModTime e) (ino_times i f).2).
Proof.
  intros Hty Hf. rewrite (extract_entry_dir i m q es Hty Hf). generalize (newer (te_AccessTime e) (ino_times i f).1) as a.
  intros a. generalize (newer (te_ModTime e) (ino_times i f).2) as t. intros t. destruct preserve.
  - unfold os_Chmod. rewrite found_times, Hf. eexists. split; [reflexivity|].
    split; [apply lookup_insert_eq|]. exact (set_times_eq (a, t) i f).
  - eexists. split; [reflexivity|]. split; [exact (found_node _ _ _ _ Hf)|apply set_times_eq].
Qed.

(** A hard link entry is made to what its link name leads to in the working directory
    of the process, and a file that is then written at its path is written there. *)
Lemma extract_hardlink_follows entry i m dat d c :
  te_Typeflag e = TypeLink -> te_Linkname e <> EmptyString -> filepath.IsAbs (te_Linkname e) = false ->
  ensureLinkPath dirPath dirName filePath (te_Linkname e) f = Ok (te_Linkname e) ->
  walk maxLinks (nodes f) false (cwd f) None (os_pieces (te_Linkname e)) = Ok (Found entry i) ->
  nodes f !! i = Some (IFile m dat) -> resolve false filePath f = Ok (Missing d c) ->
  exists f', extract_entry preserve dirPath dirName e f = (Ok tt, f')
    /\ os_Open filePath f' = Ok i /\ nodes f' !! i = Some (IFile m dat)
    /\ forall data perm, nodes (writeFile filePath (data, None) perm f').2 !! i = Some (IFile m data).
Proof.
  intros Hty Hne Habs Hlink Hw Hi Hmiss. unfold extract_entry. rewrite Hty, !bool_decide_eq_false_2 by done.
  unfold mbind, M_bind, reads. rewrite Hname. unfold create_entry. rewrite Hty. unfold mbind, M_bind, reads.
  rewrite Hlink. unfold os_Link. assert (found f (resolve false (te_Linkname e) f) = Ok (i, IFile m dat)) as ->.
  { unfold resolve, start. apply String.eqb_neq in Hne. rewrite Hne, Habs, Hw. simpl. by rewrite Hi. }
  rewrite Hmiss. simpl. rewrite andb_false_r. eexists. split; [done|]. unfold ignored.
  set (f1 := set_nodes _ f). set (f2 := (os_Chtimes _ _ _ f1).2).
  assert (nodes f2 = nodes f1 /\ cwd f2 = cwd f1) as [Hn2 Hc2].
  { unfold f2, os_Chtimes. destruct (found f1 _) as [[j x]| |]; [|done..]. by destruct (ino_times j f1). }
  assert (forall fl, resolve fl filePath f2 = Ok (Found (Some (d, c)) i)) as HR.
  { intros fl. unfold resolve, start in Hmiss |- *. destruct (String.eqb filePath EmptyString); [done|].
    rewrite Hn2, Hc2. unfold f1. simpl. eapply walk_link; [done|exact Hmiss]. }
  assert (nodes f2 !! i = Some (IFile m dat)) as Hi2.
  { rewrite Hn2. unfold f1, set_entries. simpl. destruct (nodes f !! d) as [[|m1 q es|]|] eqn:Hd; try done.
    rewrite lookup_insert_ne; [done|congruence]. }
  split; [unfold os_Open, found; rewrite HR; simpl; by rewrite Hi2|]. split; [done|]. intros data perm.
  unfold writeFile, mbind, M_bind, os_Lstat, found. rewrite HR. simpl. rewrite Hi2. simpl.
  unfold os_OpenTrunc. rewrite HR, Hi2. unfold write_ino. simpl. rewrite lookup_insert_eq. simpl. by rewrite lookup_insert_eq.
Qed.
End follows.
