(* ===== verification/FileStore.v ===== *)
(** The store on a file system: [content/file/file.go].  Content with a name (the
    title annotation) is a file below the working directory; other content goes to a
    fallback storage.  The operations run one at a time; an entry of [nameToStatus]
    whose flag is false counts as absent, as [LoadOrStore] makes it one. *)

From Stdlib Require Import Ascii String ZArith Lia.
From S2P Require Import Prelude Errors Descriptor Reader Manifest Storage Graph Resolver.
From S2P Require Import GoStrings OciStorage FilePath Vfs FileExtract.

#[local] Open Scope string_scope.
#[local] Open Scope list_scope.

Module filestore.
Import vfs.

Definition AnnotationTitle : string := "org.opencontainers.image.title".
Definition AnnotationDigest : string := "io.deis.oras.content.digest".
Definition AnnotationUnpack : string := "io.deis.oras.content.unpack".
Definition defaultBlobMediaType : string := "application/vnd.oci.image.layer.v1.tar".
Definition defaultBlobDirMediaType : string := "application/vnd.oci.image.layer.v1.tar+gzip".
Definition defaultFallbackPushSizeLimit : Z := 4194304.

(** The exported fields of the store. *)
Record Options := mkOptions {
  AllowPathTraversalOnWrite : bool;
  DisableOverwrite : bool;
  ForceCAS : bool;
  IgnoreNoName : bool;
  TarReproducible : bool;
  SkipUnpack : bool;
  PreservePermissions : bool
}.

Definition noOptions : Options := mkOptions false false false false false false false.

(** The store with the process's file system. *)
Record Store (S : Type) := mkStore {
  fs : FS;
  opts : Options;
  workingDir : string;
  closed : bool;
  digestToPath : gmap string string;
  nameToStatus : gmap string bool;
  tmpFiles : gset string;
  fallbackStorage : S;
  resolver_ : resolver.Memory;
  graph_ : graph.Memory
}.

#[global] Arguments mkStore {S}.
#[global] Arguments fs {S}.
#[global] Arguments opts {S}.
#[global] Arguments workingDir {S}.
#[global] Arguments closed {S}.
#[global] Arguments digestToPath {S}.
#[global] Arguments nameToStatus {S}.
#[global] Arguments tmpFiles {S}.
#[global] Arguments fallbackStorage {S}.
#[global] Arguments resolver_ {S}.
#[global] Arguments graph_ {S}.

(** The annotation of a descriptor; a missing one is the empty string. *)
Definition annotation (k : string) (d : OciDescriptor) : string :=
  default EmptyString (default ∅ (Annotations d) !! k).

(** What [Push] reads from: a reader of the caller, or a file the store has opened. *)
Inductive Source := SReader (r : Reader) | SFile (i : nat).

Definition source_reader (src : Source) (f : FS) : Reader :=
  match src with SReader r => r | SFile i => ino_reader i f end.

(** [os.CreateTemp(dir, "oras_file_*")] picks a name not in use. *)
Definition temp_name (es : gmap string nat) : string :=
  "oras_file_" +:+ of_chars (repeat "x"%char (S (map_fold (fun c _ m => Nat.max (String.length c) m) 0 es))).

Definition os_CreateTemp (dir : string) : M FS (string * nat) := fun f =>
  match found f (resolve true dir f) with
  | Ok (d, IDir _ _ es) =>
      (Ok (filepath.Join2 dir (temp_name es), fresh_ino (nodes f)),
       set_nodes (add_node d (temp_name es) (IFile 384 []) (nodes f)) f)
  | Ok _ => (Err ENOTDIR, f)
  | Err e => (Err e, f)
  | Panic => (Panic, f)
  end.

Section Store.
Context {S : Type} {ST : Storage S} {GD : GoDigest} {MJ : ManifestJSON} {MO : MapOrder} {AR : Archive}.
(** The size of the copy buffer and the directory for temporary files. *)
Context (bufSize : nat) (tmpDir : string).

Notation Store := (Store S).

Definition set_fs (f : FS) (s : Store) : Store :=
  mkStore f (opts s) (workingDir s) (closed s) (digestToPath s) (nameToStatus s) (tmpFiles s)
    (fallbackStorage s) (resolver_ s) (graph_ s).
Definition setClosed (s : Store) : Store :=
  mkStore (fs s) (opts s) (workingDir s) true (digestToPath s) (nameToStatus s) (tmpFiles s)
    (fallbackStorage s) (resolver_ s) (graph_ s).
Definition store_path (dgst path : string) (s : Store) : Store :=
  mkStore (fs s) (opts s) (workingDir s) (closed s) (<[dgst := path]> (digestToPath s)) (nameToStatus s)
    (tmpFiles s) (fallbackStorage s) (resolver_ s) (graph_ s).
Definition set_exists (name : string) (s : Store) : Store :=
  mkStore (fs s) (opts s) (workingDir s) (closed s) (digestToPath s) (<[name := true]> (nameToStatus s))
    (tmpFiles s) (fallbackStorage s) (resolver_ s) (graph_ s).
Definition add_tmp (p : string) (s : Store) : Store :=
  mkStore (fs s) (opts s) (workingDir s) (closed s) (digestToPath s) (nameToStatus s) ({[p]} ∪ tmpFiles s)
    (fallbackStorage s) (resolver_ s) (graph_ s).
Definition set_fallback (st : S) (s : Store) : Store :=
  mkStore (fs s) (opts s) (workingDir s) (closed s) (digestToPath s) (nameToStatus s) (tmpFiles s)
    st (resolver_ s) (graph_ s).
Definition set_resolver (r : resolver.Memory) (s : Store) : Store :=
  mkStore (fs s) (opts s) (workingDir s) (closed s) (digestToPath s) (nameToStatus s) (tmpFiles s)
    (fallbackStorage s) r (graph_ s).
Definition set_graph (g : graph.Memory) (s : Store) : Store :=
  mkStore (fs s) (opts s) (workingDir s) (closed s) (digestToPath s) (nameToStatus s) (tmpFiles s)
    (fallbackStorage s) (resolver_ s) g.

Definition on_fs {A} (m : M FS A) : M Store A := on_part fs set_fs m.

(** ** Construction *)

Definition NewWithFallbackStorage (o : Options) (wdir : string) (st : S) (f : FS) : Store :=
  mkStore f o (filepath.Abs (wd f) wdir) false ∅ ∅ ∅ st resolver.NewMemory graph.NewMemory.

Definition isClosedSet (s : Store) : bool := closed s.

(** [nameExists] and the flag of [status]. *)
Definition nameExists (name : string) (s : Store) : bool := default false (nameToStatus s !! name).

Definition absPath (path : string) (s : Store) : string :=
  if filepath.IsAbs path then path else filepath.Join2 (workingDir s) path.

Definition ensureDir (path : string) : M FS unit := os_MkdirAll path 511.

(** ** Reading *)

(** The content found, as a source that is read when it is used. *)
Definition Fetch (target : OciDescriptor) (s : Store) : result Source :=
  if isClosedSet s then ErrS ErrStoreClosed
  else
    let name := annotation AnnotationTitle target in
    if negb (String.eqb name EmptyString) && negb (nameExists name s)
    then Err (EWrap name ErrNotFound)
    else match digestToPath s !! Digest target with
    | Some path =>
        match os_Open path (fs s) with
        | Ok i => Ok (SFile i)
        | Err e => if IsNotExist e then Err (cas.key_err target ErrNotFound) else Err e
        | Panic => Panic
        end
    | None => SReader <$> st_Fetch target (fallbackStorage s)
    end.

(** [Fetch] as the fetcher of [content.Successors] and of the graph. *)
Definition fetcher (s : Store) (d : OciDescriptor) : result Reader :=
  (fun src => source_reader src (fs s)) <$> Fetch d s.

Definition Exists (target : OciDescriptor) (s : Store) : result bool :=
  if isClosedSet s then ErrS ErrStoreClosed
  else
    let name := annotation AnnotationTitle target in
    if negb (String.eqb name EmptyString) && negb (nameExists name s) then Ok false
    else match digestToPath s !! Digest target with
    | Some _ => Ok true
    | None => st_Exists target (fallbackStorage s)
    end.

Definition Resolve (ref : string) (s : Store) : result OciDescriptor :=
  if isClosedSet s then ErrS ErrStoreClosed
  else if String.eqb ref EmptyString then ErrS ErrMissingReference
  else resolver.Resolve ref (resolver_ s).

Definition Predecessors (node : OciDescriptor) (s : Store) : result (list OciDescriptor) :=
  if isClosedSet s then ErrS ErrStoreClosed else Ok (graph.Predecessors node (graph_ s)).

Definition Tag (desc : OciDescriptor) (ref : string) : M Store unit := fun s =>
  if isClosedSet s then (ErrS ErrStoreClosed, s)
  else if String.eqb ref EmptyString then (ErrS ErrMissingReference, s)
  else match Exists desc s with
  | Err e => (Err e, s)
  | Panic => (Panic, s)
  | Ok false => (Err (cas.key_err desc ErrNotFound), s)
  | Ok true => (Ok tt, set_resolver (resolver.Tag desc ref (resolver_ s)) s)
  end.

(** ** Writing *)

Definition resolveWritePath (name : string) (s : Store) : result string :=
  let path := absPath name s in
  _ ← (if AllowPathTraversalOnWrite (opts s) then Ok tt
       else
         let base := filepath.Abs (wd (fs s)) (workingDir s) in
         let target := filepath.Abs (wd (fs s)) path in
         match filepath.Rel base target with
         | Ok rel => if filepath.escapes rel then ErrS ErrPathTraversalDisallowed else Ok tt
         | _ => ErrS ErrPathTraversalDisallowed
         end);
  if DisableOverwrite (opts s) then
    match os_Stat path (fs s) with
    | Ok _ => ErrS ErrOverwriteDisallowed
    | Err e => if IsNotExist e then Ok path else Err e
    | Panic => Panic
    end
  else Ok path.

Definition tempFile : M Store (string * nat) :=
  p ← on_fs (os_CreateTemp tmpDir);
  (fun s => (Ok p, add_tmp p.1 s)) : M Store (string * nat).

(** [saveFile] into the open file [i] at [path]: the source is read after the file
    was opened, so a source that is the same file reads what is left of it. *)
Definition saveFile (path : string) (i : nat) (expected : OciDescriptor) (content : Source) : M Store unit :=
  fun s =>
    let '(res, written) := CopyBuffer bufSize (source_reader content (fs s)) expected in
    let s1 := set_fs (write_ino i written (fs s)) s in
    match res with
    | Ok _ => (Ok tt, store_path (Digest expected) path s1)
    | Err e => (Err (EWrap "failed to copy content to" e), s1)
    | Panic => (Panic, s1)
    end.

Definition pushFile (target : string) (expected : OciDescriptor) (content : Source) : M Store unit :=
  _ ← on_err (EWrap "failed to ensure directories of the target path")
        (on_fs (ensureDir (filepath.Dir target)));
  fp ← on_err (EWrap "failed to create file") (on_fs (os_Create target));
  saveFile target fp expected content.

Definition pushDir (name target : string) (expected : OciDescriptor) (content : Source) : M Store unit :=
  _ ← on_err (EWrap "failed to ensure directories of the target path") (on_fs (ensureDir target));
  gz ← tempFile;
  _ ← on_err (EWrap "failed to save gzip to") (saveFile gz.1 gz.2 expected content);
  let checksum := annotation AnnotationDigest expected in
  (fun s => on_err (EWrap "failed to extract tar to")
    (on_fs (file.extractTarGzip target name gz.1 checksum (PreservePermissions (opts s)))) s) : M Store unit.

(** [push] *)
Definition push (expected : OciDescriptor) (content : Source) : M Store unit := fun s =>
  let name := annotation AnnotationTitle expected in
  if String.eqb name EmptyString then
    if IgnoreNoName (opts s) then (ErrS errSkipUnnamed, s)
    else
      let '(r, st') := st_Push expected (source_reader content (fs s)) (fallbackStorage s) in
      (r, set_fallback st' s)
  else if nameExists name s then (Err (EWrap name ErrDuplicateName), s)
  else match resolveWritePath name s with
  | Err e => (Err (EWrap "failed to resolve path for writing" e), s)
  | Panic => (Panic, s)
  | Ok target =>
      let m := if String.eqb (annotation AnnotationUnpack expected) "true" && negb (SkipUnpack (opts s))
               then pushDir name target expected content
               else pushFile target expected content in
      match m s with
      | (Ok _, s1) => (Ok tt, set_exists name s1)
      | (r, s1) => (r, s1)
      end
  end.

(** The loop of [restoreDuplicates]. *)
Fixpoint restore_loop (succs : list OciDescriptor) : M Store unit := fun s =>
  match succs with
  | [] => (Ok tt, s)
  | successor :: rest =>
      let name := annotation AnnotationTitle successor in
      if String.eqb name EmptyString || nameExists name s then restore_loop rest s
      else
        let desc := mkOci (MediaType successor) (Digest successor) (Size successor) [] None [] None EmptyString in
        let '(r, s1) :=
          match Fetch desc s with
          | Err e => (Err (EWrap name e), s)
          | Panic => (Panic, s)
          | Ok rc => on_err (EWrap name) (push successor rc) s
          end in
        match r with
        | Ok _ => restore_loop rest s1
        | Err e => if errors_Is e ErrNotFound then restore_loop rest s1 else (Err e, s1)
        | Panic => (Panic, s1)
        end
  end.

Definition restoreDuplicates (desc : OciDescriptor) : M Store unit :=
  successors ← reads (fun s => Successors (fetcher s) desc);
  restore_loop successors.

Definition Push (expected : OciDescriptor) (content : Reader) : M Store unit := fun s =>
  if isClosedSet s then (ErrS ErrStoreClosed, s)
  else match push expected (SReader content) s with
  | (Err e, s1) => if errors_Is e errSkipUnnamed then (Ok tt, s1) else (Err e, s1)
  | (Panic, s1) => (Panic, s1)
  | (Ok _, s1) =>
      (_ ← (if ForceCAS (opts s1) then mret tt
            else on_err (EWrap "failed to restore duplicated file") (restoreDuplicates expected)) : M Store unit;
       (fun s2 =>
         let '(r, g) := graph.Index (fetcher s2) expected (graph_ s2) in (r, set_graph g s2)) : M Store unit) s1
  end.

(** ** Adding files *)

(** [fi.Size()] of a file. *)
Definition node_size (x : inode) : Z :=
  match x with IFile _ d => Zlen d | _ => 0 end.

Definition descriptorFromFile (fi : inode) (mediaType path : string) : M Store OciDescriptor := fun s =>
  match os_Open path (fs s) with
  | Err e => (Err e, s)
  | Panic => (Panic, s)
  | Ok i =>
      match nodes (fs s) !! i with
      | Some (IFile _ d) =>
          let dgst := digest_FromBytes d in
          (Ok (mkOci (if String.eqb mediaType EmptyString then defaultBlobMediaType else mediaType)
                 dgst (node_size fi) [] None [] None EmptyString), store_path dgst path s)
      | _ => (Err EISDIR, s)
      end
  end.

Definition descriptorFromDir (name mediaType dir : string) : M Store OciDescriptor :=
  gz ← tempFile;
  tar ← on_err (EWrap "failed to tar") (reads (fun s => file.tarDirectory dir name (TarReproducible (opts s)) (fs s)));
  (fun s =>
    let data := gzip_Writer tar in
    let gzDigest := digest_FromBytes data in
    (Ok (mkOci (if String.eqb mediaType EmptyString then defaultBlobDirMediaType else mediaType)
           gzDigest (Zlen data) []
           (Some {[AnnotationDigest := digest_FromBytes tar; AnnotationUnpack := "true"]})
           [] None EmptyString),
     store_path gzDigest gz.1 (set_fs (write_ino gz.2 data (fs s)) s))) : M Store OciDescriptor.

Definition Add (name mediaType path : string) : M Store OciDescriptor := fun s =>
  if isClosedSet s then (ErrS ErrStoreClosed, s)
  else if String.eqb name EmptyString then (ErrS ErrMissingName, s)
  else if nameExists name s then (Err (EWrap name ErrDuplicateName), s)
  else
    let path := absPath (if String.eqb path EmptyString then name else path) s in
    match os_Stat path (fs s) with
    | Err e => (Err (EWrap "failed to stat" e), s)
    | Panic => (Panic, s)
    | Ok fi =>
        let m := if is_dir fi then descriptorFromDir name mediaType path
                 else descriptorFromFile fi mediaType path in
        match m s with
        | (Err e, s1) => (Err (EWrap "failed to generate descriptor from" e), s1)
        | (Panic, s1) => (Panic, s1)
        | (Ok desc, s1) =>
            (Ok (set_Annotations (Some (<[AnnotationTitle := name]> (default ∅ (Annotations desc)))) desc),
             set_exists name s1)
        end
    end.

(** ** Closing *)

(** [os.Remove] of every temporary file; the errors are joined. *)
Fixpoint remove_all (l : list string) (f : FS) : list error * FS :=
  match l with
  | [] => ([], f)
  | p :: l' =>
      let '(r, f1) := os_Remove p f in
      let '(errs, f2) := remove_all l' f1 in
      (match r with Err e => e :: errs | _ => errs end, f2)
  end.

Definition Close : M Store unit := fun s =>
  if isClosedSet s then (Ok tt, s)
  else
    let s1 := setClosed s in
    let '(errs, f) := remove_all (range_set (tmpFiles s1)) (fs s1) in
    (match errs with [] => Ok tt | _ => Err (ENew "failed to remove temporary files") end, set_fs f s1).

End Store.
End filestore.
