(* ===== verification/FileStoreCorrect.v ===== *)
(** Correctness of the file store: where named content may be written, that pushed
    content is fetched back, and that a name is stored at most once. *)

From Stdlib Require Import Ascii String ZArith Lia.
From S2P Require Import Prelude Errors Descriptor Reader Manifest Storage Graph Resolver.
From S2P Require Import GoStrings OciStorage FilePath Vfs VfsFacts FileExtract FileStore.

#[local] Open Scope string_scope.
#[local] Open Scope list_scope.

Import vfs filestore.

(** ** The path to write *)

Lemma Rel_normal base target rel :
  filepath.Rel base target = Ok rel -> exists l, rel = filepath.render false l /\ filepath.normal false l.
Proof.
  unfold filepath.Rel. destruct (String.eqb _ _); [intros [= <-]; exists []; split; [done|by apply filepath.normal_proper]|].
  destruct (negb _); [done|]. destruct (filepath.strip_common _ _) as [b t] eqn:E. intros H.
  apply filepath.strip_common_app in E as (c & Hb & Ht). pose proof (filepath.elems_normal target) as Nt.
  rewrite Ht in Nt. apply filepath.normal_suffix in Nt as (n & l & -> & Hp & _).
  exists (((fun _ => "..") <$> b) ++ replicate n ".." ++ l). split.
  - destruct b as [|x b]; [congruence|]. destruct (String.eqb x ".."); congruence.
  - exists (length b + n), l. split; [|done]. rewrite replicate_add, <- app_assoc. f_equal.
    clear. by induction b as [|x b IH]; csimpl; [|f_equal].
Qed.

Lemma Rel_clean base target rel : filepath.Rel base target = Ok rel -> filepath.Clean rel = rel.
Proof.
  intros (l & -> & Hn)%Rel_normal. unfold filepath.Clean.
  by rewrite filepath.IsAbs_render, filepath.elems_render.
Qed.

(** ** Errors of named pushes

    [Push] takes [errSkipUnnamed] for success, so no other failure may carry it. *)

Definition no_skip (e : error) : Prop := errors_Is e errSkipUnnamed = false.

Lemma walk_no_skip links n follow cur e cs err :
  walk links n follow cur e cs = Err err -> no_skip err.
Proof.
  revert cur e cs. induction links as [|links IHl];
    intros cur e cs; revert cur e; induction cs as [|c0 cs IH]; intros cur e H;
    rewrite ?walk_nil in H; try done; rewrite walk_cons in H;
    (destruct (n !! cur) as [[|m p es|]|] eqn:Hcur; try (by injection H as <-));
    (destruct (String.eqb c0 "."); [by eapply IH|]); (destruct (String.eqb c0 ".."); [by eapply IH|]);
    (destruct (es !! c0) as [i|] eqn:Hc0; [|destruct cs; [done|by injection H as <-]]);
    (destruct (n !! i) as [[| |t]|]; try (by eapply IH)); destruct cs, follow; try done;
    first [by injection H as <-|by eapply IHl].
Qed.

Lemma resolve_no_skip follow p f err : resolve follow p f = Err err -> no_skip err.
Proof. unfold resolve. destruct (String.eqb _ _); [by intros [= <-]|]. apply walk_no_skip. Qed.

Lemma found_no_skip f follow p err : found f (resolve follow p f) = Err err -> no_skip err.
Proof.
  unfold found. intros [H|(pl & _ & H)]%bind_Err; [by eapply resolve_no_skip|].
  destruct pl as [e i|]; [|by injection H as <-]. destruct (nodes f !! i); [done|by injection H as <-].
Qed.

Lemma Stat_no_skip p f err : os_Stat p f = Err err -> no_skip err.
Proof.
  unfold os_Stat. destruct (found _ _) as [|e|] eqn:E; simpl; intros H; try done. injection H as <-.
  by eapply found_no_skip.
Qed.

Lemma Mkdir_no_skip p perm f err f' : os_Mkdir p perm f = (Err err, f') -> no_skip err.
Proof.
  unfold os_Mkdir. destruct (resolve false p f) as [[]|e|] eqn:E; intros [= <- _]; [done|].
  by eapply resolve_no_skip.
Qed.

Lemma mkdir_all_no_skip rooted perm rcs f err f' :
  mkdir_all rooted perm rcs f = (Err err, f') -> no_skip err.
Proof.
  revert f err f'. induction rcs as [|c rcs IH]; intros f err f' H; cbn [mkdir_all] in H;
    (destruct (os_Stat _ f) as [x|e|] eqn:ES; [by destruct (is_dir x); [|injection H as <- _]| |done]);
    apply Stat_no_skip in ES.
  - by injection H as <- _.
  - destruct (match rcs, rooted with [], false => _ | _, _ => _ end) as [[[]|e1|] f1] eqn:E1; [| |done].
    + destruct (os_Mkdir _ _ f1) as [[[]|e2|] f2] eqn:E2; [done| |done]. apply Mkdir_no_skip in E2.
      destruct (os_Lstat _ f2) as [x| |]; [destruct (is_dir x); [done|]|..]; by injection H as <- _.
    + injection H as <- _. destruct rcs, rooted; by (eapply IH in E1 || done).
Qed.

Lemma OpenTrunc_no_skip p perm f err f' : os_OpenTrunc p perm f = (Err err, f') -> no_skip err.
Proof.
  unfold os_OpenTrunc. destruct (resolve true p f) as [[? i|]|e|] eqn:E; try done.
  - destruct (nodes f !! i) as [[]|]; by intros [= <- _].
  - intros [= <- _]. by eapply resolve_no_skip.
Qed.

(** The errors a reader can report. *)
Definition quiet (r : Reader) : Prop :=
  (forall e, rd_eager r = Some e -> no_skip e) /\ no_skip (rd_end r).

Lemma Read_quiet n r b e r' : quiet r -> Read n r = (b, e, r') -> quiet r' /\ (forall e', e = Some e' -> no_skip e').
Proof.
  intros [H1 H2]. unfold Read. destruct (rd_chunks r) as [|c cs].
  - intros [= <- <- <-]. split; [by split|]. intros e' [= <-]. unfold final_err. by case_decide.
  - case_decide; intros [= <- <- <-]; (split; [by split|]); [done|]. destruct cs; [by apply H1|done].
Qed.

Lemma CopyBuffer_no_skip {GD : GoDigest} bufSize r d err w :
  0 < bufSize -> quiet r -> CopyBuffer bufSize r d = (Err err, w) -> no_skip err.
Proof.
  intros HB Hq. unfold CopyBuffer. destruct (NewVerifyReader r d) as [vr|] eqn:Hvr; [|done].
  unfold NewVerifyReader in Hvr. destruct (digest_Verifier _) as [v|]; [|done]. injection Hvr as <-.
  assert (forall fuel written w N,
    let '(_, e, vr') := copy_loop fuel bufSize written (mkVR (mkLimited (mkTee r w) N) v false None) in
    match e with Some e => no_skip e | None => vr_err vr' = Some (ESentinel EOF) end) as HL.
  { intros fuel. clear -Hq HB. revert r Hq. induction fuel as [|fuel IH]; intros r Hq written w N; [done|].
    cbn [copy_loop]. rewrite VerifyReader_Read_limit by done. case_decide; [by rewrite decide_True|].
    destruct (Read _ r) as [[b e] r'] eqn:HR. apply Read_quiet in HR as [Hq' He]; [|done]. cbv zeta.
    destruct e as [e|]; [|by apply IH].
    destruct (decide (e = ESentinel EOF /\ (N - Zlen b > 0)%Z)) as [Hd|Hd]; [done|].
    destruct (decide (e = ESentinel EOF)) as [->|]; [done|]. by apply He. }
  specialize (HL (Datatypes.S (read_fuel r)) [] [] (Size d)).
  destruct (copy_loop _ _ _ _) as [[written e] vr']. destruct e as [e|]; [by intros [= <- _]|].
  intros [= H _]. unfold Verify in H. rewrite HL, decide_True in H by done.
  destruct (vr_verified vr'); [done|]. unfold ensureEOF in H.
  destruct (ReadFull _ _ _ _) as [[? e] t']. destruct (decide (e = _)); [|by injection H as <-].
  by destruct (vr_verifier vr' _); [|injection H as <-].
Qed.

Section Store.
Context {S : Type} {ST : Storage S} {GD : GoDigest} {MJ : ManifestJSON} {MO : MapOrder} {AR : Archive}.
Context (bufSize : nat) (tmpDir : string).

Notation Store := (Store S).
Notation Push := (Push bufSize tmpDir).
Notation push := (push bufSize tmpDir).

(** The written path is lexically the working directory or below it. *)
Lemma resolveWritePath_below name (s : Store) path :
  AllowPathTraversalOnWrite (opts s) = false -> resolveWritePath name s = Ok path ->
  path = absPath name s /\
  exists l, props l /\
    filepath.elems (filepath.Abs (wd (fs s)) path) = filepath.elems (filepath.Abs (wd (fs s)) (workingDir s)) ++ l.
Proof.
  intros Ha. unfold resolveWritePath. rewrite Ha. intros H. apply bind_Ok in H as ([] & Hrel & H).
  assert (path = absPath name s) as ->.
  { destruct (DisableOverwrite _); [|by injection H]. destruct (os_Stat _ _) as [|e|]; [done| |done].
    destruct (IsNotExist e); [by injection H|done]. }
  split; [done|]. destruct (filepath.Rel _ _) as [rel| |] eqn:HR; try done.
  destruct (filepath.escapes rel) eqn:Hesc; [done|]. rewrite <- (Rel_clean _ _ _ HR) in Hesc.
  destruct (filepath.Rel_below _ _ _ HR Hesc) as (l & _ & Hl & He & _). eauto.
Qed.

(** ** Pushing a file *)

Lemma on_fs_Ok {A} (m : M FS A) (s : Store) a s' :
  on_fs m s = (Ok a, s') <-> exists f', m (fs s) = (Ok a, f') /\ s' = set_fs f' s.
Proof. unfold on_fs, on_part. destruct (m (fs s)). naive_solver. Qed.

Lemma pushFile_Ok target d src (s s' : Store) :
  0 < bufSize -> pushFile bufSize target d src s = (Ok tt, s') ->
  exists f1 f2 i m,
    ensureDir (filepath.Dir target) (fs s) = (Ok tt, f1) /\ os_Create target f1 = (Ok i, f2)
    /\ let r := source_reader src f2 in
       clean r /\ (Zlen (content r) = Size d \/ (Size d < 0)%Z /\ content r = [])
       /\ (exists v, digest_Verifier (Digest d) = Some v /\ v (content r) = true)
       /\ s' = store_path (Digest d) target (set_fs (write_ino i (content r) f2) s)
       /\ os_Open target (fs s') = Ok i /\ nodes (fs s') !! i = Some (IFile m (content r)).
Proof.
  intros HB H. apply M_bind_Ok in H as ([] & s1 & H1%on_err_Ok%on_fs_Ok & H).
  apply M_bind_Ok in H as (i & s2 & H2%on_err_Ok%on_fs_Ok & H).
  destruct H1 as (f1 & H1 & ->), H2 as (f2 & H2 & ->). simpl in H2. exists f1, f2, i.
  destruct (OpenTrunc_resolves _ _ _ _ _ H2) as (_ & Hres & m & Hi). exists m.
  split; [done|]. split; [done|]. cbv zeta. unfold saveFile in H. cbn [fs set_fs] in H.
  pose proof (CopyBuffer_spec bufSize (source_reader src f2) d HB) as HC.
  destruct (CopyBuffer bufSize (source_reader src f2) d) as [res written]. destruct HC as (Hok & Hw & _).
  destruct res as [[]| |]; [|done|done]. destruct Hok as [Hok _]. destruct (Hok eq_refl) as (Hcl & Hsz & Hv).
  specialize (Hw eq_refl). subst written. injection H as <-.
  destruct (write_ino_resolves target i (content (source_reader src f2)) m [] f2 Hres Hi) as [[e He] Hi'].
  repeat (split; [done|]). unfold os_Open, found. cbn [fs store_path set_fs]. rewrite He. cbn. by rewrite Hi'.
Qed.

(** Content pushed under a name as a plain file. *)
Lemma push_file_stored d r (s s' : Store) :
  0 < bufSize -> annotation AnnotationTitle d <> EmptyString ->
  annotation AnnotationUnpack d <> "true" \/ SkipUnpack (opts s) = true ->
  closed s = false ->
  push d (SReader r) s = (Ok tt, s') ->
  nameExists (annotation AnnotationTitle d) s = false /\ opts s' = opts s
  /\ nameExists (annotation AnnotationTitle d) s' = true
  /\ clean r /\ (Zlen (content r) = Size d \/ (Size d < 0)%Z /\ content r = [])
  /\ (exists v, digest_Verifier (Digest d) = Some v /\ v (content r) = true)
  /\ exists i m, Fetch d s' = Ok (SFile i) /\ nodes (fs s') !! i = Some (IFile m (content r)).
Proof.
  intros HB Hname%String.eqb_neq Hunp Hcl H. unfold push in H. rewrite Hname in H.
  destruct (nameExists (annotation AnnotationTitle d) s) eqn:Hex; [done|].
  destruct (resolveWritePath _ s) as [target| |] eqn:HW; [|done|done].
  replace (_ && _) with false in H.
  2: { symmetry. apply andb_false_iff. destruct Hunp as [Hu| ->]; [left; by apply String.eqb_neq|by right]. }
  destruct (pushFile bufSize target d (SReader r) s) as [[[]| |] s1] eqn:HP; [|done|done].
  destruct (pushFile_Ok _ _ _ _ _ HB HP) as (f1 & f2 & i & m & _ & _ & Hc & Hsz & Hv & -> & Ho & Hi).
  injection H as <-. split; [done|]. split; [done|].
  assert (forall s0 : Store, nameExists (annotation AnnotationTitle d) (set_exists (annotation AnnotationTitle d) s0) = true) as Hne.
  { intros s0. unfold nameExists, set_exists. cbn. by rewrite lookup_insert_eq. }
  split; [apply Hne|]. repeat (split; [done|]). exists i, m. split; [|done].
  unfold Fetch, isClosedSet. cbn [closed set_exists store_path set_fs]. rewrite Hcl.
  rewrite Hne, andb_false_r. cbn [digestToPath set_exists store_path set_fs].
  rewrite lookup_insert_eq. cbn [fs set_exists store_path set_fs source_reader] in Ho |- *. by rewrite Ho.
Qed.

(** ** The whole of [Push] *)

Lemma on_err_fs_no_skip {A} msg (m : M FS A) (s s' : Store) e :
  (forall f e f', m f = (Err e, f') -> no_skip e) -> on_err (EWrap msg) (on_fs m) s = (Err e, s') -> no_skip e.
Proof.
  intros Hm. unfold on_err, on_fs, on_part. destruct (m (fs s)) as [[|e0|] f'] eqn:E; simpl; try done.
  intros [= <- _]. exact (Hm _ _ _ E).
Qed.

Lemma resolveWritePath_no_skip name (s : Store) e : resolveWritePath name s = Err e -> no_skip e.
Proof.
  unfold resolveWritePath. intros [H|([] & _ & H)]%bind_Err.
  - destruct (AllowPathTraversalOnWrite _); [done|]. destruct (filepath.Rel _ _) as [rel| |]; [|by injection H as <-..].
    by destruct (filepath.escapes rel); [injection H as <-|].
  - destruct (DisableOverwrite _); [|done]. destruct (os_Stat _ _) as [|e0|] eqn:ES; [by injection H as <-| |done].
    destruct (IsNotExist e0); [done|]. injection H as <-. by eapply Stat_no_skip.
Qed.

Lemma push_file_no_skip d r (s s' : Store) e :
  0 < bufSize -> annotation AnnotationTitle d <> EmptyString ->
  annotation AnnotationUnpack d <> "true" \/ SkipUnpack (opts s) = true ->
  quiet r -> push d (SReader r) s = (Err e, s') -> no_skip e.
Proof.
  intros HB Hname%String.eqb_neq Hunp Hq H. unfold push in H. rewrite Hname in H.
  destruct (nameExists _ s); [by injection H as <- _|].
  destruct (resolveWritePath _ s) as [target|e0|] eqn:HW; [|injection H as <- _; exact (resolveWritePath_no_skip _ _ _ HW)|done].
  replace (_ && _) with false in H.
  2: { symmetry. apply andb_false_iff. destruct Hunp as [Hu| ->]; [left; by apply String.eqb_neq|by right]. }
  destruct (pushFile bufSize target d (SReader r) s) as [[[]|e0|] s1] eqn:HP; [done| |done].
  injection H as <- _. unfold pushFile in HP. apply M_bind_Err in HP as [HP|([] & s2 & _ & HP)].
  - eapply on_err_fs_no_skip; [|done]. intros f e1 f'. unfold ensureDir, os_MkdirAll.
    destruct (String.eqb (filepath.Dir target) EmptyString); [by intros [= <- _]|]. apply mkdir_all_no_skip.
  - apply M_bind_Err in HP as [HP|(i & s3 & _ & HP)].
    + eapply on_err_fs_no_skip; [|done]. intros f e1 f'. apply OpenTrunc_no_skip.
    + unfold saveFile in HP. destruct (CopyBuffer _ _ _) as [[|e1|] w] eqn:EC; try done.
      injection HP as <- _. exact (CopyBuffer_no_skip bufSize r d e1 w HB Hq EC).
Qed.

(** What [Fetch] and [Exists] depend on. *)
Lemma fetcher_set_graph g (s : Store) d : fetcher (set_graph g s) d = fetcher s d.
Proof. done. Qed.

Lemma Push_file_stored d r (s s' : Store) :
  0 < bufSize -> quiet r -> annotation AnnotationTitle d <> EmptyString ->
  annotation AnnotationUnpack d <> "true" \/ SkipUnpack (opts s) = true ->
  IsManifest d = false \/ ForceCAS (opts s) = true ->
  Push d r s = (Ok tt, s') ->
  clean r /\ (Zlen (content r) = Size d \/ (Size d < 0)%Z /\ content r = [])
  /\ (exists v, digest_Verifier (Digest d) = Some v /\ v (content r) = true)
  /\ Exists d s' = Ok true
  /\ exists rd, fetcher s' d = Ok rd /\ clean rd /\ content rd = content r.
Proof.
  intros HB Hq Hname Hunp Hman H. unfold filestore.Push, isClosedSet in H.
  destruct (closed s) eqn:Hcl; [done|].
  destruct (push d (SReader r) s) as [[[]|e|] s1] eqn:HP; [| |done].
  2: { by rewrite (push_file_no_skip d r s s1 e HB Hname Hunp Hq HP) in H. }
  destruct (push_file_stored d r s s1 HB Hname Hunp Hcl HP) as (_ & Ho & Hex & Hc & Hsz & Hv & i & m & HF & Hi).
  assert (exists g, s' = set_graph g s1) as [g ->].
  { apply M_bind_Ok in H as ([] & s2 & H1 & H2). assert (s2 = s1) as ->.
    { rewrite Ho in H1. destruct Hman as [Hman|Hman]; [|rewrite Hman in H1; by injection H1].
      destruct (ForceCAS (opts s)); [by injection H1|]. apply on_err_Ok in H1.
      unfold restoreDuplicates, mbind, M_bind, reads in H1. rewrite Successors_blob in H1 by done. by injection H1. }
    destruct (graph.Index _ _ _) as [r' g]. injection H2 as _ <-. by exists g. }
  repeat (split; [done|]). split.
  - unfold Exists, Fetch in *. destruct (isClosedSet s1) eqn:E; [done|].
    change (isClosedSet (set_graph g s1)) with (isClosedSet s1). rewrite E.
    change (nameExists (annotation AnnotationTitle d) (set_graph g s1)) with (nameExists (annotation AnnotationTitle d) s1).
    rewrite Hex, andb_false_r in *. change (digestToPath (set_graph g s1)) with (digestToPath s1).
    destruct (digestToPath s1 !! Digest d); [done|]. by destruct (st_Fetch d (fallbackStorage s1)).
  - exists (ino_reader i (fs s1)). rewrite fetcher_set_graph. unfold fetcher. rewrite HF. split; [done|].
    unfold ino_reader. rewrite Hi. apply bytes_NewReader_spec.
Qed.

(** ** Adding a file *)

Lemma Stat_Open p f x : os_Stat p f = Ok x -> exists i, os_Open p f = Ok i /\ nodes f !! i = Some x.
Proof.
  unfold os_Stat, os_Open. destruct (found f (resolve true p f)) as [[i y]| |] eqn:E; simpl; try done.
  intros [= <-]. exists i. split; [done|]. unfold found in E. apply bind_Ok in E as ([e j|] & _ & E); [|done].
  destruct (nodes f !! j) eqn:Hj; [|done]. by injection E as -> ->.
Qed.

Lemma Add_file_stored name mediaType path m data (s s' : Store) desc :
  os_Stat (absPath (if String.eqb path EmptyString then name else path) s) (fs s) = Ok (IFile m data) ->
  Add tmpDir name mediaType path s = (Ok desc, s') ->
  Digest desc = digest_FromBytes data /\ Size desc = Zlen data
  /\ annotation AnnotationTitle desc = name
  /\ nameExists name s = false /\ nameExists name s' = true /\ fs s' = fs s
  /\ Exists desc s' = Ok true
  /\ exists rd, fetcher s' desc = Ok rd /\ clean rd /\ content rd = data.
Proof.
  intros HS H. unfold Add in H. destruct (isClosedSet s) eqn:Hcl; [done|].
  destruct (String.eqb name EmptyString) eqn:Hname; [done|]. destruct (nameExists name s) eqn:Hex; [done|].
  rewrite HS in H. cbn [is_dir] in H. unfold descriptorFromFile in H.
  destruct (Stat_Open _ _ _ HS) as (i & HO & Hi). rewrite HO, Hi in H. injection H as <- <-.
  assert (annotation AnnotationTitle (set_Annotations (Some (<[AnnotationTitle:=name]> ∅))
    (mkOci (if String.eqb mediaType EmptyString then defaultBlobMediaType else mediaType) (digest_FromBytes data)
       (Zlen data) [] None [] None EmptyString)) = name) as Hann.
  { unfold annotation. cbn. by rewrite lookup_insert_eq. }
  split; [done|]. split; [done|]. split; [done|]. split; [done|].
  assert (nameExists name (set_exists name (store_path (digest_FromBytes data)
    (absPath (if String.eqb path EmptyString then name else path) s) s)) = true) as Hex'.
  { unfold nameExists. cbn. by rewrite lookup_insert_eq. }
  split; [done|]. split; [done|]. unfold fetcher, Exists, Fetch. cbn [Annotations default] in *.
  unfold isClosedSet in *. cbn [closed set_exists store_path]. rewrite Hcl.
  change (annotation AnnotationTitle _) with (annotation AnnotationTitle (set_Annotations (Some (<[AnnotationTitle:=name]> ∅))
    (mkOci (if String.eqb mediaType EmptyString then defaultBlobMediaType else mediaType) (digest_FromBytes data)
       (Zlen data) [] None [] None EmptyString))).
  rewrite Hann, Hex', andb_false_r. cbn [digestToPath set_exists store_path Digest set_Annotations].
  rewrite lookup_insert_eq. split; [done|]. cbn [fs set_exists store_path]. rewrite HO. exists (ino_reader i (fs s)).
  split; [done|]. unfold ino_reader. rewrite Hi. apply bytes_NewReader_spec.
Qed.

(** ** Names *)

(** Case on a call chosen by a condition. *)
Ltac case_call_tac s tac :=
  match goal with |- context [(if ?c then ?m1 else ?m2) s] => tac ((if c then m1 else m2) s) end.
Tactic Notation "case_call" constr(s) "as" simple_intropattern(pat) :=
  case_call_tac s ltac:(fun t => destruct t as pat).

Section names.
Context (n : string).

Let has (s : Store) : Prop := nameExists n s = true.

Lemma keeps_on_fs {A} (m : M FS A) : keeps has (on_fs m).
Proof. intros s Hs. unfold on_fs, on_part. by destruct (m (fs s)). Qed.

Lemma keeps_tempFile : keeps has (tempFile tmpDir).
Proof. apply keeps_bind; [apply keeps_on_fs|]. by intros a s Hs. Qed.

Lemma keeps_saveFile path i d src : keeps has (saveFile bufSize path i d src).
Proof. intros s Hs. unfold saveFile. by destruct (CopyBuffer _ _ _) as [[]]. Qed.

Hint Resolve keeps_on_fs keeps_tempFile keeps_saveFile : go.

Lemma keeps_pushFile target d src : keeps has (pushFile bufSize target d src).
Proof. unfold pushFile. auto with go. Qed.

Lemma keeps_pushDir name target d src : keeps has (pushDir bufSize tmpDir name target d src).
Proof.
  unfold pushDir. apply keeps_bind; [auto with go|]. intros _. apply keeps_bind; [auto with go|]. intros gz.
  apply keeps_bind; [auto with go|]. intros _ s Hs. by apply (keeps_on_err _ _ _ (keeps_on_fs _)).
Qed.

Lemma has_set_exists name (s : Store) : has s -> has (set_exists name s).
Proof.
  unfold has, nameExists. cbn. intros H. rewrite lookup_insert. by case_decide.
Qed.

Lemma file_keeps_push d src : keeps has (push d src).
Proof.
  intros s Hs. unfold push. destruct (String.eqb _ EmptyString).
  { destruct (IgnoreNoName _); [done|]. by destruct (st_Push _ _ _). }
  destruct (nameExists _ s); [done|]. destruct (resolveWritePath _ s) as [target| |]; [|done|done].
  assert (has ((if String.eqb (annotation AnnotationUnpack d) "true" && negb (SkipUnpack (opts s))
     then pushDir bufSize tmpDir (annotation AnnotationTitle d) target d src
     else pushFile bufSize target d src) s).2) as H1
    by (destruct (_ && _); [by apply keeps_pushDir|by apply keeps_pushFile]).
  cbv zeta. case_call s as [[[]| |] s1]; simpl in *; [by apply has_set_exists|done|done].
Qed.

Lemma keeps_restore_loop l : keeps has (restore_loop bufSize tmpDir l).
Proof.
  induction l as [|d l IH]; intros s Hs; simpl; [done|]. destruct (_ || _); [by apply IH|].
  assert (forall src, has (on_err (EWrap (annotation AnnotationTitle d)) (push d src) s).2) as Hp
    by (intros src; by apply (keeps_on_err _ _ _ (file_keeps_push d src))).
  destruct (Fetch _ s) as [src|e|]; cbn [fst snd]; [|destruct (errors_Is _ _); [by apply IH|done]|done].
  specialize (Hp src). destruct (on_err _ _ s) as [[[]|e|] s1]; simpl in *; [by apply IH| |done].
  destruct (errors_Is e ErrNotFound); [by apply IH|done].
Qed.

Lemma keeps_Push d r : keeps has (Push d r).
Proof.
  intros s Hs. unfold filestore.Push. destruct (isClosedSet s); [done|].
  pose proof (file_keeps_push d (SReader r) s Hs) as H1.
  destruct (push d (SReader r) s) as [[[]|e|] s1]; simpl in *; [|destruct (errors_Is _ _); done|done].
  apply keeps_bind; [|intros _ s2 Hs2; by destruct (graph.Index _ _ _)|done].
  destruct (ForceCAS _); [apply keeps_ret|]. apply keeps_on_err.
  unfold restoreDuplicates. apply keeps_bind; [apply keeps_reads|]. apply keeps_restore_loop.
Qed.

Lemma keeps_Add name mediaType path : keeps has (Add tmpDir name mediaType path).
Proof.
  intros s Hs. unfold Add. destruct (isClosedSet s); [done|]. destruct (String.eqb name EmptyString); [done|].
  destruct (nameExists name s); [done|]. destruct (os_Stat _ _) as [fi| |]; [|done|done].
  assert (forall p, has ((if is_dir fi then descriptorFromDir tmpDir name mediaType p
     else descriptorFromFile fi mediaType p) s).2) as H.
  { intros p. destruct (is_dir fi).
    - enough (keeps has (descriptorFromDir tmpDir name mediaType p)) as K by (by apply K).
      apply keeps_bind; [apply keeps_tempFile|]. intros gz. apply keeps_bind; [auto with go|].
      intros tar s1 Hs1. done.
    - unfold descriptorFromFile. destruct (os_Open _ _) as [i| |]; [|done|done].
      by destruct (nodes (fs s) !! i) as [[]|]. }
  specialize (H (absPath (if String.eqb path EmptyString then name else path) s)).
  cbv zeta. case_call s as [[desc| |] s1]; simpl in *; [by apply has_set_exists|done|done].
Qed.

Lemma keeps_Tag d ref : keeps has (Tag d ref).
Proof.
  intros s Hs. unfold Tag. destruct (isClosedSet s), (String.eqb ref EmptyString); try done.
  by destruct (Exists d s) as [[]| |].
Qed.

Lemma keeps_Close : keeps has Close.
Proof.
  intros s Hs. unfold Close. destruct (isClosedSet s); [done|]. by destruct (remove_all _ _).
Qed.

End names.

(** The operations that change the store, in any sequence. *)
Inductive op :=
| OPush (d : OciDescriptor) (r : Reader)
| OAdd (name mediaType path : string)
| OTag (d : OciDescriptor) (ref : string)
| OClose.

Definition run_op (o : op) (s : Store) : Store :=
  match o with
  | OPush d r => (Push d r s).2
  | OAdd name mediaType path => (Add tmpDir name mediaType path s).2
  | OTag d ref => (Tag d ref s).2
  | OClose => (Close s).2
  end.

Lemma run_ops_keeps n ops (s : Store) :
  nameExists n s = true -> nameExists n (foldl (fun s o => run_op o s) s ops) = true.
Proof.
  revert s. induction ops as [|o ops IH]; intros s Hs; [done|]. apply IH.
  destruct o; simpl; [by apply keeps_Push|by apply keeps_Add|by apply keeps_Tag|by apply keeps_Close].
Qed.

End Store.
