(* ===== verification/FileExample.v ===== *)
(** The file store on a concrete file system: the theorems about it, applied to
    examples, and archives that reach outside of the directory they are unpacked to. *)

From Stdlib Require Import Ascii String ZArith Lia.
From S2P Require Import Prelude Errors Descriptor Reader Manifest Storage Graph Resolver.
From S2P Require Import GoStrings OciStorage FilePath Vfs VfsFacts FileExtract ExtractSafe FileStore FileStoreCorrect.

#[local] Open Scope string_scope.
#[local] Open Scope list_scope.

Import vfs filestore.

Module file_example.
Import HexDigest.

(** [/etc/passwd], the working directory [/home/w] and [/tmp]; the process runs in
    [/etc]. *)
Definition disk : FS := mkFS
  {[ 0 := IDir 493 0 {["etc" := 1; "home" := 2; "tmp" := 3]};
     1 := IDir 493 0 {["passwd" := 5]};
     2 := IDir 493 0 {["w" := 4]};
     3 := IDir 511 0 ∅;
     4 := IDir 493 2 ∅;
     5 := IFile 420 (str_bytes "root") ]} 1 "/etc" 18 ∅.

Definition dir_entry (name : string) : TarEntry := mkEntry name TypeDir EmptyString 493 None (Some 7%Z) [] None.
Definition sym_entry (name target : string) : TarEntry := mkEntry name TypeSymlink target 511 None (Some 7%Z) [] None.
Definition link_entry (name target : string) : TarEntry := mkEntry name TypeLink target 420 None (Some 7%Z) [] None.
Definition reg_entry (name content : string) : TarEntry := mkEntry name TypeReg EmptyString 420 None (Some 7%Z) (str_bytes content) None.

(** Archives, by the bytes that encode them. *)
Definition archives (b : bytes) : list TarEntry :=
  if decide (b = str_bytes "plain") then [dir_entry "d"; dir_entry "d/e"; sym_entry "d/e/s" ".."; reg_entry "d/e/s" "new"; reg_entry "d/f" "file"]
  else if decide (b = str_bytes "links")
  then [dir_entry "d/e/e/e"; sym_entry "d/e/e/e/up" "../../.."; sym_entry "d/e/e/e/out" "up/../../../etc"]
  else [].

#[export] Instance demo_archive : Archive := {|
  gzip_NewReader r := Ok r;
  tar_Next r := (archives (content r), None, content r);
  gzip_Writer b := b;
  tar_Writer _ := Ok (str_bytes "plain")
|}.

#[export] Instance json : ManifestJSON := {|
  Unmarshal_Manifest _ := Err (ENew "json");
  Unmarshal_Index _ := Err (ENew "json");
  Unmarshal_Artifact _ := Err (ENew "json");
  Unmarshal_Subject _ := Err (ENew "json");
  Marshal_Manifest _ := Err (ENew "json");
  Marshal_Index _ := Err (ENew "json");
  Marshal_Artifact _ := Err (ENew "json")
|}.

#[export] Instance order : MapOrder := canonical_order.

Definition new_store (o : Options) : Store cas.Memory := NewWithFallbackStorage o "/home/w" cas.NewMemory disk.

Definition named (name content : string) : OciDescriptor :=
  set_Annotations (Some {[AnnotationTitle := name]}) (NewDescriptorFromBytes "text/plain" (str_bytes content)).
Definition packed (name content : string) : OciDescriptor :=
  set_Annotations (Some {[AnnotationTitle := name; AnnotationUnpack := "true"]})
    (NewDescriptorFromBytes "text/plain" (str_bytes content)).

Definition push_str (d : OciDescriptor) (content : string) : M (Store cas.Memory) unit :=
  Push 4 "/tmp" d (bytes_NewReader (str_bytes content)).

End file_example.

(** ** Extraction *)

(** C15: extraction leaves the content outside of its directory alone.  For an archive
    without hard links and without a symbolic link in the place of the target
    directory, whatever its names and link targets are and whether or not extraction
    succeeds: every inode that is not below the target directory keeps its content,
    its directory entries or its link target, and its permission bits as well when
    permissions are not preserved; nothing from outside has been linked into the
    directory; and the path of the directory still leads to it.  Times, and with
    [preservePermissions] the permission bits, are excepted: [os.Chtimes] and [os.Chmod]
    follow a link at the end of an entry's path. *)
Theorem extract_contained `{AR : Archive} preserve bcs b dirName r f :
  Forall (fun e => filepath.proper e = true) bcs ->
  at_base (nodes f) b root bcs ->
  forallb (tame (filepath.render true bcs) dirName) (tar_Next r).1.1 = true ->
  let f' := (file.extractTarDirectory (filepath.render true bcs) dirName r preserve f).2 in
  (forall i x, nodes f !! i = Some x -> ~ reach (nodes f) b i ->
     exists y, nodes f' !! i = Some y /\ view (negb preserve) y = view (negb preserve) x)
  /\ (forall i, reach (nodes f') b i -> is_Some (nodes f !! i) -> reach (nodes f) b i)
  /\ at_base (nodes f') b root bcs.
Proof.
  intros Hp Hab Ht. cbv zeta. unfold file.extractTarDirectory. destruct (tar_Next r) as [[es last] consumed].
  pose proof (extract_entries_safe preserve b bcs Hp dirName es last f Hab Ht) as H. unfold safe in H.
  assert (forall g, nodes ((_ ← g : M FS unit; mret consumed) f).2 = nodes (g f).2) as Hb.
  { intros g. unfold mbind, M_bind. by destruct (g f) as [[]]. }
  rewrite Hb. split; [apply (ct_out _ _ _ _ H)|]. split; [apply (ct_in _ _ _ _ H)|by eapply contained_at_base].
Qed.

(** A directory entry whose path ends at a symbolic link acts on what the link
    leads to, wherever that is: when the path of the entry leads to an existing
    directory, the entry is accepted and sets the times of that directory, and with
    [preservePermissions] its permission bits. *)
Theorem extract_follows_link preserve bcs dirName e f p t i m q es
    (Hbcs : Forall (fun e => filepath.proper e = true) bcs)
    (Hname : file.resolveRelToBase (filepath.render true bcs) dirName (te_Name e) f = Ok p)
    (Hdir : te_Typeflag e = TypeDir)
    (Hlink : os_Lstat (filepath.Join2 (filepath.render true bcs) p) f = Ok (ISym t))
    (Htarget : found f (resolve true (filepath.Join2 (filepath.render true bcs) p) f) = Ok (i, IDir m q es)) :
  exists f', file.extract_entry preserve (filepath.render true bcs) dirName e f = (Ok tt, f')
    /\ nodes f' !! i = Some (IDir (if preserve then te_Mode e else m) q es)
    /\ ino_times i f' = (newer (te_AccessTime e) (ino_times i f).1, newer (te_ModTime e) (ino_times i f).2).
Proof. by apply (extract_dir_follows preserve bcs Hbcs dirName e f p Hname). Qed.

(** C16: a hard link escapes.  [ensureLinkPath] checks a relative link name against
    the directory of the link, but [os.Link] resolves it in the working directory of
    the process: for every entry that passes the checks, whose link name leads to a
    file from the working directory of the process and whose own path is free, the
    entry becomes a link to that file, wherever the file is, and writing a later entry
    at the same path overwrites the file. *)
Theorem extract_hardlink_escapes preserve bcs dirName e f p entry i m dat d c
    (Hbcs : Forall (fun e => filepath.proper e = true) bcs)
    (Hname : file.resolveRelToBase (filepath.render true bcs) dirName (te_Name e) f = Ok p)
    (Htype : te_Typeflag e = TypeLink)
    (Hrel : te_Linkname e <> EmptyString /\ filepath.IsAbs (te_Linkname e) = false)
    (Hcheck : file.ensureLinkPath (filepath.render true bcs) dirName (filepath.Join2 (filepath.render true bcs) p)
      (te_Linkname e) f = Ok (te_Linkname e))
    (Hcwd : walk maxLinks (nodes f) false (cwd f) None (os_pieces (te_Linkname e)) = Ok (Found entry i))
    (Hfile : nodes f !! i = Some (IFile m dat))
    (Hfree : resolve false (filepath.Join2 (filepath.render true bcs) p) f = Ok (Missing d c)) :
  exists f', file.extract_entry preserve (filepath.render true bcs) dirName e f = (Ok tt, f')
    /\ os_Open (filepath.Join2 (filepath.render true bcs) p) f' = Ok i
    /\ nodes f' !! i = Some (IFile m dat)
    /\ forall data perm,
         nodes (file.writeFile (filepath.Join2 (filepath.render true bcs) p) (data, None) perm f').2 !! i
         = Some (IFile m data).
Proof. destruct Hrel as [Hne Habs]. by apply (extract_hardlink_follows preserve bcs dirName e f p Hname entry i m dat d c). Qed.

Section witnesses.
Import HexDigest file_example.

Lemma disk_reach i : reach (nodes disk) 4 i -> i = 4.
Proof.
  induction 1 as [|d c i _ -> (m & p & es & Hd & Hc)]; [done|]. vm_compute in Hd. injection Hd as <- <- <-. done.
Qed.

Lemma disk_base : at_base (nodes disk) 4 root ["home"; "w"].
Proof.
  pose proof disk_reach as Hr.
  eapply ab_cons; [by exists 493%Z, 0; eexists|by intros ?%Hr|done|].
  eapply ab_cons; [by exists 493%Z, 0; eexists|by intros ?%Hr|done|]. by econstructor.
Qed.

Lemma extract_contained_witness :
  let f' := (file.extractTarDirectory "/home/w" "d" (bytes_NewReader (str_bytes "plain")) true disk).2 in
  os_Stat "/home/w/e/s" f' = Ok (IFile 420 (str_bytes "new"))
  /\ exists y, nodes f' !! 5 = Some y /\ view false y = IFile 0 (str_bytes "root").
Proof.
  split; [vm_compute; reflexivity|].
  destruct (extract_contained true ["home"; "w"] 4 "d" (bytes_NewReader (str_bytes "plain")) disk) as [H _].
  - by repeat constructor.
  - apply disk_base.
  - vm_compute. reflexivity.
  - change (filepath.render true ["home"; "w"]) with "/home/w" in H.
    apply (H 5 (IFile 420 (str_bytes "root")) eq_refl). by intros ?%disk_reach.
Defined.

(** The working directory [/home/w] with a link to [/etc]. *)
Definition linked : FS := set_nodes (<[6 := ISym "/etc"]> (set_entries 4 <["l" := 6]> (nodes disk))) disk.

Lemma extract_follows_link_witness :
  let f' := (file.extract_entry true "/home/w" "d" (mkEntry "d/l" TypeDir EmptyString 511 None (Some 7%Z) [] None) linked).2 in
  os_Stat "/etc" linked = Ok (IDir 493 0 {["passwd" := 5]})
  /\ nodes f' !! 1 = Some (IDir 511 0 {["passwd" := 5]}) /\ ino_times 1 f' = (None, Some 7%Z).
Proof.
  split; [vm_compute; reflexivity|].
  destruct (extract_follows_link true ["home"; "w"] "d" (mkEntry "d/l" TypeDir EmptyString 511 None (Some 7%Z) [] None)
    linked "l" "/etc" 1 493 0 {["passwd" := 5]}) as (f' & H1 & H2 & H3);
    [by repeat constructor|vm_compute; reflexivity..|].
  change (filepath.render true ["home"; "w"]) with "/home/w" in H1. rewrite H1. split; [exact H2|exact H3].
Defined.

Lemma extract_hardlink_escapes_witness :
  let f' := (file.extract_entry false "/home/w" "d" (link_entry "d/p" "passwd") disk).2 in
  os_Stat "/etc/passwd" disk = Ok (IFile 420 (str_bytes "root"))
  /\ nodes (file.writeFile "/home/w/p" (str_bytes "pwned", None) 420 f').2 !! 5 = Some (IFile 420 (str_bytes "pwned")).
Proof.
  split; [vm_compute; reflexivity|].
  destruct (extract_hardlink_escapes false ["home"; "w"] "d" (link_entry "d/p" "passwd") disk "p"
    (Some (1, "passwd")) 5 420 (str_bytes "root") 4 "p") as (f' & H1 & _ & _ & H4);
    [by repeat constructor|first [vm_compute; reflexivity|split; [done|vm_compute; reflexivity]]..|].
  change (filepath.render true ["home"; "w"]) with "/home/w" in *. rewrite H1. apply (H4 (str_bytes "pwned") 420%Z).
Defined.

(** Named content escapes through links.  A symbolic link is checked after its
    target was cleaned lexically, so the archive can hold a link whose target goes up
    through another link, out of the working directory; a later push of a named file
    follows it.  Both pushes succeed with path traversal disallowed, and a file appears
    in a directory outside of the working directory. *)
Theorem file_Push_escapes :
  let s := new_store noOptions in
  let s1 := push_str (packed "d" "links") "links" s in
  let s2 := push_str (named "d/e/e/e/out/cron" "evil") "evil" s1.2 in
  AllowPathTraversalOnWrite (opts s) = false
  /\ s1.1 = Ok tt /\ s2.1 = Ok tt
  /\ os_Stat "/etc/cron" (fs s) = ErrS fsErrNotExist
  /\ os_Stat "/etc/cron" (fs s2.2) = Ok (IFile 420 (str_bytes "evil")).
Proof. vm_compute. auto 10. Qed.

End witnesses.

(** ** The store *)

Section theorems.
Context {S : Type} {ST : Storage S} {GD : GoDigest} {MJ : ManifestJSON} {MO : MapOrder} {AR : Archive}.
Context (bufSize : nat) (tmpDir : string).

(** C33: Named content is fetched back.  When a push of a named descriptor succeeds
    (not unpacked, and either not a manifest or with [ForceCAS]), the reader ended
    normally, its content has the size and the digest of the descriptor, the content
    exists in the store, and a fetch returns exactly these bytes. *)
Theorem file_Push_fetch (d : OciDescriptor) (r : Reader) (s s' : filestore.Store S) :
  0 < bufSize -> quiet r -> annotation AnnotationTitle d <> EmptyString ->
  annotation AnnotationUnpack d <> "true" \/ SkipUnpack (opts s) = true ->
  IsManifest d = false \/ ForceCAS (opts s) = true ->
  filestore.Push bufSize tmpDir d r s = (Ok tt, s') ->
  clean r /\ (Zlen (content r) = Size d \/ (Size d < 0)%Z /\ content r = [])
  /\ (exists v, digest_Verifier (Digest d) = Some v /\ v (content r) = true)
  /\ filestore.Exists d s' = Ok true
  /\ exists rd, fetcher s' d = Ok rd /\ clean rd /\ content rd = content r.
Proof. apply Push_file_stored. Qed.

(** Path traversal is refused by name.  With traversal disallowed, the path
    chosen for a name is, after cleaning, the working directory followed by elements
    that are neither empty nor dots: it never goes up. *)
Theorem file_resolveWritePath_inside name (s : filestore.Store S) path :
  AllowPathTraversalOnWrite (opts s) = false -> resolveWritePath name s = Ok path ->
  path = absPath name s /\
  exists l, Forall (fun e => filepath.proper e = true) l /\
    filepath.elems (filepath.Abs (wd (fs s)) path) = filepath.elems (filepath.Abs (wd (fs s)) (workingDir s)) ++ l.
Proof. apply resolveWritePath_below. Qed.

(** A name is stored once.  After any sequence of pushes, additions, tags and
    closings, a name that existed at its beginning still exists, and pushing or adding
    it again fails with the duplicate name error (or with the closed error) and changes
    nothing. *)
Theorem file_names_stable n ops (s : filestore.Store S) :
  n <> EmptyString -> nameExists n s = true ->
  let s1 := foldl (fun s o => run_op bufSize tmpDir o s) s ops in
  nameExists n s1 = true
  /\ (forall d r, annotation AnnotationTitle d = n ->
       filestore.Push bufSize tmpDir d r s1 =
         (if closed s1 then ErrS ErrStoreClosed else Err (EWrap n ErrDuplicateName), s1))
  /\ (forall mediaType path,
       Add tmpDir n mediaType path s1 =
         (if closed s1 then ErrS ErrStoreClosed else Err (EWrap n ErrDuplicateName), s1)).
Proof.
  intros Hn%String.eqb_neq Hex s1. assert (nameExists n s1 = true) as H1 by (by apply run_ops_keeps).
  split; [done|]. split.
  - intros d r <-. unfold filestore.Push, isClosedSet. destruct (closed s1); [done|].
    unfold push. by rewrite Hn, H1.
  - intros mt path. unfold Add, isClosedSet. destruct (closed s1); [done|]. by rewrite Hn, H1.
Qed.

End theorems.

Section store_witnesses.
Import HexDigest file_example.

Lemma file_Push_fetch_witness :
  exists rd, fetcher (push_str (named "a/b" "data") "data" (new_store noOptions)).2 (named "a/b" "data") = Ok rd
    /\ content rd = str_bytes "data".
Proof.
  destruct (file_Push_fetch 4 "/tmp" (named "a/b" "data") (bytes_NewReader (str_bytes "data"))
    (new_store noOptions) (push_str (named "a/b" "data") "data" (new_store noOptions)).2)
    as (_ & _ & _ & _ & rd & Hrd & _ & Hc).
  - lia.
  - by split.
  - by vm_compute.
  - left. by vm_compute.
  - left. by vm_compute.
  - assert ((push_str (named "a/b" "data") "data" (new_store noOptions)).1 = Ok tt) as H by (vm_compute; reflexivity).
    unfold push_str in *. destruct (filestore.Push _ _ _ _ _). simpl in *. by subst.
  - exists rd. split; [exact Hrd|exact Hc].
Defined.

Lemma file_resolveWritePath_inside_witness :
  resolveWritePath "../w/x/./y" (new_store noOptions) = Ok "/home/w/x/y"
  /\ resolveWritePath "x/../../y" (new_store noOptions) = ErrS ErrPathTraversalDisallowed
  /\ exists l, Forall (fun e => filepath.proper e = true) l /\
    filepath.elems "/home/w/x/y" = filepath.elems "/home/w" ++ l.
Proof.
  split; [vm_compute; reflexivity|]. split; [vm_compute; reflexivity|].
  destruct (file_resolveWritePath_inside "../w/x/./y" (new_store noOptions) "/home/w/x/y") as (_ & l & Hl & He).
  - reflexivity.
  - vm_compute. reflexivity.
  - exists l. split; [exact Hl|]. exact He.
Defined.

Lemma file_names_stable_witness :
  let s := (push_str (named "a" "data") "data" (new_store noOptions)).2 in
  let s1 := foldl (fun s o => run_op 4 "/tmp" o s) s [OTag (named "a" "data") "v1"; OAdd "/etc/passwd" "t" EmptyString] in
  push_str (named "a" "other") "other" s1 = (Err (EWrap "a" ErrDuplicateName), s1).
Proof.
  intros s s1. destruct (file_names_stable 4 "/tmp" "a" [OTag (named "a" "data") "v1"; OAdd "/etc/passwd" "t" EmptyString] s)
    as (_ & H & _).
  - discriminate.
  - vm_compute. reflexivity.
  - assert (closed s1 = false) as Hc by (vm_compute; reflexivity).
    unfold push_str. rewrite H; [|vm_compute; reflexivity]. fold s1. by rewrite Hc.
Defined.

End store_witnesses.
