(* ===== verification/CredConfig.v ===== *)
(** The configuration file of the credential stores:
    [registry/remote/credentials/internal/config/config.go] and
    [credentials/internal/ioutil/ioutil.go]. *)

From Stdlib Require Import Ascii String ZArith Lia.
From S2P Require Import Prelude Errors Descriptor Reader GoStrings Base64 FilePath AuthCache.

#[local] Open Scope string_scope.

(** ** Interfaces *)

(** The calls of [os] on files, over a file system [F]; any of them may fail. *)
Class OsFiles (F : Type) := {
  os_Open : string -> F -> result Reader;
  os_MkdirAll : string -> Z -> M F unit;
  os_CreateTemp : string -> string -> M F string;
  file_Chmod : string -> Z -> M F unit;
  file_Write : string -> bytes -> M F unit;      (* io.Copy to the open file *)
  file_Close : string -> M F unit;
  os_Remove : string -> M F unit;
  os_Rename : string -> string -> M F unit
}.

Record AuthConfig := mkAuthConfig {
  Auth : string;
  IdentityToken : string;
  RegistryToken : string;
  ac_Username : string;
  ac_Password : string
}.

(** JSON: a raw message is a JSON value, of which only insignificant white space may
    change; [None] is [null] decoded into a map. *)
Class ConfigJSON := {
  RawMessage : Type;
  Decode_Config : Reader -> result (option (gmap string RawMessage));
  MarshalIndent_Config : gmap string RawMessage -> result bytes;
  Unmarshal_Auths : RawMessage -> result (option (gmap string RawMessage));
  Marshal_Auths : gmap string RawMessage -> result RawMessage;
  Unmarshal_AuthConfig : RawMessage -> result AuthConfig;
  Marshal_AuthConfig : AuthConfig -> result RawMessage;
  Unmarshal_String : RawMessage -> result string;
  Marshal_String : string -> result RawMessage;
  Unmarshal_Helpers : RawMessage -> result (gmap string string)
}.

(** ** The auth field *)

Definition encodeAuth (username password : string) : string :=
  if String.eqb username EmptyString && String.eqb password EmptyString then EmptyString
  else base64.EncodeToString (username +:+ ":" +:+ password).

Definition decodeAuth (authStr : string) : result (string * string) :=
  if String.eqb authStr EmptyString then Ok (EmptyString, EmptyString)
  else match base64.DecodeString authStr with
       | None => Err (ENew "illegal base64 data")
       | Some decodedStr =>
           match cut ":" decodedStr with
           | Some (username, password) => Ok (username, password)
           | None => Err (ENew "auth does not conform the base64(username:password) format")
           end
       end.

Definition NewAuthConfig (cred : Credential) : AuthConfig :=
  mkAuthConfig (encodeAuth (Username cred) (Password cred)) (RefreshToken cred) (AccessToken cred)
    EmptyString EmptyString.

Definition AuthConfig_Credential (ac : AuthConfig) : result Credential :=
  if String.eqb (Auth ac) EmptyString
  then Ok (mkCredential (ac_Username ac) (ac_Password ac) (IdentityToken ac) (RegistryToken ac))
  else match decodeAuth (Auth ac) with
       | Ok (username, password) => Ok (mkCredential username password (IdentityToken ac) (RegistryToken ac))
       | Err _ => Err (EWrap "failed to decode auth field" ErrInvalidConfigFormat)
       | Panic => Panic
       end.

(** [strings.TrimPrefix]. *)
Definition TrimPrefix (prefix s : string) : string :=
  if String.prefix prefix s then String.substring (String.length prefix) (String.length s) s else s.

Definition ToHostname (addr : string) : string :=
  let addr := TrimPrefix "http://" addr in
  let addr := TrimPrefix "https://" addr in
  match cut "/" addr with Some (host, _) => host | None => addr end.

(** ** ioutil.go *)

Section ingest.
Context {F : Type} {OS : OsFiles F}.

(** What the deferred function of [Ingest] does after the body returned: it removes
    the file named by the result [path], which a failing [return] of the body has
    already set to the empty string. *)
Definition finish_ingest (path : string) (r : result unit) : M F string := fun f =>
  let '(c, f) := file_Close path f in
  match r, c with
  | _, Panic | Panic, _ => (Panic, f)
  | Err e, _ => (Err e, (os_Remove EmptyString f).2)
  | Ok _, Err e => (Err (EWrap "failed to close ingest file" e), (os_Remove path f).2)
  | Ok _, Ok _ => (Ok path, f)
  end.

(** The body of [Ingest] once the file is there. *)
Definition fill_ingest (path : string) (content : bytes) : M F unit :=
  _ ← on_err (EWrap "failed to ensure permission") (file_Chmod path 384 (* 0600 *));
  on_err (EWrap "failed to ingest") (file_Write path content).

Definition Ingest (dir : string) (content : bytes) : M F string :=
  path ← on_err (EWrap "failed to create ingest file") (os_CreateTemp dir "oras_credstore_temp_*");
  (fun f => let '(r, f) := fill_ingest path content f in finish_ingest path r f) : M F string.
End ingest.

(** ** config.go *)

Definition configFieldAuths : string := "auths".
Definition configFieldCredentialsStore : string := "credsStore".
Definition configFieldCredentialHelpers : string := "credHelpers".

Section config.
Context {F : Type} {OS : OsFiles F} {CJ : ConfigJSON} {MO : MapOrder}.

(** [Config]; the nil map is [None]. *)
Record Config := mkConfig {
  cfg_path : string;
  cfg_content : option (gmap string RawMessage);
  authsCache : gmap string RawMessage;
  credentialsStore : string;
  credentialHelpers : gmap string string
}.

(** The configuration and the file system. *)
Record CWorld := mkCWorld { cfg : Config; files : F }.

Definition set_content (m : gmap string RawMessage) (c : Config) : Config :=
  mkConfig (cfg_path c) (Some m) (authsCache c) (credentialsStore c) (credentialHelpers c).
Definition set_auths (m : gmap string RawMessage) (c : Config) : Config :=
  mkConfig (cfg_path c) (cfg_content c) m (credentialsStore c) (credentialHelpers c).
Definition set_credsStore (s : string) (c : Config) : Config :=
  mkConfig (cfg_path c) (cfg_content c) (authsCache c) s (credentialHelpers c).

Definition modify_cfg (g : Config -> Config) : M CWorld unit := fun w => (Ok tt, mkCWorld (g (cfg w)) (files w)).
Definition on_files {A} (m : M F A) : M CWorld A := fun w =>
  let '(r, f) := m (files w) in (r, mkCWorld (cfg w) f).

Definition invalid {A} (msg : string) (r : result A) : result A :=
  match r with Err _ => Err (EWrap msg ErrInvalidConfigFormat) | _ => r end.

(** A field of the configuration, when it is there. *)
Definition field {A} (m : option (gmap string RawMessage)) (k : string) (default_ : A) (Unmarshal : RawMessage -> result A)
    (msg : string) : result A :=
  match (m ≫= (fun m => m !! k)) with
  | Some raw => invalid msg (Unmarshal raw)
  | None => Ok default_
  end.

Definition Load (configPath : string) (f : F) : result Config :=
  let empty := mkConfig configPath (Some ∅) ∅ EmptyString ∅ in
  match os_Open configPath f with
  | Err err =>
      if bool_decide (err = ESentinel fsErrNotExist) then Ok empty
      else Err (EWrap "failed to open config file" err)
  | Panic => Panic
  | Ok configFile =>
      match Decode_Config configFile with
      | Err err =>
          if errors_Is err EOF then Ok empty
          else Err (EWrap "failed to decode config file" ErrInvalidConfigFormat)
      | Panic => Panic
      | Ok content =>
          credsStore ← field content configFieldCredentialsStore EmptyString Unmarshal_String
            "failed to unmarshal creds store field";
          helpers ← field content configFieldCredentialHelpers ∅ Unmarshal_Helpers
            "failed to unmarshal cred helpers field";
          auths ← field content configFieldAuths None Unmarshal_Auths "failed to unmarshal auths field";
          Ok (mkConfig configPath content (default ∅ auths) credsStore helpers)
      end
  end.

Definition GetCredential (serverAddress : string) (c : Config) : result Credential :=
  let raw :=
    match authsCache c !! serverAddress with
    | Some raw => Some raw
    | None => snd <$> List.find (fun kv => String.eqb (ToHostname kv.1) serverAddress) (range_map (authsCache c))
    end in
  match raw with
  | None => Ok EmptyCredential
  | Some raw =>
      authCfg ← invalid "failed to unmarshal auth field" (Unmarshal_AuthConfig raw);
      AuthConfig_Credential authCfg
  end.

(** An assignment to an entry of a nil map panics, a deletion does nothing. *)
Definition content_insert (k : string) (raw : RawMessage) : M CWorld unit := fun w =>
  match cfg_content (cfg w) with
  | Some m => modify_cfg (set_content (<[k := raw]> m)) w
  | None => (Panic, w)
  end.
Definition content_delete (k : string) : M CWorld unit := fun w =>
  match cfg_content (cfg w) with
  | Some m => modify_cfg (set_content (delete k m)) w
  | None => (Ok tt, w)
  end.

(** The file of [saveFile]: the fields of the file with the two of the
    configuration. *)
Definition update_content : M CWorld bytes :=
  _ ← (fun w : CWorld =>
         if String.eqb (credentialsStore (cfg w)) EmptyString then content_delete configFieldCredentialsStore w
         else (raw ← on_err (EWrap "failed to marshal creds store")
                       (reads (fun w : CWorld => Marshal_String (credentialsStore (cfg w))));
               content_insert configFieldCredentialsStore raw) w);
  raw ← on_err (EWrap "failed to marshal credentials") (reads (fun w : CWorld => Marshal_Auths (authsCache (cfg w))));
  _ ← content_insert configFieldAuths raw;
  on_err (EWrap "failed to marshal config")
    (reads (fun w : CWorld => MarshalIndent_Config (default ∅ (cfg_content (cfg w))))).

(** The rename that ends [saveFile], and its deferred clean-up. *)
Definition rename_ingest (ingest : string) : M CWorld unit := fun w =>
  match on_files (os_Rename ingest (cfg_path (cfg w))) w with
  | (Err e, w) => (Err (EWrap "failed to save config file" e), (on_files (os_Remove ingest) w).2)
  | r => r
  end.

Definition write_file (jsonBytes : bytes) : M CWorld unit := fun w =>
  let configDir := filepath.Dir (cfg_path (cfg w)) in
  let m : M CWorld unit :=
    _ ← on_files (on_err (EWrap "failed to make directory") (os_MkdirAll configDir 448 (* 0700 *)));
    ingest ← on_files (on_err (EWrap "failed to save config file") (Ingest configDir jsonBytes));
    rename_ingest ingest in
  m w.

Definition saveFile : M CWorld unit :=
  jsonBytes ← update_content; write_file jsonBytes.

Definition PutCredential (serverAddress : string) (cred : Credential) : M CWorld unit :=
  raw ← on_err (EWrap "failed to marshal auth field") (reads (fun _ => Marshal_AuthConfig (NewAuthConfig cred)));
  _ ← modify_cfg (fun c => set_auths (<[serverAddress := raw]> (authsCache c)) c);
  saveFile.

Definition DeleteCredential (serverAddress : string) : M CWorld unit := fun w =>
  match authsCache (cfg w) !! serverAddress with
  | None => (Ok tt, w)
  | Some _ =>
      (_ ← modify_cfg (fun c => set_auths (delete serverAddress (authsCache c)) c); saveFile) w
  end.

Definition GetCredentialHelper (serverAddress : string) (c : Config) : string :=
  default EmptyString (credentialHelpers c !! serverAddress).

Definition SetCredentialsStore (credsStore : string) : M CWorld unit :=
  _ ← modify_cfg (set_credsStore credsStore); saveFile.

Definition IsAuthConfigured (c : Config) : bool :=
  negb (String.eqb (credentialsStore c) EmptyString) || bool_decide (credentialHelpers c <> ∅)
  || bool_decide (0 < size (authsCache c)).
End config.
