(* ===== verification/CredConfigCorrect.v ===== *)
(** The configuration file against an abstract file system and JSON codec: what a
    saved credential is read back as, and what is left alone. *)

From Stdlib Require Import Ascii String ZArith Lia.
From S2P Require Import Prelude Errors Descriptor Reader GoStrings Base64 FilePath AuthCache CredConfig.

#[local] Open Scope string_scope.

(** ** What the operating system promises

    [fview] are the files that can be read, with their mode. *)
Class OsFilesLaws (F : Type) {OS : OsFiles F} := {
  fview : F -> gmap string (bytes * Z);
  Open_view p f b m : fview f !! p = Some (b, m) -> os_Open p f = Ok (bytes_NewReader b);
  MkdirAll_view p m f : fview (os_MkdirAll p m f).2 = fview f;
  CreateTemp_view dir pat f :
    match os_CreateTemp dir pat f with
    | (Ok n, f') => fview f !! n = None /\ exists m, fview f' = <[n := ([], m)]> (fview f)
    | (_, f') => fview f' = fview f
    end;
  Chmod_view n mode f b m : fview f !! n = Some (b, m) ->
    match file_Chmod n mode f with
    | (Ok _, f') => fview f' = <[n := (b, mode)]> (fview f)
    | (_, f') => fview f' = fview f
    end;
  Write_view n c f b m : fview f !! n = Some (b, m) ->
    match file_Write n c f with
    | (Ok _, f') => fview f' = <[n := ((b ++ c)%list, m)]> (fview f)
    | (_, f') => exists c', fview f' = <[n := (c', m)]> (fview f)
    end;
  Close_view n f : fview (file_Close n f).2 = fview f;
  Remove_view n f :
    match os_Remove n f with
    | (Ok _, f') => fview f' = delete n (fview f)
    | (_, f') => fview f' = fview f
    end;
  Rename_view p q f :
    match os_Rename p q f with
    | (Ok _, f') => exists v, fview f !! p = Some v /\ fview f' = <[q := v]> (delete p (fview f))
    | (_, f') => fview f' = fview f
    end;
  (** The empty string names no file. *)
  no_empty_file f : fview f !! EmptyString = None
}.

(** Text without bytes above 127. *)
Definition is_ascii (s : string) : bool := forallb (fun c => N_of_ascii c <? 128)%N (chars s).

(** ** What the codec promises

    What was marshalled is unmarshalled to the same value when its strings are
    valid UTF-8 ([valid_text]), and decoded strings are. *)
Class ConfigJSONLaws {CJ : ConfigJSON} := {
  valid_text : string -> Prop;
  valid_ascii s : is_ascii s = true -> valid_text s;
  Config_roundtrip m b : (forall k, is_Some (m !! k) -> valid_text k) ->
    MarshalIndent_Config m = Ok b -> Decode_Config (bytes_NewReader b) = Ok (Some m);
  Auths_roundtrip m raw : (forall k, is_Some (m !! k) -> valid_text k) ->
    Marshal_Auths m = Ok raw -> Unmarshal_Auths raw = Ok (Some m);
  AuthConfig_roundtrip ac raw :
    Forall valid_text [Auth ac; IdentityToken ac; RegistryToken ac; ac_Username ac; ac_Password ac] ->
    Marshal_AuthConfig ac = Ok raw -> Unmarshal_AuthConfig raw = Ok ac;
  String_roundtrip s raw : valid_text s -> Marshal_String s = Ok raw -> Unmarshal_String raw = Ok s;
  Config_valid r m : Decode_Config r = Ok (Some m) -> forall k, is_Some (m !! k) -> valid_text k;
  Auths_valid raw m : Unmarshal_Auths raw = Ok (Some m) -> forall k, is_Some (m !! k) -> valid_text k;
  String_valid raw s : Unmarshal_String raw = Ok s -> valid_text s
}.

(** ** The auth field *)

Lemma digit_ascii n : (N_of_ascii (base64.digit n) <? 128)%N = true.
Proof.
  unfold base64.digit. assert (Forall (fun c => (N_of_ascii c <? 128)%N = true) base64.alphabet) as H
    by (repeat constructor).
  generalize (N.to_nat n). intros k. revert k. induction H as [|c l Hc _ IH]; intros [|k]; simpl; auto.
Qed.

Lemma encode_ascii l : forallb (fun c => N_of_ascii c <? 128)%N (base64.encode l) = true.
Proof.
  remember (length l) as n eqn:Hn. revert l Hn. induction (lt_wf n) as [n _ IH]. intros l ->.
  destruct l as [|a [|b [|c rest]]]; cbn [base64.encode forallb]; rewrite ?digit_ascii; try done.
  apply (IH (length rest)); [simpl; lia|done].
Qed.

Lemma EncodeToString_ascii s : is_ascii (base64.EncodeToString s) = true.
Proof. unfold is_ascii, base64.EncodeToString. rewrite chars_of_chars. apply encode_ascii. Qed.

Lemma encodeAuth_ascii u p : is_ascii (encodeAuth u p) = true.
Proof. unfold encodeAuth. destruct (_ && _); [done|apply EncodeToString_ascii]. Qed.

Lemma EncodeToString_nonempty s : s <> EmptyString -> String.eqb (base64.EncodeToString s) EmptyString = false.
Proof.
  intros Hs. apply String.eqb_neq. intros He. apply (f_equal base64.DecodeString) in He.
  rewrite base64.DecodeString_EncodeToString in He. by injection He.
Qed.

Lemma decodeAuth_encodeAuth u p : has_char ":" u = false -> decodeAuth (encodeAuth u p) = Ok (u, p).
Proof.
  intros Hc. unfold encodeAuth. destruct (String.eqb u EmptyString && String.eqb p EmptyString) eqn:E.
  { apply andb_true_iff in E as [->%String.eqb_eq ->%String.eqb_eq]. done. }
  unfold decodeAuth. rewrite EncodeToString_nonempty by by destruct u.
  rewrite base64.DecodeString_EncodeToString. change (":" +:+ p) with (String.String ":" p).
  by rewrite (cut_app ":" u p).
Qed.

(** What is stored for a credential is that credential. *)
Lemma AuthConfig_roundtrips cred : has_char ":" (Username cred) = false ->
  AuthConfig_Credential (NewAuthConfig cred) = Ok cred.
Proof.
  intros Hc. unfold AuthConfig_Credential, NewAuthConfig. simpl. rewrite decodeAuth_encodeAuth by done.
  destruct cred as [u p r a]. simpl in *. destruct (String.eqb_spec (encodeAuth u p) EmptyString) as [He|]; [|done].
  assert (decodeAuth (encodeAuth u p) = Ok (u, p)) as Hd by by apply decodeAuth_encodeAuth.
  rewrite He in Hd. injection Hd as <- <-. done.
Qed.

(** ** Writing the file *)

Section files.
Context {F : Type} {OS : OsFiles F} {OL : OsFilesLaws F}.

(** At most one file was added, none was changed. *)
Definition one_more (f f' : F) : Prop :=
  fview f' = fview f \/ exists t v, fview f !! t = None /\ fview f' = <[t := v]> (fview f).

Lemma Remove_other n f t v : fview f !! t = None -> n = EmptyString \/ n = t ->
  forall f1, fview f1 = <[t := v]> (fview f) -> one_more f (os_Remove n f1).2.
Proof.
  intros Ht Hn f1 Hf1. pose proof (Remove_view n f1) as H. pose proof (no_empty_file f1) as He.
  destruct (os_Remove n f1) as [[[]|e|] f2]; simpl.
  2, 3: right; exists t, v; by rewrite H.
  destruct Hn as [->| ->].
  - right. exists t, v. by rewrite H, delete_id.
  - left. rewrite H, Hf1. by apply delete_insert_id.
Qed.

Lemma fill_ingest_spec path content f m : fview f !! path = Some ([], m) ->
  match fill_ingest path content f with
  | (Ok _, f') => fview f' = <[path := (content, 384%Z)]> (fview f)
  | (_, f') => exists v, fview f' = <[path := v]> (fview f)
  end.
Proof.
  intros Hp. unfold fill_ingest, mbind, M_bind, on_err. pose proof (Chmod_view path 384 f [] m Hp) as Hc.
  destruct (file_Chmod path 384 f) as [[[]|e|] f1]; simpl.
  2, 3: exists ([], m); by rewrite Hc, insert_id.
  assert (fview f1 !! path = Some ([], 384%Z)) as H1 by by rewrite Hc, lookup_insert_eq.
  pose proof (Write_view path content f1 [] 384 H1) as Hw. destruct (file_Write path content f1) as [[[]|e|] f2]; simpl.
  - by rewrite Hw, Hc, insert_insert_eq.
  - destruct Hw as [c' Hw]. exists (c', 384%Z). by rewrite Hw, Hc, insert_insert_eq.
  - destruct Hw as [c' Hw]. exists (c', 384%Z). by rewrite Hw, Hc, insert_insert_eq.
Qed.

Lemma Ingest_spec dir content f :
  match Ingest dir content f with
  | (Ok t, f') => fview f !! t = None /\ fview f' = <[t := (content, 384%Z)]> (fview f)
  | (_, f') => one_more f f'
  end.
Proof.
  unfold Ingest, mbind, M_bind, on_err. pose proof (CreateTemp_view dir "oras_credstore_temp_*" f) as Ht.
  destruct (os_CreateTemp _ _ f) as [[t|e|] f1]; simpl; [|by left..].
  destruct Ht as (Hn & m & H1).
  assert (fview f1 !! t = Some ([], m)) as Hl by by rewrite H1, lookup_insert_eq.
  pose proof (fill_ingest_spec t content f1 m Hl) as Hf. destruct (fill_ingest t content f1) as [r f2].
  unfold finish_ingest. pose proof (Close_view t f2) as Hc. destruct (file_Close t f2) as [c f3]. simpl in Hc.
  assert (exists v, fview f3 = <[t := v]> (fview f)) as [v H3].
  { rewrite Hc. destruct r as [[]|e|]; [|destruct Hf as [v Hf]; exists v..]; [eexists|..]; rewrite Hf, H1; by rewrite insert_insert_eq. }
  destruct r as [[]|e|], c as [[]|e'|]; simpl; try (by right; exists t, v);
    try (apply (Remove_other _ _ t v); auto).
  split; [done|]. by rewrite Hc, Hf, H1, insert_insert_eq.
Qed.

Context {CJ : ConfigJSON}.

Lemma write_file_spec jsonBytes (w : @CWorld F CJ) :
  match write_file jsonBytes w with
  | (Ok _, w') => cfg w' = cfg w /\ fview (files w') = <[cfg_path (cfg w) := (jsonBytes, 384%Z)]> (fview (files w))
  | (_, w') => cfg w' = cfg w /\ one_more (files w) (files w')
  end.
Proof.
  unfold write_file. unfold mbind, M_bind, on_files, on_err. set (dir := filepath.Dir _).
  pose proof (MkdirAll_view dir 448 (files w)) as Hm. destruct (os_MkdirAll dir 448 (files w)) as [[[]|e|] f1]; simpl in *.
  2, 3: split; [done|by left].
  pose proof (Ingest_spec dir jsonBytes f1) as Hi. destruct (Ingest dir jsonBytes f1) as [[t|e|] f2]; simpl.
  2, 3: split; [done|]; unfold one_more in *; by rewrite <- Hm.
  destruct Hi as [Hn H2]. unfold rename_ingest, on_files. simpl.
  pose proof (Rename_view t (cfg_path (cfg w)) f2) as Hr. destruct (os_Rename t (cfg_path (cfg w)) f2) as [[[]|e|] f3]; simpl.
  - destruct Hr as (v & Hv & H3). split; [done|]. rewrite H2, lookup_insert_eq in Hv. injection Hv as <-.
    by rewrite H3, H2, delete_insert_id, Hm by done.
  - pose proof (Remove_other t (files w) t (jsonBytes, 384%Z)) as Hrm. destruct (os_Remove t f3) as [r f4] eqn:E. simpl.
    split; [done|]. specialize (Hrm ltac:(by rewrite <- Hm) ltac:(by right) f3). rewrite E in Hrm. apply Hrm.
    by rewrite Hr, H2, Hm.
  - split; [done|]. right. exists t, (jsonBytes, 384%Z). rewrite Hr, H2, Hm. split; [by rewrite <- Hm|done].
Qed.
End files.

(** ** Saving and loading *)

Section config.
Context {F : Type} {OS : OsFiles F} {OL : OsFilesLaws F} {CJ : ConfigJSON} {JL : ConfigJSONLaws} {MO : MapOrder}.
Notation CWorld := (@CWorld F CJ).

Definition helpers_of (m : gmap string RawMessage) : result (gmap string string) :=
  field (Some m) configFieldCredentialHelpers ∅ Unmarshal_Helpers "failed to unmarshal cred helpers field".

(** A configuration that was loaded from a file that is not [null]. *)
Record cfg_wf (c : Config) : Prop := {
  wf_content : exists m, cfg_content c = Some m /\ (forall k, is_Some (m !! k) -> valid_text k)
    /\ helpers_of m = Ok (credentialHelpers c);
  wf_auths : forall k, is_Some (authsCache c !! k) -> valid_text k;
  wf_store : valid_text (credentialsStore c)
}.

(** The fields written for a configuration whose file had the fields [m]. *)
Definition saved_fields (c : Config) (m m' : gmap string RawMessage) : Prop :=
  exists raw, Marshal_Auths (authsCache c) = Ok raw /\
    if String.eqb (credentialsStore c) EmptyString
    then m' = <[configFieldAuths := raw]> (delete configFieldCredentialsStore m)
    else exists rcs, Marshal_String (credentialsStore c) = Ok rcs /\
           m' = <[configFieldAuths := raw]> (<[configFieldCredentialsStore := rcs]> m).

Lemma saved_fields_other c m m' k : saved_fields c m m' -> k <> configFieldAuths -> k <> configFieldCredentialsStore ->
  m' !! k = m !! k.
Proof.
  intros (raw & _ & H) H1 H2. destruct (String.eqb _ _); [subst m'|destruct H as (rcs & _ & ->)];
    rewrite lookup_insert_ne by done; [by rewrite lookup_delete_ne|by rewrite lookup_insert_ne].
Qed.

Lemma update_content_spec (w : CWorld) m : cfg_content (cfg w) = Some m ->
  match update_content w with
  | (Ok json, w') => exists m', saved_fields (cfg w) m m' /\ MarshalIndent_Config m' = Ok json /\
      w' = mkCWorld (set_content m' (cfg w)) (files w)
  | (_, w') => files w' = files w /\ exists m', cfg w' = set_content m' (cfg w)
  end.
Proof.
  intros Hm. destruct w as [c f]. simpl in *.
  assert (c = set_content m c) as Hc by (destruct c; simpl in *; by rewrite Hm).
  unfold update_content, mbind, M_bind, saved_fields. simpl.
  destruct (String.eqb (credentialsStore c) EmptyString) eqn:Es; simpl.
  - unfold content_delete. simpl. rewrite Hm. simpl. unfold on_err. simpl.
    destruct (Marshal_Auths (authsCache c)) as [raw|e|] eqn:Ea; simpl; [|eauto..].
    destruct (MarshalIndent_Config _) as [json|e|] eqn:Ej; simpl; [|eauto..].
    eexists. split; [|split; [exact Ej|done]]. by exists raw.
  - unfold on_err. simpl. destruct (Marshal_String (credentialsStore c)) as [rcs|e|] eqn:Er; simpl; [|by eauto..].
    unfold content_insert at 1. simpl. rewrite Hm. simpl.
    destruct (Marshal_Auths (authsCache c)) as [raw|e|] eqn:Ea; simpl; [|eauto..].
    destruct (MarshalIndent_Config _) as [json|e|] eqn:Ej; simpl; [|eauto..].
    eexists. split; [|split; [exact Ej|done]]. exists raw. split; [done|]. by exists rcs.
Qed.

Lemma Load_saved c m m' json f : cfg_wf c -> cfg_content c = Some m -> saved_fields c m m' ->
  MarshalIndent_Config m' = Ok json -> fview f !! cfg_path c = Some (json, 384%Z) ->
  Load (cfg_path c) f = Ok (set_content m' c).
Proof.
  intros [(m0 & Hm0 & Hv & Hh) Ha Hs] Hm Hsaved Hj Hf. rewrite Hm in Hm0. injection Hm0 as <-.
  pose proof (saved_fields_other c m m' configFieldCredentialHelpers Hsaved) as Hoth.
  assert (forall k, is_Some (m' !! k) -> valid_text k) as Hv'.
  { intros k Hk. destruct (decide (k = configFieldAuths)) as [->|H1]; [by apply valid_ascii|].
    destruct (decide (k = configFieldCredentialsStore)) as [->|H2]; [by apply valid_ascii|].
    rewrite (saved_fields_other c m m' k) in Hk by done. auto. }
  unfold Load. rewrite (Open_view _ _ _ _ Hf), (Config_roundtrip m' json Hv' Hj).
  assert (field (Some m') configFieldCredentialsStore EmptyString Unmarshal_String
            "failed to unmarshal creds store field" = Ok (credentialsStore c)) as ->.
  { unfold field. destruct Hsaved as (raw & _ & Hm'). simpl. destruct (String.eqb_spec (credentialsStore c) EmptyString) as [He|].
    - rewrite Hm', lookup_insert_ne, lookup_delete_eq by done. by rewrite He.
    - destruct Hm' as (rcs & Hr & ->). rewrite lookup_insert_ne, lookup_insert_eq by done.
      by rewrite (String_roundtrip _ _ Hs Hr). }
  assert (field (Some m') configFieldCredentialHelpers ∅ Unmarshal_Helpers
            "failed to unmarshal cred helpers field" = Ok (credentialHelpers c)) as ->.
  { rewrite <- Hh. unfold helpers_of, field. simpl. by rewrite Hoth. }
  assert (field (Some m') configFieldAuths None Unmarshal_Auths "failed to unmarshal auths field"
          = Ok (Some (authsCache c))) as ->.
  { destruct Hsaved as (raw & Hr & Hm'). unfold field. simpl.
    assert (m' !! configFieldAuths = Some raw) as ->
      by (destruct (String.eqb _ _); [subst m'|destruct Hm' as (? & _ & ->)]; by rewrite lookup_insert_eq).
    by rewrite (Auths_roundtrip _ _ Ha Hr). }
  simpl. by destruct c.
Qed.

(** Saving: on success the file holds the configuration, and loading it again gives
    the configuration in memory; on failure no file changed. *)
Lemma saveFile_spec (w : CWorld) m : cfg_wf (cfg w) -> cfg_content (cfg w) = Some m ->
  match saveFile w with
  | (Ok _, w') => exists m' json, saved_fields (cfg w) m m' /\ cfg w' = set_content m' (cfg w) /\
      MarshalIndent_Config m' = Ok json /\
      fview (files w') = <[cfg_path (cfg w) := (json, 384%Z)]> (fview (files w)) /\
      Load (cfg_path (cfg w)) (files w') = Ok (cfg w')
  | (_, w') => (exists m', cfg w' = set_content m' (cfg w)) /\ one_more (files w) (files w')
  end.
Proof.
  intros Hwf Hm. unfold saveFile, mbind, M_bind. pose proof (update_content_spec w m Hm) as Hu.
  destruct (update_content w) as [[json|e|] w1].
  2, 3: destruct Hu as [Hf Hc]; split; [done|]; left; by rewrite Hf.
  destruct Hu as (m' & Hs & Hj & ->). set (w1 := mkCWorld _ _).
  pose proof (write_file_spec json w1) as Hw. destruct (write_file json w1) as [[[]|e|] w2]; destruct Hw as [Hc Hf].
  - exists m', json. split_and!; [done|done|done|done|]. rewrite Hc.
    apply (Load_saved (cfg w) m m' json); try done. simpl in Hf. by rewrite Hf, lookup_insert_eq.
  - split; [by exists m'|done].
  - split; [by exists m'|done].
Qed.

Lemma set_auths_wf auths c : cfg_wf c -> (forall k, is_Some (auths !! k) -> valid_text k) -> cfg_wf (set_auths auths c).
Proof. by intros [? ? ?] ?. Qed.
Lemma set_credsStore_wf s c : cfg_wf c -> valid_text s -> cfg_wf (set_credsStore s c).
Proof. by intros [? ? ?] ?. Qed.

(** Every credential that is loaded or put can be found. *)
Lemma GetCredential_stored addr c raw ac : authsCache c !! addr = Some raw -> Unmarshal_AuthConfig raw = Ok ac ->
  GetCredential addr c = AuthConfig_Credential ac.
Proof. intros Hl Hu. unfold GetCredential. rewrite Hl. simpl. by rewrite Hu. Qed.
End config.
