(* ===== verification/Credentials.v ===== *)
(** The credential stores: [registry/remote/credentials/store.go], [file_store.go],
    [memory_store.go], [native_store.go], [native_store_linux.go], [registry.go],
    [trace/trace.go] and [internal/executer/executer.go]. *)

From Stdlib Require Import Ascii String ZArith Lia.
From S2P Require Import Prelude Errors Descriptor Reader GoStrings Reference Scope Http Challenge Remote Base64 FilePath HttpClient AuthCache AuthClient CredConfig.
Import registry.

#[local] Open Scope string_scope.

(** The interface [Store], over the state [W] it works on. *)
Record CredStore (W : Type) := mkCredStore {
  cs_Get : string -> M W Credential;
  cs_Put : string -> Credential -> M W unit;
  cs_Delete : string -> M W unit
}.
#[global] Arguments mkCredStore {W}.
#[global] Arguments cs_Get {W}.
#[global] Arguments cs_Put {W}.
#[global] Arguments cs_Delete {W}.

(** A store on a part of a larger state. *)
Definition lift_store {W P} (get : W -> P) (put : P -> W -> W) (s : CredStore P) : CredStore W :=
  mkCredStore (fun a => on_part get put (cs_Get s a)) (fun a c => on_part get put (cs_Put s a c))
    (fun a => on_part get put (cs_Delete s a)).

(** ** memory_store.go *)

Definition memoryStore : CredStore (gmap string Credential) := mkCredStore
  (fun serverAddress => reads (fun m => Ok (default EmptyCredential (m !! serverAddress))))
  (fun serverAddress cred m => (Ok tt, <[serverAddress := cred]> m))
  (fun serverAddress m => (Ok tt, delete serverAddress m)).

(** The loop of [NewMemoryStoreFromDockerConfig]. *)
Fixpoint load_auths (l : list (string * AuthConfig)) (m : gmap string Credential) : result (gmap string Credential) :=
  match l with
  | [] => Ok m
  | (addr, ac) :: l' =>
      let hostname := ToHostname addr in
      cred ← AuthConfig_Credential ac;
      load_auths l' (match m !! hostname with Some _ => m | None => <[hostname := cred]> m end)
  end.

Definition NewMemoryStoreFromDockerConfig `{MapOrder} (Unmarshal : bytes -> result (gmap string AuthConfig)) (c : bytes)
    : result (gmap string Credential) :=
  auths ← CredConfig.invalid "failed to unmarshal auth field" (Unmarshal c);
  load_auths (range_map auths) ∅.

(** ** trace.go *)

Record ExecutableTrace (E : Type) := mkTrace {
  ExecuteStart : option (string -> string -> E -> E);
  ExecuteDone : option (string -> string -> option error -> E -> E)
}.
#[global] Arguments mkTrace {E}.
#[global] Arguments ExecuteStart {E}.
#[global] Arguments ExecuteDone {E}.

Definition compose {E} (trace oldTrace : ExecutableTrace E) : ExecutableTrace E :=
  mkTrace
    (match ExecuteStart oldTrace, ExecuteStart trace with
     | None, start => start
     | Some oldStart, Some start => Some (fun n a e => oldStart n a (start n a e))
     | Some oldStart, None => Some oldStart
     end)
    (match ExecuteDone oldTrace, ExecuteDone trace with
     | None, done => done
     | Some oldDone, Some done => Some (fun n a err e => oldDone n a err (done n a err e))
     | Some oldDone, None => Some oldDone
     end).

(** The trace of a context after [WithExecutableTrace]. *)
Definition WithExecutableTrace {E} (old trace : option (ExecutableTrace E)) : option (ExecutableTrace E) :=
  match trace with
  | None => old
  | Some t => Some (match old with Some oldTrace => compose t oldTrace | None => t end)
  end.

(** ** executer.go *)

(** What [cmd.Output()] returns, by the type of its error. *)
Inductive ExecResult :=
| ExecOk (output : bytes)
| ExitError (output : bytes) (err : error)
| ExecError (notFound : bool) (err : error)
| ExecOther (err : error).

Class Executables (E : Type) := {
  cmd_Output : string -> string -> bytes -> E -> ExecResult * E;   (* name, action, standard input *)
  LookPath : string -> E -> bool
}.

Definition dockerDesktopHelperName : string := "docker-credential-desktop.exe".

(** [bytes.TrimSpace] on ASCII text. *)
Definition is_space_char (c : ascii) : bool :=
  let n := N_of_ascii c in (n =? 32)%N || ((9 <=? n)%N && (n <=? 13)%N).
Fixpoint drop_space (l : list ascii) : list ascii :=
  match l with c :: l' => if is_space_char c then drop_space l' else l | [] => [] end.
Definition TrimSpace (b : bytes) : string :=
  of_chars (rev (drop_space (rev (drop_space (chars (String.string_of_list_byte b)))))).

Section execute.
Context {E : Type} {EX : Executables E}.

Definition exec_err (r : ExecResult) : option error :=
  match r with ExecOk _ => None | ExitError _ e | ExecError _ e | ExecOther e => Some e end.

Definition Execute (trace : option (ExecutableTrace E)) (name : string) (input : bytes) (action : string) : M E bytes := fun e =>
  let e := match trace ≫= ExecuteStart with Some start => start name action e | None => e end in
  let '(r, e) := cmd_Output name action input e in
  let e := match trace ≫= ExecuteDone with Some done => done name action (exec_err r) e | None => e end in
  (match r with
   | ExecOk output => Ok output
   | ExitError output err =>
       let errMessage := TrimSpace output in
       if String.eqb errMessage EmptyString then Err err else Err (ENew errMessage)
   | ExecError notFound err =>
       if notFound && String.eqb name dockerDesktopHelperName
       then Err (ENew "credentials store is configured to `desktop.exe` but Docker Desktop seems not running")
       else Err err
   | ExecOther err => Err err
   end, e).
End execute.

(** ** native_store.go *)

Definition remoteCredentialsPrefix : string := "docker-credential-".
Definition emptyUsername : string := "<token>".
Definition errCredentialsNotFoundMessage : string := "credentials not found in native keychain".

Record dockerCredentials := mkDocker { ServerURL : string; dc_Username : string; Secret : string }.

Class DockerJSON := {
  Unmarshal_Docker : bytes -> result dockerCredentials;
  Marshal_Docker : dockerCredentials -> result bytes
}.

Section native.
Context {E : Type} {EX : Executables E} {DJ : DockerJSON} (trace : option (ExecutableTrace E)).

Definition native_Get (name serverAddress : string) : M E Credential := fun e =>
  match Execute trace name (String.list_byte_of_string serverAddress) "get" e with
  | (Err err, e) =>
      if bool_decide (err = ENew errCredentialsNotFoundMessage) then (Ok EmptyCredential, e) else (Err err, e)
  | (Panic, e) => (Panic, e)
  | (Ok out, e) =>
      (dockerCred ← Unmarshal_Docker out;
       Ok (if String.eqb (dc_Username dockerCred) emptyUsername
           then mkCredential EmptyString EmptyString (Secret dockerCred) EmptyString
           else mkCredential (dc_Username dockerCred) (Secret dockerCred) EmptyString EmptyString), e)
  end.

Definition native_Put (name serverAddress : string) (cred : Credential) : M E unit :=
  let dockerCred :=
    if String.eqb (RefreshToken cred) EmptyString then mkDocker serverAddress (Username cred) (Password cred)
    else mkDocker serverAddress emptyUsername (RefreshToken cred) in
  credJSON ← reads (fun _ => Marshal_Docker dockerCred);
  _ ← Execute trace name credJSON "store";
  mret tt.

Definition native_Delete (name serverAddress : string) : M E unit :=
  _ ← Execute trace name (String.list_byte_of_string serverAddress) "erase"; mret tt.

Definition NewNativeStore (helperSuffix : string) : CredStore E :=
  let name := remoteCredentialsPrefix +:+ helperSuffix in
  mkCredStore (native_Get name) (native_Put name) (native_Delete name).

(** The Linux version. *)
Definition getPlatformDefaultHelperSuffix (e : E) : string :=
  if LookPath "pass" e then "pass" else "secretservice".

Definition getDefaultHelperSuffix (e : E) : string :=
  let platformDefault := getPlatformDefaultHelperSuffix e in
  if LookPath (remoteCredentialsPrefix +:+ platformDefault) e then platformDefault else EmptyString.

Definition NewDefaultNativeStore (e : E) : option (CredStore E) :=
  let helper := getDefaultHelperSuffix e in
  if String.eqb helper EmptyString then None else Some (NewNativeStore helper).
End native.

(** ** file_store.go *)

Section file.
Context {F : Type} {OS : OsFiles F} {CJ : ConfigJSON} {MO : MapOrder}.

Definition validateCredentialFormat (cred : Credential) : result unit :=
  if has_char ":" (Username cred) then Err (EWrap "colons are not allowed in username" ErrBadCredentialFormat) else Ok tt.

(** [FileStore]: [NewFileStore] loads the configuration. *)
Definition fileStore (DisablePut : bool) : CredStore (@CWorld F CJ) := mkCredStore
  (fun serverAddress => reads (fun w => GetCredential serverAddress (cfg w)))
  (fun serverAddress cred =>
     if DisablePut then fails ErrPlaintextPutDisabled
     else (_ ← reads (fun _ => validateCredentialFormat cred); PutCredential serverAddress cred))
  DeleteCredential.

(** ** store.go *)

(** [NewFileStore]: the store and the state it works on. *)
Definition NewFileStore (configPath : string) (f : F) : result (CredStore (@CWorld F CJ) * @CWorld F CJ) :=
  c ← Load configPath f; Ok (fileStore false, mkCWorld c f).

Context {E : Type} {EX : Executables E} {DJ : DockerJSON} (trace : option (ExecutableTrace E)).

Record StoreOptions := mkOptions { AllowPlaintextPut : bool; DetectDefaultNativeStore : bool }.

(** [DynamicStore]; its configuration and the state of its [OnceOrRetry] are in the
    state it works on. *)
Record DynamicStore := mkDynamic { ds_options : StoreOptions; detectedCredsStore : string }.
Record DWorld := mkDWorld { d_config : @CWorld F CJ; d_exec : E; d_once : bool }.

Definition put_config (c : CWorld) (w : DWorld) : DWorld := mkDWorld c (d_exec w) (d_once w).
Definition put_exec (e : E) (w : DWorld) : DWorld := mkDWorld (d_config w) e (d_once w).

Definition NewStore (configPath : string) (opts : StoreOptions) (f : F) (e : E) : result (DynamicStore * DWorld) :=
  c ← Load configPath f;
  let detected :=
    if DetectDefaultNativeStore opts && negb (IsAuthConfigured c) then getDefaultHelperSuffix e else EmptyString in
  Ok (mkDynamic opts detected, mkDWorld (mkCWorld c f) e false).

Definition getHelperSuffix (ds : DynamicStore) (serverAddress : string) (w : DWorld) : string :=
  let c := cfg (d_config w) in
  let helper := GetCredentialHelper serverAddress c in
  if negb (String.eqb helper EmptyString) then helper
  else if negb (String.eqb (credentialsStore c) EmptyString) then credentialsStore c
  else detectedCredsStore ds.

Definition getStore (ds : DynamicStore) (serverAddress : string) (w : DWorld) : CredStore DWorld :=
  let helper := getHelperSuffix ds serverAddress w in
  if negb (String.eqb helper EmptyString) then lift_store d_exec put_exec (NewNativeStore trace helper)
  else lift_store d_config put_config (fileStore (negb (AllowPlaintextPut (ds_options ds)))).

(** [setCredsStoreOnce.Do]. *)
Definition set_creds_once (ds : DynamicStore) : M DWorld unit := fun w =>
  if d_once w then (Ok tt, w)
  else
    let f : M DWorld unit :=
      if String.eqb (detectedCredsStore ds) EmptyString then mret tt
      else on_err (EWrap "failed to set credsStore")
             (on_part d_config put_config (SetCredentialsStore (detectedCredsStore ds))) in
    match f w with
    | (Ok _, w) => (Ok tt, mkDWorld (d_config w) (d_exec w) true)
    | r => r
    end.

Definition dynamicStore (ds : DynamicStore) : CredStore DWorld := mkCredStore
  (fun serverAddress w => cs_Get (getStore ds serverAddress w) serverAddress w)
  (fun serverAddress cred =>
     _ ← ((fun w => cs_Put (getStore ds serverAddress w) serverAddress cred w) : M DWorld unit);
     set_creds_once ds)
  (fun serverAddress w => cs_Delete (getStore ds serverAddress w) serverAddress w).

(** [getDockerConfigPath], with the value of [DOCKER_CONFIG] and the home directory. *)
Definition getDockerConfigPath (dockerConfig : string) (homeDir : result string) : result string :=
  configDir ← (if String.eqb dockerConfig EmptyString
               then homeDir ← map_err (EWrap "failed to get user home directory") homeDir;
                    Ok (filepath.Join2 homeDir ".docker")
               else Ok dockerConfig);
  Ok (filepath.Join2 configDir "config.json").

Definition NewStoreFromDocker (dockerConfig : string) (homeDir : result string) (opt : StoreOptions) (f : F) (e : E)
    : result (DynamicStore * DWorld) :=
  configPath ← getDockerConfigPath dockerConfig homeDir; NewStore configPath opt f e.

(** [IsAuthConfigured] and [ConfigPath] of a [DynamicStore]. *)
Definition ds_IsAuthConfigured (w : DWorld) : bool := IsAuthConfigured (cfg (d_config w)).
Definition ds_ConfigPath (w : DWorld) : string := cfg_path (cfg (d_config w)).
End file.

(** ** Stores with fallbacks *)

Fixpoint get_first {W} (stores : list (CredStore W)) (serverAddress : string) : M W Credential :=
  match stores with
  | [] => mret EmptyCredential
  | s :: stores' =>
      cred ← cs_Get s serverAddress;
      if decide (cred = EmptyCredential) then get_first stores' serverAddress else mret cred
  end.

(** [sf.stores[0]]. *)
Definition fallbacks_Put {W} (stores : list (CredStore W)) (serverAddress : string) (cred : Credential) : M W unit :=
  match stores with s :: _ => cs_Put s serverAddress cred | [] => fun w => (Panic, w) end.
Definition fallbacks_Delete {W} (stores : list (CredStore W)) (serverAddress : string) : M W unit :=
  match stores with s :: _ => cs_Delete s serverAddress | [] => fun w => (Panic, w) end.

Definition NewStoreWithFallbacks {W} (primary : CredStore W) (fallbacks : list (CredStore W)) : CredStore W :=
  match fallbacks with
  | [] => primary
  | _ => let stores := primary :: fallbacks in
         mkCredStore (get_first stores) (fallbacks_Put stores) (fallbacks_Delete stores)
  end.

(** ** registry.go *)

Definition ServerAddressFromRegistry (registry : string) : string :=
  if String.eqb registry "docker.io" || String.eqb registry "registry-1.docker.io"
  then "https://index.docker.io/v1/" else registry.

Definition ServerAddressFromHostname (hostname : string) : string :=
  if String.eqb hostname "registry-1.docker.io" then "https://index.docker.io/v1/" else hostname.

(** [Credential(store)], a credential function of the auth client. *)
Definition store_Credential {W} (store : CredStore W) : Context_ -> string -> M W Credential := fun _ hostport =>
  let hostport := ServerAddressFromHostname hostport in
  if String.eqb hostport EmptyString then mret EmptyCredential else cs_Get store hostport.

Definition Logout {W} (store : CredStore W) (registryName : string) : M W unit :=
  on_err (EWrap "failed to delete the credential") (cs_Delete store (ServerAddressFromRegistry registryName)).

Section login.
Context {NU : NetURL} {QU : QueryURL} {N : Type} {HC : HttpClient N}.
Context {RJ : RegistryJSON} {TJ : TokenJSON} {GQ : GoQuote} {MO : MapOrder}.
Context {C S : Type}.

(** [reg.Client]: nil, an auth client or another one. *)
Inductive RegClient := NilClient | IsAuthClient (c : @AuthClient N) | OtherClient.

Definition DefaultAuthClient : @AuthClient N := SetUserAgent "oras-go" (mkAuthClient ∅ None EmptyString false).

Definition with_Credential (f : Context_ -> string -> M N Credential) (c : @AuthClient N) : @AuthClient N :=
  mkAuthClient (c_Header c) (Some f) (c_ClientID c) (c_ForceAttemptOAuth2 c).

(** The state of the store is what [rw_user] holds. *)
Notation LW := (rworld (@World NU N C) S).

Definition Login (CA : Cache C) (ctx : Context_) (store : CredStore S) (reg : Repo) (client : RegClient) (cred : Credential)
    : M LW unit :=
  let registry := Registry (rp_Reference reg) in
  let ping (CA : Cache C) (c : AuthClient) : M LW unit :=
    Ping (CL := auth_Client (CA := CA) (with_Credential (StaticCredential registry cred) c)) ctx reg in
  _ ← match client with
      | NilClient => on_err (EWrap "failed to validate the credentials") (ping noCache DefaultAuthClient)
      | IsAuthClient c => on_err (EWrap "failed to validate the credentials") (ping CA c)
      | OtherClient => fails ErrClientTypeUnsupported
      end;
  on_err (EWrap "failed to store the credentials")
    (on_part rw_user (fun s w => mkRW (rw_state w) (rw_net w) s) (cs_Put store (ServerAddressFromRegistry registry) cred)).
End login.
