(* ===== verification/CredentialsCorrect.v ===== *)
(** The guarantees of the credential stores. *)

From Stdlib Require Import Ascii String ZArith Lia.
From S2P Require Import Prelude Errors Descriptor Reader GoStrings Reference Scope Http Challenge Remote Base64 FilePath HttpClient AuthCache AuthClient CredConfig CredConfigCorrect Credentials.
Import registry.

#[local] Open Scope string_scope.

Section config.
Context {F : Type} {OS : OsFiles F} {OL : OsFilesLaws F} {CJ : ConfigJSON} {JL : ConfigJSONLaws} {MO : MapOrder}.
Notation CWorld := (@CWorld F CJ).


(** A configuration file that holds [null] loads without an error, and the
    first credential that is put into it panics: the decoder leaves the map of the
    fields nil, and only the map of the credentials is made. *)
Theorem config_null_panics path f r addr cred raw raw' :
  os_Open path f = Ok r -> Decode_Config r = Ok None ->
  Marshal_AuthConfig (NewAuthConfig cred) = Ok raw -> Marshal_Auths {[addr := raw]} = Ok raw' ->
  exists c, Load path f = Ok c /\ (PutCredential addr cred (mkCWorld c f)).1 = Panic.
Proof.
  intros Ho Hd Hm Hm'. unfold Load. rewrite Ho, Hd. eexists. split; [done|].
  unfold PutCredential, saveFile, update_content, mbind, M_bind, on_err. simpl. rewrite Hm. simpl.
  rewrite insert_empty, Hm'. done.
Qed.

(** ** Nothing is written in plain text unless it is allowed *)

Lemma update_content_auths (w : CWorld) :
  match update_content w with
  | (Ok json, w') => exists m' raw, m' !! configFieldAuths = Some raw /\ Marshal_Auths (authsCache (cfg w)) = Ok raw /\
      MarshalIndent_Config m' = Ok json /\ w' = mkCWorld (set_content m' (cfg w)) (files w)
  | (_, w') => files w' = files w /\ authsCache (cfg w') = authsCache (cfg w) /\ cfg_path (cfg w') = cfg_path (cfg w)
  end.
Proof.
  destruct (cfg_content (cfg w)) as [m|] eqn:Hm.
  - pose proof (update_content_spec w m Hm) as H. destruct (update_content w) as [[json|e|] w'].
    + destruct H as (m' & (raw & Hr & Hc) & Hj & ->). exists m', raw. split_and!; try done.
      destruct (String.eqb _ _); [subst m'|destruct Hc as (? & _ & ->)]; by rewrite lookup_insert_eq.
    + destruct H as (? & m' & ->). done.
    + destruct H as (? & m' & ->). done.
  - unfold update_content, mbind, M_bind, content_delete, content_insert, on_err. simpl.
    destruct (String.eqb _ _); simpl; rewrite Hm; [|destruct (Marshal_String _); simpl; rewrite ?Hm; done].
    destruct (Marshal_Auths _); simpl; rewrite ?Hm; done.
Qed.

(** The bytes [b] are those of the start, or a file with credentials of [A] only. *)
Definition no_new_secret (A : gmap string RawMessage) (b0 b : bytes) : Prop :=
  b = b0 \/ exists m raw auths, m !! configFieldAuths = Some raw /\ Marshal_Auths auths = Ok raw /\ auths ⊆ A /\
    MarshalIndent_Config m = Ok b.

Record no_plaintext (A : gmap string RawMessage) (p : string) (b0 : bytes) (w : CWorld) : Prop := {
  np_path : cfg_path (cfg w) = p;
  np_auths : authsCache (cfg w) ⊆ A;
  np_file : exists b mode, fview (files w) !! p = Some (b, mode) /\ no_new_secret A b0 b
}.

Lemma saveFile_no_plaintext A p b0 : keeps (no_plaintext A p b0) saveFile.
Proof.
  intros w [Hp Ha (b & mode & Hf & Hb)]. unfold saveFile, mbind, M_bind.
  pose proof (update_content_auths w) as Hu. destruct (update_content w) as [[json|e|] w1].
  2, 3: destruct Hu as (H1 & H2 & H3); split; simpl; rewrite ?H1, ?H2, ?H3; eauto.
  destruct Hu as (m' & raw & Hr & Hm & Hj & ->). set (w1 := mkCWorld _ _).
  pose proof (write_file_spec json w1) as Hw. destruct (write_file json w1) as [[[]|e|] w2]; destruct Hw as [Hc Hv];
    (split; cbn [snd]; [by rewrite Hc|by rewrite Hc|]).
  1: { exists json, 384%Z. rewrite Hv. simpl. rewrite Hp, lookup_insert_eq. split; [done|].
       right. exists m', raw, (authsCache (cfg w)). done. }
  all: exists b, mode; split; [|done]; destruct Hv as [->|(t & v & Ht & ->)]; [done|];
    rewrite lookup_insert_ne; [done|]; intros ->; simpl in Ht; congruence.
Qed.

Lemma DeleteCredential_no_plaintext A p b0 addr : keeps (no_plaintext A p b0) (DeleteCredential addr).
Proof.
  intros w Hw. unfold DeleteCredential. destruct (authsCache (cfg w) !! addr); [|done].
  unfold mbind, M_bind. simpl. apply saveFile_no_plaintext. destruct Hw as [Hp Ha Hf]. split; simpl; [done| |done].
  etransitivity; [apply delete_subseteq|done].
Qed.

Lemma SetCredentialsStore_no_plaintext A p b0 s : keeps (no_plaintext A p b0) (SetCredentialsStore s).
Proof. intros w [Hp Ha Hf]. unfold SetCredentialsStore, mbind, M_bind. simpl. by apply saveFile_no_plaintext. Qed.

Context {E : Type} {EX : Executables E} {DJ : DockerJSON} (trace : option (ExecutableTrace E)).
Notation DWorld := (@DWorld F CJ E).

(** The operations on a store. *)
Inductive cred_op := OpGet (addr : string) | OpPut (addr : string) (cred : Credential) | OpDelete (addr : string).

Definition run_op {W} (s : CredStore W) (op : cred_op) (w : W) : W :=
  match op with
  | OpGet a => (cs_Get s a w).2
  | OpPut a c => (cs_Put s a c w).2
  | OpDelete a => (cs_Delete s a w).2
  end.

Lemma on_exec_config {A} (m : M E A) (w : DWorld) : d_config (on_part d_exec put_exec m w).2 = d_config w.
Proof. unfold on_part. by destruct (m (d_exec w)). Qed.

Lemma on_config_keeps {A} (P : CWorld -> Prop) (m : M CWorld A) (w : DWorld) : keeps P m -> P (d_config w) ->
  P (d_config (on_part d_config put_config m w).2).
Proof. intros Hm Hw. specialize (Hm _ Hw). unfold on_part. by destruct (m (d_config w)). Qed.

Lemma run_op_no_plaintext ds A p b0 op (w : DWorld) : AllowPlaintextPut (ds_options ds) = false ->
  no_plaintext A p b0 (d_config w) -> no_plaintext A p b0 (d_config (run_op (dynamicStore trace ds) op w)).
Proof.
  intros Hno Hw. destruct op as [a|a c|a]; simpl.
  - unfold getStore. destruct (negb _); simpl; [by rewrite on_exec_config|].
    done.
  - unfold mbind, M_bind. set (r := cs_Put _ _ _ _).
    assert (no_plaintext A p b0 (d_config r.2)) as Hr.
    { unfold r, getStore. destruct (negb _); simpl; [by rewrite on_exec_config|].
      by rewrite Hno. }
    destruct r as [[[]|e|] w1]; simpl in *; [|done..].
    unfold set_creds_once. destruct (d_once w1); [done|]. destruct (String.eqb _ _); [done|].
    pose proof (on_config_keeps _ (SetCredentialsStore (detectedCredsStore ds)) w1
      (SetCredentialsStore_no_plaintext A p b0 _) Hr) as H2. unfold on_err.
    by destruct (on_part _ _ _ _) as [[[]|e|] w2].
  - unfold getStore. destruct (negb _); simpl; [by rewrite on_exec_config|].
    by apply (on_config_keeps (no_plaintext A p b0)); [apply DeleteCredential_no_plaintext|].
Qed.

(** C17: a [DynamicStore] that may not put plain text never writes a credential into
    its configuration file, over any sequence of operations, whatever the helpers,
    the file system and the configuration do: the credentials in memory are a part of
    those it started with, and the file is the one it started with or holds such a
    part. *)
Theorem plaintext_never_written ds ops (w : DWorld) b0 mode0 :
  AllowPlaintextPut (ds_options ds) = false ->
  fview (files (d_config w)) !! cfg_path (cfg (d_config w)) = Some (b0, mode0) ->
  no_plaintext (authsCache (cfg (d_config w))) (cfg_path (cfg (d_config w))) b0
    (d_config (foldl (fun w op => run_op (dynamicStore trace ds) op w) w ops)).
Proof.
  intros Hno Hf. set (A := authsCache _). set (p := cfg_path _).
  assert (no_plaintext A p b0 (d_config w)) as H0 by (split; [done|done|]; exists b0, mode0; split; [done|by left]).
  clearbody A p. clear Hf. revert w H0. induction ops as [|op ops IH]; intros w H0; [done|].
  apply IH. by apply run_op_no_plaintext.
Qed.

(** Logging out of a registry whose credential is stored under a URL succeeds
    and removes nothing: the credential is still found by the host name, because
    looking up compares host names and deleting compares keys. *)
Theorem Logout_keeps_alias registry (w : CWorld) cred disable :
  authsCache (cfg w) !! ServerAddressFromRegistry registry = None ->
  GetCredential (ServerAddressFromRegistry registry) (cfg w) = Ok cred ->
  exists w', Logout (fileStore disable) registry w = (Ok tt, w') /\
    cs_Get (fileStore disable) (ServerAddressFromRegistry registry) w' = (Ok cred, w').
Proof.
  intros Hn Hg. exists w. unfold Logout, on_err. simpl. unfold DeleteCredential. rewrite Hn. split; [done|].
  unfold reads. by rewrite Hg.
Qed.
End config.

(** ** Logging in *)

Section login.
Context {NU : NetURL} {QU : QueryURL} {N : Type} {HC : HttpClient N}.
Context {RJ : RegistryJSON} {TJ : TokenJSON} {GQ : GoQuote} {MO : MapOrder}.
Context {C S : Type} (CA : Cache C) (ctx : Context_) (store : CredStore S) (reg : Repo) (client : @RegClient N).

Notation LW := (rworld (@World NU N C) S).

(** The server address of the host that requests go to is the one of the registry. *)
Lemma ServerAddress_Host : ServerAddressFromHostname (Host (rp_Reference reg)) =
  ServerAddressFromRegistry (Registry (rp_Reference reg)).
Proof.
  unfold ServerAddressFromHostname, ServerAddressFromRegistry, Host.
  destruct (String.eqb_spec (Registry (rp_Reference reg)) "docker.io") as [->|Hne]; [done|]. simpl.
  by destruct (String.eqb _ "registry-1.docker.io").
Qed.

Lemma Ping_user (CL : Client (@World NU N C)) (w : LW) : rw_user (Ping (CL := CL) ctx reg w).2 = rw_user w.
Proof.
  unfold Ping, Remote.send, mbind, M_bind, reads. destruct (NewRequest _ _ _) as [req|e|]; simpl; [|done..].
  unfold Remote.do, on_part. destruct (Http.Do _ (rw_net w)) as [[resp|e|] n]; simpl; [|done..].
  by repeat case_decide.
Qed.

(** After a successful login a client that takes its credentials from the same
    store finds the credential under the host its requests for that registry go to
    (the aliases of Docker Hub included); a login that fails before the credential was
    validated leaves the store alone. *)
Theorem Login_credential_found cred (w : LW) :
  (forall a s s', cs_Put store a cred s = (Ok tt, s') -> cs_Get store a s' = (Ok cred, s')) ->
  Host (rp_Reference reg) <> EmptyString ->
  match Login CA ctx store reg client cred w with
  | (Ok _, w') => store_Credential store ctx (Host (rp_Reference reg)) (rw_user w') = (Ok cred, rw_user w')
  | (_, w') => rw_user w' = rw_user w \/
      (cs_Put store (ServerAddressFromRegistry (Registry (rp_Reference reg))) cred (rw_user w)).2 = rw_user w'
  end.
Proof.
  intros Hstore Hhost. unfold Login, mbind, M_bind.
  match goal with |- context [match ?x w with _ => _ end] => set (validate := x) end.
  assert (rw_user (validate w).2 = rw_user w) as Hu.
  { unfold validate. destruct client as [|c|]; [..|done]; unfold on_err; set (CLI := auth_Client _);
      pose proof (Ping_user CLI w) as Hp; by destruct (Ping ctx reg w) as [[]]. }
  destruct (validate w) as [[[]|e|] w1]; simpl in Hu; [|by left..].
  unfold on_err, on_part. rewrite Hu. destruct (cs_Put store _ cred (rw_user w)) as [[[]|e|] s'] eqn:Ep; simpl; [|by right..].
  unfold store_Credential.
  assert (String.eqb (ServerAddressFromHostname (Host (rp_Reference reg))) EmptyString = false) as ->.
  { unfold ServerAddressFromHostname. destruct (String.eqb _ "registry-1.docker.io"); [done|by apply String.eqb_neq]. }
  rewrite ServerAddress_Host. by apply (Hstore _ (rw_user w)).
Qed.
End login.

(** ** Native stores *)

Section native.
Context {E : Type} {EX : Executables E} {DJ : DockerJSON}.

(** A helper that follows the protocol: what is stored for a server is what [get]
    prints, and both marshal to JSON that is read back. *)
Definition follows_protocol (name : string) : Prop :=
  forall dc json e, Marshal_Docker dc = Ok json ->
    Unmarshal_Docker json = Ok dc /\
    exists out e', cmd_Output name "store" json e = (ExecOk out, e') /\
      exists e'', cmd_Output name "get" (String.list_byte_of_string (ServerURL dc)) e' = (ExecOk json, e'').

(** A native store keeps a refresh token, or else a user name and a password (a user
    name [<token>] is taken for a token); it does not keep access tokens. *)
Theorem native_Put_Get suffix addr cred e e' json :
  follows_protocol (remoteCredentialsPrefix +:+ suffix) ->
  Username cred <> emptyUsername ->
  Marshal_Docker (if String.eqb (RefreshToken cred) EmptyString then mkDocker addr (Username cred) (Password cred)
                  else mkDocker addr emptyUsername (RefreshToken cred)) = Ok json ->
  cs_Put (NewNativeStore None suffix) addr cred e = (Ok tt, e') ->
  (cs_Get (NewNativeStore None suffix) addr e').1 =
    Ok (if String.eqb (RefreshToken cred) EmptyString
        then mkCredential (Username cred) (Password cred) EmptyString EmptyString
        else mkCredential EmptyString EmptyString (RefreshToken cred) EmptyString).
Proof.
  intros Hp Hne Hm. simpl. unfold native_Put, native_Get, mbind, M_bind. simpl. rewrite Hm. unfold Execute. simpl.
  destruct (Hp _ json e Hm) as (Hu & out & e1 & Hs & e2 & Hg). rewrite Hs. intros [= <-].
  destruct (String.eqb (RefreshToken cred) EmptyString); simpl in Hg; rewrite Hg; simpl; rewrite Hu; simpl; [|done].
  apply String.eqb_neq in Hne. by rewrite Hne.
Qed.
End native.
