(* ===== verification/CredentialsExample.v ===== *)
(** A file system, a codec and a helper at which the guarantees of the credential
    stores are instantiated. *)

From Stdlib Require Import Ascii String ZArith Lia.
From S2P Require Import Prelude Errors Descriptor Reader GoStrings Reference Scope Http Challenge Remote OciStorage Base64 FilePath ChallengeCorrect HttpClient AuthCache AuthClient AuthCorrect AuthExample CredConfig CredConfigCorrect Credentials CredentialsCorrect.

#[local] Open Scope string_scope.

Module cred_example.

(** ** Files by path *)

Notation FS := (gmap string (bytes * Z)).
Definition view (f : FS) : FS := delete EmptyString f.

Definition fails_ {A} (f : FS) : result A * FS := (ErrS fsErrNotExist, f).

#[export] Instance files_by_path : OsFiles FS := {|
  os_Open p f := match view f !! p with Some (b, _) => Ok (bytes_NewReader b) | None => ErrS fsErrNotExist end;
  os_MkdirAll _ _ f := (Ok tt, f);
  os_CreateTemp dir _ f :=
    let n := (dir +:+ "/t") +:+ temp_suffix (fst <$> f) in (Ok n, <[n := ([], 384%Z)]> f);
  file_Chmod n mode f :=
    match view f !! n with Some (b, _) => (Ok tt, <[n := (b, mode)]> f) | None => fails_ f end;
  file_Write n c f :=
    match view f !! n with Some (b, m) => (Ok tt, <[n := ((b ++ c)%list, m)]> f) | None => fails_ f end;
  file_Close _ f := (Ok tt, f);
  os_Remove n f := (Ok tt, delete n f);
  os_Rename p q f :=
    match view f !! p with
    | Some v => if String.eqb q EmptyString then fails_ f else (Ok tt, <[q := v]> (delete p f))
    | None => fails_ f
    end
|}.

Lemma view_insert n v f : n <> EmptyString -> view (<[n := v]> f) = <[n := v]> (view f).
Proof. intros Hn. unfold view. by rewrite delete_insert_ne. Qed.
Lemma view_Some n v f : view f !! n = Some v -> n <> EmptyString.
Proof. unfold view. intros H ->. by rewrite lookup_delete_eq in H. Qed.

#[export, program] Instance files_laws : OsFilesLaws FS := {| fview := view |}.
Next Obligation. intros p f b m H. simpl. by rewrite H. Qed.
Next Obligation. done. Qed.
Next Obligation.
  intros dir pat f. cbn [os_CreateTemp files_by_path].
  pose proof (oci.temp_fresh (fst <$> f) (dir +:+ "/t")) as Hn. rewrite lookup_fmap, fmap_None in Hn.
  split; [unfold view; by rewrite lookup_delete_None; right|]. eexists. apply view_insert.
  intros He. apply (f_equal chars) in He. rewrite !chars_app in He.
  apply (f_equal length) in He. rewrite !length_app in He. simpl in He. lia.
Qed.
Next Obligation. intros n mode f b m H. simpl. rewrite H. apply view_insert. by eapply view_Some. Qed.
Next Obligation. intros n c f b m H. simpl. rewrite H. apply view_insert. by eapply view_Some. Qed.
Next Obligation. done. Qed.
Next Obligation. intros n f. simpl. unfold view. apply delete_delete. Qed.
Next Obligation.
  intros p q f. simpl. destruct (view f !! p) as [v|] eqn:E; simpl; [|done].
  destruct (String.eqb_spec q EmptyString); simpl; [done|]. exists v. split; [done|].
  rewrite view_insert by done. f_equal. unfold view. apply delete_delete.
Qed.
Next Obligation. intros f. apply lookup_delete_eq. Qed.

(** ** Trees for JSON *)

Definition tree := gen_tree string.

Definition tree_of_map (m : gmap string tree) : tree :=
  GenNode 2 ((fun kv => GenNode 0 [GenLeaf kv.1; kv.2]) <$> map_to_list m).
Definition pair_of_tree (t : tree) : option (string * tree) :=
  match t with GenNode 0 [GenLeaf k; v] => Some (k, v) | _ => None end.
(** [GenNode 9] is null. *)
Definition map_of_tree (t : tree) : result (option (gmap string tree)) :=
  match t with
  | GenNode 2 l => match mapM pair_of_tree l with Some l => Ok (Some (list_to_map l)) | None => Err (ENew "json") end
  | GenNode 9 _ => Ok None
  | _ => Err (ENew "json")
  end.

Lemma map_of_tree_of_map m : map_of_tree (tree_of_map m) = Ok (Some m).
Proof.
  unfold map_of_tree, tree_of_map.
  assert (forall l : list (string * tree), mapM pair_of_tree ((fun kv => GenNode 0 [GenLeaf kv.1; kv.2]) <$> l) = Some l) as ->.
  { induction l as [|[k v] l IH]; [done|]. rewrite fmap_cons. cbn [mapM]. rewrite IH. done. }
  by rewrite list_to_map_to_list.
Qed.

Fixpoint pos_bytes (p : positive) : bytes :=
  match p with
  | xH => []
  | xO p => Byte.x00 :: pos_bytes p
  | xI p => Byte.x01 :: pos_bytes p
  end.
Fixpoint bytes_pos (b : bytes) : positive :=
  match b with
  | [] => xH
  | Byte.x00 :: b => xO (bytes_pos b)
  | _ :: b => xI (bytes_pos b)
  end.
Lemma bytes_pos_bytes p : bytes_pos (pos_bytes p) = p.
Proof. induction p as [p IH|p IH|]; simpl; by rewrite ?IH. Qed.

Definition print (t : tree) : bytes := Byte.x02 :: pos_bytes (encode t).
Definition parse (b : bytes) : option tree :=
  match b with Byte.x02 :: b => decode (bytes_pos b) | _ => None end.
Lemma parse_print t : parse (print t) = Some t.
Proof. unfold parse, print. by rewrite bytes_pos_bytes, decode_encode. Qed.

Definition decode_tree (r : Reader) : result tree :=
  b ← io_ReadAll r;
  match b with [] => ErrS EOF | _ => match parse b with Some t => Ok t | None => Err (ENew "json") end end.

#[export] Instance tree_json : ConfigJSON := {|
  RawMessage := tree;
  Decode_Config r := t ← decode_tree r; map_of_tree t;
  MarshalIndent_Config m := Ok (print (tree_of_map m));
  Unmarshal_Auths := map_of_tree;
  Marshal_Auths m := Ok (tree_of_map m);
  Unmarshal_AuthConfig t :=
    match t with
    | GenNode 1 [GenLeaf a; GenLeaf i; GenLeaf r; GenLeaf u; GenLeaf p] => Ok (mkAuthConfig a i r u p)
    | _ => Err (ENew "json")
    end;
  Marshal_AuthConfig ac :=
    Ok (GenNode 1 (GenLeaf <$> [Auth ac; IdentityToken ac; RegistryToken ac; ac_Username ac; ac_Password ac]));
  Unmarshal_String t := match t with GenLeaf s => Ok s | _ => Err (ENew "json") end;
  Marshal_String s := Ok (GenLeaf s);
  Unmarshal_Helpers t := Ok ∅
|}.

Lemma decode_tree_print t : decode_tree (bytes_NewReader (print t)) = Ok t.
Proof.
  unfold decode_tree, io_ReadAll. destruct (bytes_NewReader_spec (print t)) as [Hcl Hc].
  rewrite decide_True by done. rewrite Hc. cbn [mbind]. 
  change (match parse (print t) with Some t => Ok t | None => Err (ENew "json") end = Ok t). by rewrite parse_print.
Qed.

#[export, program] Instance tree_laws : ConfigJSONLaws := {| valid_text _ := True |}.
Next Obligation. done. Qed.
Next Obligation. intros m b _ [= <-]. cbn -[print]. rewrite decode_tree_print. simpl. apply map_of_tree_of_map. Qed.
Next Obligation. intros m raw _ [= <-]. apply map_of_tree_of_map. Qed.
Next Obligation. intros ac raw _ [= <-]. by destruct ac. Qed.
Next Obligation. intros s raw _ [= <-]. done. Qed.
Next Obligation. done. Qed.
Next Obligation. done. Qed.
Next Obligation. done. Qed.
End cred_example.

(** ** The guarantees at the example *)
Module cred_witness.
Import registry cred_example challenge_example auth_example.

Definition user : Credential := mkCredential "user" "pass" EmptyString EmptyString.

(** A configuration with a field that is not this package's. *)
Definition fields : gmap string tree := {["detachKeys" := GenLeaf "ctrl-e,e"]}.
Definition config : Config := mkConfig "/home/config.json" (Some fields) ∅ EmptyString ∅.
Definition disk : FS := {["/home/config.json" := (print (tree_of_map fields), 384%Z)]}.

Lemma config_is_wf : cfg_wf config.
Proof. split; [exists fields; split_and!; [done|done|vm_compute; reflexivity]|done|done]. Qed.


Lemma config_null_panics_witness : exists c,
  Load "/home/config.json" {["/home/config.json" := (print (GenNode 9 []), 384%Z)]} = Ok c /\
  (PutCredential "localhost:5000" user (mkCWorld c {["/home/config.json" := (print (GenNode 9 []), 384%Z)]})).1 = Panic.
Proof.
  eapply (config_null_panics "/home/config.json" {["/home/config.json" := (print (GenNode 9 []), 384%Z)]}
    (bytes_NewReader (print (GenNode 9 [])))); [vm_compute; reflexivity|vm_compute; reflexivity|reflexivity|reflexivity].
Defined.

(** A helper that is not installed. *)
#[export] Instance no_helper : Executables unit := {|
  cmd_Output _ _ _ e := (ExecOther (ENew "not found"), e);
  LookPath _ _ := false
|}.
#[export] Instance no_docker_json : DockerJSON := {|
  Unmarshal_Docker _ := Err (ENew "json");
  Marshal_Docker _ := Err (ENew "json")
|}.

Definition ds : DynamicStore := mkDynamic (mkOptions false false) EmptyString.

Lemma plaintext_never_written_witness :
  no_plaintext ∅ "/home/config.json" (print (tree_of_map fields))
    (d_config (foldl (fun w op => run_op (dynamicStore None ds) op w) (mkDWorld (mkCWorld config disk) tt false)
      [OpPut "localhost:5000" user; OpGet "localhost:5000"; OpDelete "localhost:5000"])).
Proof.
  apply (plaintext_never_written None ds [OpPut "localhost:5000" user; OpGet "localhost:5000"; OpDelete "localhost:5000"]
    (mkDWorld (mkCWorld config disk) tt false) (print (tree_of_map fields)) 384%Z); [reflexivity|vm_compute; reflexivity].
Defined.

(** An entry under a URL. *)
Definition aliased : Config :=
  mkConfig "/home/config.json" (Some ∅)
    {["https://localhost:5000/v2/" := GenNode 1 (GenLeaf <$> [encodeAuth "user" "pass"; EmptyString; EmptyString; EmptyString; EmptyString])]}
    EmptyString ∅.

Lemma Logout_keeps_alias_witness : exists w',
  Logout (fileStore false) "localhost:5000" (mkCWorld aliased disk) = (Ok tt, w') /\
  cs_Get (fileStore false) "localhost:5000" w' = (Ok user, w').
Proof.
  apply (Logout_keeps_alias "localhost:5000" (mkCWorld aliased disk) user false); vm_compute; reflexivity.
Defined.

(** Logging in to the registry of the auth example, whose password is known. *)
Definition reg : Repo := mkRepo (mkReference "basic.example" EmptyString EmptyString) false [] 0 0 0 false true.
Definition before : rworld (@World url_text unit concurrentCache) (gmap string Credential) :=
  mkRW referrersStateUnknown start ∅.

Lemma Login_credential_found_witness : exists w',
  Login concurrentCache_Cache ctx memoryStore reg NilClient user before = (Ok tt, w') /\
  store_Credential memoryStore ctx "basic.example" (rw_user w') = (Ok user, rw_user w').
Proof.
  pose proof (Login_credential_found concurrentCache_Cache ctx memoryStore reg NilClient user before) as H.
  assert ((Login concurrentCache_Cache ctx memoryStore reg NilClient user before).1 = Ok tt) as E
    by (vm_compute; reflexivity).
  destruct (Login concurrentCache_Cache ctx memoryStore reg NilClient user before) as [r w']. simpl in E. subst r.
  exists w'. split; [reflexivity|]. apply H; [|done].
  intros a s s' Hp. injection Hp as <-. simpl. unfold reads. by rewrite lookup_insert_eq.
Defined.
End cred_witness.
